(** * TMU database engine: a shallow embedding of [TMUDatabase.js] and of the
    Schema/Model layer that follows it in the same source file.

    The engine is JavaScript: documents are objects whose nested arrays and
    objects are shared by reference.  The embedding therefore keeps a heap of
    objects, and every function below is written after the source function of
    the same name, statement by statement. *)

From Stdlib Require Import ZArith Lia Ascii DecimalString HexadecimalString.
From stdpp Require Import gmap strings list.

Local Open Scope Z_scope.

(** ** Numbers

    A JavaScript number is an integer, NaN or an infinity.  Fractions only
    arise in [$avg], whose division is left to the host.  Whole numbers
    are taken in [Z], so sums are those of the source on the safe integers,
    where a double is exact. *)

Inductive num := Int (z : Z) | NaN | PInf | NInf.

Definition num_eqb (a b : num) : bool :=
  match a, b with
  | Int x, Int y => Z.eqb x y
  | PInf, PInf | NInf, NInf => true
  | _, _ => false
  end.

Definition num_is_nan (a : num) : bool :=
  match a with NaN => true | _ => false end.

Definition num_ltb (a b : num) : bool :=
  match a, b with
  | Int x, Int y => Z.ltb x y
  | NInf, Int _ | NInf, PInf | Int _, PInf => true
  | _, _ => false
  end.

Definition num_add (a b : num) : num :=
  match a, b with
  | NaN, _ | _, NaN => NaN
  | Int x, Int y => Int (x + y)
  | PInf, NInf | NInf, PInf => NaN
  | PInf, _ | _, PInf => PInf
  | NInf, _ | _, NInf => NInf
  end.

Definition num_sgn (a : num) : Z :=
  match a with
  | Int x => Z.sgn x
  | PInf => 1
  | NInf => -1
  | NaN => 0
  end.

Definition num_mul (a b : num) : num :=
  match a, b with
  | NaN, _ | _, NaN => NaN
  | Int x, Int y => Int (x * y)
  | _, _ =>
      match num_sgn a * num_sgn b with
      | Z0 => NaN
      | Zpos _ => PInf
      | Zneg _ => NInf
      end
  end.

Definition num_to_string (a : num) : string :=
  match a with
  | Int z => DecimalString.NilZero.string_of_int (Z.to_int z)
  | NaN => "NaN"
  | PInf => "Infinity"
  | NInf => "-Infinity"
  end.

(** ** Values, literals, heap objects *)

Abbreviation loc := nat (only parsing).

(** What a variable or a property holds. *)
Inductive value :=
  | VUndef
  | VNull
  | VBool (b : bool)
  | VNum (n : num)
  | VStr (s : string)
  | VRef (l : loc).

(** What the caller writes: a query, an update description, a document to
    insert.  [LObj] lists the own properties in enumeration order. *)
#[warnings="-register-all"]
Inductive lit :=
  | LUndef
  | LNull
  | LBool (b : bool)
  | LNum (n : num)
  | LStr (s : string)
  | LDate (t : num)
  | LArr (elems : list lit)
  | LObj (props : list (string * lit)).

Inductive object :=
  | Obj (props : list (string * value))
  | Arr (elems : list value)
  | DateObj (t : num).

Abbreviation Heap := (list object) (only parsing).

(** A document: an element of a collection array, or the [result] that
    [_applyUpdate] builds.  Those objects come from an object literal or a
    spread and the engine never writes to one through a second reference, so
    they are held by value; what they point to is in the heap. *)
Abbreviation Doc := (list (string * value)) (only parsing).

#[warnings="-register-all"]
Inductive json :=
  | JNull
  | JBool (b : bool)
  | JNum (z : Z)
  | JStr (s : string)
  | JArr (elems : list json)
  | JObj (props : list (string * json)).

(** ** What the host provides

    Built-ins whose result depends on the locale, on floating point, on the
    regular-expression engine, on the clock or on the random source; and
    [Array.prototype.sort], whose result the standard fixes only when the
    comparator is a consistent comparison on the elements, and leaves to the
    engine otherwise. *)

Class Host := {
  Date_toString : num -> string;
  Date_toISOString : Z -> string;
  Date_parse : string -> num;
  StringToNumber : string -> num;
  RegExp_test : string -> string -> string -> option bool;
  Number_div : num -> num -> num;
  toLowerCase : string -> string;
  toUpperCase : string -> string;
  trim : string -> string;
  Date_now : nat -> Z;
  randomBytes : nat -> string;
  Array_sort : forall A : Type, (A -> A -> num) -> list A -> list A
}.
Arguments Array_sort {Host A} compare l.

(** ** Errors *)

Inductive error :=
  | TypeError (msg : string)
  | SyntaxError (msg : string)
  | Error (msg : string)
  | ValidationError (errors : list (string * lit))
  | Unmodelled (what : string).

Inductive outcome (A : Type) :=
  | Ok (a : A)
  | Throw (e : error).
Arguments Ok {A} a.
Arguments Throw {A} e.

#[global] Instance outcome_ret : MRet outcome := fun _ a => Ok a.
#[global] Instance outcome_bind : MBind outcome := fun _ _ f m =>
  match m with
  | Ok a => f a
  | Throw e => Throw e
  end.

(** A computation on the heap.  A throw keeps the heap as it is at that
    moment: what was written before the exception stays written. *)
Definition H (A : Type) : Type := Heap -> outcome A * Heap.

#[global] Instance H_ret : MRet H := fun _ a h => (Ok a, h).
#[global] Instance H_bind : MBind H := fun _ _ f m h =>
  match m h with
  | (Ok a, h') => f a h'
  | (Throw e, h') => (Throw e, h')
  end.

Definition throwH {A} (e : error) : H A := fun h => (Throw e, h).
Definition inH {A} (f : Heap -> outcome A * Heap) : H A := f.
Definition liftO {A} (m : outcome A) : H A := fun h => (m, h).
Definition readH {A} (f : Heap -> A) : H A := fun h => (Ok (f h), h).

(** ** Equality, truthiness, typeof *)

Definition value_eqb (a b : value) : bool :=
  match a, b with
  | VUndef, VUndef | VNull, VNull => true
  | VBool x, VBool y => Bool.eqb x y
  | VNum x, VNum y =>
      match x, y with
      | NaN, NaN => true
      | _, _ => num_eqb x y
      end
  | VStr x, VStr y => String.eqb x y
  | VRef x, VRef y => Nat.eqb x y
  | _, _ => false
  end.

(** [a === b] *)
Definition strict_eq (a b : value) : bool :=
  match a, b with
  | VNum NaN, _ | _, VNum NaN => false
  | _, _ => value_eqb a b
  end.

(** SameValueZero: the equality of [Map] keys, [Set] members and
    [Array.prototype.includes]. *)
Definition same_value_zero (a b : value) : bool := value_eqb a b.

Definition truthy (v : value) : bool :=
  match v with
  | VUndef | VNull => false
  | VBool b => b
  | VNum (Int 0) | VNum NaN => false
  | VNum _ => true
  | VStr "" => false
  | VStr _ => true
  | VRef _ => true
  end.

Definition lit_truthy (v : lit) : bool :=
  match v with
  | LUndef | LNull => false
  | LBool b => b
  | LNum (Int 0) | LNum NaN => false
  | LNum _ => true
  | LStr "" => false
  | LStr _ => true
  | LDate _ | LArr _ | LObj _ => true
  end.

(** [typeof v === 'object'] *)
Definition typeof_object (v : value) : bool :=
  match v with
  | VNull | VRef _ => true
  | _ => false
  end.

Definition lit_typeof_object (v : lit) : bool :=
  match v with
  | LNull | LDate _ | LArr _ | LObj _ => true
  | _ => false
  end.

Definition isArray (h : Heap) (v : value) : bool :=
  match v with
  | VRef l => match h !! l with Some (Arr _) => true | _ => false end
  | _ => false
  end.

(** A literal primitive as a value; the objects of a literal are fresh, so
    they are never [===] to anything stored. *)
Definition lit_prim (c : lit) : option value :=
  match c with
  | LUndef => Some VUndef
  | LNull => Some VNull
  | LBool b => Some (VBool b)
  | LNum n => Some (VNum n)
  | LStr s => Some (VStr s)
  | LDate _ | LArr _ | LObj _ => None
  end.

Definition strict_eq_lit (v : value) (c : lit) : bool :=
  match lit_prim c with
  | Some w => strict_eq v w
  | None => false
  end.

Definition same_value_zero_lit (v : value) (c : lit) : bool :=
  match lit_prim c with
  | Some w => same_value_zero v w
  | None => false
  end.

(** ** Strings and property keys *)

(** [path.split('.')] *)
Fixpoint split_dot (s : string) : list string :=
  match s with
  | EmptyString => [EmptyString]
  | String c s' =>
      if Ascii.eqb c "."%char then EmptyString :: split_dot s'
      else match split_dot s' with
           | seg :: rest => String c seg :: rest
           | [] => [String c EmptyString]
           end
  end.

(** [s.startsWith('$')] *)
Definition startsWith_dollar (s : string) : bool :=
  match s with
  | String c _ => Ascii.eqb c "$"%char
  | EmptyString => false
  end.

(** [s.slice(1)] *)
Definition slice1 (s : string) : string :=
  match s with
  | String _ s' => s'
  | EmptyString => EmptyString
  end.

Definition index_key (i : nat) : string :=
  DecimalString.NilZero.string_of_uint (Nat.to_uint i).

(** The array index a property key denotes, if it is the canonical decimal
    form of one. *)
Definition array_index (k : string) : option nat :=
  match DecimalString.NilZero.uint_of_string k with
  | Some u =>
      let i := Nat.of_uint u in
      if String.eqb (index_key i) k then Some i else None
  | None => None
  end.

Fixpoint props_get {V} (k : string) (ps : list (string * V)) : option V :=
  match ps with
  | [] => None
  | (k', v) :: ps' => if String.eqb k k' then Some v else props_get k ps'
  end.

(** [obj[k]] for the own properties of a plain object: a name that the
    object only inherits reads as [undefined] here. *)
Definition prop (k : string) (ps : list (string * value)) : value :=
  default VUndef (props_get k ps).

Definition lit_prop (k : string) (ps : list (string * lit)) : lit :=
  default LUndef (props_get k ps).

Definition has_key {V} (k : string) (ps : list (string * V)) : bool :=
  bool_decide (is_Some (props_get k ps)).

(** Where a new key goes: integer keys come first, in ascending order, the
    other keys follow in creation order. *)
Fixpoint props_place {V} (i : nat) (k : string) (v : V)
    (ps : list (string * V)) : list (string * V) :=
  match ps with
  | [] => [(k, v)]
  | (k', v') :: ps' =>
      match array_index k' with
      | Some j => if Nat.ltb i j then (k, v) :: ps
                  else (k', v') :: props_place i k v ps'
      | None => (k, v) :: ps
      end
  end.

Fixpoint props_replace {V} (k : string) (v : V)
    (ps : list (string * V)) : list (string * V) :=
  match ps with
  | [] => []
  | (k', v') :: ps' =>
      if String.eqb k k' then (k', v) :: ps'
      else (k', v') :: props_replace k v ps'
  end.

(** [obj[k] = v] on the own properties of a plain object. *)
Definition props_set {V} (k : string) (v : V)
    (ps : list (string * V)) : list (string * V) :=
  if has_key k ps then props_replace k v ps
  else match array_index k with
       | Some i => props_place i k v ps
       | None => ps ++ [(k, v)]
       end.

(** [delete obj[k]] *)
Definition props_del {V} (k : string)
    (ps : list (string * V)) : list (string * V) :=
  List.filter (fun p => negb (String.eqb k (fst p))) ps.

(** [{...a, ...b}]: the properties of [b] assigned over those of [a]. *)
Definition props_assign {V} (a b : list (string * V)) : list (string * V) :=
  fold_left (fun acc p => props_set (fst p) (snd p) acc) b a.

Definition chars (s : string) : list string :=
  List.map (fun c => String c EmptyString) (String.list_ascii_of_string s).

(** [Object.entries] of a literal. *)
Definition lit_entries (c : lit) : outcome (list (string * lit)) :=
  match c with
  | LUndef | LNull =>
      Throw (TypeError "Cannot convert undefined or null to object")
  | LObj ps => Ok ps
  | LArr es => Ok (imap (fun i e => (index_key i, e)) es)
  | LStr s => Ok (imap (fun i c => (index_key i, LStr c)) (chars s))
  | LBool _ | LNum _ | LDate _ => Ok []
  end.

(** ** Reading the heap *)

(** [current[key]] for a value that was tested truthy. *)
Definition get_prop (h : Heap) (v : value) (key : string) : value :=
  match v with
  | VStr s =>
      if String.eqb key "length" then VNum (Int (Z.of_nat (String.length s)))
      else match array_index key with
           | Some i => default VUndef (VStr <$> chars s !! i)
           | None => VUndef
           end
  | VRef l =>
      match h !! l with
      | Some (Obj ps) => prop key ps
      | Some (Arr es) =>
          if String.eqb key "length" then VNum (Int (Z.of_nat (length es)))
          else match array_index key with
               | Some i => default VUndef (es !! i)
               | None => VUndef
               end
      | Some (DateObj _) | None => VUndef
      end
  | _ => VUndef
  end.

(** The first argument of [_getNestedValue] and [_matchDocument]: a document
    or any value (an array element under [$elemMatch]). *)
Inductive operand :=
  | Root (d : Doc)
  | Val (v : value).

Definition operand_truthy (o : operand) : bool :=
  match o with
  | Root _ => true
  | Val v => truthy v
  end.

Definition member (h : Heap) (o : operand) (key : string) : value :=
  match o with
  | Root d => prop key d
  | Val v => get_prop h v key
  end.

(** [_getNestedValue(obj, path)] *)
Definition _getNestedValue (h : Heap) (obj : operand) (path : string) : value :=
  match
    fold_left
      (fun current key =>
         Val (if operand_truthy current
                 && negb (strict_eq (member h current key) VUndef)
              then member h current key else VUndef))
      (split_dot path) obj
  with
  | Val v => v
  | Root _ => VUndef
  end.

(** The whole structure below a value, as a literal; [None] when the
    structure is cyclic. *)
Fixpoint snapshot_fuel (n : nat) (h : Heap) (v : value) : option lit :=
  match v with
  | VUndef => Some LUndef
  | VNull => Some LNull
  | VBool b => Some (LBool b)
  | VNum x => Some (LNum x)
  | VStr s => Some (LStr s)
  | VRef l =>
      match n with
      | O => None
      | S n' =>
          match h !! l with
          | Some (Obj ps) =>
              LObj <$> mapM (fun p => pair (fst p) <$> snapshot_fuel n' h (snd p)) ps
          | Some (Arr es) => LArr <$> mapM (snapshot_fuel n' h) es
          | Some (DateObj t) => Some (LDate t)
          | None => None
          end
      end
  end.

Definition snapshot (h : Heap) (v : value) : option lit :=
  snapshot_fuel (S (length h)) h v.

Definition snapshot_doc (h : Heap) (d : Doc) : option (list (string * lit)) :=
  mapM (fun p => pair (fst p) <$> snapshot h (snd p)) d.

Definition deep (h : Heap) (v : value) : lit :=
  default LUndef (snapshot h v).

(** ** Writing the heap *)

Definition alloc (o : object) : H value :=
  fun h => (Ok (VRef (length h)), h ++ [o]).

Definition store (l : loc) (o : object) : H unit :=
  fun h => (Ok tt, <[l := o]> h).

(** [current[key] = v].  Class bodies are strict code, so the assignment
    throws on a primitive. *)
Definition set_prop (current : value) (key : string) (v : value) : H unit :=
  fun h =>
    match current with
    | VRef l =>
        match h !! l with
        | Some (Obj ps) => store l (Obj (props_set key v ps)) h
        | Some (Arr es) =>
            match array_index key with
            | Some i =>
                if Nat.ltb i (length es) then store l (Arr (<[i := v]> es)) h
                else if Nat.eqb i (length es) then store l (Arr (es ++ [v])) h
                else (Throw (Unmodelled "array with holes"), h)
            | None => (Throw (Unmodelled "named property of an array"), h)
            end
        | Some (DateObj _) => (Throw (Unmodelled "named property of a Date"), h)
        | None => (Throw (Unmodelled "dangling reference"), h)
        end
    | VUndef | VNull =>
        (Throw (TypeError "Cannot set properties of undefined or null"), h)
    | _ => (Throw (TypeError "Cannot create property on a primitive"), h)
    end.

(** [delete current[key]] *)
Definition del_prop (current : value) (key : string) : H unit :=
  fun h =>
    match current with
    | VRef l =>
        match h !! l with
        | Some (Obj ps) => store l (Obj (props_del key ps)) h
        | Some (Arr es) =>
            if String.eqb key "length"
            then (Throw (TypeError "Cannot delete property 'length'"), h)
            else match array_index key with
                 | Some i =>
                     if Nat.ltb i (length es)
                     then (Throw (Unmodelled "array with holes"), h)
                     else (Ok tt, h)
                 | None => (Ok tt, h)
                 end
        | Some (DateObj _) => (Ok tt, h)
        | None => (Throw (Unmodelled "dangling reference"), h)
        end
    | VUndef | VNull =>
        (Throw (TypeError "Cannot convert undefined or null to object"), h)
    | VStr s =>
        if String.eqb key "length"
        then (Throw (TypeError "Cannot delete property 'length'"), h)
        else match array_index key with
             | Some i =>
                 if Nat.ltb i (String.length s)
                 then (Throw (TypeError "Cannot delete property of a string"), h)
                 else (Ok tt, h)
             | None => (Ok tt, h)
             end
    | _ => (Ok tt, h)
    end.

(** [current.push(...xs)] *)
Definition array_push (current : value) (xs : list value) : H unit :=
  fun h =>
    match current with
    | VRef l =>
        match h !! l with
        | Some (Arr es) => store l (Arr (es ++ xs)) h
        | _ => (Throw (TypeError "current.push is not a function"), h)
        end
    | _ => (Throw (TypeError "current.push is not a function"), h)
    end.

(** The elements of [current] when it is an array. *)
Definition array_elems (h : Heap) (current : value) : option (list value) :=
  match current with
  | VRef l => match h !! l with Some (Arr es) => Some es | _ => None end
  | _ => None
  end.

Definition mapH {A B} (f : A -> H B) : list A -> H (list B) :=
  fix go l :=
    match l with
    | [] => mret []
    | x :: l' => y ← f x; ys ← go l'; mret (y :: ys)
    end.

(** The caller's literal as it stands in memory. *)
Fixpoint alloc_lit (c : lit) : H value :=
  match c with
  | LUndef => mret VUndef
  | LNull => mret VNull
  | LBool b => mret (VBool b)
  | LNum n => mret (VNum n)
  | LStr s => mret (VStr s)
  | LDate t => alloc (DateObj t)
  | LArr es => vs ← mapH alloc_lit es; alloc (Arr vs)
  | LObj ps =>
      vs ← mapH (fun p => v ← alloc_lit (snd p); mret (fst p, v)) ps;
      alloc (Obj vs)
  end.

Definition alloc_doc (ps : list (string * lit)) : H Doc :=
  mapH (fun p => v ← alloc_lit (snd p); mret (fst p, v)) ps.

(** [_setNestedValue(obj, path, value)], below the first key. *)
Fixpoint set_path (current : value) (keys : list string) (v : value) : H unit :=
  match keys with
  | [] => mret tt
  | [k] => set_prop current k v
  | k :: rest =>
      x ← readH (fun h => get_prop h current k);
      next ← (if negb (truthy x)
              then o ← alloc (Obj []); _ ← set_prop current k o; mret o
              else mret x);
      set_path next rest v
  end.

(** [_setNestedValue(obj, path, value)] on a document. *)
Definition _setNestedValue (obj : Doc) (path : string) (v : value) : H Doc :=
  match split_dot path with
  | [] => mret obj
  | [k] => mret (props_set k v obj)
  | k :: rest =>
      if negb (truthy (prop k obj))
      then o ← alloc (Obj []);
           _ ← set_path o rest v;
           mret (props_set k o obj)
      else _ ← set_path (prop k obj) rest v; mret obj
  end.

(** [_deleteNestedValue(obj, path)], below the first key. *)
Fixpoint del_path (current : value) (keys : list string) : H unit :=
  match keys with
  | [] => mret tt
  | [k] => del_prop current k
  | k :: rest =>
      x ← readH (fun h => get_prop h current k);
      if negb (truthy x) then mret tt else del_path x rest
  end.

Definition _deleteNestedValue (obj : Doc) (path : string) : H Doc :=
  match split_dot path with
  | [] => mret obj
  | [k] => mret (props_del k obj)
  | k :: rest =>
      if negb (truthy (prop k obj)) then mret obj
      else _ ← del_path (prop k obj) rest; mret obj
  end.

(** ** JSON *)

(** [JSON.parse] hands back plain data. *)
Fixpoint of_json (j : json) : lit :=
  match j with
  | JNull => LNull
  | JBool b => LBool b
  | JNum z => LNum (Int z)
  | JStr s => LStr s
  | JArr es => LArr (List.map of_json es)
  | JObj ps => LObj (List.map (fun p => (fst p, of_json (snd p))) ps)
  end.

Fixpoint json_eqb (a b : json) : bool :=
  match a, b with
  | JNull, JNull => true
  | JBool x, JBool y => Bool.eqb x y
  | JNum x, JNum y => Z.eqb x y
  | JStr x, JStr y => String.eqb x y
  | JArr xs, JArr ys =>
      (fix go xs ys :=
         match xs, ys with
         | [], [] => true
         | x :: xs', y :: ys' => json_eqb x y && go xs' ys'
         | _, _ => false
         end) xs ys
  | JObj xs, JObj ys =>
      (fix go xs ys :=
         match xs, ys with
         | [], [] => true
         | x :: xs', y :: ys' =>
             String.eqb (fst x) (fst y) && json_eqb (snd x) (snd y) && go xs' ys'
         | _, _ => false
         end) xs ys
  | _, _ => false
  end.

Definition someM {A} (f : A -> outcome bool) : list A -> outcome bool :=
  fix go l :=
    match l with
    | [] => Ok false
    | x :: l' => b ← f x; if b : bool then Ok true else go l'
    end.

Definition everyM {A} (f : A -> outcome bool) : list A -> outcome bool :=
  fix go l :=
    match l with
    | [] => Ok true
    | x :: l' => b ← f x; if b : bool then go l' else Ok false
    end.

Definition everyMi {A} (f : nat -> A -> outcome bool) : nat -> list A -> outcome bool :=
  fix go i l :=
    match l with
    | [] => Ok true
    | x :: l' => b ← f i x; if b : bool then go (S i) l' else Ok false
    end.

Definition foldM_o {A B} (f : A -> B -> outcome A) : list B -> A -> outcome A :=
  fix go l a :=
    match l with
    | [] => Ok a
    | x :: l' => a' ← f a x; go l' a'
    end.

Definition filterM {A} (f : A -> outcome bool) : list A -> outcome (list A) :=
  fix go l :=
    match l with
    | [] => Ok []
    | x :: l' => b ← f x; r ← go l'; Ok (if b : bool then x :: r else r)
    end.

Definition is_digit (c : ascii) : bool :=
  let n := nat_of_ascii c in Nat.leb 48 n && Nat.leb n 57.

(** A character that can occur in the text of a number, white space
    included; bytes above 127 may be part of a white-space character. *)
Definition numeric_char (c : ascii) : bool :=
  let n := nat_of_ascii c in
  is_digit c || Nat.leb 128 n || (Nat.leb 9 n && Nat.leb n 13) || Nat.eqb n 32
  || existsb (Ascii.eqb c) (String.list_ascii_of_string "+-.abcdefABCDEFxXoOInity").

(** [s1.includes(s2)] on strings. *)
Fixpoint string_includes (hay needle : string) : bool :=
  String.prefix needle hay ||
  match hay with
  | EmptyString => false
  | String _ hay' => string_includes hay' needle
  end.

Section Coercions.
Context {host : Host}.

(** ToString *)
Fixpoint lit_to_string (c : lit) : string :=
  match c with
  | LUndef => "undefined"
  | LNull => "null"
  | LBool true => "true"
  | LBool false => "false"
  | LNum n => num_to_string n
  | LStr s => s
  | LDate t => Date_toString t
  | LArr es =>
      String.concat ","
        (List.map (fun e => match e with
                            | LUndef | LNull => EmptyString
                            | _ => lit_to_string e
                            end) es)
  | LObj _ => "[object Object]"
  end.

Inductive hint := HintNumber | HintDefault.

(** ToPrimitive *)
Definition to_primitive (hi : hint) (c : lit) : lit :=
  match c with
  | LDate t =>
      match hi with
      | HintNumber => LNum t
      | HintDefault => LStr (Date_toString t)
      end
  | LArr _ | LObj _ => LStr (lit_to_string c)
  | _ => c
  end.

(** StringToNumber: decided here for digit strings and for strings with a
    character no number contains; the host has the rest. *)
Definition str_to_num (s : string) : num :=
  match s with
  | EmptyString => Int 0
  | _ =>
      match DecimalString.NilZero.uint_of_string s with
      | Some u => Int (Z.of_N (N.of_uint u))
      | None =>
          if forallb numeric_char (String.list_ascii_of_string s)
          then StringToNumber s else NaN
      end
  end.

(** ToNumber of a primitive *)
Definition to_number (p : lit) : num :=
  match p with
  | LUndef => NaN
  | LNull => Int 0
  | LBool b => Int (if b then 1 else 0)
  | LNum n => n
  | LStr s => str_to_num s
  | _ => NaN
  end.

(** [a < b] *)
Definition lit_lt (a b : lit) : bool :=
  match to_primitive HintNumber a, to_primitive HintNumber b with
  | LStr x, LStr y => String.ltb x y
  | pa, pb => num_ltb (to_number pa) (to_number pb)
  end.

(** [a <= b] *)
Definition lit_le (a b : lit) : bool :=
  match to_primitive HintNumber a, to_primitive HintNumber b with
  | LStr x, LStr y => negb (String.ltb y x)
  | pa, pb =>
      let x := to_number pa in
      let y := to_number pb in
      num_ltb x y || num_eqb x y
  end.

(** [a + b] *)
Definition lit_add (a b : lit) : value :=
  match to_primitive HintDefault a, to_primitive HintDefault b with
  | LStr x, pb => VStr (x +:+ lit_to_string pb)
  | pa, LStr y => VStr (lit_to_string pa +:+ y)
  | pa, pb => VNum (num_add (to_number pa) (to_number pb))
  end.

(** What [JSON.stringify] makes of a value; [None] is [undefined]. *)
Fixpoint to_json (c : lit) : option json :=
  match c with
  | LUndef => None
  | LNull => Some JNull
  | LBool b => Some (JBool b)
  | LNum (Int z) => Some (JNum z)
  | LNum _ => Some JNull
  | LStr s => Some (JStr s)
  | LDate (Int t) => Some (JStr (Date_toISOString t))
  | LDate _ => Some JNull
  | LArr es => Some (JArr (List.map (fun e => default JNull (to_json e)) es))
  | LObj ps =>
      Some (JObj (omap (fun p => pair (fst p) <$> to_json (snd p)) ps))
  end.

(** [JSON.stringify(v)] for a value in the heap. *)
Definition JSON_stringify (h : Heap) (v : value) : outcome (option json) :=
  match snapshot h v with
  | Some c => Ok (to_json c)
  | None => Throw (TypeError "Converting circular structure to JSON")
  end.

(** [opValue.includes(value)] *)
Definition lit_includes (h : Heap) (opValue : lit) (v : value) : outcome bool :=
  match opValue with
  | LArr es => Ok (existsb (same_value_zero_lit v) es)
  | LStr s => Ok (string_includes s (lit_to_string (deep h v)))
  | _ => Throw (TypeError "opValue.includes is not a function")
  end.

(** [new RegExp(pattern, flags).test(value)] *)
Definition regex_test (h : Heap) (pattern flags : lit) (v : value) : outcome bool :=
  match RegExp_test
          (match pattern with LUndef => EmptyString | _ => lit_to_string pattern end)
          (match flags with LUndef => EmptyString | _ => lit_to_string flags end)
          (lit_to_string (deep h v))
  with
  | Some b => Ok b
  | None => Throw (SyntaxError "Invalid regular expression")
  end.

(** One operator of a condition in [_matchDocument]: [Ok false] is the
    source's [return false], [Ok true] its [break]. *)
Definition match_op (rec : operand -> lit -> outcome bool) (h : Heap)
    (v : value) (condition : list (string * lit))
    (op : string) (opValue : lit) : outcome bool :=
  if String.eqb op "$eq" then Ok (strict_eq_lit v opValue)
  else if String.eqb op "$ne" then Ok (negb (strict_eq_lit v opValue))
  else if String.eqb op "$gt" then Ok (lit_lt opValue (deep h v))
  else if String.eqb op "$gte" then Ok (lit_le opValue (deep h v))
  else if String.eqb op "$lt" then Ok (lit_lt (deep h v) opValue)
  else if String.eqb op "$lte" then Ok (lit_le (deep h v) opValue)
  else if String.eqb op "$in" then lit_includes h opValue v
  else if String.eqb op "$nin" then b ← lit_includes h opValue v; Ok (negb b)
  else if String.eqb op "$exists" then
    Ok (strict_eq_lit (VBool (negb (strict_eq v VUndef))) opValue)
  else if String.eqb op "$regex" then
    regex_test h opValue
      (let o := lit_prop "$options" condition in
       if lit_truthy o then o else LStr EmptyString) v
  else if String.eqb op "$elemMatch" then
    match array_elems h v with
    | Some es => someM (fun el => rec (Val el) opValue) es
    | None => Ok false
    end
  else Ok true.

(** One [field, condition] entry of a query in [_matchDocument]. *)
Definition match_entry (rec : operand -> lit -> outcome bool) (h : Heap)
    (doc : operand) (field : string) (condition : lit) : outcome bool :=
  if String.eqb field "$or" then
    match condition with
    | LArr subs => someM (fun subQuery => rec doc subQuery) subs
    | _ => Throw (TypeError "condition.some is not a function")
    end
  else if String.eqb field "$and" then
    match condition with
    | LArr subs => everyM (fun subQuery => rec doc subQuery) subs
    | _ => Throw (TypeError "condition.every is not a function")
    end
  else
    let v := _getNestedValue h doc field in
    match condition with
    | LObj ops => everyM (fun p => match_op rec h v ops (fst p) (snd p)) ops
    | LDate _ => Ok true
    | LArr _ =>
        if isArray h v then
          j ← JSON_stringify h v;
          Ok (match j, to_json condition with
              | Some a, Some b => json_eqb a b
              | _, _ => false
              end)
        else Ok false
    | _ => Ok (strict_eq_lit v condition)
    end.

(** [_matchDocument(doc, query)] *)
Fixpoint _matchDocument (h : Heap) (doc : operand) (query : lit)
    {struct query} : outcome bool :=
  match query with
  | LUndef | LNull =>
      Throw (TypeError "Cannot convert undefined or null to object")
  | LObj ps =>
      everyM (fun p =>
                match_entry (fun d q => _matchDocument h d q) h doc (fst p) (snd p))
             ps
  | LArr es =>
      everyMi (fun i c =>
                 match_entry (fun d q => _matchDocument h d q) h doc (index_key i) c)
              O es
  | LStr s =>
      Ok (forallb (fun p => strict_eq (_getNestedValue h doc (fst p)) (VStr (snd p)))
                  (imap (fun i c => (index_key i, c)) (chars s)))
  | LBool _ | LNum _ | LDate _ => Ok true
  end.
End Coercions.

(** ** The update language *)

Definition foldH {A B} (f : A -> B -> H A) : list B -> A -> H A :=
  fix go l a :=
    match l with
    | [] => mret a
    | x :: l' => a' ← f a x; go l' a'
    end.

(** [value.$each] *)
Definition lit_each (v : lit) : outcome lit :=
  match v with
  | LUndef | LNull =>
      Throw (TypeError "Cannot read properties of undefined (reading '$each')")
  | LObj ps => Ok (lit_prop "$each" ps)
  | _ => Ok LUndef
  end.

(** [...c] in an argument list *)
Definition lit_spread (c : lit) : outcome (list lit) :=
  match c with
  | LArr es => Ok es
  | LStr s => Ok (List.map LStr (chars s))
  | _ => Throw (TypeError "Spread syntax requires ...iterable[Symbol.iterator] to be a function")
  end.

Section Update.
Context {host : Host}.

(** [this.db._getNestedValue(result, field) || dflt] *)
Definition current_or (result : Doc) (field : string) (dflt : H value) : H value :=
  x ← readH (fun h => _getNestedValue h (Root result) field);
  if truthy x then mret x else dflt.

Definition update_set (result : Doc) (fields : lit) : H Doc :=
  es ← liftO (lit_entries fields);
  foldH (fun result p =>
           v ← alloc_lit (snd p);
           _setNestedValue result (fst p) v) es result.

Definition update_unset (result : Doc) (fields : lit) : H Doc :=
  es ← liftO (lit_entries fields);
  foldH (fun result p => _deleteNestedValue result (fst p)) es result.

Definition update_inc (result : Doc) (fields : lit) : H Doc :=
  es ← liftO (lit_entries fields);
  foldH (fun result p =>
           current ← current_or result (fst p) (mret (VNum (Int 0)));
           s ← readH (fun h => lit_add (deep h current) (snd p));
           _setNestedValue result (fst p) s) es result.

Definition update_push (result : Doc) (fields : lit) : H Doc :=
  es ← liftO (lit_entries fields);
  foldH (fun result p =>
           current ← current_or result (fst p) (alloc (Arr []));
           each ← liftO (lit_each (snd p));
           _ ← (if lit_truthy each
                then xs ← liftO (lit_spread each);
                     vs ← mapH alloc_lit xs;
                     array_push current vs
                else v ← alloc_lit (snd p);
                     array_push current [v]);
           _setNestedValue result (fst p) current) es result.

Definition update_pull (result : Doc) (fields : lit) : H Doc :=
  es ← liftO (lit_entries fields);
  foldH (fun result p =>
           current ← current_or result (fst p) (alloc (Arr []));
           kept ← inH (fun h =>
                     match array_elems h current with
                     | Some items =>
                         (filterM (fun item =>
                                     if lit_typeof_object (snd p)
                                     then b ← _matchDocument h (Val item) (snd p);
                                          Ok (negb b)
                                     else Ok (negb (strict_eq_lit item (snd p))))
                                  items, h)
                     | None =>
                         (Throw (TypeError "current.filter is not a function"), h)
                     end);
           filtered ← alloc (Arr kept);
           _setNestedValue result (fst p) filtered) es result.

(** [current.includes(value)] *)
Definition value_includes (h : Heap) (current : value) (v : lit) : outcome bool :=
  match current with
  | VStr s => Ok (string_includes s (lit_to_string v))
  | _ =>
      match array_elems h current with
      | Some items => Ok (existsb (fun item => same_value_zero_lit item v) items)
      | None => Throw (TypeError "current.includes is not a function")
      end
  end.

Definition update_addToSet (result : Doc) (fields : lit) : H Doc :=
  es ← liftO (lit_entries fields);
  foldH (fun result p =>
           current ← current_or result (fst p) (alloc (Arr []));
           present ← inH (fun h => (value_includes h current (snd p), h));
           _ ← (if negb present
                then v ← alloc_lit (snd p); array_push current [v]
                else mret tt);
           _setNestedValue result (fst p) current) es result.

(** One [op, fields] entry of the update description. *)
Definition update_op (result : Doc) (op : string) (fields : lit) : H Doc :=
  if String.eqb op "$set" then update_set result fields
  else if String.eqb op "$unset" then update_unset result fields
  else if String.eqb op "$inc" then update_inc result fields
  else if String.eqb op "$push" then update_push result fields
  else if String.eqb op "$pull" then update_pull result fields
  else if String.eqb op "$addToSet" then update_addToSet result fields
  else if negb (startsWith_dollar op)
       then v ← alloc_lit fields; mret (props_set op v result)
       else mret result.

(** [_applyUpdate(doc, update)]: [result] starts as the spread of [doc],
    so it shares every nested array and object with it. *)
Definition _applyUpdate (doc : Doc) (update : lit) : H Doc :=
  ops ← liftO (lit_entries update);
  foldH (fun result p => update_op result (fst p) (snd p)) ops doc.
End Update.

(** ** The store: [class TMUDatabase] *)

(** An index: [{ unique, data }], where [data] is a [Map] from a field value
    to the ids of the documents holding it. *)
Record Index := { unique : bool; data : list (value * list value) }.

(** A collection file: the array of documents that [_flushWrites] writes, or
    text that [JSON.parse] rejects.  A file that holds other JSON (an
    object, a number, an array of numbers) is not represented. *)
Inductive file :=
  | DocsFile (docs : list (list (string * json)))
  | Garbled.

Record TMUDatabase := {
  collections : gmap string (list Doc);
  indexes : gmap string (list (string * Index));
  writeBuffer : list (string * bool);
  writeTimeout : bool
}.

(** The process: the heap, the number of readings taken from the clock and
    the random source, the store instance, and the files of [dbPath]. *)
Record World := {
  heap : Heap;
  draws : nat;
  db : TMUDatabase;
  disk : gmap string file
}.

Definition M (A : Type) : Type := World -> outcome A * World.

#[global] Instance M_ret : MRet M := fun _ a w => (Ok a, w).
#[global] Instance M_bind : MBind M := fun _ _ f m w =>
  match m w with
  | (Ok a, w') => f a w'
  | (Throw e, w') => (Throw e, w')
  end.

Definition throwM {A} (e : error) : M A := fun w => (Throw e, w).
Definition inM {A} (f : World -> outcome A * World) : M A := f.

Definition set_heap (h : Heap) (w : World) : World :=
  {| heap := h; draws := draws w; db := db w; disk := disk w |}.

Definition set_db (d : TMUDatabase) (w : World) : World :=
  {| heap := heap w; draws := draws w; db := d; disk := disk w |}.

Definition set_collections (c : gmap string (list Doc)) (d : TMUDatabase) : TMUDatabase :=
  {| collections := c; indexes := indexes d;
     writeBuffer := writeBuffer d; writeTimeout := writeTimeout d |}.

Definition set_indexes (i : gmap string (list (string * Index))) (d : TMUDatabase) : TMUDatabase :=
  {| collections := collections d; indexes := i;
     writeBuffer := writeBuffer d; writeTimeout := writeTimeout d |}.

Definition liftH {A} (m : H A) : M A :=
  fun w => let '(r, h') := m (heap w) in (r, set_heap h' w).

Definition liftOM {A} (m : outcome A) : M A := fun w => (m, w).

Definition readW {A} (f : World -> A) : M A := fun w => (Ok (f w), w).

Definition foldM {A B} (f : A -> B -> M A) : list B -> A -> M A :=
  fix go l a :=
    match l with
    | [] => mret a
    | x :: l' => a' ← f a x; go l' a'
    end.

Definition mapM_ {A} (f : A -> M unit) : list A -> M unit :=
  fix go l :=
    match l with
    | [] => mret tt
    | x :: l' => _ ← f x; go l'
    end.

(** [Map.prototype.get], [has] and the "create the entry, then push" of the
    index code. *)
Fixpoint Map_get (k : value) (m : list (value * list value)) : option (list value) :=
  match m with
  | [] => None
  | (k', ids) :: m' => if same_value_zero k k' then Some ids else Map_get k m'
  end.

Definition Map_has (k : value) (m : list (value * list value)) : bool :=
  match Map_get k m with Some _ => true | None => false end.

Fixpoint Map_push (k : value) (id : value) (m : list (value * list value))
    : list (value * list value) :=
  match m with
  | [] => [(k, [id])]
  | (k', ids) :: m' =>
      if same_value_zero k k' then (k', ids ++ [id]) :: m'
      else (k', ids) :: Map_push k id m'
  end.

Definition findIndex {A} (f : A -> bool) : list A -> option nat :=
  fix go l :=
    match l with
    | [] => None
    | x :: l' => if f x then Some O else S <$> go l'
    end.

Section Store.
Context {host : Host}.

Definition Date_now_draw : M Z :=
  fun w => (Ok (Date_now (draws w)),
            {| heap := heap w; draws := S (draws w); db := db w; disk := disk w |}).

Definition randomBytes_draw : M string :=
  fun w => (Ok (randomBytes (draws w)),
            {| heap := heap w; draws := S (draws w); db := db w; disk := disk w |}).

(** [new Date()] *)
Definition new_Date : M value :=
  t ← Date_now_draw; liftH (alloc (DateObj (Int t))).

(** [n.toString(16)] *)
Definition toString16 (z : Z) : string :=
  if Z.ltb z 0
  then "-" +:+ HexadecimalString.NilZero.string_of_uint (N.to_hex_uint (Z.to_N (- z)))
  else HexadecimalString.NilZero.string_of_uint (N.to_hex_uint (Z.to_N z)).

(** [s.padStart(8, '0')] *)
Definition padStart8 (s : string) : string :=
  String.concat EmptyString (replicate (8 - String.length s) "0") +:+ s.

(** [_generateId()] *)
Definition _generateId : M string :=
  t ← Date_now_draw;
  random ← randomBytes_draw;
  mret (padStart8 (toString16 (t / 1000)) +:+ random).

(** [_saveCollection(name)]: mark dirty, restart the timer. *)
Definition _saveCollection (name : string) : M unit :=
  fun w =>
    (Ok tt,
     set_db {| collections := collections (db w); indexes := indexes (db w);
               writeBuffer := props_set name true (writeBuffer (db w));
               writeTimeout := true |} w).

(** The [Map] that [_rebuildIndexes] builds for one field. *)
Definition rebuild_data (h : Heap) (collection : list Doc) (field : string)
    : list (value * list value) :=
  fold_left
    (fun m doc =>
       let v := _getNestedValue h (Root doc) field in
       if negb (strict_eq v VUndef) then Map_push v (prop "_id" doc) m else m)
    collection [].

(** [_rebuildIndexes(collectionName, specificField = null)] *)
Definition _rebuildIndexes (collectionName : string)
    (specificField : option string) : M unit :=
  fun w =>
    let collection := default [] (collections (db w) !! collectionName) in
    match indexes (db w) !! collectionName with
    | None => (Ok tt, w)
    | Some idxs =>
        let fieldsToIndex :=
          match specificField with
          | Some (String c s) => [String c s]
          | _ => List.map fst idxs
          end in
        let idxs' :=
          fold_left
            (fun idxs field =>
               match props_get field idxs with
               | Some ix =>
                   props_replace field
                     {| unique := unique ix;
                        data := rebuild_data (heap w) collection field |} idxs
               | None => idxs
               end)
            fieldsToIndex idxs in
        (Ok tt, set_db (set_indexes (<[collectionName := idxs']> (indexes (db w))) (db w)) w)
    end.

(** [collection(name)]; the handle it returns is the name. *)
Definition collection (name : string) : M string :=
  fun w =>
    match collections (db w) !! name with
    | Some _ => (Ok name, w)
    | None =>
        (Ok name,
         set_db {| collections := <[name := []]> (collections (db w));
                   indexes := <[name := []]> (indexes (db w));
                   writeBuffer := writeBuffer (db w);
                   writeTimeout := writeTimeout (db w) |} w)
    end.

(** [createIndex(collectionName, field, options)] *)
Definition createIndex (collectionName field : string) (unique_ : bool) : M unit :=
  _ ← (fun w =>
         let idxs := default [] (indexes (db w) !! collectionName) in
         (Ok tt,
          set_db (set_indexes
                    (<[collectionName :=
                         props_set field {| unique := unique_; data := [] |} idxs]>
                       (indexes (db w))) (db w)) w));
  _rebuildIndexes collectionName (Some field).

(** ** [class Collection]; [name] stands for the handle [this] *)

(** [this._data] where the source goes on to use it as an array. *)
Definition _data (name : string) : M (list Doc) :=
  fun w =>
    match collections (db w) !! name with
    | Some d => (Ok d, w)
    | None => (Throw (TypeError "Cannot read properties of undefined"), w)
    end.

Definition set_data (name : string) (d : list Doc) : M unit :=
  fun w => (Ok tt, set_db (set_collections (<[name := d]> (collections (db w))) (db w)) w).

(** [this._indexes] *)
Definition _indexes (name : string) : M (list (string * Index)) :=
  readW (fun w => default [] (indexes (db w) !! name)).

Definition DuplicateKeyError (field : string) : error :=
  Error ("Duplicate key error: " +:+ field +:+ " must be unique").

(** [{ _id: this.db._generateId(), ...doc, createdAt: doc.createdAt || now,
      updatedAt: doc.updatedAt || now }] *)
Definition new_document (id : string) (now : value) (doc : Doc) : Doc :=
  props_set "updatedAt"
    (if truthy (prop "updatedAt" doc) then prop "updatedAt" doc else now)
    (props_set "createdAt"
       (if truthy (prop "createdAt" doc) then prop "createdAt" doc else now)
       (props_assign [("_id", VStr id)] doc)).

(** The loop "Check unique indexes" of [insertOne]. *)
Definition check_unique (newDoc : Doc) (idxs : list (string * Index)) : M unit :=
  mapM_ (fun p =>
           if unique (snd p) then
             v ← readW (fun w => _getNestedValue (heap w) (Root newDoc) (fst p));
             if negb (strict_eq v VUndef) && Map_has v (data (snd p))
             then throwM (DuplicateKeyError (fst p))
             else mret tt
           else mret tt) idxs.

(** The loop "Update indexes" of [insertOne]. *)
Definition index_document (h : Heap) (newDoc : Doc) (idxs : list (string * Index))
    : list (string * Index) :=
  List.map
    (fun p =>
       let v := _getNestedValue h (Root newDoc) (fst p) in
       if negb (strict_eq v VUndef)
       then (fst p, {| unique := unique (snd p);
                       data := Map_push v (prop "_id" newDoc) (data (snd p)) |})
       else p) idxs.

(** [insertOne(doc)] *)
Definition insertOne (name : string) (doc : Doc) : M (value * Doc) :=
  now ← new_Date;
  id ← _generateId;
  let newDoc := new_document id now doc in
  idxs ← _indexes name;
  _ ← check_unique newDoc idxs;
  d ← _data name;
  _ ← set_data name (d ++ [newDoc]);
  _ ← inM (fun w =>
             match indexes (db w) !! name with
             | None => (Ok tt, w)
             | Some idxs =>
                 (Ok tt,
                  set_db (set_indexes
                            (<[name := index_document (heap w) newDoc idxs]>
                               (indexes (db w))) (db w)) w)
             end);
  _ ← _saveCollection name;
  mret (prop "_id" newDoc, newDoc).

(** [insertMany(docs)]: the inserted ids. *)
Definition insertMany (name : string) (docs : list Doc) : M (list value) :=
  foldM (fun results doc =>
           result ← insertOne name doc;
           mret (results ++ [fst result])) docs [].
End Store.

(** [find]'s [options]; an absent option is [undefined]. *)
Record FindOptions := {
  opt_sort : lit;
  opt_skip : lit;
  opt_limit : lit;
  opt_projection : lit
}.

Definition no_options : FindOptions :=
  {| opt_sort := LUndef; opt_skip := LUndef; opt_limit := LUndef;
     opt_projection := LUndef |}.

Record UpdateResult := {
  matchedCount : nat;
  modifiedCount : nat;
  document : option Doc
}.

(** What the standard requires of [Array.prototype.sort(compare)] when
    [compare] is a consistent comparison: the sorted permutation that keeps
    elements comparing equal in their order. It is computed here by
    insertion; the comparator's result is read as the standard says (NaN
    as 0). *)
Fixpoint sort_insert {A} (compare : A -> A -> num) (a : A) (l : list A) : list A :=
  match l with
  | [] => [a]
  | b :: l' =>
      if Z.ltb 0 (num_sgn (compare a b)) then b :: sort_insert compare a l'
      else a :: l
  end.

Fixpoint stable_sort {A} (compare : A -> A -> num) (l : list A) : list A :=
  match l with
  | [] => []
  | a :: l' => sort_insert compare a (stable_sort compare l')
  end.

(** A relative index of [slice]. *)
Definition rel_index (len : nat) (n : num) : nat :=
  match n with
  | Int z =>
      if Z.ltb z 0 then Z.to_nat (Z.max (Z.of_nat len + z) 0)
      else Z.to_nat (Z.min z (Z.of_nat len))
  | PInf => len
  | NInf | NaN => O
  end.

Section Collection.
Context {host : Host}.

(** ToIntegerOrInfinity *)
Definition to_integer (c : lit) : num :=
  match to_number (to_primitive HintNumber c) with
  | NaN => Int 0
  | n => n
  end.

(** [l.slice(start, end)]; [end] may be left out. *)
Definition Array_slice {A} (l : list A) (start : lit) (end_ : option lit) : list A :=
  let len := length l in
  let k := rel_index len (to_integer start) in
  let final :=
    match end_ with
    | None | Some LUndef => len
    | Some e => rel_index len (to_integer e)
    end in
  take (final - k)%nat (drop k l).

(** [_matchQuery(query)] *)
Definition _matchQuery (name : string) (query : lit) : M (list Doc) :=
  entries ← liftOM (lit_entries query);
  if Nat.eqb (length entries) 0 then _data name
  else
    idxs ← _indexes name;
    match
      List.find (fun p => negb (lit_typeof_object (snd p)) && has_key (fst p) idxs)
                entries
    with
    | Some (field, v) =>
        let ids :=
          match props_get field idxs, lit_prim v with
          | Some ix, Some k => default [] (Map_get k (data ix))
          | _, _ => []
          end in
        (d ← _data name;
         let indexed :=
           List.filter (fun doc => existsb (same_value_zero (prop "_id" doc)) ids) d in
         inM (fun w => (filterM (fun doc => _matchDocument (heap w) (Root doc) query) indexed, w)))
    | None =>
        (d ← _data name;
         inM (fun w => (filterM (fun doc => _matchDocument (heap w) (Root doc) query) d, w)))
    end.

(** The comparator of [_applySort]. *)
Definition sort_compare (h : Heap) (sort : list (string * lit)) (a b : Doc) : num :=
  (fix go l :=
     match l with
     | [] => Int 0
     | (field, order) :: l' =>
         let aVal := deep h (_getNestedValue h (Root a) field) in
         let bVal := deep h (_getNestedValue h (Root b) field) in
         if lit_lt aVal bVal
         then num_mul (Int (-1)) (to_number (to_primitive HintNumber order))
         else if lit_lt bVal aVal
         then num_mul (Int 1) (to_number (to_primitive HintNumber order))
         else go l'
     end) sort.

(** [_applySort(docs, sort)]; the comparator, and with it
    [Object.entries(sort)], runs only when there are two documents. *)
Definition _applySort (h : Heap) (docs : list Doc) (sort : lit) : outcome (list Doc) :=
  match docs with
  | [] | [_] => Ok docs
  | _ =>
      entries ← lit_entries sort;
      Ok (Array_sort (sort_compare h entries) docs)
  end.

(** [_applyProjection(doc, projection)] *)
Definition _applyProjection (h : Heap) (doc : Doc) (projection : lit) : outcome Doc :=
  entries ← lit_entries projection;
  let is1 := fun v => strict_eq_lit (VNum (Int 1)) v in
  let is0 := fun v => strict_eq_lit (VNum (Int 0)) v in
  if existsb (fun p => is1 (snd p)) entries
  then
    Ok (fold_left
          (fun result p =>
             if is1 (snd p)
             then props_set (fst p) (_getNestedValue h (Root doc) (fst p)) result
             else if String.eqb (fst p) "_id" && is0 (snd p)
             then props_del "_id" result
             else result)
          entries [("_id", prop "_id" doc)])
  else
    Ok (fold_left
          (fun result p => if is0 (snd p) then props_del (fst p) result else result)
          entries (props_assign [] doc)).

(** [find(query, options)] *)
Definition find (name : string) (query : lit) (options : FindOptions) : M (list Doc) :=
  results ← _matchQuery name query;
  results ← (if lit_truthy (opt_sort options)
             then inM (fun w => (_applySort (heap w) results (opt_sort options), w))
             else mret results);
  let results :=
    if lit_truthy (opt_skip options)
    then Array_slice results (opt_skip options) None else results in
  let results :=
    if lit_truthy (opt_limit options)
    then Array_slice results (LNum (Int 0)) (Some (opt_limit options)) else results in
  if lit_truthy (opt_projection options)
  then inM (fun w =>
         (mapM (M := outcome)
               (fun doc => _applyProjection (heap w) doc (opt_projection options))
               results, w))
  else mret results.

(** [findOne(query)]; [None] is [null]. *)
Definition findOne (name : string) (query : lit) : M (option Doc) :=
  results ← find name query
    {| opt_sort := LUndef; opt_skip := LUndef; opt_limit := LNum (Int 1);
       opt_projection := LUndef |};
  mret (head results).

(** [findById(id)] *)
Definition findById (name : string) (id : value) : M (option Doc) :=
  idxs ← _indexes name;
  match props_get "_id" idxs with
  | Some ix =>
      match Map_get id (data ix) with
      | Some (_ :: _) =>
          d ← _data name;
          mret (List.find (fun doc => strict_eq (prop "_id" doc) id) d)
      | _ => mret None
      end
  | None =>
      d ← _data name;
      mret (List.find (fun doc => strict_eq (prop "_id" doc) id) d)
  end.

(** [updatedDoc = this._applyUpdate(this._data[index], update);
     updatedDoc.updatedAt = new Date();
     this._data[index] = updatedDoc] *)
Definition update_at (name : string) (index : nat) (update : lit) : M Doc :=
  d ← _data name;
  updatedDoc ← liftH (_applyUpdate (default [] (d !! index)) update);
  now ← new_Date;
  let updatedDoc := props_set "updatedAt" now updatedDoc in
  d ← _data name;
  _ ← set_data name (<[index := updatedDoc]> d);
  mret updatedDoc.

(** [updateOne(query, update)] *)
Definition updateOne (name : string) (query update : lit) : M UpdateResult :=
  found ← findOne name query;
  match found with
  | None => mret {| matchedCount := 0; modifiedCount := 0; document := None |}
  | Some doc =>
      d ← _data name;
      match findIndex (fun x => strict_eq (prop "_id" x) (prop "_id" doc)) d with
      | None => mret {| matchedCount := 0; modifiedCount := 0; document := None |}
      | Some index =>
          updatedDoc ← update_at name index update;
          _ ← _rebuildIndexes name None;
          _ ← _saveCollection name;
          mret {| matchedCount := 1; modifiedCount := 1; document := Some updatedDoc |}
      end
  end.

(** The body of the loop of [updateMany]. *)
Definition updateMany_body (name : string) (update : lit)
    (modifiedCount : nat) (doc : Doc) : M nat :=
  d ← _data name;
  match findIndex (fun x => strict_eq (prop "_id" x) (prop "_id" doc)) d with
  | Some index =>
      _ ← update_at name index update;
      mret (S modifiedCount)
  | None => mret modifiedCount
  end.

(** [updateMany(query, update)] *)
Definition updateMany (name : string) (query update : lit) : M UpdateResult :=
  docs ← find name query no_options;
  modified ← foldM (updateMany_body name update) docs O;
  _ ← (if Nat.ltb 0 modified
       then _ ← _rebuildIndexes name None; _saveCollection name
       else mret tt);
  mret {| matchedCount := length docs; modifiedCount := modified; document := None |}.

(** [findByIdAndUpdate(id, update, options)], with [options.new] left at
    its default. *)
Definition findByIdAndUpdate (name : string) (id : value) (update : lit)
    : M (option Doc) :=
  d ← _data name;
  match findIndex (fun x => strict_eq (prop "_id" x) id) d with
  | None => mret None
  | Some index =>
      updatedDoc ← update_at name index update;
      _ ← _rebuildIndexes name None;
      _ ← _saveCollection name;
      mret (Some updatedDoc)
  end.

(** [deleteOne(query)]: the deleted count. *)
Definition deleteOne (name : string) (query : lit) : M nat :=
  found ← findOne name query;
  match found with
  | None => mret O
  | Some doc =>
      d ← _data name;
      match findIndex (fun x => strict_eq (prop "_id" x) (prop "_id" doc)) d with
      | Some index =>
          _ ← set_data name (delete index d);
          _ ← _rebuildIndexes name None;
          _ ← _saveCollection name;
          mret 1%nat
      | None => mret O
      end
  end.

(** [deleteMany(query)]: the deleted count. *)
Definition deleteMany (name : string) (query : lit) : M nat :=
  docs ← find name query no_options;
  let idsToDelete := List.map (prop "_id") docs in
  d ← _data name;
  let originalLength := length d in
  _ ← set_data name
        (List.filter
           (fun x => negb (existsb (same_value_zero (prop "_id" x)) idsToDelete)) d);
  d' ← _data name;
  let deletedCount := (originalLength - length d')%nat in
  _ ← (if Nat.ltb 0 deletedCount
       then _ ← _rebuildIndexes name None; _saveCollection name
       else mret tt);
  mret deletedCount.

(** [countDocuments(query)] *)
Definition countDocuments (name : string) (query : lit) : M nat :=
  results ← _matchQuery name query; mret (length results).

(** [exists(query)] *)
Definition exists_ (name : string) (query : lit) : M bool :=
  found ← findOne name query;
  mret (match found with Some _ => true | None => false end).

(** [distinct(field, query)] *)
Definition distinct (name field : string) (query : lit) : M (list value) :=
  docs ← find name query no_options;
  inM (fun w =>
    (Ok (fold_left
           (fun values doc =>
              let v := _getNestedValue (heap w) (Root doc) field in
              if negb (strict_eq v VUndef) && negb (existsb (same_value_zero v) values)
              then values ++ [v] else values)
           docs []), w)).
End Collection.

(** ** Aggregation *)

(** [Math.max(...xs)] and [Math.min(...xs)] *)
Definition Math_max (xs : list num) : num :=
  fold_left (fun acc x =>
               match acc, x with
               | NaN, _ | _, NaN => NaN
               | _, _ => if num_ltb acc x then x else acc
               end) xs NInf.

Definition Math_min (xs : list num) : num :=
  fold_left (fun acc x =>
               match acc, x with
               | NaN, _ | _, NaN => NaN
               | _, _ => if num_ltb x acc then x else acc
               end) xs PInf.

(** The groups of [_applyGroup]: a [Map] from the group key to
    [{ _id, _docs }]. *)
Fixpoint groups_push (k : value) (doc : Doc) (m : list (value * (value * list Doc)))
    : list (value * (value * list Doc)) :=
  match m with
  | [] => [(k, (if same_value_zero k (VStr "null") then VNull else k, [doc]))]
  | (k', (gid, docs)) :: m' =>
      if same_value_zero k k' then (k', (gid, docs ++ [doc])) :: m'
      else (k', (gid, docs)) :: groups_push k doc m'
  end.

(** [params._id] *)
Definition lit_member (c : lit) (key : string) : outcome lit :=
  match c with
  | LUndef | LNull => Throw (TypeError "Cannot read properties of undefined or null")
  | LObj ps => Ok (lit_prop key ps)
  | _ => Ok LUndef
  end.

(** [const [a, b] = Object.entries(c)[0]] *)
Definition first_entry (c : lit) : outcome (string * lit) :=
  entries ← lit_entries c;
  match entries with
  | e :: _ => Ok e
  | [] => Throw (TypeError "undefined is not iterable")
  end.

Section Aggregate.
Context {host : Host}.

Definition value_to_number (h : Heap) (v : value) : num :=
  to_number (to_primitive HintNumber (deep h v)).

(** [a + b] on values *)
Definition js_add (h : Heap) (a b : value) : value :=
  lit_add (deep h a) (deep h b).

(** [getNested(d, fieldName) || dflt] *)
Definition nested_or (h : Heap) (d : Doc) (fieldName : string) (dflt : value) : value :=
  let v := _getNestedValue h (Root d) fieldName in
  if truthy v then v else dflt.

(** The accumulator of one output field of one group. *)
Definition group_field (h : Heap) (docs : list Doc) (result : Doc)
    (field : string) (op : lit) : outcome Doc :=
  e ← first_entry op;
  let opName := fst e in
  let opField := snd e in
  fieldName ←
    match opField with
    | LStr s => Ok (if startsWith_dollar s then slice1 s else s)
    | LUndef | LNull =>
        Throw (TypeError "Cannot read properties of undefined (reading 'startsWith')")
    | _ => Throw (TypeError "opField.startsWith is not a function")
    end;
  if String.eqb opName "$sum" then
    if strict_eq_lit (VNum (Int 1)) opField
    then Ok (props_set field (VNum (Int (Z.of_nat (length docs)))) result)
    else Ok (props_set field
               (fold_left (fun sum d => js_add h sum (nested_or h d fieldName (VNum (Int 0))))
                          docs (VNum (Int 0)))
               result)
  else if String.eqb opName "$avg" then
    let values :=
      List.filter (fun v => negb (strict_eq v VNull || strict_eq v VUndef))
                  (List.map (fun d => _getNestedValue h (Root d) fieldName) docs) in
    Ok (props_set field
          (match values with
           | [] => VNum (Int 0)
           | _ => VNum (Number_div
                          (value_to_number h
                             (fold_left (js_add h) values (VNum (Int 0))))
                          (Int (Z.of_nat (length values))))
           end) result)
  else if String.eqb opName "$max" then
    Ok (props_set field
          (VNum (Math_max
                   (List.map (fun d => value_to_number h
                                         (nested_or h d fieldName (VNum (Int 0)))) docs)))
          result)
  else if String.eqb opName "$min" then
    Ok (props_set field
          (VNum (Math_min
                   (List.map (fun d => value_to_number h
                                         (nested_or h d fieldName (VNum PInf))) docs)))
          result)
  else if String.eqb opName "$first" then
    Ok (props_set field
          (_getNestedValue h (Root (default [] (head docs))) fieldName) result)
  else if String.eqb opName "$last" then
    Ok (props_set field
          (_getNestedValue h (Root (default [] (last docs))) fieldName) result)
  else Ok result.

(** [_applyGroup(docs, params)] *)
Definition _applyGroup (docs : list Doc) (params : lit) : H (list Doc) :=
  match docs with
  | [] => mret []
  | _ =>
      pid ← liftO (lit_member params "_id");
      literalKey ← match lit_prim pid with
                   | Some v => mret v
                   | None => alloc_lit pid
                   end;
      groups ← readH (fun h =>
        fold_left
          (fun groups doc =>
             let groupKey :=
               match pid with
               | LNull => VStr "null"
               | LStr s =>
                   if startsWith_dollar s
                   then _getNestedValue h (Root doc) (slice1 s)
                   else literalKey
               | _ => literalKey
               end in
             groups_push groupKey doc groups)
          docs []);
      entries ← liftO (lit_entries params);
      inH (fun h =>
        (mapM (M := outcome)
           (fun g =>
              foldM_o (fun result p =>
                         if String.eqb (fst p) "_id" then Ok result
                         else group_field h (snd (snd g)) result (fst p) (snd p))
                      entries [("_id", fst (snd g))])
           groups, h))
  end.

(** [aggregate(pipeline)] *)
Definition aggregate (name : string) (pipeline : list lit) : M (list Doc) :=
  d ← _data name;
  foldM (fun results stage =>
           e ← liftOM (first_entry stage);
           let operation := fst e in
           let params := snd e in
           if String.eqb operation "$match" then
             inM (fun w => (filterM (fun doc => _matchDocument (heap w) (Root doc) params)
                                    results, w))
           else if String.eqb operation "$sort" then
             inM (fun w => (_applySort (heap w) results params, w))
           else if String.eqb operation "$limit" then
             mret (Array_slice results (LNum (Int 0)) (Some params))
           else if String.eqb operation "$skip" then
             mret (Array_slice results params None)
           else if String.eqb operation "$project" then
             inM (fun w => (mapM (M := outcome)
                              (fun doc => _applyProjection (heap w) doc params)
                              results, w))
           else if String.eqb operation "$group" then
             liftH (_applyGroup results params)
           else mret results)
        pipeline d.
End Aggregate.

(** ** Persistence *)

(** [s.endsWith('.json')], [s.startsWith('_')], [s.replace('.json', '')] *)
Definition endsWith (s suffix : string) : bool :=
  Nat.leb (String.length suffix) (String.length s)
  && String.eqb (String.substring (String.length s - String.length suffix)
                                  (String.length suffix) s) suffix.

Definition startsWith_underscore (s : string) : bool :=
  match s with
  | String c _ => Ascii.eqb c "_"%char
  | EmptyString => false
  end.

Fixpoint replace_json (s : string) : string :=
  if String.prefix ".json" s
  then String.substring 5 (String.length s - 5) s
  else match s with
       | EmptyString => EmptyString
       | String c s' => String c (replace_json s')
       end.

(** The files of [dbPath] are held by name. A collection name with a path
    separator or a NUL in it addresses none of them:
    [path.join(dbPath, name + '.json')] is then a path further down, or no
    path at all. *)
Definition file_name (s : string) : bool :=
  negb (string_includes s "/")
  && negb (string_includes s (String Ascii.zero EmptyString)).

(** [fs.readdirSync(dbPath)] *)
Definition readdirSync (dsk : gmap string file) : list string :=
  List.filter file_name (List.map fst (map_to_list dsk)).

Section Persistence.
Context {host : Host}.

(** [JSON.stringify] of one document of the collection array. *)
Definition doc_to_json (ps : list (string * lit)) : list (string * json) :=
  omap (fun p => pair (fst p) <$> to_json (snd p)) ps.

(** [_flushWrites()]: a collection that cannot be serialised or written is
    logged and skipped. *)
Definition _flushWrites : M unit :=
  fun w =>
    let disk' :=
      fold_left
        (fun dsk name =>
           match collections (db w) !! name with
           | Some docs =>
               match mapM (snapshot_doc (heap w)) docs with
               | Some ls =>
                   if file_name name
                   then <[name +:+ ".json" := DocsFile (List.map doc_to_json ls)]> dsk
                   else dsk
               | None => dsk
               end
           | None => dsk
           end)
        (List.map fst (writeBuffer (db w))) (disk w) in
    (Ok tt,
     {| heap := heap w; draws := draws w;
        db := {| collections := collections (db w); indexes := indexes (db w);
                 writeBuffer := []; writeTimeout := writeTimeout (db w) |};
        disk := disk' |}).

(** [flush()] *)
Definition flush : M unit :=
  _ ← inM (fun w =>
             (Ok tt,
              set_db {| collections := collections (db w); indexes := indexes (db w);
                        writeBuffer := writeBuffer (db w); writeTimeout := false |} w));
  _flushWrites.

(** The debounce timer fires. *)
Definition timer_fires : M unit :=
  fun w => if writeTimeout (db w) then _flushWrites w else (Ok tt, w).

(** [_loadCollection(name)] *)
Definition _loadCollection (name : string) : M unit :=
  fun w =>
    match disk w !! (name +:+ ".json") with
    | Some (DocsFile docs) =>
        (parsed ← liftH (mapH (fun d => alloc_doc (List.map (fun p => (fst p, of_json (snd p))) d))
                              docs);
         _ ← set_data name parsed;
         _rebuildIndexes name None) w
    | Some Garbled | None => set_data name [] w
    end.

(** [_loadCollections()] *)
Definition _loadCollections : M unit :=
  files ← readW (fun w => readdirSync (disk w));
  mapM_ (fun file =>
           if endsWith file ".json" && negb (startsWith_underscore file)
           then _loadCollection (replace_json file)
           else mret tt) files.

(** [new TMUDatabase(dbPath)] in a fresh process, on the files of
    [dbPath]. *)
Definition new_TMUDatabase (files : gmap string file) : World :=
  snd (_loadCollections
         {| heap := []; draws := O;
            db := {| collections := ∅; indexes := ∅;
                     writeBuffer := []; writeTimeout := false |};
            disk := files |}).
End Persistence.

(** ** Schema and Model *)

Inductive SchemaType :=
  | TString | TNumber | TBoolean | TDate | TArray | TObject.

Definition SchemaType_name (t : SchemaType) : string :=
  match t with
  | TString => "String" | TNumber => "Number" | TBoolean => "Boolean"
  | TDate => "Date" | TArray => "Array" | TObject => "Object"
  end.

Record regexp := { source : string; flags : string }.

(** [required]: a value or a function, given by what it returns. *)
Inductive RequiredRule :=
  | Required (v : lit)
  | RequiredFn (result : lit).

(** [default]: a value, shared by every document it is given to, or a
    generator. *)
Inductive DefaultRule :=
  | Default (v : value)
  | DefaultFn (f : M value).

(** [match]: absent, a regular expression, or an array; of the array only
    the first element is read. *)
Inductive MatchRule :=
  | MatchAbsent
  | Match (r : regexp)
  | MatchArray (first : option regexp).

Record FieldRules := {
  type_ : option SchemaType;
  required : RequiredRule;
  default_ : DefaultRule;
  enum : option (list lit);
  minlength : lit;
  maxlength : lit;
  match_ : MatchRule;
  min : lit;
  max : lit;
  lowercase : bool;
  uppercase : bool;
  trim_ : bool
}.

(** [{ type: rules }], and the rules of a field given as a bare type. *)
Definition only_type (t : option SchemaType) : FieldRules :=
  {| type_ := t; required := Required LUndef; default_ := Default VUndef;
     enum := None; minlength := LUndef; maxlength := LUndef;
     match_ := MatchAbsent; min := LUndef; max := LUndef;
     lowercase := false; uppercase := false; trim_ := false |}.

Inductive FieldSpec :=
  | Rules (r : FieldRules)
  | BareType (t : SchemaType).

Definition field_rules (rules : FieldSpec) : FieldRules :=
  match rules with
  | Rules r => r
  | BareType t => only_type (Some t)
  end.

Definition Hook : Type := Doc -> M Doc.

Record Schema := {
  definition : list (string * FieldSpec);
  preHooks : list (string * list Hook);
  postHooks : list (string * list Hook);
  schema_indexes : list (list (string * lit) * bool)
}.

(** [new Schema(definition)], [pre], [post], [index] *)
Definition new_Schema (def : list (string * FieldSpec)) : Schema :=
  {| definition := def; preHooks := []; postHooks := []; schema_indexes := [] |}.

Definition pre (action : string) (fn : Hook) (s : Schema) : Schema :=
  {| definition := definition s;
     preHooks := props_set action (default [] (props_get action (preHooks s)) ++ [fn])
                           (preHooks s);
     postHooks := postHooks s; schema_indexes := schema_indexes s |}.

Definition post (action : string) (fn : Hook) (s : Schema) : Schema :=
  {| definition := definition s; preHooks := preHooks s;
     postHooks := props_set action (default [] (props_get action (postHooks s)) ++ [fn])
                            (postHooks s);
     schema_indexes := schema_indexes s |}.

Definition index (fields : list (string * lit)) (unique_ : bool) (s : Schema) : Schema :=
  {| definition := definition s; preHooks := preHooks s; postHooks := postHooks s;
     schema_indexes := schema_indexes s ++ [(fields, unique_)] |}.

Record Model := {
  modelName : string;
  schema : Schema;
  collection_ : string
}.

Section Model.
Context {host : Host}.

(** [new Model(name, schema, db)] *)
Definition new_Model (name : string) (s : Schema) : M Model :=
  c ← collection (toLowerCase name +:+ "s");
  _ ← mapM_ (fun idx =>
               mapM_ (fun p => createIndex (toLowerCase name +:+ "s") (fst p) (snd idx))
                     (fst idx))
            (schema_indexes s);
  _ ← createIndex (toLowerCase name +:+ "s") "_id" true;
  mret {| modelName := name; schema := s; collection_ := c |}.

(** The data of the wrapped document; what [_wrapDocument] adds to it
    ([save], [toObject], [toJSON], the methods and virtuals of the schema)
    is not data and is not represented. *)
Definition _wrapDocument (doc : Doc) : Doc := props_assign [] doc.

Definition message (parts : list string) : lit :=
  LStr (String.concat EmptyString parts).

(** The violations [_validate] records for one field. *)
Definition validate_field (h : Heap) (doc : Doc) (field : string)
    (fieldRules : FieldRules) : list (string * lit) :=
  let v := prop field doc in
  let isRequired :=
    match required fieldRules with
    | Required r => if lit_truthy r then r else LBool false
    | RequiredFn result => result
    end in
  if lit_truthy isRequired
     && (strict_eq v VUndef || strict_eq v VNull || strict_eq v (VStr EmptyString))
  then
    [(field,
      match required fieldRules with
      | Required (LArr es) => default LUndef (es !! 1%nat)
      | _ => message [field; " is required"]
      end)]
  else if strict_eq v VUndef || strict_eq v VNull then []
  else
    (match type_ fieldRules with
     | Some t =>
         let isValid :=
           match t, v with
           | TString, VStr _ | TNumber, VNum _ | TBoolean, VBool _ => true
           | TString, _ | TNumber, _ | TBoolean, _ => false
           | TDate, _ =>
               match deep h v with
               | LDate _ => true
               | c => negb (num_is_nan (Date_parse (lit_to_string c)))
               end
           | TArray, _ => isArray h v
           | TObject, _ => true
           end in
         if isValid then []
         else [(field, message [field; " must be of type "; SchemaType_name t])]
     | None => []
     end)
    ++ (match enum fieldRules with
        | Some allowed =>
            if existsb (same_value_zero_lit v) allowed then []
            else [(field,
                   message [field; " must be one of: ";
                            String.concat ", "
                              (List.map (fun e => match e with
                                                  | LUndef | LNull => EmptyString
                                                  | _ => lit_to_string e
                                                  end) allowed)])]
        | None => []
        end)
    ++ (match v with
        | VStr s =>
            let len := LNum (Int (Z.of_nat (String.length s))) in
            (if lit_truthy (minlength fieldRules) && lit_lt len (minlength fieldRules)
             then [(field, message [field; " must be at least ";
                                    lit_to_string (minlength fieldRules); " characters"])]
             else [])
            ++ (if lit_truthy (maxlength fieldRules) && lit_lt (maxlength fieldRules) len
                then [(field, message [field; " cannot exceed ";
                                       lit_to_string (maxlength fieldRules); " characters"])]
                else [])
            ++ (match match match_ fieldRules with
                      | MatchAbsent => None
                      | Match r => Some r
                      | MatchArray first => first
                      end
                with
                | Some r =>
                    if negb (default true (RegExp_test (source r) (flags r) s))
                    then [(field, message [field; " format is invalid"])]
                    else []
                | None => []
                end)
        | _ => []
        end)
    ++ (match v with
        | VNum n =>
            (if negb (strict_eq_lit VUndef (min fieldRules))
                && lit_lt (LNum n) (min fieldRules)
             then [(field, message [field; " must be at least ";
                                    lit_to_string (min fieldRules)])]
             else [])
            ++ (if negb (strict_eq_lit VUndef (max fieldRules))
                   && lit_lt (max fieldRules) (LNum n)
                then [(field, message [field; " cannot exceed ";
                                       lit_to_string (max fieldRules)])]
                else [])
        | _ => []
        end).

(** [_validate(doc)] *)
Definition _validate (m : Model) (h : Heap) (doc : Doc) : outcome bool :=
  let errors :=
    List.concat
      (List.map (fun p => validate_field h doc (fst p) (field_rules (snd p)))
                (definition (schema m))) in
  if Nat.ltb 0 (length errors) then Throw (ValidationError errors)
  else Ok true.

(** [_applyDefaults(doc)] *)
Definition _applyDefaults (m : Model) (doc : Doc) : M Doc :=
  foldM (fun result p =>
           if strict_eq (prop (fst p) result) VUndef
           then match default_ (field_rules (snd p)) with
                | Default v =>
                    mret (if negb (strict_eq v VUndef)
                          then props_set (fst p) v result else result)
                | DefaultFn f => v ← f; mret (props_set (fst p) v result)
                end
           else mret result)
        (definition (schema m)) (props_assign [] doc).

(** [_transform(doc)] *)
Definition _transform (m : Model) (doc : Doc) : Doc :=
  fold_left
    (fun result p =>
       match prop (fst p) result with
       | VStr s =>
           let fieldRules := field_rules (snd p) in
           let s := if lowercase fieldRules then toLowerCase s else s in
           let s := if uppercase fieldRules then toUpperCase s else s in
           let s := if trim_ fieldRules then trim s else s in
           props_set (fst p) (VStr s) result
       | _ => result
       end)
    (definition (schema m)) (props_assign [] doc).

(** [create(data)] for one document. *)
Definition create (m : Model) (data : Doc) : M Doc :=
  doc ← _applyDefaults m data;
  let doc := _transform m doc in
  doc ← foldM (fun doc hook => hook doc)
              (default [] (props_get "save" (preHooks (schema m)))) doc;
  _ ← inM (fun w => (_validate m (heap w) doc, w));
  result ← insertOne (collection_ m) doc;
  let wrapped := _wrapDocument (snd result) in
  foldM (fun wrapped hook => hook wrapped)
        (default [] (props_get "save" (postHooks (schema m)))) wrapped.

(** [create(data)] for an array of documents. *)
Definition create_all (m : Model) (data : list Doc) : M (list Doc) :=
  foldM (fun results item => r ← create m item; mret (results ++ [r])) data [].
End Model.

(** ** A host to run examples on

    A clock that advances by a millisecond at each reading, a counter in
    place of the random source, ASCII case mapping, and stand-ins for the
    date formats, the regular-expression engine and division. *)

Definition ascii_lower (c : ascii) : ascii :=
  let n := nat_of_ascii c in
  if Nat.leb 65 n && Nat.leb n 90 then ascii_of_nat (n + 32) else c.

Definition ascii_upper (c : ascii) : ascii :=
  let n := nat_of_ascii c in
  if Nat.leb 97 n && Nat.leb n 122 then ascii_of_nat (n - 32) else c.

Fixpoint string_map (f : ascii -> ascii) (s : string) : string :=
  match s with
  | EmptyString => EmptyString
  | String c s' => String (f c) (string_map f s')
  end.

Fixpoint trim_start (s : string) : string :=
  match s with
  | String c s' => if Ascii.eqb c " "%char then trim_start s' else s
  | EmptyString => EmptyString
  end.

Definition string_rev (s : string) : string :=
  String.string_of_list_ascii (List.rev (String.list_ascii_of_string s)).

Definition sample_host : Host := {|
  Date_toString := fun t => "Date " +:+ num_to_string t;
  Date_toISOString := fun t => "ISO " +:+ num_to_string (Int t);
  Date_parse := fun _ => NaN;
  StringToNumber := fun _ => NaN;
  RegExp_test := fun _ _ _ => Some true;
  Number_div := fun a b =>
    match a, b with
    | Int x, Int y => if Z.eqb (x mod y) 0 && negb (Z.eqb y 0) then Int (x / y) else NaN
    | _, _ => NaN
    end;
  toLowerCase := string_map ascii_lower;
  toUpperCase := string_map ascii_upper;
  trim := fun s => string_rev (trim_start (string_rev (trim_start s)));
  Date_now := fun n => 1700000000000 + Z.of_nat n;
  randomBytes := fun n =>
    let s := HexadecimalString.NilZero.string_of_uint (N.to_hex_uint (N.of_nat n)) in
    String.concat EmptyString (replicate (16 - String.length s) "0") +:+ s;
  Array_sort := @stable_sort
|}.

(** A fresh process on an empty directory. *)
Definition empty_db : TMUDatabase :=
  {| collections := ∅; indexes := ∅; writeBuffer := []; writeTimeout := false |}.

Definition empty_world : World :=
  {| heap := []; draws := O; db := empty_db; disk := ∅ |}.

(** The caller builds a document, then inserts it. *)
Definition insert_literal {host : Host} (name : string) (doc : list (string * lit))
    : M (value * Doc) :=
  d ← liftH (alloc_doc doc); insertOne name d.

(** The concrete scenario of the spec's testable properties, on a collection
    named [c]: what the first [find] returns, what fetching A yields after
    the update, and what is left after [deleteMany]. *)
Definition scenario {host : Host} : M (list Doc * option Doc * list Doc) :=
  c ← collection "c";
  _ ← insert_literal c [("name", LStr "A"); ("score", LNum (Int 10))];
  _ ← insert_literal c [("name", LStr "B"); ("score", LNum (Int 20))];
  found ← find c (LObj [("score", LObj [("$gte", LNum (Int 15))])]) no_options;
  _ ← updateOne c (LObj [("name", LStr "A")])
                  (LObj [("$inc", LObj [("score", LNum (Int 5))])]);
  a ← findOne c (LObj [("name", LStr "A")]);
  _ ← deleteMany c (LObj [("score", LObj [("$gt", LNum (Int 12))])]);
  rest ← find c (LObj []) no_options;
  mret (found, a, rest).

(** A document with a nested array, and an update whose second operator
    throws: [name] holds a string, which has no [filter]. *)
Definition shared_array_setup {host : Host} : M (value * Doc) :=
  c ← collection "c";
  insert_literal c [("name", LStr "A"); ("tags", LArr [LStr "a"])].

Definition failing_update : lit :=
  LObj [("$push", LObj [("tags", LStr "x")]);
        ("$pull", LObj [("name", LStr "x")])].

(** A collection with a unique index on [email] that already holds
    [a@x], and a batch whose second element repeats that address. *)
Definition unique_email_setup {host : Host} : M (value * Doc) :=
  c ← collection "c";
  _ ← createIndex c "email" true;
  insert_literal c [("email", LStr "a@x")].

Definition batch_with_duplicate {host : Host} : M (list value) :=
  docs ← liftH (mapH alloc_doc
                  [[("email", LStr "b@x")]; [("email", LStr "a@x")];
                   [("email", LStr "c@x")]]);
  insertMany "c" docs.

(** Two documents created through a model, then an update that sets the
    [_id] of the second to the [_id] of the first. *)
Definition id_overwrite {host : Host} : M (list Doc) :=
  m ← new_Model "Item" (new_Schema []);
  a ← create m [("name", VStr "A")];
  _ ← create m [("name", VStr "B")];
  _ ← updateOne (collection_ m) (LObj [("name", LStr "B")])
        (LObj [("$set", LObj [("_id", deep [] (prop "_id" a))])]);
  _data (collection_ m).

(** [find({ email: undefined })] on two documents, one without [email],
    with and without an index on [email]. *)
Definition undefined_filter {host : Host} (indexed : bool) : M (list Doc) :=
  c ← collection "c";
  _ ← (if indexed then createIndex c "email" false else mret tt);
  _ ← insert_literal c [("name", LStr "A")];
  _ ← insert_literal c [("name", LStr "B"); ("email", LStr "b@x")];
  find c (LObj [("email", LUndef)]) no_options.

(** The [name] rule of the User schema of [models/User.tmu.js], and a name
    of 101 characters. *)
Definition user_name_rules : FieldRules :=
  {| type_ := Some TString;
     required := Required (LArr [LBool true; LStr "Name is required"]);
     default_ := Default VUndef;
     enum := None;
     minlength := LUndef;
     maxlength := LArr [LNum (Int 100); LStr "Name cannot exceed 100 characters"];
     match_ := MatchAbsent; min := LUndef; max := LUndef;
     lowercase := false; uppercase := false; trim_ := true |}.

Definition long_name : string :=
  String.concat EmptyString (replicate 101 "a").

Definition overlong_create {host : Host} : M Doc :=
  m ← new_Model "User" (new_Schema [("name", Rules user_name_rules)]);
  create m [("name", VStr long_name)].

(** One insert, then [flush()]. *)
Definition insert_and_flush {host : Host} : M unit :=
  c ← collection "c";
  _ ← insert_literal c [("name", LStr "A")];
  flush.

(** A document whose [_id] the caller gave as NaN, and an [updateMany]
    that matches it. *)
Definition nan_id_update {host : Host} : M UpdateResult :=
  c ← collection "c";
  _ ← insertOne c [("_id", VNum NaN); ("x", VNum (Int 1))];
  updateMany c (LObj [("x", LNum (Int 1))]) (LObj [("$set", LObj [("y", LNum (Int 2))])]).

(** A count per group, as in [{ $group: { _id: null, count: { $sum: 1 } } }]. *)
Definition count_pipeline : list lit :=
  [LObj [("$group", LObj [("_id", LNull); ("count", LObj [("$sum", LNum (Int 1))])])]].

Definition count_run {host : Host} : M (list Doc) :=
  c ← collection "c";
  _ ← insert_literal c [("name", LStr "A"); ("score", LNum (Int 10))];
  aggregate c count_pipeline.

(** ** Notions used to state the properties *)


(** [x] occurs in [l] somewhere before [y]. *)
Definition occurs_before {A} (x y : A) (l : list A) : Prop :=
  exists l1 l2 l3, l = l1 ++ x :: l2 ++ y :: l3.



(** Three documents, the first and the last equal on the sort key [k]. *)
Definition tie_setup {host : Host} : M (value * Doc) :=
  c ← collection "c";
  _ ← insert_literal c [("k", LNum (Int 1)); ("n", LStr "x")];
  _ ← insert_literal c [("k", LNum (Int 0)); ("n", LStr "y")];
  insert_literal c [("k", LNum (Int 1)); ("n", LStr "z")].

(** What the index of a field holds for a value: the ids of the documents
    with that value, in collection order. *)
Definition ids_with (h : Heap) (d : list Doc) (field : string) (v : value) : list value :=
  List.map (prop "_id")
    (List.filter (fun doc => same_value_zero v (_getNestedValue h (Root doc) field)) d).

(** Every index holds what [_rebuildIndexes] would build from the
    collection. *)
Definition indexes_consistent {host : Host} (h : Heap) (d : list Doc)
    (idxs : list (string * Index)) : Prop :=
  List.map (fun p => data (snd p)) idxs
  = List.map (fun p => rebuild_data h d (fst p)) idxs.

(** How many documents of [l] have the [_id] [v], as [findIndex] tests it. *)
Definition id_count (v : value) (l : list Doc) : nat :=
  length (List.filter (fun x => strict_eq (prop "_id" x) v) l).

(** A document, and an update that writes the value it already has. *)
Definition noop_setup {host : Host} : M (value * Doc) :=
  c ← collection "c";
  insert_literal c [("name", LStr "A"); ("score", LNum (Int 10))].

Definition noop_update : lit := LObj [("$set", LObj [("score", LNum (Int 10))])].

(** What a document reads as once [JSON.stringify] has written it and
    [JSON.parse] has read it back: Dates as their ISO strings, NaN and the
    infinities as [null], properties holding [undefined] dropped. *)
Definition json_image {host : Host} (ps : list (string * lit)) : list (string * lit) :=
  List.map (fun p => (fst p, of_json (snd p))) (doc_to_json ps).

(** The documents of a collection as they stand in memory, nested
    structures read through. *)
Definition stored (w : World) (name : string) : option (list (list (string * lit))) :=
  docs ← collections (db w) !! name; mapM (snapshot_doc (heap w)) docs.

(** One insert that is still in the write buffer. *)
Definition insert_pending {host : Host} : M (value * Doc) :=
  c ← collection "c";
  insert_literal c [("name", LStr "A")].

(** ** Calls on a collection *)

(** The [_id]s of a collection, in collection order. *)
Definition ids (w : World) (name : string) : list value :=
  prop "_id" <$> default [] (collections (db w) !! name).

(** The first key of a path. *)
Definition path_root (path : string) : string :=
  default EmptyString (head (split_dot path)).

(** Whether an update description names [_id]: as a key of its own, or as
    the first key of a path given to one of its operators. *)
Definition writes_id (update : lit) : bool :=
  match lit_entries update with
  | Ok ops =>
      existsb
        (fun p =>
           if startsWith_dollar (fst p)
           then match lit_entries (snd p) with
                | Ok es => existsb (fun q => String.eqb (path_root (fst q)) "_id") es
                | Throw _ => false
                end
           else String.eqb (fst p) "_id") ops
  | Throw _ => false
  end.

(** A caller's document: an object, so each key once; and not one that
    carries [_id: undefined]. *)
Definition gives_id (doc : Doc) : bool :=
  bool_decide (NoDup (fst <$> doc))
  && negb (has_key "_id" doc && strict_eq (prop "_id" doc) VUndef).

(** The calls that change a collection. *)
Inductive operation :=
  | InsertOne (doc : Doc)
  | InsertMany (docs : list Doc)
  | UpdateOne (query update : lit)
  | UpdateMany (query update : lit)
  | FindByIdAndUpdate (id : value) (update : lit)
  | DeleteOne (query : lit)
  | DeleteMany (query : lit).

(** Whether a call ended within what this embedding covers. *)
Definition modelled {A} (r : outcome A) : bool :=
  match r with
  | Throw (Unmodelled _) => false
  | _ => true
  end.

(** The store after a call, whether the call returned or threw. *)
Definition after {A} (r : outcome A * World) : option World :=
  if modelled (fst r) then Some (snd r) else None.

(** A call on the collection: the process goes on with the store as the
    call left it. *)
Definition exec {host : Host} (name : string) (w : World) (op : operation)
    : option World :=
  match op with
  | InsertOne doc => after (insertOne name doc w)
  | InsertMany docs => after (insertMany name docs w)
  | UpdateOne query update => after (updateOne name query update w)
  | UpdateMany query update => after (updateMany name query update w)
  | FindByIdAndUpdate id update => after (findByIdAndUpdate name id update w)
  | DeleteOne query => after (deleteOne name query w)
  | DeleteMany query => after (deleteMany name query w)
  end.

(** A sequence of calls. *)
Fixpoint exec_all {host : Host} (name : string) (ops : list operation) (w : World)
    : option World :=
  match ops with
  | [] => Some w
  | op :: ops' => w' ← exec name w op; exec_all name ops' w'
  end.

(** The calls that leave the [_id]s to the store. *)
Definition keeps_id (op : operation) : bool :=
  match op with
  | InsertOne doc => gives_id doc
  | InsertMany docs => forallb gives_id docs
  | UpdateOne _ update | UpdateMany _ update | FindByIdAndUpdate _ update =>
      negb (writes_id update)
  | DeleteOne _ | DeleteMany _ => true
  end.

(** A collection with the index that the [Model] constructor always
    creates: [db.createIndex(name, '_id', { unique: true })]. *)
Definition with_id_index {host : Host} (name : string) : M unit :=
  c ← collection name; createIndex c "_id" true.

(** The collection has a unique index on [_id] that knows the [_id] of each
    of its documents, no [_id] is undefined, and no two are the same. *)
Definition id_indexed (w : World) (name : string) : Prop :=
  is_Some (collections (db w) !! name)
  /\ NoDup (ids w name)
  /\ (VUndef ∉ ids w name)
  /\ exists idxs ix,
       indexes (db w) !! name = Some idxs
       /\ props_get "_id" idxs = Some ix
       /\ unique ix = true
       /\ forall v, v ∈ ids w name -> Map_has v (data ix) = true.

(** Two documents with the [_id]s a and b, then an update that sets the
    second [_id] to a. *)
Definition id_clash : list operation :=
  [InsertOne [("_id", VStr "a")];
   InsertOne [("_id", VStr "b")];
   UpdateOne (LObj [("_id", LStr "b")]) (LObj [("$set", LObj [("_id", LStr "a")])])].

(** Inserts (one of them rejected as a duplicate), an update of every
    document and a delete. *)
Definition id_kept : list operation :=
  [InsertOne [("name", VStr "A")];
   InsertMany [[("_id", VStr "x")]; [("_id", VStr "x")]; [("name", VStr "C")]];
   UpdateMany (LObj []) (LObj [("$set", LObj [("name", LStr "Z")]); ("$inc", LObj [("n", LNum (Int 1))])]);
   DeleteOne (LObj [("_id", LStr "x")]);
   InsertOne [("_id", VStr "x"); ("name", VStr "D")]].

(** ** Sorting and the standard *)

(** [compare] is a consistent comparison on the elements of [l], as the
    standard defines it. It never returns NaN and, with a =CF b for
    [compare a b = 0], a <CF b for [< 0] and a >CF b for [> 0]: a =CF a;
    a =CF b gives b =CF a; and each of =CF, <CF and >CF is transitive. *)
Definition consistent {A} (compare : A -> A -> num) (l : list A) : bool :=
  forallb
    (fun a =>
       Z.eqb (num_sgn (compare a a)) 0
       && forallb
            (fun b =>
               negb (num_is_nan (compare a b))
               && implb (Z.eqb (num_sgn (compare a b)) 0)
                        (Z.eqb (num_sgn (compare b a)) 0)
               && forallb
                    (fun c =>
                       let ab := num_sgn (compare a b) in
                       let bc := num_sgn (compare b c) in
                       let ac := num_sgn (compare a c) in
                       implb (Z.eqb ab 0 && Z.eqb bc 0) (Z.eqb ac 0)
                       && implb (Z.ltb ab 0 && Z.ltb bc 0) (Z.ltb ac 0)
                       && implb (Z.ltb 0 ab && Z.ltb 0 bc) (Z.ltb 0 ac)) l) l) l.

(** The engine's sort does what the standard requires of it. *)
Definition sort_conforms (host : Host) : Prop :=
  forall (A : Type) (compare : A -> A -> num) (l : list A),
    consistent compare l = true -> Array_sort compare l = stable_sort compare l.






(** The value of a document on a sort key is a finite number, or a Date
    with a finite time value. *)
Definition numeric_key {host : Host} (h : Heap) (field : string) (d : Doc) : bool :=
  match to_primitive HintNumber (deep h (_getNestedValue h (Root d) field)) with
  | LNum (Int _) => true
  | _ => false
  end.

(** A sort specification whose directions are non-zero finite numbers (as 1
    and -1 are), on keys that are numeric in every one of the documents. *)
Definition numeric_sort {host : Host} (h : Heap) (entries : list (string * lit))
    (docs : list Doc) : bool :=
  forallb (fun p =>
             match snd p with
             | LNum (Int o) => negb (Z.eqb o 0)
             | _ => false
             end
             && forallb (numeric_key h (fst p)) docs) entries.

(** A value that JSON carries as it is: null, a boolean, a finite number,
    a string, or an array or object of such values. *)
Fixpoint json_native (c : lit) : bool :=
  match c with
  | LNull | LBool _ | LStr _ => true
  | LNum (Int _) => true
  | LArr es => forallb json_native es
  | LObj ps => forallb (fun p => json_native (snd p)) ps
  | _ => false
  end.

(** ** Notions for the further properties *)

(** Every index of the collection holds what a scan of its documents
    gives. *)
Definition indexes_in_step {host : Host} (w : World) (name : string) : Prop :=
  indexes_consistent (heap w) (default [] (collections (db w) !! name))
    (default [] (indexes (db w) !! name)).

(** The indexes of a collection are the properties of an object: each field
    once. *)
Definition index_fields_once (w : World) (name : string) : Prop :=
  NoDup (fst <$> default [] (indexes (db w) !! name)).

(** The entry [_rebuildIndexes] leaves for an indexed field. *)
Definition rebuilt (h : Heap) (d : list Doc) (p : string * Index)
    : string * Index :=
  (fst p, {| unique := unique (snd p); data := rebuild_data h d (fst p) |}).

(** A field that is a key of the document itself, not a dotted path. *)
Definition top_level (field : string) : Prop := split_dot field = [field].

(** Every index of the collection is on such a field. *)
Definition indexes_top_level (w : World) (name : string) : Prop :=
  Forall (fun p => top_level (fst p)) (default [] (indexes (db w) !! name)).

(** One step of the loop of [_applyDefaults]. *)
Definition default_step (result : Doc) (p : string * FieldSpec) : M Doc :=
  if strict_eq (prop (fst p) result) VUndef
  then match default_ (field_rules (snd p)) with
       | Default v =>
           mret (if negb (strict_eq v VUndef)
                 then props_set (fst p) v result else result)
       | DefaultFn f => v ← f; mret (props_set (fst p) v result)
       end
  else mret result.

(** ** The document [insertOne] stores *)

(** The id that [_generateId()] hands out within [insertOne]: the clock has
    been read once for [now]; it is read again for the id, and then the
    random source. *)
Definition next_id {host : Host} (w : World) : string :=
  padStart8 (toString16 (Date_now (S (draws w)) / 1000))
  +:+ randomBytes (S (S (draws w))).

(** [newDoc] of an [insertOne(doc)] called in [w]: the caller's document
    under a generated [_id], with [createdAt] and [updatedAt] falling back
    to the Date that the call creates. *)
Definition next_document {host : Host} (w : World) (doc : Doc) : Doc :=
  new_document (next_id w) (VRef (length (heap w))) doc.

(** ** Notions for the updates *)

(** The heap [h'] has every cell of [h], and every [Date] of [h] as it
    was. *)
Definition heap_grows (h h' : Heap) : Prop :=
  (length h <= length h')%nat
  /\ forall l t, h !! l = Some (DateObj t) -> h' !! l = Some (DateObj t).

(** Two documents stored under one [_id], in a collection with no index,
    and an [updateOne] whose query only the second of them matches. *)
Definition shared_id_setup {host : Host} : M (value * Doc) :=
  c ← collection "c";
  _ ← insertOne c [("_id", VStr "a"); ("name", VStr "A")];
  insertOne c [("_id", VStr "a"); ("name", VStr "B")].

Definition shared_id_update {host : Host} : M UpdateResult :=
  updateOne "c" (LObj [("name", LStr "B")]) (LObj [("$set", LObj [("seen", LBool true)])]).

Definition shared_id_update_many {host : Host} : M UpdateResult :=
  updateMany "c" (LObj [("name", LStr "B")]) (LObj [("$set", LObj [("seen", LBool true)])]).

(** Two documents, and an [updateMany] that matches both and sets the
    [_id] of each to that of the second. *)
Definition id_writing_setup {host : Host} : M (value * Doc) :=
  c ← collection "c";
  _ ← insertOne c [("_id", VStr "a")];
  insertOne c [("_id", VStr "b")].

Definition id_writing_update {host : Host} : M UpdateResult :=
  updateMany "c" (LObj []) (LObj [("$set", LObj [("_id", LStr "b")])]).

(** ** Inherited names *)

(** The names every object inherits from [Object.prototype].  The
    embedding reads own properties only ([prop], [get_prop], [props_get]);
    for an object that has no own property of one of these names the source
    reads the inherited member instead of [undefined].  Properties that
    depend on such a read carry the premise that the name is none of
    these. *)
Definition Object_prototype_names : list string :=
  ["constructor"; "__proto__"; "hasOwnProperty"; "isPrototypeOf";
   "propertyIsEnumerable"; "toLocaleString"; "toString"; "valueOf";
   "__defineGetter__"; "__defineSetter__"; "__lookupGetter__";
   "__lookupSetter__"].

Definition inherited (k : string) : bool :=
  bool_decide (k ∈ Object_prototype_names).

(** A computation on the heap that only adds cells and leaves every [Date]
    as it was. *)
Definition only_grows {A} (m : H A) : Prop :=
  forall h, heap_grows h (snd (m h)).

(** A key of the documents themselves: no dotted path, and none of the
    inherited names. *)
Definition own_key (k : string) : Prop := top_level k /\ inherited k = false.

(** ** Notions for the indexes *)

(** The index answers, for every value, with the ids of the documents that
    a scan of the collection finds holding that value under [field], in
    collection order; it has no entry for a value that no document holds,
    nor for [undefined]. *)
Definition index_of_scan (h : Heap) (d : list Doc) (field : string) (ix : Index)
    : Prop :=
  forall v,
    Map_get v (data ix)
    = if strict_eq v VUndef then None
      else match ids_with h d field v with [] => None | ids => Some ids end.

(** Every index of the collection is the index of a scan of its
    documents. *)
Definition indexes_of_scan (w : World) (name : string) : Prop :=
  forall field ix,
    props_get field (default [] (indexes (db w) !! name)) = Some ix ->
    index_of_scan (heap w) (default [] (collections (db w) !! name)) field ix.

(** Every index of the collection is on a key of the documents. *)
Definition indexes_on_own_keys (w : World) (name : string) : Prop :=
  Forall (fun p => own_key (fst p)) (default [] (indexes (db w) !! name)).

(** [Number.isSafeInteger]: the whole numbers that a double holds exactly,
    and between which the sums of the embedding, taken in [Z], are the sums
    of the source. *)
Definition isSafeInteger (z : Z) : bool := Z.leb (Z.abs z) 9007199254740991.

(** * Properties *)

(** ** The concrete scenario *)

(** C1, as stated, fails: after [deleteMany({score: {$gt: 12}})] the
    collection does not hold exactly one document; A, whose score is then
    15, is deleted together with B. *)
Lemma C1_not_one_left :
  ~ (exists found a rest,
       fst (scenario (host := sample_host) empty_world) = Ok (found, a, rest)
       /\ length rest = 1%nat).
Proof.
  intros (found & a & rest & Hrun & Hlen).
  vm_compute in Hrun. inversion Hrun; subst. discriminate Hlen.
Qed.

(** C1, amended: the first [find] returns exactly B, fetching A after the
    update yields score 15, and [deleteMany({score: {$gt: 12}})] leaves no
    document. *)
Theorem C1_scenario :
  exists a b : Doc,
    fst (scenario (host := sample_host) empty_world) = Ok ([b], Some a, [])
    /\ prop "name" b = VStr "B" /\ prop "score" b = VNum (Int 20)
    /\ prop "name" a = VStr "A" /\ prop "score" a = VNum (Int 15).
Proof.
  do 2 eexists. split; [vm_compute; reflexivity|].
  repeat split; reflexivity.
Qed.

(** ** Updates and shared structure *)

(** C2: an update whose second operator throws leaves the old document in
    the collection, with the first operator's [$push] already visible in
    its [tags] array. *)
Theorem C2_partial_update_visible :
  let before := snd (shared_array_setup (host := sample_host) empty_world) in
  let run := updateOne (host := sample_host) "c" (LObj [("name", LStr "A")])
               failing_update before in
  fst run = Throw (TypeError "current.filter is not a function")
  /\ collections (db (snd run)) !! "c" = collections (db before) !! "c"
  /\ exists doc,
       collections (db before) !! "c" = Some [doc]
       /\ deep (heap before) (prop "tags" doc) = LArr [LStr "a"]
       /\ deep (heap (snd run)) (prop "tags" doc) = LArr [LStr "a"; LStr "x"].
Proof.
  cbv zeta. split; [vm_compute; reflexivity|].
  split; [vm_compute; reflexivity|].
  eexists. split; [vm_compute; reflexivity|].
  split; vm_compute; reflexivity.
Qed.

(** ** Sorting *)

Section SortStable.
Context {A : Type} (compare : A -> A -> num).

Lemma sort_insert_perm a l : sort_insert compare a l ≡ₚ a :: l.
Proof.
  induction l as [|b l IH]; simpl; [done|].
  destruct (Z.ltb 0 (num_sgn (compare a b))); [|done].
  rewrite IH. apply Permutation_swap.
Qed.

Lemma stable_sort_perm l : stable_sort compare l ≡ₚ l.
Proof.
  induction l as [|a l IH]; simpl; [done|].
  by rewrite sort_insert_perm, IH.
Qed.

Lemma occurs_before_cons (x y b : A) l :
  occurs_before x y l -> occurs_before x y (b :: l).
Proof.
  intros (l1 & l2 & l3 & ->). by exists (b :: l1), l2, l3.
Qed.

Lemma occurs_before_head (x y : A) l : y ∈ l -> occurs_before x y (x :: l).
Proof.
  intros (l2 & l3 & ->)%list_elem_of_split. by exists [], l2, l3.
Qed.

Lemma occurs_before_inv (x y b : A) l :
  occurs_before x y (b :: l) -> (x = b /\ y ∈ l) \/ occurs_before x y l.
Proof.
  intros (l1 & l2 & l3 & Heq). destruct l1 as [|c l1]; simpl in Heq.
  - injection Heq as -> ->. left. split; [done|].
    apply elem_of_app; right. apply elem_of_cons; by left.
  - injection Heq as -> ->. right. by exists l1, l2, l3.
Qed.



End SortStable.






(** ** Sorting by an engine *)

Section Consistent.
Context {A : Type} (compare : A -> A -> num) (L : list A).
Hypothesis Hcons : consistent compare L = true.

Lemma consistent_spec a b c :
  a ∈ L -> b ∈ L -> c ∈ L ->
  num_sgn (compare a a) = 0
  /\ (num_sgn (compare a b) = 0 -> num_sgn (compare b a) = 0)
  /\ (num_sgn (compare a b) < 0 -> num_sgn (compare b c) < 0 ->
      num_sgn (compare a c) < 0)
  /\ (0 < num_sgn (compare a b) -> 0 < num_sgn (compare b c) ->
      0 < num_sgn (compare a c)).
Proof.
  intros Ha%list_elem_of_In Hb%list_elem_of_In Hc%list_elem_of_In.
  unfold consistent in Hcons.
  pose proof (proj1 (forallb_forall _ _) Hcons a Ha) as [Hrefl Hab]%andb_prop.
  pose proof (proj1 (forallb_forall _ _) Hab b Hb) as [[_ Hsym]%andb_prop Habc]%andb_prop.
  pose proof (proj1 (forallb_forall _ _) Habc c Hc) as [[_ Hlt]%andb_prop Hgt]%andb_prop.
  cbv zeta in Hlt, Hgt.
  split; [lia|]. split; [|split].
  - intros Heq. destruct (Z.eqb_spec (num_sgn (compare a b)) 0); [|done].
    simpl in Hsym. lia.
  - intros H1 H2.
    destruct (Z.ltb_spec (num_sgn (compare a b)) 0); [|lia].
    destruct (Z.ltb_spec (num_sgn (compare b c)) 0); [|lia].
    simpl in Hlt. lia.
  - intros H1 H2.
    destruct (Z.ltb_spec 0 (num_sgn (compare a b))); [|lia].
    destruct (Z.ltb_spec 0 (num_sgn (compare b c))); [|lia].
    simpl in Hgt. lia.
Qed.




End Consistent.

Section Sorted.
Context {A : Type} (compare : A -> A -> num) (L : list A).
Hypothesis Hcons : consistent compare L = true.

Lemma consistent_flip_above a b :
  a ∈ L -> b ∈ L -> 0 < num_sgn (compare a b) -> num_sgn (compare b a) < 0.
Proof.
  intros Ha Hb Hab.
  destruct (consistent_spec compare L Hcons a b a Ha Hb Ha) as (Hrefl & _ & _ & Hgt).
  destruct (consistent_spec compare L Hcons b a b Hb Ha Hb) as (_ & Hsym & _).
  destruct (Z.lt_trichotomy (num_sgn (compare b a)) 0) as [Hba|[Hba|Hba]]; [done| |].
  - specialize (Hsym Hba). lia.
  - specialize (Hgt Hab Hba). lia.
Qed.

(** Not above is transitive. *)
Lemma consistent_le_trans a b c :
  a ∈ L -> b ∈ L -> c ∈ L ->
  num_sgn (compare a b) <= 0 -> num_sgn (compare b c) <= 0 ->
  num_sgn (compare a c) <= 0.
Proof.
  intros Ha Hb Hc Hab Hbc.
  destruct (Z.lt_trichotomy (num_sgn (compare a c)) 0) as [Hac|[Hac|Hac]]; [lia|lia|].
  exfalso.
  pose proof (consistent_flip_above a c Ha Hc Hac) as Hca.
  destruct (consistent_spec compare L Hcons a b c Ha Hb Hc) as (_ & _ & T1 & _).
  destruct (consistent_spec compare L Hcons c a b Hc Ha Hb) as (_ & _ & T2 & _).
  destruct (consistent_spec compare L Hcons b c a Hb Hc Ha) as (_ & _ & T3 & _).
  destruct (consistent_spec compare L Hcons b c b Hb Hc Hb) as (_ & S1 & _).
  destruct (consistent_spec compare L Hcons a b a Ha Hb Ha) as (_ & S2 & _).
  assert (num_sgn (compare a b) = 0 -> num_sgn (compare b c) = 0 ->
          num_sgn (compare a c) = 0) as E.
  { clear T1 T2 T3 S1 S2. unfold consistent in Hcons.
    apply list_elem_of_In in Ha, Hb, Hc.
    pose proof (proj1 (forallb_forall _ _) Hcons a Ha) as [_ H1]%andb_prop.
    pose proof (proj1 (forallb_forall _ _) H1 b Hb) as [_ H2]%andb_prop.
    pose proof (proj1 (forallb_forall _ _) H2 c Hc) as [[H3 _]%andb_prop _]%andb_prop.
    cbv zeta in H3. intros Hab' Hbc'. rewrite Hab', Hbc' in H3. simpl in H3.
    by apply Z.eqb_eq. }
  lia.
Qed.

Lemma sort_insert_sorted a l :
  a ∈ L -> l ⊆ L ->
  (forall x y, occurs_before x y l -> num_sgn (compare x y) <= 0) ->
  forall x y, occurs_before x y (sort_insert compare a l) ->
              num_sgn (compare x y) <= 0.
Proof.
  intros Ha. induction l as [|b l IH]; intros Hl Hsorted x y Hxy; simpl in Hxy.
  - destruct Hxy as (l1 & l2 & l3 & Heq).
    by destruct l1 as [|? [|? ?]], l2.
  - assert (b ∈ L) as Hb by (apply Hl, elem_of_cons; by left).
    assert (l ⊆ L) as Hl' by (intros z Hz; apply Hl, elem_of_cons; by right).
    destruct (Z.ltb_spec 0 (num_sgn (compare a b))) as [Hab|Hab].
    + apply occurs_before_inv in Hxy as [[-> Hy]|Hxy].
      * rewrite sort_insert_perm in Hy. apply elem_of_cons in Hy as [->|Hy].
        -- pose proof (consistent_flip_above a b Ha Hb Hab). lia.
        -- apply Hsorted. by apply occurs_before_head.
      * apply IH; [done| |done].
        intros x' y' H'. apply Hsorted. by apply occurs_before_cons.
    + apply occurs_before_inv in Hxy as [[-> Hy]|Hxy]; [|by apply Hsorted].
      apply elem_of_cons in Hy as [->|Hy]; [done|].
      apply (consistent_le_trans a b y); [done|done|by apply Hl'|done|].
      apply Hsorted. by apply occurs_before_head.
Qed.

(** For a consistent comparison, [stable_sort] gives a sorted list: no
    element is above one that comes after it. *)
Lemma stable_sort_sorted l :
  l ⊆ L ->
  forall x y, occurs_before x y (stable_sort compare l) ->
              num_sgn (compare x y) <= 0.
Proof.
  induction l as [|a l IH]; intros Hl x y Hxy; simpl in Hxy.
  - destruct Hxy as (l1 & l2 & l3 & Heq). by destruct l1.
  - assert (a ∈ L) as Ha by (apply Hl, elem_of_cons; by left).
    assert (l ⊆ L) as Hl' by (intros z Hz; apply Hl, elem_of_cons; by right).
    apply (sort_insert_sorted a (stable_sort compare l)); [done| |by apply IH|done].
    intros z Hz. rewrite stable_sort_perm in Hz. by apply Hl'.
Qed.
End Sorted.

(** Both engines sort as the standard requires. *)
Lemma sample_host_conforms : sort_conforms sample_host.
Proof. by intros A compare l _. Qed.





(** ** Comparators that are consistent *)

Lemma consistent_intro {A} (compare : A -> A -> num) (l : list A) :
  (forall a b c, a ∈ l -> b ∈ l -> c ∈ l ->
     num_sgn (compare a a) = 0
     /\ num_is_nan (compare a b) = false
     /\ (num_sgn (compare a b) = 0 -> num_sgn (compare b a) = 0)
     /\ (num_sgn (compare a b) = 0 -> num_sgn (compare b c) = 0 ->
         num_sgn (compare a c) = 0)
     /\ (num_sgn (compare a b) < 0 -> num_sgn (compare b c) < 0 ->
         num_sgn (compare a c) < 0)
     /\ (0 < num_sgn (compare a b) -> 0 < num_sgn (compare b c) ->
         0 < num_sgn (compare a c))) ->
  consistent compare l = true.
Proof.
  intros Hall. unfold consistent.
  apply forallb_forall. intros a Ha%list_elem_of_In.
  apply andb_true_intro. split.
  { destruct (Hall a a a Ha Ha Ha) as (-> & _). done. }
  apply forallb_forall. intros b Hb%list_elem_of_In.
  destruct (Hall a b a Ha Hb Ha) as (_ & Hnan & Hsym & _).
  apply andb_true_intro. split.
  { rewrite Hnan. simpl. destruct (Z.eqb_spec (num_sgn (compare a b)) 0); [|done].
    simpl. apply Z.eqb_eq. auto. }
  apply forallb_forall. intros c Hc%list_elem_of_In.
  destruct (Hall a b c Ha Hb Hc) as (_ & _ & _ & Heq & Hlt & Hgt).
  cbv zeta. repeat (apply andb_true_intro; split).
  - destruct (Z.eqb_spec (num_sgn (compare a b)) 0); [|done].
    destruct (Z.eqb_spec (num_sgn (compare b c)) 0); [|done].
    simpl. apply Z.eqb_eq. auto.
  - destruct (Z.ltb_spec (num_sgn (compare a b)) 0); [|done].
    destruct (Z.ltb_spec (num_sgn (compare b c)) 0); [|done].
    simpl. apply Z.ltb_lt. auto.
  - destruct (Z.ltb_spec 0 (num_sgn (compare a b))); [|done].
    destruct (Z.ltb_spec 0 (num_sgn (compare b c))); [|done].
    simpl. apply Z.ltb_lt. auto.
Qed.

Section NumericSort.
Context {host : Host}.

Lemma sort_compare_numeric h field o entries a b x y :
  o <> 0 ->
  to_primitive HintNumber (deep h (_getNestedValue h (Root a) field)) = LNum (Int x) ->
  to_primitive HintNumber (deep h (_getNestedValue h (Root b) field)) = LNum (Int y) ->
  sort_compare h ((field, LNum (Int o)) :: entries) a b
  = if Z.ltb x y then Int (- o)
    else if Z.ltb y x then Int o
    else sort_compare h entries a b.
Proof.
  intros Ho Ha Hb. unfold sort_compare at 1. cbv zeta. unfold lit_lt.
  rewrite Ha, Hb. simpl.
  destruct (Z.ltb x y); [by destruct o|].
  destruct (Z.ltb y x); [by destruct o|]. done.
Qed.

Lemma numeric_key_value h field d :
  numeric_key h field d = true ->
  exists x, to_primitive HintNumber (deep h (_getNestedValue h (Root d) field))
            = LNum (Int x).
Proof.
  unfold numeric_key.
  destruct (to_primitive _ _) as [| | | [x| | |] | | | |]; try done. by exists x.
Qed.

(** On numeric keys, with non-zero directions, the comparator of
    [_applySort] is a consistent comparison. *)
Lemma numeric_sort_consistent h entries (docs : list Doc) :
  numeric_sort h entries docs = true ->
  consistent (sort_compare h entries) docs = true.
Proof.
  intros Hnum. apply consistent_intro. intros a b c Ha Hb Hc.
  unfold numeric_sort in Hnum.
  induction entries as [|[field order] entries IH].
  { simpl. repeat split; lia. }
  simpl in Hnum. apply andb_prop in Hnum as [[Ho Hkeys]%andb_prop Hrest].
  specialize (IH Hrest).
  destruct order as [| | | [o| | |] | | | |]; try done.
  apply negb_true_iff, Z.eqb_neq in Ho.
  pose proof (proj1 (forallb_forall _ _) Hkeys) as Hk.
  destruct (numeric_key_value h field a (Hk a (proj1 (list_elem_of_In _ _) Ha))) as [x Hx].
  destruct (numeric_key_value h field b (Hk b (proj1 (list_elem_of_In _ _) Hb))) as [y Hy].
  destruct (numeric_key_value h field c (Hk c (proj1 (list_elem_of_In _ _) Hc))) as [z Hz].
  rewrite (sort_compare_numeric h field o entries a a x x Ho Hx Hx).
  rewrite (sort_compare_numeric h field o entries a b x y Ho Hx Hy).
  rewrite (sort_compare_numeric h field o entries b a y x Ho Hy Hx).
  rewrite (sort_compare_numeric h field o entries b c y z Ho Hy Hz).
  rewrite (sort_compare_numeric h field o entries a c x z Ho Hx Hz).
  destruct IH as (I1 & I2 & I3 & I4 & I5 & I6).
  rewrite Z.ltb_irrefl.
  destruct (Z.ltb_spec x y), (Z.ltb_spec y x), (Z.ltb_spec y z), (Z.ltb_spec z y),
    (Z.ltb_spec x z), (Z.ltb_spec z x); try lia;
    repeat split; try done; destruct o; simpl; try lia; auto.
Qed.
End NumericSort.

(** ** Literals in memory *)

Lemma lit_nested_ind (P : lit -> Prop) :
  P LUndef -> P LNull -> (forall b, P (LBool b)) -> (forall n, P (LNum n)) ->
  (forall s, P (LStr s)) -> (forall t, P (LDate t)) ->
  (forall es, Forall P es -> P (LArr es)) ->
  (forall ps, Forall (fun p => P (snd p)) ps -> P (LObj ps)) ->
  forall c, P c.
Proof.
  intros HU HN HB HNum HS HD HA HO.
  fix IH 1.
  intros [| | b | n | s | t | es | ps];
    [exact HU|exact HN|apply HB|apply HNum|apply HS|apply HD| |].
  - apply HA. induction es as [|e es IHes]; constructor; [apply IH|exact IHes].
  - apply HO. induction ps as [|p ps IHps]; constructor; [apply IH|exact IHps].
Qed.

Lemma mapH_app_heap {A B} (f : A -> H B) (l : list A) (h : Heap) :
  Forall (fun x => forall h, exists v ext, f x h = (Ok v, h ++ ext)) l ->
  exists vs ext, mapH f l h = (Ok vs, h ++ ext) /\ length vs = length l.
Proof.
  intros Hall. revert h. induction Hall as [|x l Hx _ IH]; intros h; simpl.
  - exists [], []. by rewrite app_nil_r.
  - unfold mbind, H_bind. destruct (Hx h) as (v & e1 & ->).
    destruct (IH (h ++ e1)) as (vs & e2 & -> & Hlen).
    exists (v :: vs), (e1 ++ e2). rewrite app_assoc. simpl. auto.
Qed.

(** Building a literal never throws and only extends the heap. *)
Lemma alloc_lit_extends (c : lit) (h : Heap) :
  exists v ext, alloc_lit c h = (Ok v, h ++ ext).
Proof.
  revert h. induction c as [| | b | n | s | t | es IH | ps IH] using lit_nested_ind;
    intros h; simpl;
    try (by eexists _, []; rewrite app_nil_r).
  - exists (VRef (length h)), [DateObj t]. done.
  - unfold mbind, H_bind.
    destruct (mapH_app_heap alloc_lit es h IH) as (vs & e1 & -> & _).
    exists (VRef (length (h ++ e1))), (e1 ++ [Arr vs]).
    unfold alloc. by rewrite app_assoc.
  - unfold mbind, H_bind.
    match goal with
    | |- context [mapH ?f ps h] =>
        destruct (mapH_app_heap f ps h) as (vs & e1 & -> & _)
    end.
    { eapply Forall_impl; [exact IH|]. intros p Hp h'. simpl.
      destruct (Hp h') as (v & e & ->). by exists (fst p, v), e. }
    exists (VRef (length (h ++ e1))), (e1 ++ [Obj vs]).
    unfold alloc. by rewrite app_assoc.
Qed.

(** ** Aggregation *)

Lemma groups_push_nonempty k doc m : groups_push k doc m <> [].
Proof. destruct m as [|[k' [gid docs]] m]; simpl; [done|]. by destruct (same_value_zero k k'). Qed.

Lemma groups_fold_nonempty (key : Doc -> value) docs m :
  m <> [] -> fold_left (fun groups doc => groups_push (key doc) doc groups) docs m <> [].
Proof.
  revert m. induction docs as [|d docs IH]; intros m Hm; simpl; [done|].
  apply IH, groups_push_nonempty.
Qed.

(** C8: on any non-empty input and for any group key, the count
    accumulator [{ $sum: 1 }] makes [$group] throw: [opField.startsWith]
    is called on the number 1 before [opField === 1] is tested. *)
Theorem C8_count_accumulator_throws {host : Host}
    (d : Doc) (docs : list Doc) (key : lit) (h : Heap) :
  fst (_applyGroup (d :: docs)
         (LObj [("_id", key); ("count", LObj [("$sum", LNum (Int 1))])]) h)
  = Throw (TypeError "opField.startsWith is not a function").
Proof.
  assert (exists v h', (match lit_prim key with
                        | Some v => mret v
                        | None => alloc_lit key
                        end) h = (Ok v, h')) as (literalKey & h' & Hk).
  { destruct (lit_prim key); [by eexists _, _|].
    destruct (alloc_lit_extends key h) as (v & ext & ->). by eexists _, _. }
  unfold _applyGroup. cbn [lit_member liftO lit_entries].
  change (lit_prop "_id" [("_id", key); ("count", LObj [("$sum", LNum (Int 1))])])
    with key.
  unfold mbind, H_bind, readH, inH, liftO. rewrite Hk.
  set (keyOf := fun doc : Doc =>
                  match key with
                  | LNull => VStr "null"
                  | LStr s => if startsWith_dollar s
                              then _getNestedValue h' (Root doc) (slice1 s)
                              else literalKey
                  | _ => literalKey
                  end).
  pose proof (groups_fold_nonempty keyOf docs (groups_push (keyOf d) d [])
                (groups_push_nonempty _ _ _)) as Hne.
  change (fold_left _ (d :: docs) [])
    with (fold_left (fun groups doc => groups_push (keyOf doc) doc groups) docs
            (groups_push (keyOf d) d [])).
  destruct (fold_left _ docs _) as [|g gs]; [done|].
  reflexivity.
Qed.

(** C8, on a run: one document, then the count pipeline. *)
Lemma C8_count_run_throws :
  fst (count_run (host := sample_host) empty_world)
  = Throw (TypeError "opField.startsWith is not a function").
Proof. vm_compute. reflexivity. Qed.

(** ** Equality of values *)

Lemma value_eqb_eq a b : value_eqb a b = true <-> a = b.
Proof.
  split.
  - destruct a as [| |x|[x| | |]|x|x], b as [| |y|[y| | |]|y|y]; simpl; try done.
    + intros ->%Bool.eqb_prop. done.
    + intros ->%Z.eqb_eq. done.
    + intros ->%String.eqb_eq. done.
    + intros ->%Nat.eqb_eq. done.
  - intros <-. destruct a as [| |[]|[x| | |]|x|x]; simpl; try done.
    + apply Z.eqb_refl.
    + apply String.eqb_refl.
    + apply Nat.eqb_refl.
Qed.

Lemma strict_eq_eq a b : strict_eq a b = true -> a = b.
Proof.
  unfold strict_eq. intros Hab. apply value_eqb_eq.
  destruct a as [| | |[| | |]| |], b as [| | |[| | |]| |]; done.
Qed.

Lemma strict_eq_refl a : a <> VNum NaN -> strict_eq a a = true.
Proof.
  intros Ha. unfold strict_eq.
  destruct a as [| |x|[x| | |]|x|x]; try done; by apply value_eqb_eq.
Qed.

Lemma same_value_zero_eq a b : same_value_zero a b = true <-> a = b.
Proof. apply value_eqb_eq. Qed.

Lemma getNested_top h d field :
  split_dot field = [field] -> _getNestedValue h (Root d) field = prop field d.
Proof.
  intros Hs. unfold _getNestedValue. rewrite Hs. simpl.
  destruct (strict_eq (prop field d) VUndef) eqn:He; simpl; [|done].
  by apply strict_eq_eq in He.
Qed.

(** ** Indexes *)

Lemma Map_push_get k id m k' :
  Map_get k' (Map_push k id m)
  = if same_value_zero k' k
    then Some (default [] (Map_get k m) ++ [id])
    else Map_get k' m.
Proof.
  induction m as [|[k0 ids] m IH]; simpl.
  - destruct (same_value_zero k' k) eqn:E; done.
  - destruct (same_value_zero k k0) eqn:E0; simpl.
    + apply same_value_zero_eq in E0 as ->.
      destruct (same_value_zero k' k0); done.
    + rewrite IH. destruct (same_value_zero k' k0) eqn:E1; [|done].
      apply same_value_zero_eq in E1 as ->.
      destruct (same_value_zero k0 k) eqn:E2; [|done].
      apply same_value_zero_eq in E2 as ->.
      assert (same_value_zero k k = true) as Hk by by apply same_value_zero_eq.
      congruence.
Qed.

Lemma Map_has_push k id m k' :
  Map_has k' (Map_push k id m) = same_value_zero k' k || Map_has k' m.
Proof.
  unfold Map_has. rewrite Map_push_get.
  by destruct (same_value_zero k' k).
Qed.

Section Rebuild.
Context {host : Host}.

Lemma rebuild_fold_get h field d m v :
  v <> VUndef ->
  Map_get v (fold_left
               (fun m doc =>
                  let x := _getNestedValue h (Root doc) field in
                  if negb (strict_eq x VUndef) then Map_push x (prop "_id" doc) m else m)
               d m)
  = match ids_with h d field v with
    | [] => Map_get v m
    | ids => Some (default [] (Map_get v m) ++ ids)
    end.
Proof.
  intros Hv. revert m. induction d as [|doc d IH]; intros m; simpl; [done|].
  rewrite IH. unfold ids_with. simpl.
  destruct (strict_eq (_getNestedValue h (Root doc) field) VUndef) eqn:Hu; simpl.
  - apply strict_eq_eq in Hu. rewrite Hu.
    destruct (same_value_zero v VUndef) eqn:E; [apply same_value_zero_eq in E; contradiction|].
    reflexivity.
  - rewrite Map_push_get.
    destruct (same_value_zero v (_getNestedValue h (Root doc) field)) eqn:E; simpl.
    + apply same_value_zero_eq in E. rewrite <- E.
      destruct (List.map _ _); simpl; [done|]. by rewrite <- app_assoc.
    + done.
Qed.

Lemma rebuild_data_get h d field v :
  v <> VUndef ->
  Map_get v (rebuild_data h d field)
  = match ids_with h d field v with [] => None | ids => Some ids end.
Proof. intros Hv. unfold rebuild_data. by rewrite rebuild_fold_get. Qed.

Lemma rebuild_data_covers h d field doc :
  doc ∈ d -> _getNestedValue h (Root doc) field <> VUndef ->
  Map_has (_getNestedValue h (Root doc) field) (rebuild_data h d field) = true
  /\ existsb (same_value_zero (prop "_id" doc))
       (default [] (Map_get (_getNestedValue h (Root doc) field)
                            (rebuild_data h d field))) = true.
Proof.
  intros Hin Hv. unfold Map_has. rewrite rebuild_data_get by done.
  assert (prop "_id" doc ∈ ids_with h d field (_getNestedValue h (Root doc) field)) as Hid.
  { unfold ids_with. apply list_elem_of_In, in_map, filter_In. split.
    - by apply list_elem_of_In.
    - by apply same_value_zero_eq. }
  destruct (ids_with _ _ _ _) as [|i ids] eqn:E; [by apply elem_of_nil in Hid|].
  split; [done|]. cbn [default from_option]. apply existsb_exists. exists (prop "_id" doc).
  split; [by apply list_elem_of_In|]. by apply same_value_zero_eq.
Qed.
End Rebuild.

(** ** Own properties *)

Section Props.
Context {V : Type}.
Implicit Types (ps : list (string * V)) (k : string) (v : V).

Lemma has_key_true k ps : has_key k ps = true <-> is_Some (props_get k ps).
Proof. unfold has_key. apply bool_decide_eq_true. Qed.

Lemma has_key_false k ps : has_key k ps = false <-> props_get k ps = None.
Proof.
  unfold has_key. rewrite bool_decide_eq_false. rewrite <- eq_None_not_Some. done.
Qed.

Lemma props_get_app k ps qs :
  props_get k (ps ++ qs)
  = match props_get k ps with Some v => Some v | None => props_get k qs end.
Proof.
  induction ps as [|[k' v'] ps IH]; simpl; [done|].
  by destruct (String.eqb k k').
Qed.

Lemma props_get_replace k v ps k' :
  props_get k' (props_replace k v ps)
  = if String.eqb k' k then (fun _ => v) <$> props_get k ps else props_get k' ps.
Proof.
  induction ps as [|[k0 v0] ps IH]; simpl.
  - by destruct (String.eqb k' k).
  - destruct (String.eqb k k0) eqn:E; simpl.
    + apply String.eqb_eq in E as ->. by destruct (String.eqb k' k0).
    + rewrite IH. destruct (String.eqb k' k0) eqn:E0; [|done].
      apply String.eqb_eq in E0 as ->.
      destruct (String.eqb k0 k) eqn:E1; [|done].
      apply String.eqb_eq in E1 as ->. by rewrite String.eqb_refl in E.
Qed.

Lemma props_get_place i k v ps k' :
  props_get k ps = None ->
  props_get k' (props_place i k v ps)
  = if String.eqb k' k then Some v else props_get k' ps.
Proof.
  induction ps as [|[k0 v0] ps IH]; simpl; intros Hk.
  - by destruct (String.eqb k' k).
  - destruct (String.eqb k k0) eqn:E; [done|].
    destruct (array_index k0) as [j|]; [destruct (Nat.ltb i j)|]; simpl;
      try by destruct (String.eqb k' k).
    rewrite IH by done.
    destruct (String.eqb k' k0) eqn:E0; [|done].
    apply String.eqb_eq in E0 as ->. rewrite String.eqb_sym. by rewrite E.
Qed.

Lemma props_get_set k v ps k' :
  props_get k' (props_set k v ps)
  = if String.eqb k' k then Some v else props_get k' ps.
Proof.
  unfold props_set. destruct (has_key k ps) eqn:Hk.
  - rewrite props_get_replace. apply has_key_true in Hk as [x Hx].
    rewrite Hx. done.
  - apply has_key_false in Hk. destruct (array_index k).
    + by apply props_get_place.
    + rewrite props_get_app. simpl.
      destruct (String.eqb k' k) eqn:E.
      * apply String.eqb_eq in E as ->. by rewrite Hk.
      * by destruct (props_get k' ps).
Qed.

Lemma props_get_del k ps k' :
  props_get k' (props_del k ps)
  = if String.eqb k' k then None else props_get k' ps.
Proof.
  unfold props_del. induction ps as [|[k0 v0] ps IH]; simpl.
  - by destruct (String.eqb k' k).
  - destruct (String.eqb k k0) eqn:E; simpl.
    + apply String.eqb_eq in E as ->. rewrite IH.
      by destruct (String.eqb k' k0).
    + rewrite IH. destruct (String.eqb k' k0) eqn:E0; [|done].
      apply String.eqb_eq in E0 as ->. rewrite String.eqb_sym. by rewrite E.
Qed.

Lemma props_get_assign k (a b : list (string * V)) :
  NoDup (fst <$> b) ->
  props_get k (props_assign a b)
  = match props_get k b with Some v => Some v | None => props_get k a end.
Proof.
  unfold props_assign. revert a. induction b as [|[k0 v0] b IH]; intros a Hnd; simpl.
  - done.
  - apply NoDup_cons in Hnd as [Hk0 Hnd]. rewrite IH by done.
    rewrite props_get_set. destruct (String.eqb k k0) eqn:E.
    + apply String.eqb_eq in E as ->.
      assert (props_get k0 b = None) as ->; [|done].
      clear -Hk0. induction b as [|[k1 v1] b IH]; simpl; [done|].
      destruct (String.eqb k0 k1) eqn:E.
      * apply String.eqb_eq in E as ->. exfalso. apply Hk0. simpl. left.
      * apply IH. intros Hin. apply Hk0. simpl. by right.
    + done.
Qed.
End Props.

Lemma prop_set k v (ps : Doc) k' :
  prop k' (props_set k v ps) = if String.eqb k' k then v else prop k' ps.
Proof. unfold prop. rewrite props_get_set. by destruct (String.eqb k' k). Qed.

Lemma prop_new_document id now doc field :
  NoDup (fst <$> doc) ->
  field <> "_id" -> field <> "createdAt" -> field <> "updatedAt" ->
  prop field (new_document id now doc) = prop field doc.
Proof.
  intros Hnd H1 H2 H3. unfold new_document. rewrite !prop_set.
  apply String.eqb_neq in H1, H2, H3. rewrite H2, H3.
  unfold prop. rewrite props_get_assign by done. simpl. rewrite H1.
  by destruct (props_get field doc).
Qed.

(** ** Inserting *)

Lemma bindM_unfold {A B} (m : M A) (f : A -> M B) (w : World) :
  (m ≫= f) w
  = match m w with
    | (Ok a, w') => f a w'
    | (Throw e, w') => (Throw e, w')
    end.
Proof. reflexivity. Qed.

Lemma bindH_unfold {A B} (m : H A) (f : A -> H B) (h : Heap) :
  (m ≫= f) h
  = match m h with
    | (Ok a, h') => f a h'
    | (Throw e, h') => (Throw e, h')
    end.
Proof. reflexivity. Qed.

Section Insert.
Context {host : Host}.

Lemma check_unique_cases newDoc idxs w :
  check_unique newDoc idxs w = (Ok tt, w)
  \/ exists f, check_unique newDoc idxs w = (Throw (DuplicateKeyError f), w).
Proof.
  unfold check_unique. induction idxs as [|[field ix] idxs IH]; simpl; [by left|].
  unfold mbind, M_bind, readW, throwM. simpl.
  destruct (unique ix); simpl.
  - destruct (negb (strict_eq _ VUndef) && Map_has _ (data ix)); simpl.
    + right. by eexists.
    + exact IH.
  - exact IH.
Qed.

Lemma check_unique_duplicate newDoc idxs w field ix :
  props_get field idxs = Some ix -> unique ix = true ->
  _getNestedValue (heap w) (Root newDoc) field <> VUndef ->
  Map_has (_getNestedValue (heap w) (Root newDoc) field) (data ix) = true ->
  exists f, check_unique newDoc idxs w = (Throw (DuplicateKeyError f), w).
Proof.
  intros Hget Hu Hv Hhas. unfold check_unique.
  induction idxs as [|[field' ix'] idxs IH]; simpl in *; [done|].
  unfold mbind, M_bind, readW, throwM. simpl.
  destruct (String.eqb field field') eqn:E.
  - apply String.eqb_eq in E as <-. injection Hget as ->.
    rewrite Hu, Hhas.
    destruct (strict_eq _ VUndef) eqn:E; [by apply strict_eq_eq in E|].
    simpl. by eexists.
  - destruct (unique ix'); simpl.
    + destruct (negb (strict_eq _ VUndef) && Map_has _ (data ix')); simpl.
      * by eexists.
      * by apply IH.
    + by apply IH.
Qed.

(** An [insertOne] that throws has appended nothing, indexed nothing and
    scheduled nothing. *)
Lemma insertOne_throw_unchanged name doc w e w' :
  insertOne name doc w = (Throw e, w') -> db w' = db w /\ disk w' = disk w.
Proof.
  unfold insertOne, new_Date, _generateId, Date_now_draw, randomBytes_draw,
    liftH, alloc, _indexes, readW, _data, set_data, _saveCollection, inM.
  unfold mbind, M_bind, mret, M_ret. simpl.
  match goal with
  | |- context [check_unique ?nd ?ix ?w0] =>
      destruct (check_unique_cases nd ix w0) as [->|[f ->]]
  end.
  - simpl. destruct (collections (db w) !! name) eqn:Hc; simpl.
    + destruct (indexes (db w) !! name); simpl; discriminate.
    + intros [= <- <-]. done.
  - intros [= <- <-]. done.
Qed.

(** An [insertOne] that returns has appended exactly the new document. *)
Lemma insertOne_ok_appends name doc w r w' :
  insertOne name doc w = (Ok r, w') ->
  exists d, collections (db w) !! name = Some d
            /\ collections (db w') !! name = Some (d ++ [snd r])
            /\ disk w' = disk w.
Proof.
  intros Hrun. revert Hrun.
  unfold insertOne, new_Date, _generateId, Date_now_draw, randomBytes_draw,
    liftH, alloc, _indexes, readW, _data, set_data, _saveCollection, inM.
  unfold mbind, M_bind, mret, M_ret. simpl.
  match goal with
  | |- context [check_unique ?nd ?ix ?w0] =>
      destruct (check_unique_cases nd ix w0) as [->|[f ->]]
  end; [|discriminate].
  simpl. destruct (collections (db w) !! name) as [d|] eqn:Hc; simpl; [|discriminate].
  intros Hrun. exists d. split; [done|].
  destruct (indexes (db w) !! name); simpl in Hrun; injection Hrun as <- <-; simpl;
    by rewrite lookup_insert_eq.
Qed.

Lemma insertMany_snoc name docs doc w :
  insertMany name (docs ++ [doc]) w
  = match insertMany name docs w with
    | (Ok ids, w1) =>
        match insertOne name doc w1 with
        | (Ok r, w2) => (Ok (ids ++ [fst r]), w2)
        | (Throw e, w2) => (Throw e, w2)
        end
    | (Throw e, w1) => (Throw e, w1)
    end.
Proof.
  unfold insertMany.
  assert (forall acc w,
    foldM (fun results d => result ← insertOne name d; mret (results ++ [fst result]))
          (docs ++ [doc]) acc w
    = match foldM (fun results d => result ← insertOne name d;
                                   mret (results ++ [fst result])) docs acc w with
      | (Ok ids, w1) =>
          match insertOne name doc w1 with
          | (Ok r, w2) => (Ok (ids ++ [fst r]), w2)
          | (Throw e, w2) => (Throw e, w2)
          end
      | (Throw e, w1) => (Throw e, w1)
      end) as Hgen; [|apply Hgen].
  induction docs as [|x docs IH]; intros acc w'; simpl.
  - rewrite !bindM_unfold.
    destruct (insertOne name doc w') as [[r|e] w2]; reflexivity.
  - rewrite !bindM_unfold.
    destruct (insertOne name x w') as [[r|e] w1]; [|reflexivity].
    apply IH.
Qed.

Lemma insertMany_throw_later name pre doc post w ids w1 e w2 :
  insertMany name pre w = (Ok ids, w1) ->
  insertOne name doc w1 = (Throw e, w2) ->
  insertMany name (pre ++ doc :: post) w = (Throw e, w2).
Proof.
  intros Hpre Hdoc. unfold insertMany in *. revert Hpre.
  set (step := fun (results : list value) (d : Doc) =>
                 result ← insertOne name d; mret (results ++ [fst result])).
  generalize (@nil value) as acc. revert w.
  induction pre as [|x pre IH]; intros w acc; simpl.
  - intros [= <- <-]. unfold step. rewrite !bindM_unfold. by rewrite Hdoc.
  - unfold step in *. rewrite !bindM_unfold.
    destruct (insertOne name x w) as [[r|e'] w']; simpl; [|discriminate].
    apply IH.
Qed.

Lemma insertMany_ok_appends name docs w ids w' d :
  collections (db w) !! name = Some d ->
  insertMany name docs w = (Ok ids, w') ->
  exists inserted, collections (db w') !! name = Some (d ++ inserted)
                   /\ length inserted = length docs.
Proof.
  unfold insertMany.
  set (step := fun (results : list value) (d : Doc) =>
                 result ← insertOne name d; mret (results ++ [fst result])).
  generalize (@nil value) as acc. revert w d.
  induction docs as [|x docs IH]; intros w d acc Hd; simpl.
  - intros [= <- <-]. exists []. by rewrite app_nil_r.
  - unfold step in *. rewrite !bindM_unfold.
    destruct (insertOne name x w) as [[r|e] w1] eqn:Hx; simpl; [|discriminate].
    apply insertOne_ok_appends in Hx as (d0 & Hd0 & Hd1 & _).
    rewrite Hd in Hd0. injection Hd0 as <-.
    intros Hrest. destruct (IH _ _ _ Hd1 Hrest) as (ins & Hins & Hlen).
    exists (snd r :: ins). rewrite <- app_assoc in Hins. simpl in *. auto.
Qed.
End Insert.

Lemma consistent_lookup {host : Host} h d idxs field ix :
  indexes_consistent h d idxs -> props_get field idxs = Some ix ->
  data ix = rebuild_data h d field.
Proof.
  unfold indexes_consistent.
  induction idxs as [|[f i] idxs IH]; simpl; [done|].
  intros [= Hd Hrest]. destruct (String.eqb field f) eqn:E.
  - apply String.eqb_eq in E as ->. by intros [= <-].
  - by apply IH.
Qed.

(** C3, as stated, fails for [insertMany]: the batch is rejected at its
    second element with the duplicate-key error, and the collection has
    grown by the first element. *)
Lemma C3_batch_partly_inserted :
  let before := snd (unique_email_setup (host := sample_host) empty_world) in
  let run := batch_with_duplicate (host := sample_host) before in
  fst run = Throw (DuplicateKeyError "email")
  /\ length <$> collections (db (snd run)) !! "c"
     <> length <$> collections (db before) !! "c".
Proof. cbv zeta. split; [vm_compute; reflexivity|]. vm_compute. discriminate. Qed.

(** What the stored document has on a field, in terms of the caller's
    document. *)
Lemma prop_next_document {host : Host} (w : World) (doc : Doc) (field : string) :
  NoDup (fst <$> doc) ->
  prop field (next_document w doc)
  = if String.eqb field "_id"
    then (if has_key "_id" doc then prop "_id" doc else VStr (next_id w))
    else if String.eqb field "createdAt" || String.eqb field "updatedAt"
    then (if truthy (prop field doc) then prop field doc
          else VRef (length (heap w)))
    else prop field doc.
Proof.
  intros Hnd. unfold next_document.
  destruct (String.eqb_spec field "_id") as [->|Hid].
  { unfold new_document. rewrite !prop_set. simpl.
    unfold prop. rewrite props_get_assign by done.
    destruct (props_get "_id" doc) as [v|] eqn:Hg.
    - assert (has_key "_id" doc = true) as -> by (apply has_key_true; by rewrite Hg).
      done.
    - assert (has_key "_id" doc = false) as -> by by apply has_key_false.
      done. }
  unfold new_document. rewrite !prop_set.
  destruct (String.eqb_spec field "updatedAt") as [->|Hu].
  { by rewrite orb_true_r. }
  destruct (String.eqb_spec field "createdAt") as [->|Hc]; [done|].
  simpl. unfold prop. rewrite props_get_assign by done. simpl.
  apply String.eqb_neq in Hid. rewrite Hid. by destruct (props_get field doc).
Qed.

(** C3, amended. The document that [insertOne(doc)] is about to store is
    [doc] under a generated [_id] (unless [doc] has an [_id] of its own),
    with [createdAt] and [updatedAt] set to the Date of the call (unless
    [doc] gives truthy ones), every other field as in [doc]; an [insertOne]
    that returns has appended that document to the collection and returns
    it with its [_id]. In a collection whose indexes are consistent with
    its documents: when the value of that document on a uniquely indexed
    top-level field, [_id] included, is not [undefined] and a document of
    the collection has the same value on the field, [insertOne] fails with
    a duplicate-key error and leaves documents, indexes, write buffer and
    files as they were. [insertMany] inserts its elements one at a time, so
    when an element fails, the call fails with that element's error and the
    store is the one reached after the elements before it, which stay
    inserted. *)
Theorem C3_insert_unique {host : Host} (name field : string) (w : World)
    (d : list Doc) (idxs : list (string * Index)) (ix : Index) (x doc : Doc) :
  collections (db w) !! name = Some d ->
  indexes (db w) !! name = Some idxs ->
  indexes_consistent (heap w) d idxs ->
  props_get field idxs = Some ix -> unique ix = true ->
  split_dot field = [field] ->
  x ∈ d ->
  prop field x = prop field (next_document w doc) ->
  prop field (next_document w doc) <> VUndef ->
  (exists f w', insertOne name doc w = (Throw (DuplicateKeyError f), w')
                /\ db w' = db w /\ disk w' = disk w)
  /\ (forall doc0 w0 r w0',
        insertOne name doc0 w0 = (Ok r, w0') ->
        snd r = next_document w0 doc0
        /\ fst r = prop "_id" (next_document w0 doc0)
        /\ exists d0, collections (db w0) !! name = Some d0
                      /\ collections (db w0') !! name
                         = Some (d0 ++ [next_document w0 doc0]))
  /\ (forall doc0 w0 f,
        NoDup (fst <$> doc0) ->
        prop f (next_document w0 doc0)
        = if String.eqb f "_id"
          then (if has_key "_id" doc0 then prop "_id" doc0 else VStr (next_id w0))
          else if String.eqb f "createdAt" || String.eqb f "updatedAt"
          then (if truthy (prop f doc0) then prop f doc0
                else VRef (length (heap w0)))
          else prop f doc0)
  /\ (forall pre later post ids w1 e w2,
        insertMany name pre w = (Ok ids, w1) ->
        insertOne name later w1 = (Throw e, w2) ->
        insertMany name (pre ++ later :: post) w = (Throw e, w2)
        /\ db w2 = db w1 /\ disk w2 = disk w1
        /\ exists inserted, collections (db w2) !! name = Some (d ++ inserted)
                            /\ length inserted = length pre).
Proof.
  intros Hd Hidxs Hcons Hix Huniq Htop Hx Hsame Hdef.
  split; [|split; [|split]].
  - assert (exists f w', insertOne name doc w = (Throw (DuplicateKeyError f), w')) as
      (f & w' & Hrun).
    { unfold next_document, next_id in Hsame, Hdef.
      unfold insertOne, new_Date, _generateId, Date_now_draw, randomBytes_draw,
        liftH, alloc, _indexes, readW.
      unfold mbind, M_bind, mret, M_ret. simpl. rewrite Hidxs. simpl.
      match goal with
      | |- context [check_unique ?nd idxs ?w0] =>
          destruct (check_unique_duplicate nd idxs w0 field ix) as [f ->]
      end; try done.
      - by rewrite getNested_top.
      - rewrite getNested_top by done.
        rewrite (consistent_lookup _ _ _ _ _ Hcons Hix). rewrite <- Hsame.
        rewrite <- (getNested_top (heap w) x field) by done.
        apply rebuild_data_covers; [done|].
        rewrite getNested_top by done. by rewrite Hsame.
      - by eexists _, _. }
    exists f, w'. split; [done|]. by apply insertOne_throw_unchanged in Hrun.
  - intros doc0 w0 r w0'. unfold next_document, next_id.
    unfold insertOne, new_Date, _generateId, Date_now_draw, randomBytes_draw,
      liftH, alloc, _indexes, readW, _data, set_data, _saveCollection, inM.
    unfold mbind, M_bind, mret, M_ret. simpl.
    match goal with
    | |- context [check_unique ?nd ?ix0 ?w1] =>
        destruct (check_unique_cases nd ix0 w1) as [Hc|[f Hc]]; rewrite Hc
    end; [|discriminate].
    simpl. destruct (collections (db w0) !! name) as [d0|] eqn:Hd0; simpl;
      [|discriminate].
    destruct (indexes (db w0) !! name) as [idxs0|] eqn:Hi0; simpl;
      intros [= <- <-]; simpl; (split; [done|]); (split; [done|]);
      exists d0; by rewrite lookup_insert_eq.
  - intros doc0 w0 f Hnd. by apply prop_next_document.
  - intros pre later post ids w1 e w2 Hpre Hlater.
    split; [by eapply insertMany_throw_later|].
    destruct (insertOne_throw_unchanged _ _ _ _ _ Hlater) as [Hdb Hdisk].
    split; [done|]. split; [done|]. rewrite Hdb.
    by eapply insertMany_ok_appends.
Qed.

Lemma C3_insert_unique_witness :
  let w := snd (unique_email_setup (host := sample_host) empty_world) in
  exists f w', insertOne (host := sample_host) "c" [("email", VStr "a@x")] w
               = (Throw (DuplicateKeyError f), w')
               /\ db w' = db w /\ disk w' = disk w.
Proof.
  cbv zeta.
  pose (w := snd (unique_email_setup (host := sample_host) empty_world)).
  pose (d := default [] (collections (db w) !! "c")).
  pose (idxs := default [] (indexes (db w) !! "c")).
  refine (proj1 (C3_insert_unique (host := sample_host) "c" "email" w d idxs
                   (default {| unique := false; data := [] |} (props_get "email" idxs))
                   (default [] (head d)) [("email", VStr "a@x")]
                   _ _ _ _ _ _ _ _ _));
    try (vm_compute; reflexivity); try (vm_compute; discriminate).
  vm_compute. apply elem_of_cons. by left.
Defined.

(** ** Updating *)

Lemma filterM_sublist {A} (f : A -> outcome bool) (l r : list A) :
  filterM f l = Ok r -> sublist r l.
Proof.
  revert r. induction l as [|x l IH]; simpl; intros r.
  - intros [= <-]. constructor.
  - destruct (f x) as [b|e]; simpl; [|lazy beta iota zeta; discriminate].
    destruct (filterM f l) as [r'|e]; simpl; [|lazy beta iota zeta; discriminate].
    intros [= <-]. destruct b; [apply sublist_skip|apply sublist_cons]; auto.
Qed.

Lemma filter_sublist {A} (f : A -> bool) (l : list A) : sublist (List.filter f l) l.
Proof.
  induction l as [|x l IH]; simpl; [constructor|].
  destruct (f x); [apply sublist_skip|apply sublist_cons]; auto.
Qed.

Lemma id_count_sublist v l d : sublist l d -> (id_count v l <= id_count v d)%nat.
Proof.
  unfold id_count. induction 1 as [|x l d _ IH|x l d _ IH]; simpl; [lia| |].
  - destruct (strict_eq (prop "_id" x) v); simpl; lia.
  - destruct (strict_eq (prop "_id" x) v); simpl; lia.
Qed.

Lemma id_count_insert v (d : list Doc) i x y :
  d !! i = Some x ->
  (id_count v d <= id_count v (<[i := y]> d)
                   + (if strict_eq (prop "_id" x) v then 1 else 0))%nat.
Proof.
  unfold id_count. revert i. induction d as [|z d IH]; intros i; [done|].
  destruct i as [|i]; simpl.
  - intros [= ->]. destruct (strict_eq (prop "_id" x) v),
      (strict_eq (prop "_id" y) v); simpl; lia.
  - intros Hi. specialize (IH i Hi).
    destruct (strict_eq (prop "_id" z) v); simpl; lia.
Qed.

Lemma findIndex_Some {A} (f : A -> bool) l i :
  findIndex f l = Some i -> exists x, l !! i = Some x /\ f x = true.
Proof.
  revert i. induction l as [|y l IH]; simpl; intros i; [done|].
  destruct (f y) eqn:E.
  - intros [= <-]. by exists y.
  - destruct (findIndex f l) as [j|]; simpl; [|done].
    intros [= <-]. by apply IH.
Qed.

Lemma findIndex_None {A} (f : A -> bool) l :
  findIndex f l = None -> List.filter f l = [].
Proof.
  induction l as [|y l IH]; simpl; [done|].
  destruct (f y); [done|].
  destruct (findIndex f l); simpl; [done|]. auto.
Qed.

Section Updating.
Context {host : Host}.

Lemma _data_Some name w d :
  collections (db w) !! name = Some d -> _data name w = (Ok d, w).
Proof. intros Hd. unfold _data. by rewrite Hd. Qed.

Lemma matchQuery_sublist name query w l w' :
  _matchQuery name query w = (Ok l, w') ->
  w' = w /\ exists d, collections (db w) !! name = Some d /\ sublist l d.
Proof.
  unfold _matchQuery, liftOM, _indexes, readW, _data, inM.
  rewrite !bindM_unfold.
  destruct (lit_entries query) as [entries|e]; [|lazy beta iota zeta; discriminate].
  destruct (Nat.eqb (length entries) 0).
  - destruct (collections (db w) !! name) as [d|]; [|lazy beta iota zeta; discriminate].
    intros [= <- <-]. split; [done|]. by exists d.
  - rewrite !bindM_unfold.
    destruct (List.find _ entries) as [[field v]|];
      rewrite !bindM_unfold;
      (destruct (collections (db w) !! name) as [d|]; [|lazy beta iota zeta; discriminate]).
    + destruct (filterM _ _) as [r|e] eqn:Hf; [|lazy beta iota zeta; discriminate].
      intros [= <- <-]. split; [done|]. exists d. split; [done|].
      apply filterM_sublist in Hf. etrans; [exact Hf|]. apply filter_sublist.
    + destruct (filterM _ _) as [r|e] eqn:Hf; [|lazy beta iota zeta; discriminate].
      intros [= <- <-]. split; [done|]. exists d. split; [done|].
      by apply filterM_sublist in Hf.
Qed.

Lemma find_no_options name query w :
  find name query no_options w = _matchQuery name query w.
Proof.
  unfold find. rewrite !bindM_unfold. simpl.
  by destruct (_matchQuery name query w) as [[l|e] w'].
Qed.

(** What [update_at] does to the collection and to [updatedAt]. *)
Lemma update_at_ok name index update w doc' w' d :
  collections (db w) !! name = Some d ->
  update_at name index update w = (Ok doc', w') ->
  collections (db w') !! name = Some (<[index := doc']> d)
  /\ draws w' = S (draws w)
  /\ exists l, prop "updatedAt" doc' = VRef l
               /\ heap w' !! l = Some (DateObj (Int (Date_now (draws w)))).
Proof.
  intros Hd. unfold update_at, _data, liftH, new_Date, Date_now_draw, alloc, set_data.
  unfold mbind, M_bind, mret, M_ret. simpl. rewrite Hd.
  destruct (_applyUpdate (default [] (d !! index)) update (heap w)) as [[r|e] h1];
    simpl; [|discriminate].
  rewrite Hd. intros [= <- <-]. simpl.
  rewrite lookup_insert_eq. split; [done|]. split; [done|].
  exists (length h1). rewrite prop_set. simpl. split; [done|].
  by apply list_lookup_middle.
Qed.

Lemma updateMany_body_found name update n doc w d index :
  collections (db w) !! name = Some d ->
  findIndex (fun x => strict_eq (prop "_id" x) (prop "_id" doc)) d = Some index ->
  updateMany_body name update n doc w
  = match update_at name index update w with
    | (Ok _, w1) => (Ok (S n), w1)
    | (Throw e, w1) => (Throw e, w1)
    end.
Proof.
  intros Hd Hfind. unfold updateMany_body. rewrite bindM_unfold.
  rewrite (_data_Some _ _ _ Hd), Hfind. by rewrite bindM_unfold.
Qed.

Lemma updateMany_loop name update rem :
  forall n w m w' d,
    collections (db w) !! name = Some d ->
    (forall x, x ∈ rem -> prop "_id" x <> VNum NaN) ->
    (forall v, v <> VNum NaN -> (id_count v rem <= id_count v d)%nat) ->
    foldM (updateMany_body name update) rem n w = (Ok m, w') ->
    m = (n + length rem)%nat.
Proof.
  induction rem as [|doc rem IH]; intros n w m w' d Hd Hnan Hcount; simpl.
  - intros [= <- <-]. lia.
  - rewrite bindM_unfold.
    assert (prop "_id" doc <> VNum NaN) as Hdoc.
    { apply Hnan. apply elem_of_cons. by left. }
    destruct (findIndex (fun x => strict_eq (prop "_id" x) (prop "_id" doc)) d)
      as [index|] eqn:Hfind.
    + rewrite (updateMany_body_found _ _ _ _ _ _ _ Hd Hfind).
      destruct (update_at name index update w) as [[doc'|e] w1] eqn:Hup;
        [|discriminate].
      apply (update_at_ok _ _ _ _ _ _ _ Hd) in Hup as (Hd1 & _ & _).
      apply findIndex_Some in Hfind as (x & Hx & Hid).
      intros Hrest.
      apply (IH _ _ _ _ _ Hd1) in Hrest; [simpl; lia| |].
      * intros y Hy. apply Hnan. apply elem_of_cons. by right.
      * intros v Hv. specialize (Hcount v Hv).
        pose proof (id_count_insert v d index x doc' Hx) as Hins.
        apply strict_eq_eq in Hid. rewrite Hid in Hins.
        unfold id_count in *. simpl in Hcount.
        destruct (strict_eq (prop "_id" doc) v); simpl in Hcount; lia.
    + exfalso. apply findIndex_None in Hfind.
      specialize (Hcount (prop "_id" doc) Hdoc).
      unfold id_count in Hcount. simpl in Hcount.
      rewrite strict_eq_refl in Hcount by done. rewrite Hfind in Hcount.
      simpl in Hcount. lia.
Qed.
End Updating.

Section UpdateCounts.
Context {host : Host}.

Lemma matchQuery_state name query w : snd (_matchQuery name query w) = w.
Proof.
  unfold _matchQuery, liftOM, _indexes, readW, _data, inM.
  unfold mbind, M_bind. simpl.
  destruct (lit_entries query) as [entries|e]; [|done].
  destruct (Nat.eqb (length entries) 0).
  - by destruct (collections (db w) !! name).
  - destruct (List.find _ entries) as [[field v]|];
      (destruct (collections (db w) !! name) as [d|]; [|done]); reflexivity.
Qed.

Lemma find_state name query options w : snd (find name query options w) = w.
Proof.
  unfold find. rewrite bindM_unfold.
  pose proof (matchQuery_state name query w) as Hq.
  destruct (_matchQuery name query w) as [[results|e] w1]; simpl in Hq; subst w1;
    [|done].
  rewrite bindM_unfold. unfold inM.
  destruct (lit_truthy (opt_sort options)).
  - destruct (_applySort (heap w) results (opt_sort options)) as [sorted|e]; [|done].
    destruct (lit_truthy (opt_projection options)); [|done].
    match goal with |- context [mapM ?f ?l] => by destruct (mapM f l) end.
  - unfold mret at 1, M_ret at 1.
    destruct (lit_truthy (opt_projection options)); [|done].
    match goal with |- context [mapM ?f ?l] => by destruct (mapM f l) end.
Qed.

Lemma findOne_state name query w : snd (findOne name query w) = w.
Proof.
  unfold findOne. rewrite bindM_unfold.
  pose proof (find_state name query
                {| opt_sort := LUndef; opt_skip := LUndef; opt_limit := LNum (Int 1);
                   opt_projection := LUndef |} w) as Hf.
  by destruct (find name query _ w) as [[results|e] w1].
Qed.

Lemma rebuildIndexes_ok name field w :
  exists w1, _rebuildIndexes name field w = (Ok tt, w1)
             /\ heap w1 = heap w /\ collections (db w1) = collections (db w).
Proof.
  unfold _rebuildIndexes. destruct (indexes (db w) !! name); by eexists.
Qed.

Lemma updateOne_ok name query update w r w' :
  updateOne name query update w = (Ok r, w') ->
  modifiedCount r = matchedCount r
  /\ (matchedCount r = 1%nat ->
      exists doc l, document r = Some doc /\ prop "updatedAt" doc = VRef l
                    /\ heap w' !! l = Some (DateObj (Int (Date_now (draws w))))).
Proof.
  unfold updateOne. rewrite bindM_unfold.
  pose proof (findOne_state name query w) as Hf.
  destruct (findOne name query w) as [[[doc|]|e] w1]; simpl in Hf; subst w1;
    [| |discriminate].
  2: { intros [= <- <-]. simpl. split; [done|discriminate]. }
  rewrite bindM_unfold. unfold _data at 1.
  destruct (collections (db w) !! name) as [d|] eqn:Hd; [|discriminate].
  match goal with
  | |- context [findIndex ?f d] => destruct (findIndex f d) as [index|]
  end.
  2: { intros [= <- <-]. simpl. split; [done|discriminate]. }
  rewrite bindM_unfold.
  destruct (update_at name index update w) as [[doc'|e] w2] eqn:Hup; [|discriminate].
  apply (update_at_ok _ _ _ _ _ _ _ Hd) in Hup as (_ & _ & l & Hl & Hheap).
  rewrite bindM_unfold.
  destruct (rebuildIndexes_ok name None w2) as (w3 & -> & Hh3 & _).
  unfold _saveCollection. rewrite bindM_unfold. intros [= <- <-]. simpl.
  split; [done|]. intros _. exists doc', l. rewrite Hh3. auto.
Qed.

Lemma updateMany_ok name query update w r w' :
  updateMany name query update w = (Ok r, w') ->
  (forall d x, collections (db w) !! name = Some d -> x ∈ d ->
               prop "_id" x <> VNum NaN) ->
  modifiedCount r = matchedCount r
  /\ exists docs, _matchQuery name query w = (Ok docs, w)
                  /\ matchedCount r = length docs.
Proof.
  unfold updateMany. rewrite bindM_unfold, find_no_options.
  destruct (_matchQuery name query w) as [[docs|e] w1] eqn:Hq; [|discriminate].
  apply matchQuery_sublist in Hq as (-> & d & Hd & Hsub).
  rewrite bindM_unfold.
  destruct (foldM (updateMany_body name update) docs 0%nat w) as [[modified|e] w2]
    eqn:Hloop; [|discriminate].
  intros Hrun Hnan.
  apply (updateMany_loop _ _ _ _ _ _ _ d Hd) in Hloop.
  - assert (matchedCount r = length docs /\ modifiedCount r = modified) as [Hm1 Hm2].
    { revert Hrun. rewrite bindM_unfold.
      destruct (Nat.ltb 0 modified).
      - rewrite bindM_unfold.
        destruct (rebuildIndexes_ok name None w2) as (w3 & -> & _).
        unfold _saveCollection. by intros [= <- <-].
      - by intros [= <- <-]. }
    split; [lia|]. by exists docs.
  - intros x Hx. apply (Hnan d); [done|]. eapply elem_of_sublist; eauto.
  - intros v _. by apply id_count_sublist.
Qed.
End UpdateCounts.

(** ** Queries and indexes *)

Lemma everyM_true {A} (f : A -> outcome bool) (l : list A) x :
  everyM f l = Ok true -> x ∈ l -> f x = Ok true.
Proof.
  induction l as [|y l IH]; simpl; [by intros _ ?%elem_of_nil|].
  destruct (f y) as [[]|e] eqn:Hy; simpl; try discriminate.
  intros Hl [->|Hx]%elem_of_cons; auto.
Qed.

Lemma filterM_all_true {A} (f : A -> outcome bool) (l : list A) :
  (forall x, x ∈ l -> f x = Ok true) -> filterM f l = Ok l.
Proof.
  induction l as [|y l IH]; simpl; intros Hall; [done|].
  rewrite (Hall y) by (apply elem_of_cons; by left). simpl.
  rewrite IH; [done|]. intros x Hx. apply Hall, elem_of_cons. by right.
Qed.

(** Dropping first the elements the predicate would reject anyway does not
    change what [filter] returns. *)
Lemma filterM_prefilter {A} (f : A -> outcome bool) (g : A -> bool) (l r : list A) :
  (forall x, x ∈ l -> f x = Ok true -> g x = true) ->
  filterM f l = Ok r -> filterM f (List.filter g l) = Ok r.
Proof.
  revert r. induction l as [|y l IH]; simpl; intros r Himp; [done|].
  destruct (f y) as [b|e] eqn:Hy; simpl; [|discriminate].
  destruct (filterM f l) as [r'|e] eqn:Hl; simpl; [|discriminate].
  intros [= <-].
  assert (filterM f (List.filter g l) = Ok r') as Hrec.
  { apply IH; [|done]. intros x Hx. apply Himp, elem_of_cons. by right. }
  destruct (g y) eqn:Hg; simpl.
  - by rewrite Hy, Hrec.
  - destruct b; [|done].
    rewrite Himp in Hg; [done| |done]. apply elem_of_cons. by left.
Qed.

Lemma find_some_elem {A} (f : A -> bool) (l : list A) x :
  List.find f l = Some x -> x ∈ l /\ f x = true.
Proof.
  intros [Hin Hf]%find_some. split; [by apply list_elem_of_In|done].
Qed.

Section QueryIndex.
Context {host : Host}.

(** A document that passes an equality condition on a primitive holds that
    primitive at the field. *)
Lemma match_entry_primitive rec h doc field v k :
  lit_typeof_object v = false -> lit_prim v = Some k ->
  match_entry rec h doc field v = Ok true ->
  _getNestedValue h doc field = k /\ k <> VNum NaN.
Proof.
  intros Hobj Hk. unfold match_entry.
  destruct (String.eqb field "$or"); [by destruct v|].
  destruct (String.eqb field "$and"); [by destruct v|].
  unfold strict_eq_lit.
  destruct v; simpl in *; try discriminate; injection Hk as Hk; subst k;
    intros [= Heq]; (split; [by apply strict_eq_eq in Heq|]);
    intros Hnan; try discriminate Hnan; injection Hnan as ->;
    unfold strict_eq in Heq;
    by destruct (_getNestedValue h doc field) as [| | |[]| |].
Qed.

(** The positive part of C5: on an index state that is what
    [_rebuildIndexes] builds, and for a filter whose indexed equality
    condition is not [undefined], a scan that returns is what the indexed
    path returns. *)
Lemma matchQuery_agrees_with_scan name ps w d l :
  collections (db w) !! name = Some d ->
  indexes_consistent (heap w) d (default [] (indexes (db w) !! name)) ->
  (forall p, List.find (fun p => negb (lit_typeof_object (snd p))
                                 && has_key (fst p) (default [] (indexes (db w) !! name)))
                       ps = Some p -> snd p <> LUndef) ->
  filterM (fun doc => _matchDocument (heap w) (Root doc) (LObj ps)) d = Ok l ->
  _matchQuery name (LObj ps) w = (Ok l, w).
Proof.
  intros Hd Hcons Hdef Hscan.
  unfold _matchQuery, liftOM, _indexes, readW, inM. simpl lit_entries.
  rewrite bindM_unfold. cbv beta iota.
  destruct ps as [|p0 ps0] eqn:Hps.
  { simpl. rewrite (_data_Some _ _ _ Hd). f_equal.
    rewrite filterM_all_true in Hscan by done. congruence. }
  rewrite <- Hps in *. replace (Nat.eqb (length ps) 0) with false by by subst ps.
  rewrite bindM_unfold. cbv beta iota.
  destruct (List.find _ ps) as [[field v]|] eqn:Hfind.
  - rewrite bindM_unfold, (_data_Some _ _ _ Hd). cbv beta iota. f_equal.
    apply find_some_elem in Hfind as Hf. destruct Hf as [Hin Hcond].
    apply andb_prop in Hcond as [Hprim Hkey]. simpl in Hprim, Hkey.
    apply negb_true_iff in Hprim.
    apply has_key_true in Hkey as [ix Hix].
    assert (exists k, lit_prim v = Some k) as [k Hk] by (destruct v; by eauto).
    rewrite Hix, Hk.
    apply filterM_prefilter; [|done].
    intros doc Hdoc Hmatch. simpl in Hmatch.
    pose proof (everyM_true _ _ _ Hmatch Hin) as Hentry. simpl in Hentry.
    apply (match_entry_primitive _ _ _ _ _ k Hprim Hk) in Hentry as [Hval Hnan].
    rewrite (consistent_lookup _ _ _ _ _ Hcons Hix). rewrite <- Hval.
    apply rebuild_data_covers; [done|].
    rewrite Hval. intros ->. apply (Hdef _ eq_refl). simpl.
    by destruct v.
  - rewrite bindM_unfold, (_data_Some _ _ _ Hd). cbv beta iota. by f_equal.
Qed.
End QueryIndex.

(** C5: with an index on [email], held consistent with the data,
    [find({ email: undefined })] returns nothing; without the index the same
    query on the same documents returns the document that has no [email]. *)
Theorem C5_undefined_filter_differs :
  fst (undefined_filter (host := sample_host) true empty_world) = Ok []
  /\ (exists a, fst (undefined_filter (host := sample_host) false empty_world) = Ok [a]
                /\ prop "name" a = VStr "A" /\ prop "email" a = VUndef)
  /\ (let w := snd (undefined_filter (host := sample_host) true empty_world) in
      indexes_consistent (host := sample_host) (heap w)
        (default [] (collections (db w) !! "c"))
        (default [] (indexes (db w) !! "c"))
      /\ has_key "email" (default [] (indexes (db w) !! "c")) = true).
Proof.
  split; [vm_compute; reflexivity|]. split.
  - eexists. split; [vm_compute; reflexivity|]. split; reflexivity.
  - cbv zeta. split; vm_compute; reflexivity.
Qed.

(** ** Validation *)

Section Validation.
Context {host : Host}.

Lemma applyDefaults_plain m data w :
  Forall (fun p => exists v, default_ (field_rules (snd p)) = Default v)
         (definition (schema m)) ->
  exists doc, _applyDefaults m data w = (Ok doc, w).
Proof.
  unfold _applyDefaults. generalize (props_assign [] data) as result.
  induction (definition (schema m)) as [|p defs IH]; intros result Hall; simpl.
  - by eexists.
  - apply Forall_cons in Hall as [[v Hv] Hall]. rewrite bindM_unfold.
    destruct (strict_eq (prop (fst p) result) VUndef).
    + rewrite Hv. unfold mret at 1, M_ret at 1. by apply IH.
    + unfold mret at 1, M_ret at 1. by apply IH.
Qed.

(** The positive part of C6: with plain defaults and no hooks, a [create]
    that fails validation throws the aggregate of the violations that
    [_validate] records, field by field, and leaves the process as it was:
    nothing is inserted, indexed or scheduled. *)
Lemma create_invalid_unchanged m data w errors w' :
  Forall (fun p => exists v, default_ (field_rules (snd p)) = Default v)
         (definition (schema m)) ->
  props_get "save" (preHooks (schema m)) = None ->
  props_get "save" (postHooks (schema m)) = None ->
  create m data w = (Throw (ValidationError errors), w') ->
  w' = w
  /\ exists doc,
       errors = List.concat
                  (List.map (fun p => validate_field (heap w) doc (fst p)
                                        (field_rules (snd p)))
                            (definition (schema m)))
       /\ errors <> [].
Proof.
  intros Hplain Hpre Hpost. unfold create. rewrite bindM_unfold.
  destruct (applyDefaults_plain m data w Hplain) as [doc0 ->].
  rewrite Hpre, Hpost. simpl. unfold inM, _validate.
  unfold mbind, M_bind, mret, M_ret. cbv beta iota.
  match goal with |- context [length ?e] => set (errs := e) end.
  destruct (Nat.ltb 0 (length errs)) eqn:Hlen.
  - intros [= <- <-]. split; [done|]. eexists. split; [reflexivity|].
    intros Hnil. apply Nat.ltb_lt in Hlen. 
    rewrite Hnil in Hlen. simpl in Hlen. lia.
  - destruct (insertOne (collection_ m) (_transform m doc0) w) as [[r|e] w1] eqn:Hins.
    + discriminate.
    + intros [= -> <-]. exfalso. revert Hins.
      unfold insertOne, new_Date, _generateId, Date_now_draw, randomBytes_draw,
        liftH, alloc, _indexes, readW, _data, set_data, _saveCollection, inM.
      unfold mbind, M_bind, mret, M_ret. simpl.
      match goal with
      | |- context [check_unique ?nd ?ix ?w0] =>
          destruct (check_unique_cases nd ix w0) as [->|[f ->]]
      end; [|discriminate].
      simpl. destruct (collections (db w) !! collection_ m); simpl; [|discriminate].
      destruct (indexes (db w) !! collection_ m); discriminate.
Qed.
End Validation.

(** C6: the [name] rule of the User schema bounds the length by
    [[100, '...']]; a name of 101 characters violates it, yet [create]
    raises no validation error and inserts the document. *)
Theorem C6_overlong_name_inserted :
  let run := overlong_create (host := sample_host) empty_world in
  String.length long_name = 101%nat
  /\ (exists doc, fst run = Ok doc /\ prop "name" doc = VStr long_name)
  /\ length <$> collections (db (snd run)) !! "users" = Some 1%nat
  /\ validate_field (host := sample_host) [] [("name", VStr long_name)] "name"
       user_name_rules = [].
Proof.
  cbv zeta. split; [vm_compute; reflexivity|]. split.
  - eexists. split; [vm_compute; reflexivity|]. vm_compute. reflexivity.
  - split; vm_compute; reflexivity.
Qed.

(** ** Snapshots *)

Lemma snapshot_fuel_prim n h v :
  (forall l, v <> VRef l) -> snapshot_fuel n h v = snapshot_fuel 0 h v.
Proof. intros Hv. destruct v; try by destruct n. by destruct (Hv l). Qed.

(** More fuel and a longer heap leave a snapshot as it is. *)
Lemma snapshot_fuel_mono n :
  forall h v c ext m,
    snapshot_fuel n h v = Some c -> (n <= m)%nat ->
    snapshot_fuel m (h ++ ext) v = Some c.
Proof.
  induction n as [|n IH]; intros h v c ext m Hs Hle.
  - destruct v; try (by destruct m); done.
  - destruct v; try (by destruct m). destruct m as [|m]; [lia|].
    simpl in *. destruct (h !! l) as [o|] eqn:Hl; [|done].
    rewrite (lookup_app_l_Some _ _ _ _ Hl).
    destruct o as [ps|es|t]; [| |done].
    + destruct (mapM _ ps) as [ls|] eqn:Hm; [|done]. simpl in Hs.
      injection Hs as <-.
      apply mapM_Some_1 in Hm.
      erewrite mapM_Some_2; [done|].
      eapply Forall2_impl; [exact Hm|]. intros p q Hp. simpl in *.
      destruct (snapshot_fuel n h (snd p)) as [c|] eqn:Hc; [|done].
      erewrite IH; [exact Hp|exact Hc|lia].
    + destruct (mapM _ es) as [ls|] eqn:Hm; [|done]. simpl in Hs.
      injection Hs as <-.
      apply mapM_Some_1 in Hm.
      erewrite mapM_Some_2; [done|].
      eapply Forall2_impl; [exact Hm|]. intros p q Hp. simpl in *.
      eapply IH; [exact Hp|lia].
Qed.

Lemma snapshot_extend h v c ext :
  snapshot h v = Some c -> snapshot (h ++ ext) v = Some c.
Proof.
  unfold snapshot. intros Hs. eapply snapshot_fuel_mono; [exact Hs|].
  rewrite length_app. lia.
Qed.

Lemma snapshot_doc_extend h d ps ext :
  snapshot_doc h d = Some ps -> snapshot_doc (h ++ ext) d = Some ps.
Proof.
  unfold snapshot_doc. intros Hm%mapM_Some_1. apply mapM_Some_2.
  eapply Forall2_impl; [exact Hm|]. intros p q Hp. simpl in *.
  destruct (snapshot h (snd p)) as [c|] eqn:Hc; [|done].
  by rewrite (snapshot_extend _ _ _ _ Hc).
Qed.

(** What [mapH] of an allocating function builds, element by element. *)
Lemma mapH_alloc_snapshot {A} (f : A -> H value) (g : A -> lit) (l : list A) :
  Forall (fun x => forall h, exists v ext n,
            f x h = (Ok v, h ++ ext) /\ (n <= length ext)%nat
            /\ snapshot_fuel n (h ++ ext) v = Some (g x)) l ->
  forall h, exists vs ext n,
    mapH f l h = (Ok vs, h ++ ext) /\ (n <= length ext)%nat
    /\ Forall2 (fun v x => snapshot_fuel n (h ++ ext) v = Some (g x)) vs l.
Proof.
  induction 1 as [|x l Hx _ IH]; intros h; simpl.
  - exists [], [], 0%nat. rewrite app_nil_r. auto.
  - unfold mbind, H_bind.
    destruct (Hx h) as (v & e1 & n1 & -> & Hn1 & Hs1).
    destruct (IH (h ++ e1)) as (vs & e2 & n2 & -> & Hn2 & Hs2).
    exists (v :: vs), (e1 ++ e2), (n1 `max` n2)%nat.
    rewrite app_assoc. simpl. split; [done|]. split.
    { rewrite length_app. lia. }
    constructor.
    + eapply snapshot_fuel_mono; [exact Hs1|lia].
    + eapply Forall2_impl; [exact Hs2|]. intros y z Hy. simpl in *.
      rewrite <- (app_nil_r ((h ++ e1) ++ e2)).
      eapply snapshot_fuel_mono; [exact Hy|lia].
Qed.

(** A literal built in memory reads back as itself. *)
Lemma alloc_lit_snapshot (c : lit) :
  forall h, exists v ext n,
    alloc_lit c h = (Ok v, h ++ ext) /\ (n <= length ext)%nat
    /\ snapshot_fuel n (h ++ ext) v = Some c.
Proof.
  induction c as [| | b | x | s | t | es IH | ps IH] using lit_nested_ind;
    intros h; simpl;
    try (eexists _, [], 0%nat; rewrite app_nil_r; by auto).
  - exists (VRef (length h)), [DateObj t], 1%nat. split; [done|]. split; [simpl; lia|].
    cbn [snapshot_fuel]. by rewrite list_lookup_middle.
  - unfold mbind, H_bind.
    destruct (mapH_alloc_snapshot alloc_lit id es IH h) as (vs & e1 & n & -> & Hn & Hs).
    exists (VRef (length (h ++ e1))), (e1 ++ [Arr vs]), (S n).
    unfold alloc. rewrite app_assoc. split; [done|]. split.
    { rewrite length_app. simpl. lia. }
    cbn [snapshot_fuel].
    rewrite list_lookup_middle by done.
    erewrite mapM_Some_2; [done|].
    eapply Forall2_impl; [exact Hs|]. intros v e Hv. simpl in *.
    eapply snapshot_fuel_mono; [exact Hv|lia].
  - unfold mbind, H_bind.
    match goal with
    | |- context [mapH ?f ps h] => set (alloc_prop := f)
    end.
    assert (exists vs e1 n,
               mapH alloc_prop ps h = (Ok vs, h ++ e1) /\ (n <= length e1)%nat
               /\ Forall2 (fun v p => fst v = fst p
                                      /\ snapshot_fuel n (h ++ e1) (snd v) = Some (snd p))
                          vs ps) as (vs & e1 & n & -> & Hn & Hs).
    { clear -IH. revert h. induction IH as [|p ps Hp _ IHps]; intros h; simpl.
      - exists [], [], 0%nat. rewrite app_nil_r. auto.
      - unfold mbind, H_bind. unfold alloc_prop at 1.
        destruct (Hp h) as (v & e1 & n1 & -> & Hn1 & Hs1).
        unfold mret, H_ret.
        destruct (IHps (h ++ e1)) as (vs & e2 & n2 & -> & Hn2 & Hs2).
        exists ((fst p, v) :: vs), (e1 ++ e2), (n1 `max` n2)%nat.
        rewrite app_assoc. split; [done|]. split.
        { rewrite length_app. lia. }
        constructor.
        + split; [done|]. simpl. eapply snapshot_fuel_mono; [exact Hs1|lia].
        + eapply Forall2_impl; [exact Hs2|]. intros y z [Hk Hy]. split; [done|].
          rewrite <- (app_nil_r ((h ++ e1) ++ e2)).
          eapply snapshot_fuel_mono; [exact Hy|lia]. }
    exists (VRef (length (h ++ e1))), (e1 ++ [Obj vs]), (S n).
    unfold alloc. rewrite app_assoc. split; [done|]. split.
    { rewrite length_app. simpl. lia. }
    cbn [snapshot_fuel].
    rewrite list_lookup_middle by done.
    erewrite mapM_Some_2; [done|].
    eapply Forall2_impl; [exact Hs|]. intros v p [Hk Hv]. simpl in *.
    erewrite snapshot_fuel_mono; [|exact Hv|lia]. simpl. rewrite Hk.
    by destruct p.
Qed.

(** ** File names *)

Lemma string_length_append (a b : string) :
  String.length (a +:+ b) = (String.length a + String.length b)%nat.
Proof. induction a as [|c a IH]; simpl; [done|]. by rewrite IH. Qed.

Lemma string_append_inj_l (a b s : string) : a +:+ s = b +:+ s -> a = b.
Proof.
  revert b. induction a as [|c a IH]; intros [|c' b] Heq; simpl in *.
  - done.
  - apply (f_equal String.length) in Heq.
    rewrite !string_length_append in Heq. simpl in Heq. lia.
  - apply (f_equal String.length) in Heq.
    rewrite !string_length_append in Heq. simpl in Heq. lia.
  - injection Heq as -> Heq. f_equal. by apply IH.
Qed.

Lemma substring_all (s : string) : String.substring 0 (String.length s) s = s.
Proof. induction s as [|c s IH]; simpl; [done|]. by rewrite IH. Qed.

Lemma substring_append_suffix (a s : string) :
  String.substring (String.length a) (String.length s) (a +:+ s) = s.
Proof. induction a as [|c a IH]; simpl; [apply substring_all|done]. Qed.

Lemma endsWith_json (name : string) : endsWith (name +:+ ".json") ".json" = true.
Proof.
  unfold endsWith. rewrite string_length_append.
  apply andb_true_intro. split.
  - apply Nat.leb_le. lia.
  - replace (String.length name + String.length ".json" - String.length ".json")%nat
      with (String.length name) by lia.
    rewrite substring_append_suffix. apply String.eqb_refl.
Qed.

Lemma startsWith_underscore_json (name : string) :
  startsWith_underscore (name +:+ ".json") = startsWith_underscore name.
Proof. by destruct name. Qed.

(** ** Flushing and loading *)

Section Persist.
Context {host : Host}.

Lemma flush_writes name (w : World) docs ls :
  collections (db w) !! name = Some docs ->
  has_key name (writeBuffer (db w)) = true ->
  mapM (snapshot_doc (heap w)) docs = Some ls ->
  file_name name = true ->
  disk (snd (flush w)) !! (name +:+ ".json")
  = Some (DocsFile (List.map doc_to_json ls)).
Proof.
  intros Hd Hkey Hsnap Hfn. unfold flush, inM, _flushWrites.
  unfold mbind, M_bind. simpl.
  assert (name ∈ List.map fst (writeBuffer (db w))) as Hin.
  { apply has_key_true in Hkey as [b Hb]. clear -Hb.
    induction (writeBuffer (db w)) as [|[k v] l IH]; simpl in *; [done|].
    destruct (String.eqb name k) eqn:E.
    - apply String.eqb_eq in E as ->. apply elem_of_cons. by left.
    - apply elem_of_cons. right. by apply IH. }
  revert Hin. generalize (List.map fst (writeBuffer (db w))) as names.
  generalize (disk w) as dsk.
  assert (forall names (dsk : gmap string file),
            name ∈ names \/ dsk !! (name +:+ ".json")
                             = Some (DocsFile (List.map doc_to_json ls)) ->
            fold_left
              (fun (dsk : gmap string file) (name : string) =>
                 match collections (db w) !! name with
                 | Some docs =>
                     match mapM (snapshot_doc (heap w)) docs with
                     | Some ls =>
                         if file_name name
                         then <[name +:+ ".json" := DocsFile (List.map doc_to_json ls)]> dsk
                         else dsk
                     | None => dsk
                     end
                 | None => dsk
                 end) names dsk !! (name +:+ ".json")
            = Some (DocsFile (List.map doc_to_json ls))) as Hgen.
  { induction names as [|n names IH]; intros dsk [Hin|Hdsk]; simpl.
    - by apply elem_of_nil in Hin.
    - done.
    - apply elem_of_cons in Hin as [<-|Hin].
      + apply IH. right. rewrite Hd, Hsnap, Hfn. apply lookup_insert_eq.
      + apply IH. by left.
    - apply IH. right.
      destruct (decide (n = name)) as [->|Hne].
      + rewrite Hd, Hsnap, Hfn. apply lookup_insert_eq.
      + destruct (collections (db w) !! n) as [docs'|]; [|done].
        destruct (mapM (snapshot_doc (heap w)) docs'); [|done].
        destruct (file_name n); [|done].
        rewrite lookup_insert_ne; [done|].
        intros Heq. by apply string_append_inj_l in Heq. }
  intros dsk names Hin. apply Hgen. by left.
Qed.

Lemma mapH_cons {A B} (f : A -> H B) (x : A) (l : list A) (h : list object) :
  mapH f (x :: l) h
  = match f x h with
    | (Ok y, h1) =>
        match mapH f l h1 with
        | (Ok ys, h2) => (Ok (y :: ys), h2)
        | (Throw e, h2) => (Throw e, h2)
        end
    | (Throw e, h1) => (Throw e, h1)
    end.
Proof.
  simpl. unfold mbind, H_bind. destruct (f x h) as [[y|e] h1]; [|done].
  by destruct (mapH f l h1) as [[ys|e] h2].
Qed.

Lemma alloc_doc_snapshot (ps : list (string * lit)) (h : list object) :
  exists doc ext,
    alloc_doc ps h = (Ok doc, h ++ ext)
    /\ snapshot_doc (h ++ ext) doc = Some ps.
Proof.
  assert (exists vs e1 n,
             alloc_doc ps h = (Ok vs, h ++ e1) /\ (n <= length e1)%nat
             /\ Forall2 (fun v p => fst v = fst p
                                    /\ snapshot_fuel n (h ++ e1) (snd v) = Some (snd p))
                        vs ps) as (vs & e1 & n & Hrun & Hn & Hs).
  { unfold alloc_doc. revert h. induction ps as [|p ps IH]; intros h.
    - exists [], [], 0%nat. rewrite app_nil_r. simpl. auto.
    - rewrite mapH_cons. unfold mbind at 1, H_bind at 1.
      destruct (alloc_lit_snapshot (snd p) h) as (v & e1 & n1 & -> & Hn1 & Hs1).
      unfold mret at 1, H_ret at 1.
      destruct (IH (h ++ e1)) as (vs & e2 & n2 & -> & Hn2 & Hs2).
      exists ((fst p, v) :: vs), (e1 ++ e2), (n1 `max` n2)%nat.
      rewrite app_assoc. split; [done|]. split.
      { rewrite length_app. lia. }
      constructor.
      + split; [done|]. simpl. eapply snapshot_fuel_mono; [exact Hs1|lia].
      + eapply Forall2_impl; [exact Hs2|]. intros y z [Hk Hy]. split; [done|].
        rewrite <- (app_nil_r ((h ++ e1) ++ e2)).
        eapply snapshot_fuel_mono; [exact Hy|lia]. }
  exists vs, e1. split; [done|]. unfold snapshot_doc.
  apply mapM_Some_2. eapply Forall2_impl; [exact Hs|].
  intros v p [Hk Hv].
  assert (snapshot (h ++ e1) (snd v) = Some (snd p)) as ->.
  { unfold snapshot. rewrite <- (app_nil_r (h ++ e1)) at 2.
    eapply snapshot_fuel_mono; [exact Hv|rewrite length_app; lia]. }
  simpl. rewrite Hk. by destruct p.
Qed.

Lemma alloc_docs_snapshot (docs : list (list (string * lit))) (h : list object) :
  exists parsed ext,
    mapH alloc_doc docs h = (Ok parsed, h ++ ext)
    /\ mapM (snapshot_doc (h ++ ext)) parsed = Some docs.
Proof.
  revert h. induction docs as [|ps docs IH]; intros h.
  - exists [], []. by rewrite app_nil_r.
  - rewrite mapH_cons.
    destruct (alloc_doc_snapshot ps h) as (doc & e1 & -> & Hs1).
    destruct (IH (h ++ e1)) as (parsed & e2 & -> & Hs2).
    exists (doc :: parsed), (e1 ++ e2). rewrite app_assoc. split; [done|].
    apply mapM_Some_2. constructor.
    + by apply snapshot_doc_extend.
    + by apply mapM_Some_1.
Qed.
End Persist.

(** ** Collection names and their files *)

Lemma prefix_app (p s : string) :
  String.prefix p s = true -> exists y, s = p +:+ y.
Proof.
  revert s. induction p as [|a p IH]; intros s Hp.
  - by exists s.
  - destruct s as [|b s]; simpl in Hp; [done|].
    destruct (ascii_dec a b) as [->|]; [|done].
    destruct (IH s Hp) as [y ->]. by exists y.
Qed.

Lemma prefix_json_app (s : string) :
  String.prefix ".json" (s +:+ ".json") = true ->
  s = "" \/ String.prefix ".json" s = true.
Proof.
  destruct s as [|c1 [|c2 [|c3 [|c4 [|c5 [|c6 s]]]]]];
    cbn [String.append String.prefix]; auto;
    repeat (match goal with
            | |- context [ascii_dec ?a ?b] =>
                destruct (ascii_dec a b) as [Heq|];
                [try discriminate Heq; subst|discriminate]
            end; cbn [String.append String.prefix]); auto.
Qed.

Lemma append_cons (c : ascii) (a b : string) :
  String c a +:+ b = String c (a +:+ b).
Proof. reflexivity. Qed.

Lemma string_includes_cons (c : ascii) (hay needle : string) :
  string_includes (String c hay) needle
  = String.prefix needle (String c hay) || string_includes hay needle.
Proof. reflexivity. Qed.

Lemma replace_json_cons (c : ascii) (s : string) :
  replace_json (String c s)
  = if String.prefix ".json" (String c s)
    then String.substring 5 (String.length (String c s) - 5) (String c s)
    else String c (replace_json s).
Proof. reflexivity. Qed.

Lemma string_includes_json (a : string) :
  string_includes (a +:+ ".json") ".json" = true.
Proof.
  induction a as [|c a IH]; [done|].
  rewrite append_cons, string_includes_cons, IH. apply orb_true_r.
Qed.

Lemma replace_json_eq (s : string) :
  replace_json s
  = if String.prefix ".json" s
    then String.substring 5 (String.length s - 5) s
    else match s with
         | EmptyString => EmptyString
         | String c s' => String c (replace_json s')
         end.
Proof. by destruct s. Qed.

Lemma prefix_app_true (p y : string) : String.prefix p (p +:+ y) = true.
Proof.
  induction p as [|a p IH]; [by destruct y|].
  rewrite append_cons. simpl. by destruct (ascii_dec a a).
Qed.

Lemma replace_json_prefix (y : string) :
  replace_json (".json" +:+ y) = y.
Proof.
  rewrite replace_json_eq, prefix_app_true, string_length_append.
  replace (String.length ".json" + String.length y - 5)%nat
    with (String.length y) by (simpl; lia).
  apply (substring_append_suffix ".json" y).
Qed.

(** The file of a collection whose name has no [.json] in it reads as
    that collection. *)
Lemma replace_json_app (name : string) :
  string_includes name ".json" = false ->
  replace_json (name +:+ ".json") = name.
Proof.
  induction name as [|c name IH]; intros Hn; [done|].
  rewrite string_includes_cons in Hn. apply orb_false_elim in Hn as [Hp Hn].
  rewrite append_cons, replace_json_cons.
  destruct (String.prefix ".json" (String c (name +:+ ".json"))) eqn:E.
  - apply (prefix_json_app (String c name)) in E as [E|E]; [done|congruence].
  - f_equal. by apply IH.
Qed.

(** And no other file does. *)
Lemma replace_json_only (x name : string) :
  string_includes name ".json" = false ->
  replace_json (x +:+ ".json") = name -> x = name.
Proof.
  revert name. induction x as [|c x IH]; intros name Hn Hr.
  - by rewrite <- Hr.
  - destruct (String.prefix ".json" (String c x +:+ ".json")) eqn:E.
    + apply prefix_json_app in E as [E|E]; [done|].
      apply prefix_app in E as [y Hy]. rewrite Hy in Hr.
      change ((".json" +:+ y) +:+ ".json") with (".json" +:+ (y +:+ ".json")) in Hr.
      rewrite replace_json_prefix in Hr.
      rewrite <- Hr, string_includes_json in Hn. done.
    + rewrite append_cons in E, Hr. rewrite replace_json_cons, E in Hr.
      destruct name as [|c' name]; [done|]. injection Hr as <- Hr.
      rewrite string_includes_cons in Hn. apply orb_false_elim in Hn as [_ Hn].
      f_equal. by apply IH.
Qed.

Lemma substring_split (n : nat) :
  forall s, (n <= String.length s)%nat ->
    s = String.substring 0 n s +:+ String.substring n (String.length s - n) s.
Proof.
  induction n as [|n IH]; intros s Hn.
  - rewrite Nat.sub_0_r, substring_all. by destruct s.
  - destruct s as [|c s]; simpl in *; [lia|]. rewrite append_cons.
    f_equal. apply IH. lia.
Qed.

Lemma endsWith_app (f suffix : string) :
  endsWith f suffix = true -> exists x, f = x +:+ suffix.
Proof.
  unfold endsWith. intros [Hl He]%andb_prop.
  apply Nat.leb_le in Hl. apply String.eqb_eq in He.
  exists (String.substring 0 (String.length f - String.length suffix) f).
  set (k := (String.length f - String.length suffix)%nat) in *.
  transitivity (String.substring 0 k f +:+ String.substring k (String.length f - k) f).
  { apply substring_split. lia. }
  f_equal. replace (String.length f - k)%nat with (String.length suffix) by lia.
  exact He.
Qed.

Lemma collection_file_only (f name : string) :
  string_includes name ".json" = false ->
  endsWith f ".json" = true -> replace_json f = name -> f = name +:+ ".json".
Proof.
  intros Hn [x ->]%endsWith_app Hr. f_equal. by apply replace_json_only.
Qed.

Lemma prefix_single (a c : ascii) (x y : string) :
  String.prefix (String a EmptyString) (String c x)
  = String.prefix (String a EmptyString) (String c y).
Proof. simpl. destruct (ascii_dec a c); [|done]. by destruct x, y. Qed.

Lemma string_includes_single_json (a : ascii) (name : string) :
  string_includes ".json" (String a EmptyString) = false ->
  string_includes name (String a EmptyString) = false ->
  string_includes (name +:+ ".json") (String a EmptyString) = false.
Proof.
  intros Hj. induction name as [|c name IH]; intros Hn; [exact Hj|].
  rewrite append_cons, string_includes_cons.
  rewrite string_includes_cons in Hn. apply orb_false_elim in Hn as [Hp Hn].
  rewrite (prefix_single a c _ name), Hp. by apply IH.
Qed.

Lemma file_name_json (name : string) :
  file_name name = true -> file_name (name +:+ ".json") = true.
Proof.
  unfold file_name.
  intros [H1%negb_true_iff H2%negb_true_iff]%andb_prop.
  by rewrite !string_includes_single_json.
Qed.

(** ** Reopening the data directory *)

Section Reopen.
Context {host : Host}.

Lemma mapH_fmap {A B C} (f : B -> H C) (g : A -> B) (l : list A) (h : list object) :
  mapH f (List.map g l) h = mapH (fun x => f (g x)) l h.
Proof.
  revert h. induction l as [|x l IH]; intros h; [done|].
  cbn [List.map]. rewrite !mapH_cons.
  destruct (f (g x) h) as [[y|e] h1]; [|done]. by rewrite IH.
Qed.

(** What [_loadCollection] does in a store that has no index yet. *)
Lemma loadCollection_step (n : string) (w : World) :
  indexes (db w) = ∅ ->
  exists w1 ext,
    _loadCollection n w = (Ok tt, w1)
    /\ disk w1 = disk w /\ indexes (db w1) = ∅ /\ heap w1 = heap w ++ ext
    /\ (forall m, m <> n -> collections (db w1) !! m = collections (db w) !! m)
    /\ (forall js, disk w !! (n +:+ ".json") = Some (DocsFile js) ->
        exists docs',
          collections (db w1) !! n = Some docs'
          /\ mapM (snapshot_doc (heap w1)) docs'
             = Some (List.map (List.map (fun p => (fst p, of_json (snd p)))) js)).
Proof.
  intros Hi. unfold _loadCollection.
  destruct (disk w !! (n +:+ ".json")) as [[js|]|] eqn:Hf.
  - unfold mbind, M_bind, liftH.
    destruct (alloc_docs_snapshot
                (List.map (List.map (fun p => (fst p, of_json (snd p)))) js) (heap w))
      as (parsed & ext & Hrun & Hs).
    rewrite mapH_fmap in Hrun. rewrite Hrun.
    unfold set_data, _rebuildIndexes. simpl. rewrite Hi, lookup_empty.
    eexists _, ext. split; [done|]. simpl.
    split; [done|]. split; [done|]. split; [done|]. split.
    + intros m Hm. by rewrite lookup_insert_ne.
    + intros js' [= <-]. exists parsed. by rewrite lookup_insert_eq.
  - unfold set_data. eexists _, []. split; [done|]. simpl. rewrite app_nil_r.
    split; [done|]. split; [done|]. split; [done|]. split; [|done].
    intros m Hm. by rewrite lookup_insert_ne.
  - unfold set_data. eexists _, []. split; [done|]. simpl. rewrite app_nil_r.
    split; [done|]. split; [done|]. split; [done|]. split; [|done].
    intros m Hm. by rewrite lookup_insert_ne.
Qed.

Lemma mapM__cons {A} (f : A -> M unit) (x : A) (l : list A) (w : World) :
  mapM_ f (x :: l) w
  = match f x w with
    | (Ok _, w1) => mapM_ f l w1
    | (Throw e, w1) => (Throw e, w1)
    end.
Proof. reflexivity. Qed.

Lemma stored_extend (w w1 : World) (name : string) ext ls :
  heap w1 = heap w ++ ext ->
  collections (db w1) !! name = collections (db w) !! name ->
  stored w name = Some ls -> stored w1 name = Some ls.
Proof.
  unfold stored. intros -> ->.
  destruct (collections (db w) !! name) as [docs|]; [|done]. simpl.
  intros Hm%mapM_Some_1. apply mapM_Some_2.
  eapply Forall2_impl; [exact Hm|]. intros d ps Hd. by apply snapshot_doc_extend.
Qed.

(** Loading the files of a directory one after the other: the collection
    reads as its file says once that file has been met. *)
Lemma loadCollections_fold (files : gmap string file) (name : string) js :
  string_includes name ".json" = false ->
  startsWith_underscore name = false ->
  files !! (name +:+ ".json") = Some (DocsFile js) ->
  forall l w,
    disk w = files -> indexes (db w) = ∅ ->
    (name +:+ ".json") ∈ l
    \/ stored w name
       = Some (List.map (List.map (fun p => (fst p, of_json (snd p)))) js) ->
    exists w',
      mapM_ (fun file =>
               if endsWith file ".json" && negb (startsWith_underscore file)
               then _loadCollection (replace_json file)
               else mret tt) l w = (Ok tt, w')
      /\ stored w' name
         = Some (List.map (List.map (fun p => (fst p, of_json (snd p)))) js).
Proof.
  intros Hn Hu Hfile. induction l as [|f l IH]; intros w Hdisk Hidx Hcase.
  - destruct Hcase as [Hin|Hp]; [by apply elem_of_nil in Hin|].
    by exists w.
  - rewrite mapM__cons.
    destruct (endsWith f ".json" && negb (startsWith_underscore f)) eqn:Hc.
    + destruct (loadCollection_step (replace_json f) w Hidx)
        as (w1 & ext & -> & Hd1 & Hi1 & Hh1 & Hother & Hthis).
      apply (IH w1); [congruence|done|].
      destruct (decide (f = name +:+ ".json")) as [->|Hne].
      * right. rewrite replace_json_app in Hthis by done.
        rewrite Hdisk in Hthis. destruct (Hthis js Hfile) as (docs' & Hc' & Hs').
        unfold stored. rewrite Hc'. exact Hs'.
      * destruct Hcase as [Hin|Hp].
        { apply elem_of_cons in Hin as [Heq|Hin]; [by destruct Hne|by left]. }
        right. apply (stored_extend w w1 name ext); [done| |done].
        apply Hother. intros Heq. apply Hne.
        apply andb_prop in Hc as [He _].
        by apply collection_file_only.
    + apply (IH w); [done|done|].
      destruct Hcase as [Hin|Hp]; [|by right].
      apply elem_of_cons in Hin as [Heq|Hin]; [|by left].
      rewrite <- Heq, endsWith_json, startsWith_underscore_json, Hu in Hc. done.
Qed.

(** A fresh store on a directory holds, for a collection file of the
    directory, what the file says. *)
Lemma new_TMUDatabase_reads (files : gmap string file) (name : string) js :
  string_includes name ".json" = false ->
  startsWith_underscore name = false ->
  file_name name = true ->
  files !! (name +:+ ".json") = Some (DocsFile js) ->
  stored (new_TMUDatabase files) name
  = Some (List.map (List.map (fun p => (fst p, of_json (snd p)))) js).
Proof.
  intros Hn Hu Hfn Hfile. unfold new_TMUDatabase, _loadCollections.
  unfold mbind, M_bind, readW. cbn [disk].
  edestruct (loadCollections_fold files name js Hn Hu Hfile
               (readdirSync files)) as (w' & -> & Hs); [..|exact Hs].
  - done.
  - done.
  - left. unfold readdirSync. apply list_elem_of_In, filter_In. split.
    + apply list_elem_of_In.
      apply (list_elem_of_fmap_2' fst _ (name +:+ ".json", DocsFile js));
        [by apply elem_of_map_to_list|done].
    + by apply file_name_json.
Qed.
End Reopen.

(** C7, as stated, fails: the document that [insertOne] stored has Date
    objects under [createdAt] and [updatedAt]; the file written by
    [flush()] holds their ISO strings, and the fresh store reads strings. *)
Lemma C7_dates_reload_as_strings :
  let w := snd (insert_and_flush (host := sample_host) empty_world) in
  let w' := new_TMUDatabase (disk w) in
  stored w' "c" <> stored w "c"
  /\ (d ← stored w "c" ≫= head; Some (lit_prop "createdAt" d))
     = Some (LDate (Int 1700000000000))
  /\ (d ← stored w' "c" ≫= head; Some (lit_prop "createdAt" d))
     = Some (LStr "ISO 1700000000000").
Proof.
  cbv zeta. split; [vm_compute; discriminate|]. split; vm_compute; reflexivity.
Qed.

(** C7, amended: after [flush()], a fresh store on the same directory
    holds, for every collection with a buffered mutation whose documents
    can be serialised, and whose name is a file name that neither starts
    with an underscore nor contains [.json], the same number of documents
    in the same order, each
    being what [JSON.parse(JSON.stringify(doc))] makes of the document in
    memory: Dates come back as ISO strings, NaN and the infinities as null,
    and properties holding undefined are gone. *)
Theorem C7_flush_reload {host : Host} (w : World) (name : string)
    (ls : list (list (string * lit))) :
  stored w name = Some ls ->
  has_key name (writeBuffer (db w)) = true ->
  file_name name = true ->
  startsWith_underscore name = false ->
  string_includes name ".json" = false ->
  stored (new_TMUDatabase (disk (snd (flush w)))) name
  = Some (List.map json_image ls).
Proof.
  intros Hs Hkey Hfn Hu Hn. unfold stored in Hs.
  destruct (collections (db w) !! name) as [docs|] eqn:Hd; [|done].
  simpl in Hs.
  rewrite (new_TMUDatabase_reads _ name (List.map doc_to_json ls) Hn Hu Hfn).
  - by rewrite List.map_map.
  - by apply (flush_writes name w docs ls).
Qed.

Lemma C7_flush_reload_witness :
  let w := snd (insert_pending (host := sample_host) empty_world) in
  stored (new_TMUDatabase (disk (snd (flush (host := sample_host) w)))) "c"
  = Some [[("_id", LStr "6553f1000000000000000002"); ("name", LStr "A");
           ("createdAt", LStr "ISO 1700000000000");
           ("updatedAt", LStr "ISO 1700000000000")]].
Proof.
  cbv zeta.
  refine (C7_flush_reload (host := sample_host)
            (snd (insert_pending (host := sample_host) empty_world)) "c"
            [[("_id", LStr "6553f1000000000000000002"); ("name", LStr "A");
              ("createdAt", LDate (Int 1700000000000));
              ("updatedAt", LDate (Int 1700000000000))]] _ _ _ _ _);
    vm_compute; reflexivity.
Defined.

(** ** Documents that JSON carries as they are *)

Lemma json_nested_ind (P : json -> Prop) :
  P JNull -> (forall b, P (JBool b)) -> (forall z, P (JNum z)) ->
  (forall s, P (JStr s)) ->
  (forall es, Forall P es -> P (JArr es)) ->
  (forall ps, Forall (fun p => P (snd p)) ps -> P (JObj ps)) ->
  forall j, P j.
Proof.
  intros HN HB HZ HS HA HO.
  fix IH 1.
  intros [| b | z | s | es | ps];
    [exact HN|apply HB|apply HZ|apply HS| |].
  - apply HA. induction es as [|e es IHes]; constructor; [apply IH|exact IHes].
  - apply HO. induction ps as [|p ps IHps]; constructor; [apply IH|exact IHps].
Qed.

(** What [JSON.parse] hands back is carried by JSON as it is. *)
Lemma of_json_native (j : json) : json_native (of_json j) = true.
Proof.
  induction j as [| b | z | s | es IH | ps IH] using json_nested_ind; simpl; try done.
  - induction IH as [|e es He _ IHes]; simpl; [done|]. by rewrite He.
  - induction IH as [|p ps Hp _ IHps]; simpl; [done|]. by rewrite Hp.
Qed.

Section Native.
Context {host : Host}.

Lemma to_json_native (c : lit) :
  json_native c = true -> of_json <$> to_json c = Some c.
Proof.
  induction c as [| | b | n | s | t | es IH | ps IH] using lit_nested_ind;
    simpl; try done.
  - by destruct n.
  - intros Hes. do 2 f_equal.
    induction IH as [|e es He _ IHes]; simpl in *; [done|].
    apply andb_prop in Hes as [Hn Hes]. specialize (He Hn).
    destruct (to_json e) as [j|]; [|done]. simpl in *.
    injection He as ->. f_equal. by apply IHes.
  - intros Hps. do 2 f_equal.
    induction IH as [|p ps Hp _ IHps]; simpl in *; [done|].
    apply andb_prop in Hps as [Hn Hps]. specialize (Hp Hn).
    destruct (to_json (snd p)) as [j|]; [|done]. simpl in *.
    injection Hp as Hp. rewrite Hp. destruct p as [k v]. simpl. f_equal.
    by apply IHps.
Qed.

(** A document of such values reads back as it is. *)
Lemma json_image_native (ps : list (string * lit)) :
  forallb (fun p => json_native (snd p)) ps = true -> json_image ps = ps.
Proof.
  unfold json_image, doc_to_json.
  induction ps as [|p ps IH]; simpl; [done|].
  intros [Hn Hps]%andb_prop.
  pose proof (to_json_native (snd p) Hn) as Hp.
  destruct (to_json (snd p)) as [j|]; [|done]. simpl in *.
  injection Hp as Hp. rewrite Hp. destruct p as [k v]. simpl. f_equal.
  by apply IH.
Qed.

Lemma json_image_is_native (ps : list (string * lit)) :
  forallb (fun p => json_native (snd p)) (json_image ps) = true.
Proof.
  unfold json_image. induction (doc_to_json ps) as [|q qs IH]; simpl; [done|].
  by rewrite of_json_native.
Qed.

(** What was read from a file goes through a second flush and reload
    unchanged. *)
Lemma json_image_idemp (ps : list (string * lit)) :
  json_image (json_image ps) = json_image ps.
Proof. apply json_image_native, json_image_is_native. Qed.
End Native.

(** ** Updates and the [_id] *)

Lemma bindH_inv {A B} (m : H A) (k : A -> H B) h r h' :
  (m ≫= k) h = (Ok r, h') -> exists a h1, m h = (Ok a, h1) /\ k a h1 = (Ok r, h').
Proof.
  rewrite bindH_unfold. destruct (m h) as [[a|e] h1]; [|done]. by exists a, h1.
Qed.

Lemma foldH_inv {A B} (P : A -> Prop) (f : A -> B -> H A) (l : list B) :
  (forall a x h a' h', x ∈ l -> f a x h = (Ok a', h') -> P a -> P a') ->
  forall a h a' h', foldH f l a h = (Ok a', h') -> P a -> P a'.
Proof.
  induction l as [|x l IH]; intros Hf a h a' h'.
  - by intros [= <- <-].
  - intros (a1 & h1 & Hx & Hrest)%bindH_inv Ha.
    eapply IH; [|exact Hrest|].
    + intros ? ? ? ? ? Hin. apply Hf. by apply elem_of_cons; right.
    + eapply Hf; [|exact Hx|exact Ha]. by apply elem_of_cons; left.
Qed.

Lemma existsb_false {A} (f : A -> bool) (l : list A) x :
  existsb f l = false -> x ∈ l -> f x = false.
Proof.
  induction l as [|y l IH]; simpl; [by intros _ ?%elem_of_nil|].
  intros [Hy Hl]%orb_false_elim [->|Hin]%elem_of_cons; auto.
Qed.

Lemma prop_del k (ps : Doc) k' :
  prop k' (props_del k ps) = if String.eqb k' k then VUndef else prop k' ps.
Proof. unfold prop. rewrite props_get_del. by destruct (String.eqb k' k). Qed.

Section UpdateId.
Context {host : Host}.

Lemma setNested_id obj path v h obj' h' :
  String.eqb (path_root path) "_id" = false ->
  _setNestedValue obj path v h = (Ok obj', h') ->
  prop "_id" obj' = prop "_id" obj.
Proof.
  unfold path_root, _setNestedValue.
  destruct (split_dot path) as [|k [|k2 rest]]; simpl; intros Hk.
  - by intros [= <- <-].
  - intros [= <- <-]. rewrite prop_set, String.eqb_sym, Hk. done.
  - destruct (negb (truthy (prop k obj))).
    + intros (o & h1 & _ & (u & h2 & _ & [= <- <-])%bindH_inv)%bindH_inv.
      rewrite prop_set, String.eqb_sym, Hk. done.
    + by intros (u & h1 & _ & [= <- <-])%bindH_inv.
Qed.

Lemma deleteNested_id obj path h obj' h' :
  String.eqb (path_root path) "_id" = false ->
  _deleteNestedValue obj path h = (Ok obj', h') ->
  prop "_id" obj' = prop "_id" obj.
Proof.
  unfold path_root, _deleteNestedValue.
  destruct (split_dot path) as [|k [|k2 rest]]; simpl; intros Hk.
  - by intros [= <- <-].
  - intros [= <- <-]. rewrite prop_del, String.eqb_sym, Hk. done.
  - destruct (negb (truthy (prop k obj))).
    + by intros [= <- <-].
    + by intros (u & h1 & _ & [= <- <-])%bindH_inv.
Qed.

(** An operator whose paths all start elsewhere leaves [_id] alone. *)
Lemma update_fold_id (body : Doc -> string * lit -> H Doc) fields result h r h' :
  (forall a p h a' h',
      String.eqb (path_root (fst p)) "_id" = false ->
      body a p h = (Ok a', h') -> prop "_id" a' = prop "_id" a) ->
  match lit_entries fields with
  | Ok es => existsb (fun q => String.eqb (path_root (fst q)) "_id") es
  | Throw _ => false
  end = false ->
  (es ← liftO (lit_entries fields); foldH body es result) h = (Ok r, h') ->
  prop "_id" r = prop "_id" result.
Proof.
  intros Hbody Hno (es & h1 & Hes & Hfold)%bindH_inv.
  unfold liftO in Hes. destruct (lit_entries fields) as [es'|e]; [|done].
  injection Hes as -> ->.
  apply (foldH_inv (fun a => prop "_id" a = prop "_id" result) body es)
    in Hfold; [done| |done].
  intros a p h2 a' h3 Hin Hrun <-. eapply Hbody; [|exact Hrun].
  by eapply existsb_false in Hno.
Qed.

Ltac split_binds H :=
  repeat (let a := fresh "a" in let h := fresh "h" in
          apply bindH_inv in H as (a & h & _ & H)).

Lemma update_op_id result op fields h r h' :
  (if startsWith_dollar op
   then match lit_entries fields with
        | Ok es => existsb (fun q => String.eqb (path_root (fst q)) "_id") es
        | Throw _ => false
        end
   else String.eqb op "_id") = false ->
  update_op result op fields h = (Ok r, h') ->
  prop "_id" r = prop "_id" result.
Proof.
  unfold update_op. intros Hno.
  repeat match goal with
         | |- context [String.eqb op ?s] =>
             destruct (String.eqb_spec op s) as [->|_]; [simpl in Hno|]
         end.
  - apply update_fold_id; [|done]. intros a p h0 a' h1 Hp Hrun.
    split_binds Hrun. by eapply setNested_id.
  - apply update_fold_id; [|done]. intros a p h0 a' h1 Hp Hrun.
    by eapply deleteNested_id.
  - apply update_fold_id; [|done]. intros a p h0 a' h1 Hp Hrun.
    split_binds Hrun. by eapply setNested_id.
  - apply update_fold_id; [|done]. intros a p h0 a' h1 Hp Hrun.
    split_binds Hrun. by eapply setNested_id.
  - apply update_fold_id; [|done]. intros a p h0 a' h1 Hp Hrun.
    split_binds Hrun. by eapply setNested_id.
  - apply update_fold_id; [|done]. intros a p h0 a' h1 Hp Hrun.
    split_binds Hrun. by eapply setNested_id.
  - destruct (startsWith_dollar op); simpl.
    + by intros [= <- <-].
    + intros (v & h1 & _ & [= <- <-])%bindH_inv.
      rewrite prop_set, String.eqb_sym, Hno. done.
Qed.

(** An update description that does not name [_id] gives a document with
    the [_id] it had. *)
Lemma applyUpdate_id doc update h doc' h' :
  writes_id update = false ->
  _applyUpdate doc update h = (Ok doc', h') ->
  prop "_id" doc' = prop "_id" doc.
Proof.
  unfold writes_id, _applyUpdate.
  intros Hno (ops & h1 & Hops & Hfold)%bindH_inv.
  unfold liftO in Hops. destruct (lit_entries update) as [ops'|e]; [|done].
  injection Hops as -> ->.
  apply (foldH_inv (fun a => prop "_id" a = prop "_id" doc)
           (fun result p => update_op result (fst p) (snd p)) ops)
    in Hfold; [done| |done].
  intros a p h2 a' h3 Hin Hrun <-. eapply update_op_id; [|exact Hrun].
  by apply (existsb_false _ _ _ Hno).
Qed.
End UpdateId.

(** ** The [_id] index *)

Lemma id_indexed_sublist (w w' : World) (name : string) :
  is_Some (collections (db w') !! name) ->
  sublist (ids w' name) (ids w name) ->
  indexes (db w') !! name = indexes (db w) !! name ->
  id_indexed w name -> id_indexed w' name.
Proof.
  intros Hc Hsub Hi (_ & Hnd & Hu & idxs & ix & Hidx & Hget & Huniq & Hcov).
  split; [done|]. split; [by eapply sublist_NoDup|]. split.
  { intros Hin. apply Hu. by eapply elem_of_sublist. }
  exists idxs, ix. rewrite Hi. repeat split; try done.
  intros v Hv. apply Hcov. by eapply elem_of_sublist.
Qed.

Lemma id_indexed_db (w w' : World) (name : string) :
  db w' = db w -> id_indexed w name -> id_indexed w' name.
Proof.
  intros Hdb Hinv. apply (id_indexed_sublist w w'); unfold ids; rewrite ?Hdb; try done.
  by destruct Hinv.
Qed.

Lemma ret_id_indexed {A} (a : A) (w : World) (name : string) :
  id_indexed w name -> id_indexed (snd (mret (M := M) a w)) name.
Proof. done. Qed.

Lemma bind_id_indexed {A B} (m : M A) (k : A -> M B) (w : World) (name : string) :
  id_indexed (snd (m w)) name ->
  (forall a w1, id_indexed w1 name -> id_indexed (snd (k a w1)) name) ->
  id_indexed (snd ((m ≫= k) w)) name.
Proof.
  intros Hm Hk. rewrite bindM_unfold. destruct (m w) as [[a|e] w1]; simpl in *; auto.
Qed.

Lemma saveCollection_id_indexed (w : World) (name name' : string) :
  id_indexed w name -> id_indexed (snd (_saveCollection name' w)) name.
Proof.
  intros Hinv. apply (id_indexed_sublist w); try done. by destruct Hinv.
Qed.

Lemma data_id_indexed (w : World) (name name' : string) :
  id_indexed w name -> id_indexed (snd (_data name' w)) name.
Proof. unfold _data. by destruct (collections (db w) !! name'). Qed.

Section IdIndex.
Context {host : Host}.

(** Rebuilding the indexes of a collection keeps its [_id] index in step
    with the documents. *)
Lemma rebuildIndexes_id_indexed (w : World) (name : string) :
  id_indexed w name -> id_indexed (snd (_rebuildIndexes name None w)) name.
Proof.
  intros (Hc & Hnd & Hu & idxs & ix & Hidx & Hget & Huniq & Hcov).
  unfold _rebuildIndexes. rewrite Hidx. cbn [snd].
  split; [done|]. split; [done|]. split; [done|].
  cbn [db set_db set_indexes indexes]. rewrite lookup_insert_eq.
  set (step := fun (idxs : list (string * Index)) (field : string) =>
                 match props_get field idxs with
                 | Some ix =>
                     props_replace field
                       {| unique := unique ix;
                          data := rebuild_data (heap w)
                                    (default [] (collections (db w) !! name)) field |}
                       idxs
                 | None => idxs
                 end).
  assert (forall fields idxs0,
             (exists ix0, props_get "_id" idxs0 = Some ix0 /\ unique ix0 = true
                          /\ forall v, v ∈ ids w name -> Map_has v (data ix0) = true) ->
             exists ix', props_get "_id" (fold_left step fields idxs0) = Some ix'
                         /\ unique ix' = true
                         /\ forall v, v ∈ ids w name -> Map_has v (data ix') = true)
    as Hfold.
  { induction fields as [|f fields IH]; intros idxs0 Hp; [exact Hp|].
    simpl. apply IH. destruct Hp as (ix0 & Hg0 & Hu0 & Hc0). unfold step at 1.
    destruct (props_get f idxs0) as [ixf|] eqn:Hf; [|by exists ix0].
    rewrite props_get_replace.
    destruct (String.eqb_spec "_id" f) as [<-|Hne].
    - rewrite Hg0 in Hf. injection Hf as <-. rewrite Hg0. eexists. split; [done|].
      split; [done|]. simpl. intros v Hv.
      pose proof Hv as Hv'. unfold ids in Hv'.
      apply list_elem_of_fmap in Hv' as (doc & -> & Hdoc).
      pose proof (rebuild_data_covers (heap w)
                    (default [] (collections (db w) !! name)) "_id" doc Hdoc) as Hr.
      rewrite getNested_top in Hr by done. apply Hr.
      intros Heq. apply Hu. by rewrite <- Heq.
    - by exists ix0. }
  destruct (Hfold (List.map fst idxs) idxs) as (ix' & Hg' & Hu' & Hc').
  { by exists ix. }
  exists (fold_left step (List.map fst idxs) idxs), ix'. done.
Qed.
End IdIndex.

(** ** Inserting under the [_id] index *)

Lemma prop_id_new_document id now doc :
  NoDup (fst <$> doc) ->
  prop "_id" (new_document id now doc)
  = if has_key "_id" doc then prop "_id" doc else VStr id.
Proof.
  intros Hnd. unfold new_document. rewrite !prop_set. simpl.
  unfold prop. rewrite props_get_assign by done.
  destruct (props_get "_id" doc) as [v|] eqn:Hg.
  - assert (has_key "_id" doc = true) as -> by (apply has_key_true; by rewrite Hg).
    done.
  - assert (has_key "_id" doc = false) as -> by by apply has_key_false.
    done.
Qed.

Lemma gives_id_new_document id now doc :
  gives_id doc = true -> prop "_id" (new_document id now doc) <> VUndef.
Proof.
  unfold gives_id. intros [Hnd Hid]%andb_prop.
  apply bool_decide_eq_true in Hnd. rewrite prop_id_new_document by done.
  destruct (has_key "_id" doc); [|done]. simpl in Hid.
  destruct (strict_eq (prop "_id" doc) VUndef) eqn:E; [done|].
  intros Heq. rewrite Heq in E. done.
Qed.

Lemma index_document_get h newDoc idxs field :
  props_get field (index_document h newDoc idxs)
  = (fun ix =>
       let v := _getNestedValue h (Root newDoc) field in
       if negb (strict_eq v VUndef)
       then {| unique := unique ix;
               data := Map_push v (prop "_id" newDoc) (data ix) |}
       else ix) <$> props_get field idxs.
Proof.
  unfold index_document. induction idxs as [|[f ix] idxs IH]; simpl; [done|].
  destruct (negb (strict_eq (_getNestedValue h (Root newDoc) f) VUndef)) eqn:E; simpl;
    destruct (String.eqb_spec field f) as [->|Hne]; simpl; try done.
  - by rewrite E.
  - by rewrite E.
Qed.

Section InsertId.
Context {host : Host}.

Lemma check_unique_passed newDoc idxs w field ix :
  check_unique newDoc idxs w = (Ok tt, w) ->
  props_get field idxs = Some ix -> unique ix = true ->
  _getNestedValue (heap w) (Root newDoc) field <> VUndef ->
  Map_has (_getNestedValue (heap w) (Root newDoc) field) (data ix) = false.
Proof.
  intros Hok Hget Hu Hv.
  destruct (Map_has _ (data ix)) eqn:Hhas; [|done].
  destruct (check_unique_duplicate newDoc idxs w field ix Hget Hu Hv Hhas) as [f Hf].
  congruence.
Qed.

(** [insertOne] under a unique [_id] index: the new [_id] is none of those
    in the collection, or the call throws and nothing has changed. *)
Lemma insertOne_id_indexed (name : string) (doc : Doc) (w : World) :
  gives_id doc = true ->
  id_indexed w name -> id_indexed (snd (insertOne name doc w)) name.
Proof.
  intros Hdoc Hinv.
  pose proof Hinv as ([d Hd] & Hnd & Hu & idxs & ix & Hidx & Hget & Huniq & Hcov).
  unfold insertOne, new_Date, _generateId, Date_now_draw, randomBytes_draw,
    liftH, alloc, _indexes, readW, _data, set_data, _saveCollection, inM.
  unfold mbind, M_bind, mret, M_ret. simpl. rewrite Hidx. simpl.
  match goal with
  | |- context [check_unique ?nd ?ix ?w1] =>
      set (newDoc := nd); set (w0 := w1);
      destruct (check_unique_cases newDoc ix w0) as [Hc|[f Hc]]; rewrite Hc
  end.
  2: { by apply (id_indexed_db w). }
  simpl. rewrite Hd. simpl. rewrite Hidx. simpl.
  pose proof (gives_id_new_document _ _ _ Hdoc : prop "_id" newDoc <> VUndef) as Hv.
  assert (Map_has (prop "_id" newDoc) (data ix) = false) as Hfresh.
  { pose proof (check_unique_passed newDoc idxs w0 "_id" ix Hc Hget Huniq) as Hp.
    rewrite getNested_top in Hp by done. by apply Hp. }
  assert (prop "_id" newDoc ∉ ids w name) as Hnew.
  { intros Hin. apply Hcov in Hin. congruence. }
  unfold id_indexed, ids. simpl. rewrite !lookup_insert_eq. simpl.
  rewrite fmap_app. simpl.
  unfold ids in *. rewrite Hd in *. simpl in *.
  split; [done|]. split.
  { apply NoDup_app. split; [done|]. split; [|apply NoDup_singleton].
    intros x Hx ->%list_elem_of_singleton. done. }
  split.
  { intros [Hin|Heq%list_elem_of_singleton]%elem_of_app; [done|].
    by apply Hv. }
  eexists _, _. split; [done|]. rewrite index_document_get, Hget. simpl.
  rewrite getNested_top by done.
  destruct (strict_eq (prop "_id" newDoc) VUndef) eqn:E.
  { by apply strict_eq_eq in E. }
  simpl. split; [done|]. split; [done|]. simpl.
  intros v Hin. rewrite Map_has_push.
  apply elem_of_app in Hin as [Hin| ->%list_elem_of_singleton].
  - rewrite (Hcov v Hin). apply orb_true_r.
  - assert (same_value_zero (prop "_id" newDoc) (prop "_id" newDoc) = true) as ->
      by by apply same_value_zero_eq.
    done.
Qed.

Lemma insertMany_id_indexed (name : string) (docs : list Doc) (w : World) :
  forallb gives_id docs = true ->
  id_indexed w name -> id_indexed (snd (insertMany name docs w)) name.
Proof.
  unfold insertMany.
  assert (forall results w,
             forallb gives_id docs = true -> id_indexed w name ->
             id_indexed
               (snd (foldM (fun results doc =>
                              result ← insertOne name doc;
                              mret (results ++ [fst result])) docs results w)) name)
    as Hgen; [|by apply Hgen].
  induction docs as [|doc docs IH]; intros results w' Hdocs Hinv; [done|].
  simpl in Hdocs. apply andb_prop in Hdocs as [Hdoc Hdocs].
  cbn [foldM]. apply bind_id_indexed.
  - apply bind_id_indexed; [by apply insertOne_id_indexed|done].
  - intros a w1 Hw1. by apply IH.
Qed.
End InsertId.

(** ** Updating and deleting under the [_id] index *)

Section ChangeId.
Context {host : Host}.

(** Replacing a document by its update keeps every [_id] where it was. *)
Lemma update_at_id_indexed (name : string) (index : nat) (update : lit) (w : World) :
  writes_id update = false ->
  id_indexed w name -> id_indexed (snd (update_at name index update w)) name.
Proof.
  intros Hno Hinv. pose proof Hinv as ([d Hd] & _).
  unfold update_at, _data, liftH, new_Date, Date_now_draw, alloc, set_data.
  unfold mbind, M_bind, mret, M_ret. simpl. rewrite Hd.
  destruct (_applyUpdate (default [] (d !! index)) update (heap w)) as [[r|e] h1]
    eqn:Hup; simpl.
  2: { by apply (id_indexed_db w). }
  rewrite Hd. simpl.
  apply (id_indexed_sublist w); [| |done|done].
  - simpl. by rewrite lookup_insert_eq.
  - unfold ids. simpl. rewrite lookup_insert_eq, Hd. simpl.
    destruct (d !! index) as [x|] eqn:Hx.
    + rewrite list_fmap_insert, prop_set. simpl.
      rewrite (applyUpdate_id _ _ _ _ _ Hno Hup). simpl.
      rewrite list_insert_id; [done|]. by rewrite list_lookup_fmap, Hx.
    + apply lookup_ge_None in Hx. by rewrite list_insert_ge.
Qed.

Lemma rebuild_save_id_indexed {A} (name : string) (a : A) (w : World) :
  id_indexed w name ->
  id_indexed (snd ((_ ← _rebuildIndexes name None; _ ← _saveCollection name; mret a) w))
    name.
Proof.
  intros Hinv. apply bind_id_indexed; [by apply rebuildIndexes_id_indexed|].
  intros _ w1 Hw1. apply bind_id_indexed; [by apply saveCollection_id_indexed|].
  intros _ w2 Hw2. done.
Qed.

Lemma updateOne_id_indexed (name : string) (query update : lit) (w : World) :
  writes_id update = false ->
  id_indexed w name -> id_indexed (snd (updateOne name query update w)) name.
Proof.
  intros Hno Hinv. unfold updateOne. apply bind_id_indexed.
  { by rewrite findOne_state. }
  intros [doc|] w1 Hw1; [|done].
  apply bind_id_indexed; [by apply data_id_indexed|].
  intros d w2 Hw2.
  match goal with
  | |- context [findIndex ?f d] => destruct (findIndex f d) as [index|]
  end; [|done].
  apply bind_id_indexed; [by apply update_at_id_indexed|].
  intros updatedDoc w3 Hw3. by apply rebuild_save_id_indexed.
Qed.

Lemma updateMany_id_indexed (name : string) (query update : lit) (w : World) :
  writes_id update = false ->
  id_indexed w name -> id_indexed (snd (updateMany name query update w)) name.
Proof.
  intros Hno Hinv. unfold updateMany. apply bind_id_indexed.
  { by rewrite find_state. }
  intros docs w1 Hw1. apply bind_id_indexed.
  - generalize 0%nat as n. revert w1 Hw1.
    induction docs as [|doc docs IH]; intros w1 Hw1 n; [done|].
    cbn [foldM]. apply bind_id_indexed.
    + unfold updateMany_body. apply bind_id_indexed; [by apply data_id_indexed|].
      intros d w2 Hw2.
      match goal with
      | |- context [findIndex ?f d] => destruct (findIndex f d) as [index|]
      end; [|done].
      apply bind_id_indexed; [by apply update_at_id_indexed|done].
    + intros n' w2 Hw2. by apply IH.
  - intros modified w2 Hw2. apply bind_id_indexed; [|done].
    destruct (Nat.ltb 0 modified); [|done].
    apply bind_id_indexed; [by apply rebuildIndexes_id_indexed|].
    intros _ w3 Hw3. by apply saveCollection_id_indexed.
Qed.

Lemma findByIdAndUpdate_id_indexed (name : string) (id : value) (update : lit)
    (w : World) :
  writes_id update = false ->
  id_indexed w name -> id_indexed (snd (findByIdAndUpdate name id update w)) name.
Proof.
  intros Hno Hinv. unfold findByIdAndUpdate.
  apply bind_id_indexed; [by apply data_id_indexed|].
  intros d w1 Hw1.
  match goal with
  | |- context [findIndex ?f d] => destruct (findIndex f d) as [index|]
  end; [|done].
  apply bind_id_indexed; [by apply update_at_id_indexed|].
  intros updatedDoc w2 Hw2. by apply rebuild_save_id_indexed.
Qed.

(** Keeping some of the documents, in their order. *)
Lemma set_data_sublist_id_indexed (name : string) (d d' : list Doc) (w : World) :
  collections (db w) !! name = Some d -> sublist d' d ->
  id_indexed w name -> id_indexed (snd (set_data name d' w)) name.
Proof.
  intros Hd Hsub Hinv. apply (id_indexed_sublist w); [| |done|done].
  - simpl. by rewrite lookup_insert_eq.
  - unfold ids. simpl. rewrite lookup_insert_eq, Hd. simpl. by apply fmap_sublist.
Qed.

Lemma deleteOne_id_indexed (name : string) (query : lit) (w : World) :
  id_indexed w name -> id_indexed (snd (deleteOne name query w)) name.
Proof.
  intros Hinv. unfold deleteOne. apply bind_id_indexed.
  { by rewrite findOne_state. }
  intros [doc|] w1 Hw1; [|done].
  pose proof Hw1 as ([d Hd] & _).
  rewrite bindM_unfold. unfold _data at 1. rewrite Hd.
  match goal with
  | |- context [findIndex ?f d] => destruct (findIndex f d) as [index|]
  end; [|done].
  apply bind_id_indexed.
  - apply (set_data_sublist_id_indexed name d); [done| |done]. apply sublist_delete.
  - intros _ w2 Hw2. by apply rebuild_save_id_indexed.
Qed.

Lemma deleteMany_id_indexed (name : string) (query : lit) (w : World) :
  id_indexed w name -> id_indexed (snd (deleteMany name query w)) name.
Proof.
  intros Hinv. unfold deleteMany. apply bind_id_indexed.
  { by rewrite find_state. }
  intros docs w1 Hw1.
  pose proof Hw1 as ([d Hd] & _).
  rewrite bindM_unfold. unfold _data at 1. rewrite Hd.
  apply bind_id_indexed.
  - apply (set_data_sublist_id_indexed name d); [done| |done]. apply filter_sublist.
  - intros _ w2 Hw2. apply bind_id_indexed; [by apply data_id_indexed|].
    intros d' w3 Hw3. apply bind_id_indexed; [|done].
    destruct (Nat.ltb 0 (length d - length d')); [|done].
    apply bind_id_indexed; [by apply rebuildIndexes_id_indexed|].
    intros _ w4 Hw4. by apply saveCollection_id_indexed.
Qed.

(** Every call that leaves the [_id]s to the store keeps the [_id] index
    in step, whether it returns or throws. *)
Lemma exec_id_indexed (name : string) (op : operation) (w w' : World) :
  keeps_id op = true -> exec name w op = Some w' ->
  id_indexed w name -> id_indexed w' name.
Proof.
  intros Hop Hrun Hinv.
  assert (forall {A} (r : outcome A * World),
             after r = Some w' -> id_indexed (snd r) name -> id_indexed w' name)
    as Hafter.
  { intros A r. unfold after. destruct (modelled (fst r)); [|done]. by intros [= <-]. }
  destruct op as [doc|docs|query update|query update|id update|query|query];
    simpl in Hop, Hrun; apply Hafter in Hrun; try done.
  - by apply insertOne_id_indexed.
  - by apply insertMany_id_indexed.
  - apply updateOne_id_indexed; [|done]. by apply negb_true_iff.
  - apply updateMany_id_indexed; [|done]. by apply negb_true_iff.
  - apply findByIdAndUpdate_id_indexed; [|done]. by apply negb_true_iff.
  - by apply deleteOne_id_indexed.
  - by apply deleteMany_id_indexed.
Qed.

(** A collection that did not exist, once set up with the [_id] index. *)
Lemma with_id_index_id_indexed (name : string) (w : World) :
  collections (db w) !! name = None ->
  id_indexed (snd (with_id_index name w)) name.
Proof.
  intros Hnone. unfold with_id_index, collection, createIndex, _rebuildIndexes.
  unfold mbind, M_bind. simpl. rewrite Hnone. simpl.
  rewrite ?lookup_insert_eq. simpl. rewrite ?lookup_insert_eq. simpl.
  unfold id_indexed, ids. simpl. rewrite ?lookup_insert_eq. simpl.
  split; [done|]. split; [constructor|]. split; [by intros ?%elem_of_nil|].
  eexists _, _. split; [done|]. split; [reflexivity|]. split; [done|].
  by intros v ?%elem_of_nil.
Qed.
End ChangeId.

(** C4, as stated, fails: an update description may write [_id], and no
    update checks the unique index. Here [$set] gives the second document
    the [_id] of the first; the same through a model. *)
Lemma C4_set_id_duplicates :
  (exists w',
      exec_all (host := sample_host) "c" id_clash
        (snd (with_id_index (host := sample_host) "c" empty_world)) = Some w'
      /\ ~ NoDup (ids w' "c"))
  /\ ~ NoDup (ids (snd (id_overwrite (host := sample_host) empty_world)) "items").
Proof.
  split.
  - eexists. split; [vm_compute; reflexivity|].
    vm_compute. intros Hnd. apply NoDup_cons in Hnd as [Hin _]. apply Hin.
    apply elem_of_cons. by left.
  - vm_compute. intros Hnd. apply NoDup_cons in Hnd as [Hin _]. apply Hin.
    apply elem_of_cons. by left.
Qed.

(** C4, amended: in a collection set up with the unique [_id] index that
    the [Model] constructor creates, after any sequence of insertOne,
    insertMany, updateOne, updateMany, findByIdAndUpdate, deleteOne and
    deleteMany calls, returning or throwing (each ending within what this
    embedding covers), no two documents have the same [_id], provided that
    no inserted document carries [_id: undefined] and no update description
    names [_id] (as a key of its own or as the first key of an operator's
    path). *)
Theorem C4_ids_unique {host : Host} (w w' : World) (name : string)
    (ops : list operation) :
  collections (db w) !! name = None ->
  forallb keeps_id ops = true ->
  exec_all name ops (snd (with_id_index name w)) = Some w' ->
  NoDup (ids w' name).
Proof.
  intros Hnone Hops Hrun.
  assert (id_indexed w' name) as (_ & Hnd & _); [|exact Hnd].
  pose proof (with_id_index_id_indexed name w Hnone) as Hinv.
  revert Hinv Hrun. generalize (snd (with_id_index name w)) as w0.
  induction ops as [|op ops IH]; intros w0 Hinv Hrun.
  - by injection Hrun as <-.
  - simpl in Hops. apply andb_prop in Hops as [Hop Hops].
    simpl in Hrun. destruct (exec name w0 op) as [w1|] eqn:Hstep; [|done].
    simpl in Hrun. apply (IH Hops w1); [|done].
    by apply (exec_id_indexed name op w0).
Qed.

Lemma C4_ids_unique_witness :
  NoDup (ids (default empty_world
                (exec_all (host := sample_host) "c" id_kept
                   (snd (with_id_index (host := sample_host) "c" empty_world))))
           "c").
Proof.
  apply (C4_ids_unique (host := sample_host) empty_world _ "c" id_kept);
    vm_compute; reflexivity.
Defined.

(** * Further properties *)

(** ** Rebuilding indexes *)

Section RebuildAll.
Context {host : Host}.

Lemma props_replace_map {V} (k : string) (v : V) (ps : list (string * V)) :
  NoDup (fst <$> ps) ->
  props_replace k v ps
  = List.map (fun p => if String.eqb k (fst p) then (fst p, v) else p) ps.
Proof.
  induction ps as [|[k' v'] ps IH]; simpl; [done|].
  intros [Hk' Hnd]%NoDup_cons.
  destruct (String.eqb_spec k k') as [->|Hne].
  - f_equal. clear IH. induction ps as [|[k'' v''] ps IH]; simpl; [done|].
    simpl in Hk'. apply not_elem_of_cons in Hk' as [Hne Hk'].
    apply NoDup_cons in Hnd as [_ Hnd].
    destruct (String.eqb_spec k' k'') as [->|_]; [done|]. f_equal. by apply IH.
  - f_equal. by apply IH.
Qed.

Lemma props_get_in {V} (k : string) (ps : list (string * V)) (p : string * V) :
  NoDup (fst <$> ps) -> p ∈ ps -> fst p = k -> props_get k ps = Some (snd p).
Proof.
  induction ps as [|[k' v'] ps IH]; simpl; [by intros _ ?%elem_of_nil|].
  intros [Hk' Hnd]%NoDup_cons [->|Hin]%elem_of_cons <-; simpl.
  - by rewrite String.eqb_refl.
  - destruct (String.eqb_spec (fst p) k') as [Heq|_]; [|by apply IH].
    destruct Hk'. rewrite <- Heq. by apply list_elem_of_fmap_2.
Qed.

(** One step of the loop of [_rebuildIndexes], as a map over the entries. *)
Lemma rebuild_step_map h d (idxs : list (string * Index)) field :
  NoDup (fst <$> idxs) ->
  match props_get field idxs with
  | Some ix =>
      props_replace field
        {| unique := unique ix; data := rebuild_data h d field |} idxs
  | None => idxs
  end
  = List.map (fun p => if String.eqb field (fst p) then rebuilt h d p else p) idxs.
Proof.
  intros Hnd. destruct (props_get field idxs) as [ix|] eqn:Hget.
  - rewrite props_replace_map by done. apply map_ext_in.
    intros p Hp%list_elem_of_In.
    destruct (String.eqb_spec field (fst p)) as [Heq|_]; [|done].
    rewrite (props_get_in field idxs p Hnd Hp) in Hget by done.
    injection Hget as <-. unfold rebuilt. by rewrite Heq.
  - symmetry. rewrite <- (map_id idxs) at 2. apply map_ext_in.
    intros p Hp%list_elem_of_In.
    destruct (String.eqb_spec field (fst p)) as [Heq|_]; [|done].
    by rewrite (props_get_in field idxs p Hnd Hp) in Hget.
Qed.

Lemma rebuild_fold_map h d fields :
  forall idxs : list (string * Index),
    NoDup (fst <$> idxs) ->
    fold_left
      (fun idxs field =>
         match props_get field idxs with
         | Some ix =>
             props_replace field
               {| unique := unique ix; data := rebuild_data h d field |} idxs
         | None => idxs
         end) fields idxs
    = List.map (fun p => if existsb (fun f => String.eqb f (fst p)) fields
                         then rebuilt h d p else p) idxs.
Proof.
  induction fields as [|f fields IH]; intros idxs Hnd; simpl.
  - by rewrite map_id.
  - rewrite rebuild_step_map by done. rewrite IH.
    + rewrite List.map_map. apply map_ext. intros p.
      destruct (String.eqb_spec f (fst p)) as [Heq|Hne]; simpl.
      * by destruct (existsb _ fields).
      * done.
    + rewrite <- list_fmap_compose.
      replace (fst <$> idxs) with
        ((fst ∘ (fun p => if String.eqb f (fst p) then rebuilt h d p else p)) <$> idxs)
        in Hnd; [done|].
      apply list_fmap_ext. intros i p _. simpl.
      by destruct (String.eqb f (fst p)).
Qed.

Lemma existsb_self (p : string * Index) (idxs : list (string * Index)) :
  p ∈ idxs -> existsb (fun f => String.eqb f (fst p)) (List.map fst idxs) = true.
Proof.
  intros Hp. apply existsb_exists. exists (fst p). split.
  - apply in_map. by apply list_elem_of_In.
  - apply String.eqb_refl.
Qed.
End RebuildAll.

Section RebuildProps.
Context {host : Host}.

Lemma rebuildIndexes_all_state (w : World) (name : string) :
  index_fields_once w name ->
  _rebuildIndexes name None w
  = (Ok tt,
     match indexes (db w) !! name with
     | Some idxs =>
         set_db (set_indexes
                   (<[name := List.map
                                (rebuilt (heap w)
                                   (default [] (collections (db w) !! name))) idxs]>
                      (indexes (db w))) (db w)) w
     | None => w
     end).
Proof.
  unfold index_fields_once, _rebuildIndexes. intros Hnd.
  destruct (indexes (db w) !! name) as [idxs|]; [|done]. simpl in Hnd.
  rewrite rebuild_fold_map by done. do 4 f_equal.
  apply map_ext_in. intros p Hp%list_elem_of_In. by rewrite existsb_self.
Qed.
End RebuildProps.

(** ** An index that is in step is the index of a scan *)

Lemma rebuild_fold_undefined (h : Heap) (field : string) (d : list Doc) :
  forall m, Map_get VUndef m = None ->
    Map_get VUndef
      (fold_left
         (fun m doc =>
            let v := _getNestedValue h (Root doc) field in
            if negb (strict_eq v VUndef) then Map_push v (prop "_id" doc) m else m)
         d m) = None.
Proof.
  induction d as [|doc d IH]; intros m Hm; simpl; [done|].
  apply IH.
  destruct (strict_eq (_getNestedValue h (Root doc) field) VUndef) eqn:E; simpl;
    [done|].
  rewrite Map_push_get.
  destruct (same_value_zero VUndef (_getNestedValue h (Root doc) field)) eqn:E2;
    [|done].
  apply same_value_zero_eq in E2. rewrite <- E2 in E. done.
Qed.

Lemma rebuild_data_of_scan (h : Heap) (d : list Doc) (field : string) (u : bool) :
  index_of_scan h d field {| unique := u; data := rebuild_data h d field |}.
Proof.
  intros v. simpl. destruct (strict_eq v VUndef) eqn:E.
  - apply strict_eq_eq in E as ->. by apply rebuild_fold_undefined.
  - apply rebuild_data_get. by intros ->.
Qed.

Lemma in_step_of_scan {host : Host} (w : World) (name : string) :
  indexes_in_step w name -> indexes_of_scan w name.
Proof.
  intros Hstep field ix Hget.
  pose proof (consistent_lookup _ _ _ _ _ Hstep Hget) as Hdata.
  destruct ix as [u dat]. simpl in Hdata. subst dat.
  apply rebuild_data_of_scan.
Qed.

(** X1. After [_rebuildIndexes(name)], whatever the indexes held before,
    every index of the collection answers, for every value, with the ids
    of the documents that a scan finds holding that value under the indexed
    field, in collection order, and has no entry for a value that no
    document holds, nor for [undefined]; the indexed fields and their
    [unique] flags, the documents and the memory are as they were, and the
    call does not throw.  This for a collection that is an array of
    objects, each index being on a key of the documents that is no dotted
    path and none of the names inherited from [Object.prototype]. *)
Theorem X1_rebuild_puts_indexes_in_step {host : Host} (w : World) (name : string) :
  index_fields_once w name ->
  indexes_on_own_keys w name ->
  let run := _rebuildIndexes name None w in
  fst run = Ok tt
  /\ indexes_of_scan (snd run) name
  /\ List.map (fun p => (fst p, unique (snd p)))
               (default [] (indexes (db (snd run)) !! name))
     = List.map (fun p => (fst p, unique (snd p)))
                (default [] (indexes (db w) !! name))
  /\ collections (db (snd run)) = collections (db w)
  /\ heap (snd run) = heap w.
Proof.
  intros Hnd _. cbv zeta. rewrite rebuildIndexes_all_state by done. simpl.
  split; [done|].
  destruct (indexes (db w) !! name) as [idxs|] eqn:Hidx.
  - split; [|simpl; rewrite lookup_insert_eq; simpl; rewrite !List.map_map; done].
    apply in_step_of_scan.
    unfold indexes_in_step, indexes_consistent. simpl.
    rewrite lookup_insert_eq. simpl. rewrite !List.map_map. simpl.
    done.
  - split; [|by rewrite Hidx].
    intros field ix. by rewrite Hidx.
Qed.

Lemma X1_rebuild_puts_indexes_in_step_witness :
  let w := snd (undefined_filter (host := sample_host) true empty_world) in
  indexes_of_scan (snd (_rebuildIndexes "c" None w)) "c".
Proof.
  cbv zeta.
  refine (proj1 (proj2 (X1_rebuild_puts_indexes_in_step (host := sample_host)
                          (snd (undefined_filter (host := sample_host) true empty_world))
                          "c" _ _))).
  - apply (bool_decide_unpack _). vm_compute. exact I.
  - unfold indexes_on_own_keys, own_key, top_level. vm_compute.
    repeat constructor.
Defined.

(** ** What a successful insert leaves *)

Section InsertState.
Context {host : Host}.

(** The store after an [insertOne] that returned. *)
Lemma insertOne_ok_inv (name : string) (doc : Doc) (w : World) r (w' : World) :
  insertOne name doc w = (Ok r, w') ->
  exists d,
    collections (db w) !! name = Some d
    /\ snd r = new_document
                 (padStart8 (toString16 (Date_now (S (draws w)) / 1000))
                  +:+ randomBytes (S (S (draws w))))
                 (VRef (length (heap w))) doc
    /\ fst r = prop "_id" (snd r)
    /\ heap w' = heap w ++ [DateObj (Int (Date_now (draws w)))]
    /\ draws w' = S (S (S (draws w)))
    /\ disk w' = disk w
    /\ collections (db w') = <[name := d ++ [snd r]]> (collections (db w))
    /\ indexes (db w')
       = match indexes (db w) !! name with
         | Some idxs =>
             <[name := index_document (heap w') (snd r) idxs]> (indexes (db w))
         | None => indexes (db w)
         end
    /\ writeBuffer (db w') = props_set name true (writeBuffer (db w))
    /\ writeTimeout (db w') = true
    /\ check_unique (snd r) (default [] (indexes (db w) !! name))
         {| heap := heap w'; draws := draws w'; db := db w; disk := disk w |}
       = (Ok tt, {| heap := heap w'; draws := draws w'; db := db w; disk := disk w |}).
Proof.
  unfold insertOne, new_Date, _generateId, Date_now_draw, randomBytes_draw,
    liftH, alloc, _indexes, readW, _data, set_data, _saveCollection, inM.
  unfold mbind, M_bind, mret, M_ret. simpl.
  match goal with
  | |- context [check_unique ?nd ?ix ?w1] =>
      destruct (check_unique_cases nd ix w1) as [Hc|[f Hc]]; rewrite Hc
  end; [|discriminate].
  simpl. destruct (collections (db w) !! name) as [d|] eqn:Hd; simpl; [|discriminate].
  destruct (indexes (db w) !! name) as [idxs|] eqn:Hi; simpl;
    intros [= <- <-]; simpl; exists d; repeat split; try done.
Qed.
End InsertState.

Section InsertIndexes.
Context {host : Host}.

Lemma indexes_consistent_Forall h d idxs :
  indexes_consistent h d idxs
  <-> Forall (fun p => data (snd p) = rebuild_data h d (fst p)) idxs.
Proof.
  unfold indexes_consistent. induction idxs as [|p idxs IH]; simpl.
  - split; [constructor|done].
  - split.
    + intros [= H1 H2]. constructor; [done|by apply IH].
    + intros H. inversion H; subst. f_equal; [done|by apply IH].
Qed.

Lemma rebuild_data_snoc h d doc field :
  rebuild_data h (d ++ [doc]) field
  = let v := _getNestedValue h (Root doc) field in
    if negb (strict_eq v VUndef)
    then Map_push v (prop "_id" doc) (rebuild_data h d field)
    else rebuild_data h d field.
Proof. unfold rebuild_data. by rewrite fold_left_app. Qed.

Lemma rebuild_data_top h h' d field :
  top_level field -> rebuild_data h d field = rebuild_data h' d field.
Proof.
  intros Ht. unfold rebuild_data. generalize (@nil (value * list value)).
  induction d as [|x d IH]; intros m; simpl; [done|].
  rewrite !(getNested_top _ _ _ Ht). apply IH.
Qed.

Lemma index_document_in_step h h' d doc idxs :
  Forall (fun p => top_level (fst p)) idxs ->
  indexes_consistent h d idxs ->
  indexes_consistent h' (d ++ [doc]) (index_document h' doc idxs).
Proof.
  rewrite !indexes_consistent_Forall. intros Ht Hc.
  unfold index_document. apply Forall_forall. intros q Hq.
  apply list_elem_of_In, in_map_iff in Hq as (p & <- & Hp).
  apply list_elem_of_In in Hp.
  rewrite Forall_forall in Ht, Hc. specialize (Ht p Hp). specialize (Hc p Hp).
  destruct (negb (strict_eq (_getNestedValue h' (Root doc) (fst p)) VUndef)) eqn:E;
    simpl; rewrite rebuild_data_snoc; simpl; rewrite E;
    rewrite Hc; by rewrite (rebuild_data_top h h' d _ Ht).
Qed.
End InsertIndexes.

(** X2. An [insertOne] that returns keeps the indexes in step: when every
    index of the collection is on a top-level field and held, before the
    call, what a scan of the documents gives, so it does after the call, the
    new document included. *)
Theorem X2_insert_keeps_indexes_in_step {host : Host} (name : string) (doc : Doc)
    (w : World) r (w' : World) :
  indexes_top_level w name ->
  indexes_in_step w name ->
  insertOne name doc w = (Ok r, w') ->
  indexes_in_step w' name /\ indexes_top_level w' name.
Proof.
  intros Ht Hc Hins.
  destruct (insertOne_ok_inv _ _ _ _ _ Hins)
    as (d & Hd & _ & _ & _ & _ & _ & Hcol & Hidx & _).
  unfold indexes_in_step, indexes_top_level in *.
  rewrite Hcol, Hidx, lookup_insert_eq. rewrite Hd in Hc. simpl in *.
  destruct (indexes (db w) !! name) as [idxs|] eqn:Hi; simpl in *.
  - rewrite lookup_insert_eq. simpl. split.
    + by apply (index_document_in_step (heap w)).
    + unfold index_document. rewrite Forall_forall in Ht. apply Forall_forall.
      intros q Hq. apply list_elem_of_In, in_map_iff in Hq as (p & <- & Hp).
      apply list_elem_of_In in Hp. specialize (Ht p Hp).
      by destruct (negb _).
  - rewrite Hi. simpl. split; [done|constructor].
Qed.

Lemma X2_insert_keeps_indexes_in_step_witness :
  let w := snd (with_id_index (host := sample_host) "c" empty_world) in
  let run := insertOne (host := sample_host) "c" [("name", VStr "A")] w in
  indexes_in_step (host := sample_host) (snd run) "c".
Proof.
  intros w run.
  refine (proj1 (X2_insert_keeps_indexes_in_step (host := sample_host) "c"
                   [("name", VStr "A")] w (prop "_id" (default [] (snd <$> (match fst run with Ok r => Some r | _ => None end)) ), default [] (snd <$> (match fst run with Ok r => Some r | _ => None end))) (snd run) _ _ _)).
  - unfold indexes_top_level, top_level. vm_compute. repeat constructor.
  - unfold indexes_in_step, indexes_consistent. vm_compute. reflexivity.
  - vm_compute. reflexivity.
Defined.

(** ** Updates and deletes rebuild the indexes *)

Section UpdateIndexes.
Context {host : Host}.

Lemma rebuild_save_in_step (name : string) (w : World) :
  index_fields_once w name ->
  exists w2,
    (_ ← _rebuildIndexes name None; _saveCollection name) w = (Ok tt, w2)
    /\ indexes_in_step w2 name /\ index_fields_once w2 name
    /\ collections (db w2) = collections (db w) /\ heap w2 = heap w.
Proof.
  intros Hnd. rewrite bindM_unfold, rebuildIndexes_all_state by done.
  eexists. split; [reflexivity|].
  unfold indexes_in_step, index_fields_once, indexes_consistent, _saveCollection in *.
  destruct (indexes (db w) !! name) as [idxs|] eqn:Hidx; simpl in *.
  - rewrite lookup_insert_eq. simpl. rewrite !List.map_map. simpl.
    repeat split; try done.
  - rewrite Hidx. simpl. repeat split; try done.
Qed.

Lemma update_at_indexes (name : string) (index : nat) (update : lit) (w : World) :
  indexes (db (snd (update_at name index update w))) = indexes (db w).
Proof.
  unfold update_at, _data, liftH, new_Date, Date_now_draw, alloc, set_data.
  unfold mbind, M_bind, mret, M_ret. simpl.
  destruct (collections (db w) !! name) as [d|] eqn:Hd; [|done]. simpl.
  destruct (_applyUpdate (default [] (d !! index)) update (heap w)) as [[r|e] h1];
    simpl; [|done].
  by rewrite Hd.
Qed.

Lemma updateMany_fold (name : string) (update : lit) (docs : list Doc) :
  forall n w m w',
    foldM (updateMany_body name update) docs n w = (Ok m, w') ->
    indexes (db w') = indexes (db w) /\ (n <= m)%nat /\ (m = n -> w' = w).
Proof.
  induction docs as [|doc docs IH]; intros n w m w'.
  - intros [= <- <-]. repeat split; done.
  - simpl. rewrite bindM_unfold.
    destruct (updateMany_body name update n doc w) as [[n1|e] w1] eqn:Hb; [|done].
    intros Hrest. destruct (IH _ _ _ _ Hrest) as (Hi & Hle & Heq).
    unfold updateMany_body, _data in Hb. rewrite bindM_unfold in Hb.
    destruct (collections (db w) !! name) as [d|]; [|done].
    match type of Hb with
    | context [findIndex ?f d] => destruct (findIndex f d) as [index|]
    end.
    + rewrite bindM_unfold in Hb.
      pose proof (update_at_indexes name index update w) as Hu.
      destruct (update_at name index update w) as [[u|e] w2]; [|done].
      injection Hb as <- <-. simpl in Hu.
      split; [congruence|]. split; [lia|]. lia.
    + injection Hb as <- <-. repeat split; auto.
Qed.

Lemma filter_length_eq {A} (f : A -> bool) (l : list A) :
  length (List.filter f l) = length l -> List.filter f l = l.
Proof.
  induction l as [|x l IH]; simpl; [done|].
  pose proof (filter_length_le f l) as Hle.
  destruct (f x); simpl; intros Hlen; [f_equal; apply IH; lia|lia].
Qed.
End UpdateIndexes.

(** X3. The calls that change or remove documents leave the indexes in
    step.  When, before [updateOne], [updateMany], [findByIdAndUpdate],
    [deleteOne] or [deleteMany], every index of the collection answered,
    for every value, with the ids of the documents that a scan finds
    holding that value under the indexed field, in collection order (and
    with nothing for a value no document holds, nor for [undefined]), and
    the call returns, then every index answers so for the documents and the
    memory as the call left them.  This for a collection that is an array
    of objects, each index being on a key of the documents that is no
    dotted path and none of the names inherited from [Object.prototype]. *)
Theorem X3_update_delete_keep_indexes_in_step {host : Host} (name : string)
    (w w' : World) :
  index_fields_once w name ->
  indexes_on_own_keys w name ->
  indexes_of_scan w name ->
  ((exists query update r, updateOne name query update w = (Ok r, w'))
   \/ (exists query update r, updateMany name query update w = (Ok r, w'))
   \/ (exists id update r, findByIdAndUpdate name id update w = (Ok r, w'))
   \/ (exists query n, deleteOne name query w = (Ok n, w'))
   \/ (exists query n, deleteMany name query w = (Ok n, w'))) ->
  indexes_of_scan w' name /\ index_fields_once w' name.
Proof.
  intros Hnd _ Hstep Hcall.
  assert (Hfin : forall w1 (r : outcome unit * World),
            indexes (db w1) = indexes (db w) ->
            r = (_ ← _rebuildIndexes name None; _saveCollection name) w1 ->
            fst r = Ok tt
            /\ indexes_of_scan (snd r) name /\ index_fields_once (snd r) name).
  { intros w1 r Hi ->.
    destruct (rebuild_save_in_step name w1) as (w2 & -> & H1 & H2 & _).
    - unfold index_fields_once. by rewrite Hi.
    - split; [done|]. split; [by apply in_step_of_scan|done]. }
  destruct Hcall as [(query & update & r & Hrun)|[(query & update & r & Hrun)|
    [(id & update & r & Hrun)|[(query & n & Hrun)|(query & n & Hrun)]]]].
  - unfold updateOne in Hrun. rewrite bindM_unfold in Hrun.
    pose proof (findOne_state name query w) as Hs.
    destruct (findOne name query w) as [[[doc|]|e] w1]; simpl in Hs; subst w1;
      [|by injection Hrun as _ <-|done].
    unfold _data in Hrun at 1. rewrite bindM_unfold in Hrun.
    destruct (collections (db w) !! name) as [d|] eqn:Hd; [|done].
    match type of Hrun with
    | context [findIndex ?f d] => destruct (findIndex f d) as [index|]
    end; [|by injection Hrun as _ <-].
    rewrite bindM_unfold in Hrun.
    pose proof (update_at_indexes name index update w) as Hu.
    destruct (update_at name index update w) as [[u|e] w2]; [|done].
    simpl in Hu. rewrite bindM_unfold in Hrun.
    pose proof (rebuildIndexes_all_state w2 name) as Hr.
    destruct (Hfin w2 _ Hu eq_refl) as (Hok & H1 & H2).
    rewrite bindM_unfold in Hok, H1, H2.
    destruct (_rebuildIndexes name None w2) as [[[]|e] w3]; [|done].
    rewrite bindM_unfold in Hrun. unfold _saveCollection in *. simpl in *.
    by injection Hrun as _ <-.
  - unfold updateMany in Hrun. rewrite bindM_unfold in Hrun.
    pose proof (find_state name query no_options w) as Hs.
    destruct (find name query no_options w) as [[docs|e] w1]; simpl in Hs; subst w1;
      [|done].
    rewrite bindM_unfold in Hrun.
    destruct (foldM (updateMany_body name update) docs 0%nat w) as [[m|e] w2] eqn:Hf;
      [|done].
    apply updateMany_fold in Hf as (Hi & _ & Hsame).
    rewrite bindM_unfold in Hrun.
    destruct (Nat.ltb_spec 0 m) as [Hpos|Hzero].
    + destruct (Hfin w2 _ Hi eq_refl) as (Hok & H1 & H2).
      destruct ((_ ← _rebuildIndexes name None; _saveCollection name) w2)
        as [[[]|e] w3]; [|done].
      by injection Hrun as _ <-.
    + injection Hrun as _ <-. rewrite Hsame by lia. done.
  - unfold findByIdAndUpdate, _data in Hrun. rewrite bindM_unfold in Hrun.
    destruct (collections (db w) !! name) as [d|] eqn:Hd; [|done].
    match type of Hrun with
    | context [findIndex ?f d] => destruct (findIndex f d) as [index|]
    end; [|by injection Hrun as _ <-].
    rewrite bindM_unfold in Hrun.
    pose proof (update_at_indexes name index update w) as Hu.
    destruct (update_at name index update w) as [[u|e] w2]; [|done].
    simpl in Hu. rewrite bindM_unfold in Hrun.
    destruct (Hfin w2 _ Hu eq_refl) as (Hok & H1 & H2).
    rewrite bindM_unfold in Hok, H1, H2.
    destruct (_rebuildIndexes name None w2) as [[[]|e] w3]; [|done].
    rewrite bindM_unfold in Hrun. unfold _saveCollection in *. simpl in *.
    by injection Hrun as _ <-.
  - unfold deleteOne in Hrun. rewrite bindM_unfold in Hrun.
    pose proof (findOne_state name query w) as Hs.
    destruct (findOne name query w) as [[[doc|]|e] w1]; simpl in Hs; subst w1;
      [|by injection Hrun as _ <-|done].
    unfold _data in Hrun at 1. rewrite bindM_unfold in Hrun.
    destruct (collections (db w) !! name) as [d|] eqn:Hd; [|done].
    match type of Hrun with
    | context [findIndex ?f d] => destruct (findIndex f d) as [index|]
    end; [|by injection Hrun as _ <-].
    rewrite bindM_unfold in Hrun. unfold set_data in Hrun at 1.
    rewrite bindM_unfold in Hrun.
    match type of Hrun with
    | context [_rebuildIndexes name None ?w2] =>
        destruct (Hfin w2 _ eq_refl eq_refl) as (Hok & H1 & H2);
        rewrite bindM_unfold in Hok, H1, H2;
        destruct (_rebuildIndexes name None w2) as [[[]|e] w3]; [|done]
    end.
    rewrite bindM_unfold in Hrun. unfold _saveCollection in *. simpl in *.
    by injection Hrun as _ <-.
  - unfold deleteMany in Hrun. rewrite bindM_unfold in Hrun.
    pose proof (find_state name query no_options w) as Hs.
    destruct (find name query no_options w) as [[docs|e] w1]; simpl in Hs; subst w1;
      [|done].
    rewrite bindM_unfold in Hrun.
    destruct (collections (db w) !! name) as [d|] eqn:Hd;
      [|by unfold _data in Hrun; rewrite Hd in Hrun].
    rewrite (_data_Some _ _ _ Hd), bindM_unfold in Hrun.
    unfold set_data in Hrun at 1. rewrite bindM_unfold in Hrun.
    erewrite _data_Some in Hrun by (simpl; apply lookup_insert_eq).
    rewrite bindM_unfold in Hrun.
    match type of Hrun with
    | context [List.filter ?f d] => set (keep := f) in *
    end.
    destruct (Nat.ltb_spec 0 (length d - length (List.filter keep d))) as [Hpos|Hzero].
    + match type of Hrun with
      | context [(_ ← _rebuildIndexes name None; _saveCollection name) ?w2] =>
          destruct (Hfin w2 _ eq_refl eq_refl) as (Hok & H1 & H2);
          destruct ((_ ← _rebuildIndexes name None; _saveCollection name) w2)
            as [[[]|e] w3]; [|done]
      end.
      by injection Hrun as _ <-.
    + injection Hrun as _ <-.
      pose proof (filter_length_le keep d) as Hle.
      assert (Hsame : List.filter keep d = d) by (apply filter_length_eq; lia).
      rewrite Hsame.
      unfold indexes_of_scan, index_fields_once in *. simpl.
      rewrite lookup_insert_eq. rewrite Hd in Hstep. done.
Qed.

Lemma X3_update_delete_keep_indexes_in_step_witness :
  let w := snd ((_ ← with_id_index (host := sample_host) "c";
                 insertOne (host := sample_host) "c" [("name", VStr "A")]) empty_world) in
  indexes_of_scan (snd (deleteMany (host := sample_host) "c" (LObj []) w)) "c".
Proof.
  intros w.
  refine (proj1 (X3_update_delete_keep_indexes_in_step (host := sample_host) "c" w
                   (snd (deleteMany (host := sample_host) "c" (LObj []) w)) _ _ _
                   (or_intror (or_intror (or_intror (or_intror
                      (ex_intro _ (LObj []) (ex_intro _ 1%nat _)))))))).
  - apply (bool_decide_unpack _). vm_compute. exact I.
  - unfold indexes_on_own_keys, own_key, top_level. vm_compute.
    repeat constructor.
  - apply (in_step_of_scan (host := sample_host)).
    unfold indexes_in_step, indexes_consistent. vm_compute. reflexivity.
  - vm_compute. reflexivity.
Defined.

(** ** [findById] *)

Section FindById.
Context {host : Host}.

Lemma top_level_id : top_level "_id".
Proof. reflexivity. Qed.

Lemma ids_with_nil_find h d v :
  ids_with h d "_id" v = [] ->
  List.find (fun doc => strict_eq (prop "_id" doc) v) d = None.
Proof.
  unfold ids_with. intros Hnil. apply map_eq_nil in Hnil.
  induction d as [|x d IH]; simpl in *; [done|].
  rewrite (getNested_top _ _ _ top_level_id) in Hnil.
  destruct (same_value_zero v (prop "_id" x)) eqn:E; [done|].
  destruct (strict_eq (prop "_id" x) v) eqn:E2; [|by apply IH].
  apply strict_eq_eq in E2. rewrite E2 in E.
  assert (same_value_zero v v = true) by by apply same_value_zero_eq.
  congruence.
Qed.

(** With the indexes in step, [findById] returns what a scan returns. *)
Lemma findById_scan (name : string) (id : value) (w : World) d :
  collections (db w) !! name = Some d ->
  indexes_in_step w name ->
  id <> VUndef ->
  findById name id w
  = (Ok (List.find (fun doc => strict_eq (prop "_id" doc) id) d), w).
Proof.
  intros Hd Hstep Hid. unfold findById, _indexes, readW. rewrite bindM_unfold.
  unfold indexes_in_step in Hstep. rewrite Hd in Hstep. simpl in Hstep.
  destruct (props_get "_id" (default [] (indexes (db w) !! name))) as [ix|] eqn:Hix.
  - rewrite (consistent_lookup _ _ _ _ _ Hstep Hix), rebuild_data_get by done.
    destruct (ids_with (heap w) d "_id" id) as [|i l] eqn:Hids.
    + by rewrite (ids_with_nil_find _ _ _ Hids).
    + by rewrite bindM_unfold, (_data_Some _ _ _ Hd).
  - by rewrite bindM_unfold, (_data_Some _ _ _ Hd).
Qed.

Lemma find_app_None {A} (f : A -> bool) (l : list A) x :
  List.find f l = None -> f x = true -> List.find f (l ++ [x]) = Some x.
Proof.
  induction l as [|y l IH]; simpl; intros Hl Hx; [by rewrite Hx|].
  destruct (f y); [done|]. by apply IH.
Qed.

Lemma find_None_not {A} (f : A -> bool) (l : list A) :
  (forall x, x ∈ l -> f x = false) -> List.find f l = None.
Proof.
  induction l as [|y l IH]; simpl; intros Hl; [done|].
  rewrite (Hl y) by (by apply elem_of_cons; left).
  apply IH. intros x Hx. apply Hl. by apply elem_of_cons; right.
Qed.
End FindById.

(** X4. [findById] through the index returns what a scan returns. When the
    indexes of the collection are in step with its documents and the id is
    not [undefined], [findById(id)] returns the first document whose [_id]
    is strictly equal to the id, or [null] when there is none, whether or
    not the collection has an index on [_id]; it leaves the store as it
    was. *)
Theorem X4_findById_first_with_id {host : Host} (name : string) (id : value)
    (w : World) (d : list Doc) :
  collections (db w) !! name = Some d ->
  indexes_in_step w name ->
  id <> VUndef ->
  findById name id w
  = (Ok (List.find (fun doc => strict_eq (prop "_id" doc) id) d), w).
Proof. apply findById_scan. Qed.

Lemma X4_findById_first_with_id_witness :
  let w := snd ((_ ← with_id_index (host := sample_host) "c";
                 _ ← insertOne (host := sample_host) "c" [("_id", VStr "a"); ("n", VNum (Int 1))];
                 insertOne (host := sample_host) "c" [("_id", VStr "b")]) empty_world) in
  let d := default [] (collections (db w) !! "c") in
  findById "c" (VStr "b") w = (Ok (d !! 1%nat), w).
Proof.
  intros w d.
  transitivity (Ok (List.find (fun doc => strict_eq (prop "_id" doc) (VStr "b")) d), w);
    [|vm_compute; reflexivity].
  refine (X4_findById_first_with_id (host := sample_host) "c" (VStr "b") w d _ _ _).
  - vm_compute. reflexivity.
  - unfold indexes_in_step, indexes_consistent. vm_compute. reflexivity.
  - discriminate.
Defined.

(** X5. Insert, then look up. On a collection with a unique index on [_id]
    (the [Model] constructor always creates it) and its indexes on top-level
    fields and in step, an [insertOne] that returns an id other than
    [undefined] and NaN is followed by a [findById] of that id that returns
    the document just inserted, not an older one. *)
Theorem X5_insert_then_findById {host : Host} (name : string) (doc : Doc)
    (w : World) r (w' : World) idxs ix :
  indexes_top_level w name ->
  indexes_in_step w name ->
  indexes (db w) !! name = Some idxs ->
  props_get "_id" idxs = Some ix ->
  unique ix = true ->
  insertOne name doc w = (Ok r, w') ->
  fst r <> VUndef ->
  fst r <> VNum NaN ->
  findById name (fst r) w' = (Ok (Some (snd r)), w').
Proof.
  intros Ht Hstep Hidxs Hix Hu Hins Hundef Hnan.
  destruct (insertOne_ok_inv _ _ _ _ _ Hins)
    as (d & Hd & _ & Hr & Hheap & Hdraws & _ & Hcol & Hidx & _ & _ & Hcheck).
  assert (Hstep' : indexes_in_step w' name).
  { unfold indexes_in_step, indexes_top_level in *.
    rewrite Hcol, Hidx, Hidxs, !lookup_insert_eq. rewrite Hd, Hidxs in Hstep.
    rewrite Hidxs in Ht. simpl in *.
    by apply (index_document_in_step (heap w)). }
  rewrite (findById_scan name (fst r) w' (d ++ [snd r])); try done.
  2: { by rewrite Hcol, lookup_insert_eq. }
  do 2 f_equal. apply find_app_None.
  - apply find_None_not. intros x Hx.
    destruct (strict_eq (prop "_id" x) (fst r)) eqn:E; [|done].
    apply strict_eq_eq in E.
    rewrite Hidxs in Hcheck. simpl in Hcheck.
    pose proof (check_unique_passed _ _ _ "_id" ix Hcheck Hix Hu) as Hno.
    simpl in Hno. rewrite (getNested_top _ _ _ top_level_id), <- Hr in Hno.
    specialize (Hno Hundef).
    unfold indexes_in_step in Hstep. rewrite Hd, Hidxs in Hstep. simpl in Hstep.
    rewrite (consistent_lookup _ _ _ _ _ Hstep Hix) in Hno.
    destruct (rebuild_data_covers (heap w) d "_id" x Hx) as [Hhas _].
    { rewrite (getNested_top _ _ _ top_level_id). congruence. }
    rewrite (getNested_top _ _ _ top_level_id), E in Hhas. congruence.
  - rewrite <- Hr. by apply strict_eq_refl.
Qed.

Lemma X5_insert_then_findById_witness :
  let w := snd (with_id_index (host := sample_host) "c" empty_world) in
  let run := insertOne (host := sample_host) "c" [("name", VStr "A")] w in
  let r := default (VUndef, []) (match fst run with Ok r => Some r | _ => None end) in
  findById "c" (fst r) (snd run) = (Ok (Some (snd r)), snd run).
Proof.
  intros w run r.
  refine (X5_insert_then_findById (host := sample_host) "c"
            [("name", VStr "A")] w r (snd run)
            (default [] (indexes (db w) !! "c"))
            (default {| unique := false; data := [] |}
               (props_get "_id" (default [] (indexes (db w) !! "c"))))
            _ _ _ _ _ _ _ _).
  - unfold indexes_top_level, top_level. vm_compute. repeat constructor.
  - unfold indexes_in_step, indexes_consistent. vm_compute. reflexivity.
  - vm_compute. reflexivity.
  - vm_compute. reflexivity.
  - vm_compute. reflexivity.
  - vm_compute. reflexivity.
  - vm_compute. discriminate.
  - vm_compute. discriminate.
Defined.

(** ** [createIndex] *)

(** X6. [createIndex(name, field, options)] on a field other than the
    empty string does not throw, also not for [unique: true] on a
    collection that already holds two documents with the same value.
    Afterwards the collection has an index on the field with the [unique]
    flag asked for, which answers, for every value, with the ids of the
    documents that a scan finds holding that value under the field, in
    collection order, and has no entry for a value that no document holds,
    nor for [undefined]; its other indexes, the documents of all
    collections and the memory are as they were.  This for a collection
    that is an array of objects, the field being a key of the documents
    that is no dotted path, and neither the field nor the collection name
    being one of the names inherited from [Object.prototype]. *)
Theorem X6_createIndex_builds_from_scan {host : Host} (name field : string)
    (unique_ : bool) (w : World) :
  field <> EmptyString ->
  own_key field ->
  inherited name = false ->
  let run := createIndex name field unique_ w in
  let idxs' := default [] (indexes (db (snd run)) !! name) in
  fst run = Ok tt
  /\ (exists ix,
        props_get field idxs' = Some ix
        /\ unique ix = unique_
        /\ index_of_scan (heap w) (default [] (collections (db w) !! name)) field ix)
  /\ (forall f, f <> field ->
        props_get f idxs' = props_get f (default [] (indexes (db w) !! name)))
  /\ collections (db (snd run)) = collections (db w)
  /\ heap (snd run) = heap w.
Proof.
  intros Hne _ _. destruct field as [|c s]; [done|].
  unfold createIndex. rewrite bindM_unfold. unfold _rebuildIndexes. simpl.
  rewrite !lookup_insert_eq. simpl.
  set (idxs := default [] (indexes (db w) !! name)).
  rewrite props_get_set, String.eqb_refl. simpl.
  rewrite lookup_insert_eq. simpl.
  split; [done|]. split.
  - eexists. split.
    + by rewrite props_get_replace, String.eqb_refl, props_get_set, String.eqb_refl.
    + split; [done|]. apply rebuild_data_of_scan.
  - split; [|done]. intros f Hf.
    rewrite props_get_replace.
    destruct (String.eqb_spec f (String c s)) as [|_]; [done|].
    rewrite props_get_set.
    by destruct (String.eqb_spec f (String c s)).
Qed.

Lemma X6_createIndex_builds_from_scan_witness :
  let w := snd ((c ← collection "c";
                 _ ← insertOne (host := sample_host) c [("email", VStr "a@b")];
                 insertOne (host := sample_host) c [("email", VStr "a@b")])
                empty_world) in
  fst (createIndex "c" "email" true w) = Ok tt
  /\ exists ix,
       props_get "email"
         (default [] (indexes (db (snd (createIndex "c" "email" true w))) !! "c"))
       = Some ix
       /\ length (default [] (Map_get (VStr "a@b") (data ix))) = 2%nat.
Proof.
  intros w.
  pose proof (X6_createIndex_builds_from_scan (host := sample_host) "c" "email" true w)
    as H.
  cbv zeta in H. destruct H as (H1 & (ix & H2 & _ & H3) & _).
  - discriminate.
  - split; reflexivity.
  - reflexivity.
  - split; [exact H1|]. exists ix. split; [exact H2|].
    rewrite (H3 (VStr "a@b")). vm_compute. reflexivity.
Defined.

(** ** Queries through an index *)

(** X7. An index changes no answer. When the indexes of the collection are
    in step with its documents, no member of the filter is [undefined] and
    no key of the filter is one of the names inherited from
    [Object.prototype] (for which [this._indexes[field]] is not an index),
    a query that a scan of the whole collection answers with a list of
    documents gets the same list, in the same order, from [_matchQuery],
    whichever index it goes through; the store is as it was. *)
Theorem X7_index_lookup_is_scan {host : Host} (name : string)
    (ps : list (string * lit)) (w : World) (d l : list Doc) :
  collections (db w) !! name = Some d ->
  indexes_in_step w name ->
  Forall (fun p => snd p <> LUndef) ps ->
  Forall (fun p => inherited (fst p) = false) ps ->
  filterM (fun doc => _matchDocument (heap w) (Root doc) (LObj ps)) d = Ok l ->
  _matchQuery name (LObj ps) w = (Ok l, w).
Proof.
  intros Hd Hstep Hdef _ Hscan.
  apply (matchQuery_agrees_with_scan name ps w d l); try done.
  - unfold indexes_in_step in Hstep. by rewrite Hd in Hstep.
  - intros p [Hp _]%find_some_elem. rewrite Forall_forall in Hdef. by apply Hdef.
Qed.

Lemma X7_index_lookup_is_scan_witness :
  let w := snd ((_ ← with_id_index (host := sample_host) "c";
                 _ ← insertOne (host := sample_host) "c" [("_id", VStr "a")];
                 insertOne (host := sample_host) "c" [("_id", VStr "b")]) empty_world) in
  let d := default [] (collections (db w) !! "c") in
  _matchQuery (host := sample_host) "c" (LObj [("_id", LStr "b")]) w
  = (Ok (drop 1 d), w).
Proof.
  intros w d.
  refine (X7_index_lookup_is_scan (host := sample_host) "c" [("_id", LStr "b")]
            w d (drop 1 d) _ _ _ _ _).
  - vm_compute. reflexivity.
  - unfold indexes_in_step, indexes_consistent. vm_compute. reflexivity.
  - repeat constructor. discriminate.
  - repeat constructor.
  - vm_compute. reflexivity.
Defined.

(** ** Deleting *)

Section Delete.
Context {host : Host}.

Lemma rebuild_save_frame (name : string) (w : World) :
  exists w2,
    (_ ← _rebuildIndexes name None; _saveCollection name) w = (Ok tt, w2)
    /\ collections (db w2) = collections (db w)
    /\ heap w2 = heap w /\ disk w2 = disk w /\ draws w2 = draws w.
Proof.
  rewrite bindM_unfold. unfold _rebuildIndexes, _saveCollection.
  destruct (indexes (db w) !! name); eexists; (split; [reflexivity|done]).
Qed.

(** The documents [deleteMany] keeps, given the ones the query found. *)
Lemma deleteMany_ok_inv (name : string) (query : lit) (w : World) n (w' : World) :
  deleteMany name query w = (Ok n, w') ->
  exists d docs,
    collections (db w) !! name = Some d
    /\ _matchQuery name query w = (Ok docs, w)
    /\ sublist docs d
    /\ collections (db w')
       = <[name := List.filter
                     (fun x => negb (existsb (same_value_zero (prop "_id" x))
                                             (List.map (prop "_id") docs))) d]>
           (collections (db w))
    /\ n = (length d
            - length (List.filter
                        (fun x => negb (existsb (same_value_zero (prop "_id" x))
                                                (List.map (prop "_id") docs))) d))%nat
    /\ heap w' = heap w /\ disk w' = disk w.
Proof.
  unfold deleteMany. rewrite bindM_unfold, find_no_options.
  destruct (_matchQuery name query w) as [[docs|e] w1] eqn:Hq; [|done].
  apply matchQuery_sublist in Hq as (-> & d & Hd & Hsub).
  rewrite bindM_unfold, (_data_Some _ _ _ Hd), bindM_unfold.
  unfold set_data at 1. rewrite bindM_unfold.
  erewrite _data_Some by (simpl; apply lookup_insert_eq).
  rewrite bindM_unfold.
  match goal with
  | |- context [List.filter ?f d] => set (keep := f) in *
  end.
  intros Hrun. exists d, docs.
  destruct (Nat.ltb 0 (length d - length (List.filter keep d))).
  - match type of Hrun with
    | context [(_ ← _rebuildIndexes name None; _saveCollection name) ?w2] =>
        destruct (rebuild_save_frame name w2) as (w3 & Hw3 & Hc & Hh & Hk & _);
        rewrite Hw3 in Hrun
    end.
    injection Hrun as <- <-. rewrite Hc, Hh, Hk. done.
  - injection Hrun as <- <-. done.
Qed.

Lemma filter_ids_sublist (docs d : list Doc) :
  sublist docs d -> NoDup (prop "_id" <$> d) ->
  List.filter (fun x => existsb (same_value_zero (prop "_id" x))
                                (List.map (prop "_id") docs)) d = docs.
Proof.
  intros Hsub. induction Hsub as [|x l1 l2 Hsub IH|x l1 l2 Hsub IH];
    intros Hnd; simpl.
  - done.
  - apply NoDup_cons in Hnd as [Hx Hnd].
    assert (same_value_zero (prop "_id" x) (prop "_id" x) = true) as ->
      by by apply same_value_zero_eq.
    simpl. f_equal. etransitivity; [|exact (IH Hnd)].
    apply filter_ext_in. intros y Hy%list_elem_of_In.
    destruct (same_value_zero (prop "_id" y) (prop "_id" x)) eqn:E; [|done].
    apply same_value_zero_eq in E. exfalso. apply Hx. rewrite <- E.
    by apply list_elem_of_fmap_2.
  - apply NoDup_cons in Hnd as [Hx Hnd].
    destruct (existsb _ _) eqn:E; [|by apply IH].
    apply existsb_exists in E as (v & Hv & E). apply same_value_zero_eq in E.
    exfalso. apply Hx. rewrite E.
    apply list_elem_of_In in Hv. change (v ∈ prop "_id" <$> l1) in Hv.
    eapply elem_of_sublist; [exact Hv|]. by apply fmap_sublist.
Qed.

Lemma filter_negb_length {A} (f : A -> bool) (l : list A) :
  (length (List.filter (fun x => negb (f x)) l) + length (List.filter f l))%nat
  = length l.
Proof.
  induction l as [|x l IH]; simpl; [done|]. destruct (f x); simpl; lia.
Qed.
End Delete.

(** X8. What [deleteMany] removes. A [deleteMany(query)] that returns has
    kept a sub-sequence of the documents, in their order, and returns the
    number it removed; no document that the query found is left, and every
    document removed has the [_id] of one the query found. When no two
    documents of the collection have the same [_id], the documents removed
    are exactly the ones found, so the count returned is the number of
    matches. *)
Theorem X8_deleteMany_removes_matches {host : Host} (name : string) (query : lit)
    (w : World) (n : nat) (w' : World) :
  deleteMany name query w = (Ok n, w') ->
  exists d docs d',
    collections (db w) !! name = Some d
    /\ _matchQuery name query w = (Ok docs, w)
    /\ collections (db w') !! name = Some d'
    /\ sublist d' d
    /\ n = (length d - length d')%nat
    /\ (forall x, x ∈ docs -> x ∉ d')
    /\ (forall x, x ∈ d -> x ∉ d' ->
          exists y, y ∈ docs /\ prop "_id" y = prop "_id" x)
    /\ (NoDup (prop "_id" <$> d) ->
          n = length docs /\ forall x, x ∈ d -> x ∈ d' \/ x ∈ docs).
Proof.
  intros (d & docs & Hd & Hq & Hsub & Hcol & Hn & _)%deleteMany_ok_inv.
  set (gone := fun x : Doc => existsb (same_value_zero (prop "_id" x))
                                      (List.map (prop "_id") docs)) in *.
  exists d, docs, (List.filter (fun x => negb (gone x)) d).
  split; [done|]. split; [done|]. split; [by rewrite Hcol, lookup_insert_eq|].
  split; [apply filter_sublist|]. split; [done|].
  assert (Hgone : forall x, x ∈ docs -> gone x = true).
  { intros x Hx. apply existsb_exists. exists (prop "_id" x). split.
    - apply in_map. by apply list_elem_of_In.
    - by apply same_value_zero_eq. }
  split; [|split].
  - intros x Hx Hin. apply list_elem_of_In, filter_In in Hin as [_ Hk].
    rewrite (Hgone x Hx) in Hk. done.
  - intros x Hx Hout. destruct (gone x) eqn:E.
    + apply existsb_exists in E as (v & Hv & E). apply same_value_zero_eq in E.
      apply in_map_iff in Hv as (y & Hy & Hyin). exists y.
      split; [by apply list_elem_of_In|congruence].
    + exfalso. apply Hout. apply list_elem_of_In, filter_In.
      split; [by apply list_elem_of_In|by rewrite E].
  - intros Hnd. pose proof (filter_ids_sublist docs d Hsub Hnd) as Hf.
    fold gone in Hf. pose proof (filter_negb_length gone d) as Hlen.
    rewrite Hf in Hlen.
    change (n = (length d - length (List.filter (fun x => negb (gone x)) d))%nat) in Hn.
    split; [lia|].
    intros x Hx. destruct (gone x) eqn:E.
    + right. rewrite <- Hf. apply list_elem_of_In, filter_In.
      split; [by apply list_elem_of_In|done].
    + left. apply list_elem_of_In, filter_In.
      split; [by apply list_elem_of_In|by rewrite E].
Qed.

Lemma X8_deleteMany_removes_matches_witness :
  let w := snd ((c ← collection "c";
                 _ ← insertOne (host := sample_host) c [("k", VNum (Int 1))];
                 _ ← insertOne (host := sample_host) c [("k", VNum (Int 2))];
                 insertOne (host := sample_host) c [("k", VNum (Int 1))])
                empty_world) in
  let run := deleteMany (host := sample_host) "c" (LObj [("k", LNum (Int 1))]) w in
  exists d docs d',
    collections (db w) !! "c" = Some d
    /\ _matchQuery (host := sample_host) "c" (LObj [("k", LNum (Int 1))]) w = (Ok docs, w)
    /\ collections (db (snd run)) !! "c" = Some d'
    /\ sublist d' d
    /\ 2%nat = (length d - length d')%nat.
Proof.
  intros w run.
  destruct (X8_deleteMany_removes_matches (host := sample_host) "c"
              (LObj [("k", LNum (Int 1))]) w 2 (snd run))
    as (d & docs & d' & H1 & H2 & H3 & H4 & H5 & _).
  - vm_compute. reflexivity.
  - exists d, docs, d'. exact (conj H1 (conj H2 (conj H3 (conj H4 H5)))).
Defined.

(** ** One document at a time *)

(** X9. [deleteOne] removes at most one document. A [deleteOne(query)] that
    returns 0 has left the whole store as it was, the write buffer
    included. One that returns 1 has removed one document and kept the
    others in their order: the one removed is the first document of the
    collection whose [_id] is strictly equal to the [_id] of the first
    match. *)
Theorem X9_deleteOne_removes_one {host : Host} (name : string) (query : lit)
    (w : World) (n : nat) (w' : World) (d : list Doc) :
  collections (db w) !! name = Some d ->
  deleteOne name query w = (Ok n, w') ->
  (n = 0%nat /\ w' = w)
  \/ (n = 1%nat
      /\ exists doc i x,
           findOne name query w = (Ok (Some doc), w)
           /\ findIndex (fun x => strict_eq (prop "_id" x) (prop "_id" doc)) d = Some i
           /\ d !! i = Some x
           /\ prop "_id" x = prop "_id" doc
           /\ collections (db w') !! name = Some (delete i d)
           /\ S (length (delete i d)) = length d).
Proof.
  intros Hd. unfold deleteOne. rewrite bindM_unfold.
  pose proof (findOne_state name query w) as Hs.
  destruct (findOne name query w) as [[[doc|]|e] w1] eqn:Hone; simpl in Hs; subst w1;
    [|intros [= <- <-]; by left|done].
  rewrite bindM_unfold, (_data_Some _ _ _ Hd).
  destruct (findIndex (fun x => strict_eq (prop "_id" x) (prop "_id" doc)) d)
    as [i|] eqn:Hi; [|intros [= <- <-]; by left].
  rewrite bindM_unfold. unfold set_data at 1. rewrite bindM_unfold.
  match goal with
  | |- context [_rebuildIndexes name None ?w2] =>
      destruct (rebuildIndexes_ok name None w2) as (w3 & -> & _ & Hc)
  end.
  rewrite bindM_unfold. unfold _saveCollection. simpl.
  intros [= <- <-]. right. split; [done|].
  destruct (findIndex_Some _ _ _ Hi) as (x & Hx & Hid).
  exists doc, i, x. repeat split; try done.
  - by apply strict_eq_eq.
  - simpl. simpl in Hc. by rewrite Hc, lookup_insert_eq.
  - rewrite length_delete by (by exists x).
    apply lookup_lt_Some in Hx. lia.
Qed.

Lemma X9_deleteOne_removes_one_witness :
  let w := snd ((c ← collection "c";
                 _ ← insertOne (host := sample_host) c [("k", VNum (Int 1))];
                 insertOne (host := sample_host) c [("k", VNum (Int 1))])
                empty_world) in
  let run := deleteOne (host := sample_host) "c" (LObj [("k", LNum (Int 1))]) w in
  let d := default [] (collections (db w) !! "c") in
  (1%nat = 0%nat /\ snd run = w)
  \/ (1%nat = 1%nat
      /\ exists doc i x,
           findOne (host := sample_host) "c" (LObj [("k", LNum (Int 1))]) w
           = (Ok (Some doc), w)
           /\ findIndex (fun x => strict_eq (prop "_id" x) (prop "_id" doc)) d = Some i
           /\ d !! i = Some x
           /\ prop "_id" x = prop "_id" doc
           /\ collections (db (snd run)) !! "c" = Some (delete i d)
           /\ S (length (delete i d)) = length d).
Proof.
  intros w run d.
  refine (X9_deleteOne_removes_one (host := sample_host) "c"
            (LObj [("k", LNum (Int 1))]) w 1 (snd run) d _ _).
  - vm_compute. reflexivity.
  - vm_compute. reflexivity.
Defined.

(** X10. [updateOne] rewrites at most one position of the collection. An
    [updateOne] that returns a matched count of 0 has left the whole store
    as it was. One that returns 1 has put the document it returns at one
    position of the collection array, that of the first document whose
    [_id] is strictly equal to the [_id] of the first match; the array has
    the length it had and holds at every other position the document it
    held, with the same value under every key. (A nested array or object
    that such a document shares with the rewritten one is the same object
    still, and [$push], [$addToSet] or a dotted [$set] may have changed it
    in place.) *)
Theorem X10_updateOne_rewrites_one {host : Host} (name : string)
    (query update : lit) (w : World) (r : UpdateResult) (w' : World) (d : list Doc) :
  collections (db w) !! name = Some d ->
  updateOne name query update w = (Ok r, w') ->
  (matchedCount r = 0%nat /\ document r = None /\ w' = w)
  \/ (matchedCount r = 1%nat
      /\ exists doc i doc' d',
           findOne name query w = (Ok (Some doc), w)
           /\ findIndex (fun x => strict_eq (prop "_id" x) (prop "_id" doc)) d = Some i
           /\ document r = Some doc'
           /\ collections (db w') !! name = Some d'
           /\ d' !! i = Some doc'
           /\ length d' = length d
           /\ forall j, j <> i -> d' !! j = d !! j).
Proof.
  intros Hd. unfold updateOne. rewrite bindM_unfold.
  pose proof (findOne_state name query w) as Hs.
  destruct (findOne name query w) as [[[doc|]|e] w1] eqn:Hone; simpl in Hs; subst w1;
    [|intros [= <- <-]; by left|done].
  rewrite bindM_unfold, (_data_Some _ _ _ Hd).
  destruct (findIndex (fun x => strict_eq (prop "_id" x) (prop "_id" doc)) d)
    as [i|] eqn:Hi; [|intros [= <- <-]; by left].
  rewrite bindM_unfold.
  destruct (update_at name i update w) as [[doc'|e] w2] eqn:Hup; [|done].
  destruct (update_at_ok _ _ _ _ _ _ _ Hd Hup) as (Hcol & _).
  rewrite bindM_unfold.
  destruct (rebuildIndexes_ok name None w2) as (w3 & -> & _ & Hc).
  rewrite bindM_unfold. unfold _saveCollection. simpl.
  intros [= <- <-]. right. split; [done|].
  destruct (findIndex_Some _ _ _ Hi) as (x & Hx & Hid).
  exists doc, i, doc', (<[i := doc']> d). simpl. rewrite Hc.
  repeat split; try done.
  - apply list_lookup_insert_eq. by apply lookup_lt_Some in Hx.
  - apply length_insert.
  - intros j Hj. by apply list_lookup_insert_ne.
Qed.

Lemma X10_updateOne_rewrites_one_witness :
  let w := snd (noop_setup (host := sample_host) empty_world) in
  let run := updateOne (host := sample_host) "c" (LObj []) noop_update w in
  let r := default {| matchedCount := 0; modifiedCount := 0; document := None |}
             (match fst run with Ok r => Some r | _ => None end) in
  let d := default [] (collections (db w) !! "c") in
  (matchedCount r = 0%nat /\ document r = None /\ snd run = w)
  \/ (matchedCount r = 1%nat
      /\ exists doc i doc' d',
           findOne (host := sample_host) "c" (LObj []) w = (Ok (Some doc), w)
           /\ findIndex (fun x => strict_eq (prop "_id" x) (prop "_id" doc)) d = Some i
           /\ document r = Some doc'
           /\ collections (db (snd run)) !! "c" = Some d'
           /\ d' !! i = Some doc'
           /\ length d' = length d
           /\ forall j, j <> i -> d' !! j = d !! j).
Proof.
  intros w run r d.
  refine (X10_updateOne_rewrites_one (host := sample_host) "c" (LObj []) noop_update
            w r (snd run) d _ _).
  - vm_compute. reflexivity.
  - vm_compute. reflexivity.
Defined.

(** ** Counting *)

Lemma slice_first {host : Host} {A} (l : list A) :
  head (Array_slice l (LNum (Int 0)) (Some (LNum (Int 1)))) = head l.
Proof.
  destruct l as [|x l]; [done|].
  unfold Array_slice, to_integer, rel_index. simpl length. cbn -[Z.min Z.of_nat].
  replace (Z.min 1 (Z.of_nat (S (length l)))) with 1 by lia.
  done.
Qed.

(** X11. [exists(query)] is [countDocuments(query) > 0]: the two calls
    return, or throw, together, [exists] answers true exactly when the
    count is not 0, and neither changes the store. *)
Theorem X11_exists_is_positive_count {host : Host} (name : string) (query : lit)
    (w : World) :
  exists_ name query w
  = (n ← countDocuments name query; mret (Nat.ltb 0 n)) w
  /\ snd (exists_ name query w) = w.
Proof.
  assert (Heq : exists_ name query w
                = (n ← countDocuments name query; mret (Nat.ltb 0 n)) w).
  { unfold exists_, findOne, find, countDocuments. rewrite !bindM_unfold. simpl.
    destruct (_matchQuery name query w) as [[results|e] w1]; [|done].
    rewrite !bindM_unfold. simpl. unfold mret, M_ret.
    by rewrite slice_first; destruct results. }
  split; [done|].
  unfold exists_. rewrite bindM_unfold.
  pose proof (findOne_state name query w) as Hs.
  by destruct (findOne name query w) as [[?|?] ?].
Qed.

Section Distinct.
Context {host : Host}.

Lemma distinct_fold (h : Heap) (field : string) (docs : list Doc) :
  forall acc,
    NoDup acc -> VUndef ∉ acc ->
    let r := fold_left
               (fun values doc =>
                  let v := _getNestedValue h (Root doc) field in
                  if negb (strict_eq v VUndef)
                     && negb (existsb (same_value_zero v) values)
                  then values ++ [v] else values) docs acc in
    NoDup r /\ (VUndef ∉ r)
    /\ forall v, v ∈ r <-> (v ∈ acc
                            \/ (v <> VUndef
                                /\ exists doc, doc ∈ docs
                                     /\ _getNestedValue h (Root doc) field = v)).
Proof.
  induction docs as [|x docs IH]; intros acc Hnd Hun; simpl.
  - repeat split; [done|done|by left|]. intros [?|(_ & ? & []%elem_of_nil & _)]; done.
  - set (v := _getNestedValue h (Root x) field).
    destruct (strict_eq v VUndef) eqn:Eu; simpl.
    + apply strict_eq_eq in Eu.
      destruct (IH acc Hnd Hun) as (H1 & H2 & H3). split; [done|]. split; [done|].
      intros y. rewrite H3. split.
      * intros [?|(Hy & doc & Hdoc & Hv)]; [by left|right].
        split; [done|]. exists doc. split; [by apply elem_of_cons; right|done].
      * intros [?|(Hy & doc & Hdoc & Hv)]; [by left|right].
        split; [done|]. apply elem_of_cons in Hdoc as [->|Hdoc].
        -- fold v in Hv. congruence.
        -- by exists doc.
    + assert (Hv : v <> VUndef).
      { intros E. rewrite E in Eu. by vm_compute in Eu. }
      destruct (existsb (same_value_zero v) acc) eqn:Ein; simpl.
      * apply existsb_exists in Ein as (y & Hy & E).
        apply same_value_zero_eq in E. subst y. apply list_elem_of_In in Hy.
        destruct (IH acc Hnd Hun) as (H1 & H2 & H3). split; [done|]. split; [done|].
        intros y. rewrite H3. split.
        -- intros [?|(Hy' & doc & Hdoc & Hdv)]; [by left|right].
           split; [done|]. exists doc. split; [by apply elem_of_cons; right|done].
        -- intros [?|(Hy' & doc & Hdoc & Hdv)]; [by left|].
           apply elem_of_cons in Hdoc as [->|Hdoc].
           ++ left. fold v in Hdv. by subst y.
           ++ right. split; [done|]. by exists doc.
      * assert (Hnot : v ∉ acc).
        { intros Hin%list_elem_of_In.
          assert (existsb (same_value_zero v) acc = true); [|congruence].
          apply existsb_exists. exists v. split; [done|by apply same_value_zero_eq]. }
        destruct (IH (acc ++ [v])) as (H1 & H2 & H3).
        { apply NoDup_app. split; [done|]. split; [|apply NoDup_singleton].
          intros y Hy ->%list_elem_of_singleton. done. }
        { intros [?|?%list_elem_of_singleton]%elem_of_app; done. }
        split; [done|]. split; [done|].
        intros y. rewrite H3, elem_of_app, list_elem_of_singleton. split.
        -- intros [[?| ->]|(Hy' & doc & Hdoc & Hdv)].
           ++ by left.
           ++ right. split; [done|]. exists x. split; [by apply elem_of_cons; left|done].
           ++ right. split; [done|]. exists doc.
              split; [by apply elem_of_cons; right|done].
        -- intros [?|(Hy' & doc & Hdoc & Hdv)]; [by left; left|].
           apply elem_of_cons in Hdoc as [->|Hdoc].
           ++ left; right. by fold v in Hdv.
           ++ right. split; [done|]. by exists doc.
Qed.
End Distinct.

(** X12. [distinct(field, query)] returns each value once. When the call
    returns, no value is in the result twice, [undefined] is not in it, and
    a value is in it exactly when it is the value, other than [undefined],
    that one of the documents matching the query has on the field; the
    store is as it was. *)
Theorem X12_distinct_each_value_once {host : Host} (name field : string)
    (query : lit) (w : World) (vs : list value) (w' : World) :
  distinct name field query w = (Ok vs, w') ->
  w' = w
  /\ NoDup vs
  /\ (VUndef ∉ vs)
  /\ exists docs,
       _matchQuery name query w = (Ok docs, w)
       /\ forall v, v ∈ vs <-> (v <> VUndef
                                /\ exists doc, doc ∈ docs
                                     /\ _getNestedValue (heap w) (Root doc) field = v).
Proof.
  unfold distinct. rewrite bindM_unfold, find_no_options.
  destruct (_matchQuery name query w) as [[docs|e] w1] eqn:Hq; [|done].
  apply matchQuery_sublist in Hq as (-> & d & Hd & Hsub).
  unfold inM. intros [= <- <-]. split; [done|].
  destruct (distinct_fold (heap w) field docs [] (NoDup_nil_2) (not_elem_of_nil _))
    as (H1 & H2 & H3).
  split; [done|]. split; [done|]. exists docs. split; [done|].
  intros v. rewrite H3. split.
  - intros [[]%elem_of_nil|?]; done.
  - by right.
Qed.

Lemma X12_distinct_each_value_once_witness :
  let w := snd (tie_setup (host := sample_host) empty_world) in
  let run := distinct (host := sample_host) "c" "k" (LObj []) w in
  NoDup (default [] (match fst run with Ok vs => Some vs | _ => None end)).
Proof.
  intros w run.
  refine (proj1 (proj2 (X12_distinct_each_value_once (host := sample_host) "c" "k"
                          (LObj []) w _ (snd run) _))).
  vm_compute. reflexivity.
Defined.

(** ** Paging *)

Section Paging.
Context {host : Host}.

Lemma slice_from {A} (l : list A) (s : nat) :
  (if lit_truthy (LNum (Int (Z.of_nat s)))
   then Array_slice l (LNum (Int (Z.of_nat s))) None else l) = drop s l.
Proof.
  destruct s as [|s]; [done|].
  assert (lit_truthy (LNum (Int (Z.of_nat (S s)))) = true) as ->.
  { unfold lit_truthy. simpl. by destruct s. }
  unfold Array_slice, to_integer, rel_index. cbn -[Z.min Z.of_nat Z.ltb].
  destruct (Z.ltb_spec (Z.of_nat (S s)) 0) as [?|_]; [lia|].
  destruct (Nat.le_gt_cases (S s) (length l)) as [Hle|Hgt].
  - replace (Z.to_nat (Z.min (Z.of_nat (S s)) (Z.of_nat (length l)))) with (S s) by lia.
    rewrite <- (length_drop l (S s)). apply firstn_all.
  - replace (Z.to_nat (Z.min (Z.of_nat (S s)) (Z.of_nat (length l))))
      with (length l) by lia.
    rewrite Nat.sub_diag, !drop_ge by lia. done.
Qed.

Lemma slice_upto {A} (l : list A) (n : nat) :
  (if lit_truthy (LNum (Int (Z.of_nat n)))
   then Array_slice l (LNum (Int 0)) (Some (LNum (Int (Z.of_nat n)))) else l)
  = match n with O => l | _ => take n l end.
Proof.
  destruct n as [|n]; [done|].
  assert (lit_truthy (LNum (Int (Z.of_nat (S n)))) = true) as ->.
  { unfold lit_truthy. simpl. by destruct n. }
  unfold Array_slice, to_integer, rel_index. cbn -[Z.min Z.of_nat Z.ltb].
  destruct (Z.ltb_spec (Z.of_nat (S n)) 0) as [?|_]; [lia|].
  change (0 <? 0) with false. cbv iota.
  replace (Z.to_nat (Z.min 0 (Z.of_nat (length l)))) with O by lia.
  rewrite Nat.sub_0_r, drop_0.
  destruct (Nat.le_gt_cases (S n) (length l)) as [Hle|Hgt].
  - by replace (Z.to_nat (Z.min (Z.of_nat (S n)) (Z.of_nat (length l))))
      with (S n) by lia.
  - replace (Z.to_nat (Z.min (Z.of_nat (S n)) (Z.of_nat (length l))))
      with (length l) by lia.
    rewrite firstn_all, take_ge by lia. done.
Qed.
End Paging.

(** X13. Paging. For a [skip] of s and a [limit] of n, both whole numbers
    from 0 on, [find] returns the documents that the same call without
    [skip] and [limit] returns, the first s left out and of the rest the
    first n; a [limit] of 0 is no limit. The call throws when the one
    without [skip] and [limit] throws. *)
Theorem X13_skip_limit_page {host : Host} (name : string) (query sort : lit)
    (s n : nat) (w : World) :
  find name query
    {| opt_sort := sort; opt_skip := LNum (Int (Z.of_nat s));
       opt_limit := LNum (Int (Z.of_nat n)); opt_projection := LUndef |} w
  = (results ← find name query
                 {| opt_sort := sort; opt_skip := LUndef; opt_limit := LUndef;
                    opt_projection := LUndef |};
     mret (match n with O => drop s results | _ => take n (drop s results) end)) w.
Proof.
  unfold find. cbn [opt_sort opt_skip opt_limit opt_projection].
  rewrite !bindM_unfold.
  destruct (_matchQuery name query w) as [[results|e] w1]; [|done].
  rewrite !bindM_unfold.
  match goal with
  | |- context [(if lit_truthy sort then ?a else ?b) w1] =>
      destruct ((if lit_truthy sort then a else b) w1) as [[sorted|e] w2]; [|done]
  end.
  change (lit_truthy LUndef) with false. cbv iota.
  rewrite (slice_upto (if lit_truthy (LNum (Int (Z.of_nat s)))
                       then Array_slice sorted (LNum (Int (Z.of_nat s))) None
                       else sorted) n).
  rewrite slice_from. done.
Qed.

(** ** The update operators on top-level fields *)

Section UpdateOperators.
Context {host : Host}.

Lemma setNested_top (obj : Doc) (field : string) (v : value) (h : Heap) :
  top_level field ->
  _setNestedValue obj field v h = (Ok (props_set field v obj), h).
Proof. unfold top_level, _setNestedValue. by intros ->. Qed.

Lemma snapshot_of_fuel n h v c :
  snapshot_fuel n h v = Some c -> (n <= S (length h))%nat -> snapshot h v = Some c.
Proof.
  intros Hs Hn. unfold snapshot.
  rewrite <- (app_nil_r h) at 2. by apply (snapshot_fuel_mono n).
Qed.

Lemma update_set_fold (es : list (string * lit)) :
  Forall (fun p => top_level (fst p)) es ->
  NoDup (fst <$> es) ->
  forall (doc : Doc) (h : Heap),
  exists doc' ext,
    foldH (fun result p => v ← alloc_lit (snd p); _setNestedValue result (fst p) v)
          es doc h = (Ok doc', h ++ ext)
    /\ (forall f c, (f, c) ∈ es -> snapshot (h ++ ext) (prop f doc') = Some c)
    /\ (forall g, g ∉ fst <$> es -> prop g doc' = prop g doc).
Proof.
  induction es as [|[f c] es IH]; intros Ht Hnd doc h.
  - exists doc, []. rewrite app_nil_r. split; [done|]. split; [|done].
    intros ? ? []%elem_of_nil.
  - inversion Ht as [|? ? Hf Ht']; subst. simpl in Hf.
    apply NoDup_cons in Hnd as [Hnotin Hnd].
    destruct (alloc_lit_snapshot c h) as (v & ext1 & n & Hal & Hn & Hsnap).
    destruct (IH Ht' Hnd (props_set f v doc) (h ++ ext1)) as (doc' & ext2 & Hrun & Hin & Hout).
    exists doc', (ext1 ++ ext2).
    change (foldH ?g ((f, c) :: es) doc h)
      with ((a' ← (v ← alloc_lit c; _setNestedValue doc f v); foldH g es a') h).
    rewrite !bindH_unfold, Hal, (setNested_top _ _ _ _ Hf), Hrun, app_assoc.
    split; [done|]. split.
    + intros g c' [[= -> ->]|Hin']%elem_of_cons.
      * rewrite (Hout f Hnotin), prop_set, String.eqb_refl.
        apply snapshot_extend. apply (snapshot_of_fuel n); [done|].
        rewrite length_app. lia.
      * by apply Hin.
    + intros g Hg. rewrite fmap_cons, not_elem_of_cons in Hg. destruct Hg as [Hgf Hg].
      rewrite (Hout g Hg), prop_set.
      by destruct (String.eqb_spec g f).
Qed.

Lemma props_replace_same {V} (k : string) (v : V) (ps : list (string * V)) :
  props_get k ps = Some v -> props_replace k v ps = ps.
Proof.
  induction ps as [|[k' v'] ps IH]; simpl; [done|].
  destruct (String.eqb_spec k k') as [->|_].
  - by intros [= ->].
  - intros Hk. by rewrite IH.
Qed.

Lemma props_set_same (k : string) (v : value) (doc : Doc) :
  props_get k doc = Some v -> props_set k v doc = doc.
Proof.
  intros Hk. unfold props_set.
  assert (has_key k doc = true) as -> by (apply has_key_true; by rewrite Hk).
  by apply props_replace_same.
Qed.
End UpdateOperators.

(** X14. [$set], then read. [{ $set: fields }] never throws when the
    field names are keys of the document itself: no dotted paths, and none
    of the names inherited from [Object.prototype] ([__proto__] would set
    the prototype, not a property).  Afterwards each of the fields reads as
    the value given for it, nested arrays, objects and Dates included, and
    every other property of the document holds what it held. *)
Theorem X14_set_then_read {host : Host} (doc : Doc) (es : list (string * lit))
    (h : Heap) :
  Forall (fun p => own_key (fst p)) es ->
  NoDup (fst <$> es) ->
  exists doc' ext,
    _applyUpdate doc (LObj [("$set", LObj es)]) h = (Ok doc', h ++ ext)
    /\ (forall f c, (f, c) ∈ es -> snapshot (h ++ ext) (prop f doc') = Some c)
    /\ (forall g, g ∉ fst <$> es -> prop g doc' = prop g doc).
Proof.
  intros Hown Hnd.
  assert (Forall (fun p => top_level (fst p)) es) as Ht.
  { eapply Forall_impl; [exact Hown|]. by intros p [? _]. }
  destruct (update_set_fold es Ht Hnd doc h) as (doc' & ext & Hrun & Hin & Hout).
  exists doc', ext. split; [|done].
  unfold _applyUpdate. rewrite bindH_unfold. simpl.
  rewrite bindH_unfold. unfold update_op. simpl. unfold update_set.
  rewrite bindH_unfold. simpl. rewrite Hrun. done.
Qed.

Lemma X14_set_then_read_witness :
  exists doc' ext,
    _applyUpdate (host := sample_host) [("_id", VStr "a"); ("n", VNum (Int 1))]
      (LObj [("$set", LObj [("n", LNum (Int 2)); ("tags", LArr [LStr "x"])])]) []
    = (Ok doc', [] ++ ext)
    /\ snapshot ([] ++ ext) (prop "tags" doc') = Some (LArr [LStr "x"])
    /\ prop "_id" doc' = VStr "a".
Proof.
  destruct (X14_set_then_read (host := sample_host)
              [("_id", VStr "a"); ("n", VNum (Int 1))]
              [("n", LNum (Int 2)); ("tags", LArr [LStr "x"])] [])
    as (doc' & ext & H1 & H2 & H3).
  - repeat constructor.
  - apply (bool_decide_unpack _). vm_compute. exact I.
  - exists doc', ext. split; [exact H1|]. split.
    + apply H2. apply elem_of_cons. right. apply elem_of_cons. by left.
    + rewrite H3; [reflexivity|].
      apply (bool_decide_unpack _). vm_compute. exact I.
Defined.

(** X15. [$inc] on a key of the document itself (no dotted path, none of
    the names inherited from [Object.prototype]), for whole numbers a, b
    and a + b that are safe integers. A field holding a becomes a + b; a
    field that is absent, or holds [null], [false], 0, NaN or the empty
    string, counts as 0 and becomes b. Nothing else of the document
    changes, and the call does not throw. *)
Theorem X15_inc_adds {host : Host} (doc : Doc) (field : string) (a b : Z)
    (h : Heap) :
  own_key field ->
  isSafeInteger a = true -> isSafeInteger b = true -> isSafeInteger (a + b) = true ->
  prop field doc = VNum (Int a) \/ (truthy (prop field doc) = false /\ a = 0) ->
  _applyUpdate doc (LObj [("$inc", LObj [(field, LNum (Int b))])]) h
  = (Ok (props_set field (VNum (Int (a + b))) doc), h).
Proof.
  intros [Ht _] _ _ _ Hcur.
  unfold _applyUpdate. rewrite bindH_unfold. simpl.
  rewrite bindH_unfold. unfold update_op. simpl. unfold update_inc.
  rewrite bindH_unfold. simpl. rewrite bindH_unfold.
  unfold current_or. rewrite !bindH_unfold. unfold readH at 1.
  rewrite (getNested_top _ _ _ Ht).
  assert (Hval : ((if truthy (prop field doc) then mret (prop field doc)
                   else mret (VNum (Int 0))) : H value) h
                 = (Ok (VNum (Int (if Z.eqb a 0 then 0 else a))), h)).
  { destruct Hcur as [->|[-> ->]]; [|done].
    simpl. destruct a; done. }
  rewrite Hval, bindH_unfold. unfold readH.
  rewrite (setNested_top _ _ _ _ Ht). simpl.
  do 3 f_equal. unfold deep, snapshot. simpl. unfold lit_add. simpl.
  destruct (Z.eqb_spec a 0) as [->|_]; done.
Qed.

Lemma X15_inc_adds_witness :
  _applyUpdate (host := sample_host) [("_id", VStr "a")]
    (LObj [("$inc", LObj [("visits", LNum (Int 1))])]) []
  = (Ok (props_set "visits" (VNum (Int (0 + 1))) [("_id", VStr "a")]), []).
Proof.
  apply (X15_inc_adds (host := sample_host)).
  - split; reflexivity.
  - reflexivity.
  - reflexivity.
  - reflexivity.
  - right. split; reflexivity.
Defined.

(** X16. [$push] changes the array in place. When a top-level field holds
    an array, [{ $push: { field: value } }] with a boolean, a number or a
    string appends the value to that very array: the document returned is
    the one given, still pointing at the same array, so the document as it
    was before the call shows the new element as well. *)
Theorem X16_push_in_place {host : Host} (doc : Doc) (field : string) (c : lit)
    (v : value) (l : loc) (es : list value) (h : Heap) :
  top_level field ->
  props_get field doc = Some (VRef l) ->
  h !! l = Some (Arr es) ->
  lit_prim c = Some v -> v <> VUndef -> v <> VNull ->
  _applyUpdate doc (LObj [("$push", LObj [(field, c)])]) h
  = (Ok doc, <[l := Arr (es ++ [v])]> h).
Proof.
  intros Ht Hf Hl Hc Hu Hn.
  assert (Hp : prop field doc = VRef l) by (unfold prop; by rewrite Hf).
  unfold _applyUpdate. rewrite bindH_unfold. simpl.
  rewrite bindH_unfold. unfold update_op. simpl. unfold update_push.
  rewrite bindH_unfold. simpl. rewrite bindH_unfold.
  unfold current_or. rewrite !bindH_unfold. unfold readH at 1.
  rewrite (getNested_top _ _ _ Ht), Hp. simpl.
  destruct c; simpl in Hc; try discriminate; injection Hc as <-; try done;
    simpl; unfold array_push, store; repeat (rewrite bindH_unfold; simpl);
    unfold mret, H_ret; rewrite Hl; simpl;
    rewrite (setNested_top _ _ _ _ Ht), (props_set_same _ _ _ Hf); done.
Qed.

Lemma X16_push_in_place_witness :
  _applyUpdate (host := sample_host) [("tags", VRef 0)]
    (LObj [("$push", LObj [("tags", LStr "new")])]) [Arr [VStr "old"]]
  = (Ok [("tags", VRef 0)], <[0%nat := Arr ([VStr "old"] ++ [VStr "new"])]> [Arr [VStr "old"]]).
Proof.
  apply (X16_push_in_place (host := sample_host) _ _ _ (VStr "new") 0%nat [VStr "old"]);
    try reflexivity; discriminate.
Defined.

(** X17. [$addToSet] adds a value once. When a top-level field holds an
    array, [{ $addToSet: { field: value } }] with a primitive value leaves
    the array as it is when the array includes the value, and appends the
    value otherwise; applied a second time it changes nothing. *)
Theorem X17_addToSet_once {host : Host} (doc : Doc) (field : string) (c : lit)
    (v : value) (l : loc) (es : list value) (h : Heap) :
  top_level field ->
  props_get field doc = Some (VRef l) ->
  h !! l = Some (Arr es) ->
  lit_prim c = Some v ->
  let update := LObj [("$addToSet", LObj [(field, c)])] in
  let h' := if existsb (fun item => same_value_zero item v) es then h
            else <[l := Arr (es ++ [v])]> h in
  _applyUpdate doc update h = (Ok doc, h')
  /\ _applyUpdate doc update h' = (Ok doc, h').
Proof.
  intros Ht Hf Hl Hc update h'.
  assert (Hp : prop field doc = VRef l) by (unfold prop; by rewrite Hf).
  assert (Hstep : forall h0 es0,
            h0 !! l = Some (Arr es0) ->
            _applyUpdate doc update h0
            = (Ok doc, if existsb (fun item => same_value_zero item v) es0 then h0
                       else <[l := Arr (es0 ++ [v])]> h0)).
  { intros h0 es0 Hl0.
    unfold update, _applyUpdate. rewrite bindH_unfold. simpl.
    rewrite bindH_unfold. unfold update_op. simpl. unfold update_addToSet.
    rewrite bindH_unfold. simpl. rewrite bindH_unfold.
    unfold current_or. rewrite !bindH_unfold. unfold readH at 1.
    rewrite (getNested_top _ _ _ Ht), Hp. simpl.
    unfold inH. unfold value_includes, array_elems.
    rewrite bindH_unfold, Hl0.
    unfold same_value_zero_lit. rewrite Hc.
    destruct (existsb (fun item => same_value_zero item v) es0); simpl.
    - rewrite bindH_unfold. simpl. unfold mret, H_ret.
      by rewrite (setNested_top _ _ _ _ Ht), (props_set_same _ _ _ Hf).
    - rewrite !bindH_unfold.
      assert (alloc_lit c h0 = (Ok v, h0)) as ->.
      { by destruct c; simpl in Hc; try discriminate; injection Hc as <-. }
      unfold array_push, store. rewrite Hl0. simpl. unfold mret, H_ret.
      by rewrite (setNested_top _ _ _ _ Ht), (props_set_same _ _ _ Hf). }
  split; [by apply Hstep|].
  subst h'. destruct (existsb (fun item => same_value_zero item v) es) eqn:E.
  - rewrite (Hstep h es Hl), E. done.
  - rewrite (Hstep _ (es ++ [v])).
    + rewrite existsb_app. simpl.
      assert (same_value_zero v v = true) as -> by by apply same_value_zero_eq.
      by rewrite orb_true_r.
    + apply list_lookup_insert_eq. by apply lookup_lt_Some in Hl.
Qed.

Lemma X17_addToSet_once_witness :
  let update := LObj [("$addToSet", LObj [("tags", LStr "new")])] in
  let h' := <[0%nat := Arr ([VStr "old"] ++ [VStr "new"])]> [Arr [VStr "old"]] in
  _applyUpdate (host := sample_host) [("tags", VRef 0)] update [Arr [VStr "old"]]
  = (Ok [("tags", VRef 0)], h')
  /\ _applyUpdate (host := sample_host) [("tags", VRef 0)] update h'
     = (Ok [("tags", VRef 0)], h').
Proof.
  apply (X17_addToSet_once (host := sample_host) _ _ _ (VStr "new") 0%nat [VStr "old"]);
    reflexivity.
Defined.

(** ** Opening a store *)

Section Open.
Context {host : Host}.

(** What [_loadCollection] leaves alone in a store that has no index. *)
Lemma loadCollection_frame (n : string) (w : World) :
  indexes (db w) = ∅ ->
  exists w1,
    _loadCollection n w = (Ok tt, w1)
    /\ indexes (db w1) = ∅ /\ disk w1 = disk w
    /\ writeBuffer (db w1) = writeBuffer (db w)
    /\ writeTimeout (db w1) = writeTimeout (db w)
    /\ draws w1 = draws w
    /\ (forall m, m <> n -> collections (db w1) !! m = collections (db w) !! m)
    /\ (disk w !! (n +:+ ".json") = Some Garbled \/ disk w !! (n +:+ ".json") = None ->
        collections (db w1) !! n = Some []).
Proof.
  intros Hi. unfold _loadCollection.
  destruct (disk w !! (n +:+ ".json")) as [[js|]|] eqn:Hf.
  - unfold mbind, M_bind, liftH.
    destruct (alloc_docs_snapshot
                (List.map (List.map (fun p => (fst p, of_json (snd p)))) js) (heap w))
      as (parsed & ext & Hrun & Hs).
    rewrite mapH_fmap in Hrun. rewrite Hrun.
    unfold set_data, _rebuildIndexes. simpl. rewrite Hi, lookup_empty.
    eexists. split; [done|]. simpl. repeat split; try done.
    + intros m Hm. by rewrite lookup_insert_ne.
    + by intros [|].
  - unfold set_data. eexists. split; [done|]. simpl. repeat split; try done.
    + intros m Hm. by rewrite lookup_insert_ne.
    + intros _. by rewrite lookup_insert_eq.
  - unfold set_data. eexists. split; [done|]. simpl. repeat split; try done.
    + intros m Hm. by rewrite lookup_insert_ne.
    + intros _. by rewrite lookup_insert_eq.
Qed.

Lemma loadCollections_frame (l : list string) :
  forall w,
    indexes (db w) = ∅ ->
    exists w',
      mapM_ (fun file =>
               if endsWith file ".json" && negb (startsWith_underscore file)
               then _loadCollection (replace_json file)
               else mret tt) l w = (Ok tt, w')
      /\ indexes (db w') = ∅ /\ disk w' = disk w
      /\ writeBuffer (db w') = writeBuffer (db w)
      /\ writeTimeout (db w') = writeTimeout (db w)
      /\ draws w' = draws w.
Proof.
  induction l as [|f l IH]; intros w Hi.
  - by exists w.
  - rewrite mapM__cons.
    destruct (endsWith f ".json" && negb (startsWith_underscore f)).
    + destruct (loadCollection_frame (replace_json f) w Hi)
        as (w1 & -> & Hi1 & Hd1 & Hb1 & Ht1 & Hn1 & _ & _).
      destruct (IH w1 Hi1) as (w' & -> & ? & ? & ? & ? & ?).
      exists w'. repeat split; congruence.
    + destruct (IH w Hi) as (w' & Hrun & ?). by exists w'.
Qed.

(** In a collection without indexes [insertOne] returns. *)
Lemma insertOne_no_index (name : string) (doc : Doc) (w : World) d :
  indexes (db w) !! name = None ->
  collections (db w) !! name = Some d ->
  exists r w', insertOne name doc w = (Ok r, w').
Proof.
  intros Hi Hd.
  unfold insertOne, new_Date, _generateId, Date_now_draw, randomBytes_draw,
    liftH, alloc, _indexes, readW, _data, set_data, _saveCollection, inM.
  unfold mbind, M_bind, mret, M_ret. simpl. rewrite Hi. simpl. rewrite Hd. simpl.
  rewrite Hi. by eexists _, _.
Qed.

(** A collection whose file does not parse is loaded empty. *)
Lemma loadCollections_garbled (files : gmap string file) (name : string) :
  string_includes name ".json" = false ->
  startsWith_underscore name = false ->
  files !! (name +:+ ".json") = Some Garbled ->
  forall l w,
    disk w = files -> indexes (db w) = ∅ ->
    (name +:+ ".json") ∈ l \/ collections (db w) !! name = Some [] ->
    exists w',
      mapM_ (fun file =>
               if endsWith file ".json" && negb (startsWith_underscore file)
               then _loadCollection (replace_json file)
               else mret tt) l w = (Ok tt, w')
      /\ collections (db w') !! name = Some [].
Proof.
  intros Hn Hu Hfile. induction l as [|f l IH]; intros w Hdisk Hidx Hcase.
  - destruct Hcase as [Hin|Hp]; [by apply elem_of_nil in Hin|].
    by exists w.
  - rewrite mapM__cons.
    destruct (endsWith f ".json" && negb (startsWith_underscore f)) eqn:Hc.
    + destruct (loadCollection_frame (replace_json f) w Hidx)
        as (w1 & -> & Hi1 & Hd1 & _ & _ & _ & Hother & Hthis).
      apply (IH w1); [congruence|done|].
      destruct (decide (f = name +:+ ".json")) as [->|Hne].
      * right. rewrite replace_json_app in Hthis by done.
        apply Hthis. left. by rewrite Hdisk.
      * destruct Hcase as [Hin|Hp].
        { apply elem_of_cons in Hin as [Heq|Hin]; [by destruct Hne|by left]. }
        right. rewrite Hother; [done|]. intros Heq. apply Hne.
        apply andb_prop in Hc as [He _].
        by apply collection_file_only.
    + apply (IH w); [done|done|].
      destruct Hcase as [Hin|Hp]; [|by right].
      apply elem_of_cons in Hin as [Heq|Hin]; [|by left].
      rewrite <- Heq, endsWith_json, startsWith_underscore_json, Hu in Hc. done.
Qed.

Lemma new_TMUDatabase_frame (files : gmap string file) :
  let w := new_TMUDatabase files in
  indexes (db w) = ∅ /\ writeBuffer (db w) = []
  /\ writeTimeout (db w) = false /\ disk w = files.
Proof.
  unfold new_TMUDatabase, _loadCollections. rewrite bindM_unfold. unfold readW.
  cbn [disk].
  match goal with
  | |- context [mapM_ ?f ?l ?w0] =>
      destruct (loadCollections_frame l w0 eq_refl) as (w' & -> & Hi & Hd & Hb & Ht & _)
  end.
  cbn [snd]. repeat split; done.
Qed.
End Open.

(** X18. Indexes do not survive a restart. A store just opened on a
    directory whose files each hold either a JSON array of objects or text
    that [JSON.parse] rejects has no index at all and no pending write, and
    has left the files as they were. So until [createIndex] is called
    again nothing is checked: [insertOne] into any of the collections it
    loaded returns, whatever the document. *)
Theorem X18_fresh_store_has_no_index {host : Host} (files : gmap string file) :
  let w := new_TMUDatabase files in
  indexes (db w) = ∅
  /\ writeBuffer (db w) = []
  /\ writeTimeout (db w) = false
  /\ disk w = files
  /\ forall name d doc,
       collections (db w) !! name = Some d ->
       exists r w', insertOne name doc w = (Ok r, w').
Proof.
  destruct (new_TMUDatabase_frame files) as (Hi & Hb & Ht & Hd).
  cbv zeta. repeat split; try done.
  intros name d doc Hcol.
  apply (insertOne_no_index name doc (new_TMUDatabase files) d); [|done].
  by rewrite Hi, lookup_empty.
Qed.

(** X19. A collection file that does not parse is loaded as an empty
    collection: opening the store does not fail, the collection (for a name
    that neither starts with an underscore nor contains [.json]) is there
    with no document, and the file is left on disk as it was. *)
Theorem X19_garbled_file_loads_empty (files : gmap string file) (name : string) :
  string_includes name ".json" = false ->
  startsWith_underscore name = false ->
  file_name name = true ->
  files !! (name +:+ ".json") = Some Garbled ->
  collections (db (new_TMUDatabase files)) !! name = Some []
  /\ disk (new_TMUDatabase files) !! (name +:+ ".json") = Some Garbled.
Proof.
  intros Hn Hu Hfn Hfile. split.
  - unfold new_TMUDatabase, _loadCollections. rewrite bindM_unfold. unfold readW.
    cbn [disk].
    edestruct (loadCollections_garbled files name Hn Hu Hfile (readdirSync files))
      as (w' & -> & Hs); [..|exact Hs].
    + done.
    + done.
    + left. unfold readdirSync. apply list_elem_of_In, filter_In. split.
      * apply list_elem_of_In.
        apply (list_elem_of_fmap_2' fst _ (name +:+ ".json", Garbled));
          [by apply elem_of_map_to_list|done].
      * by apply file_name_json.
  - destruct (new_TMUDatabase_frame files) as (_ & _ & _ & ->). done.
Qed.

Lemma X19_garbled_file_loads_empty_witness :
  collections (db (new_TMUDatabase {["c.json" := Garbled]})) !! "c" = Some [].
Proof.
  refine (proj1 (X19_garbled_file_loads_empty {["c.json" := Garbled]} "c" _ _ _ _));
    reflexivity.
Defined.

(** ** Flushing *)

(** X20. [flush()] never throws. It empties the write buffer and clears the
    timer, leaves documents, indexes and memory as they were, and leaves
    alone every file that is not the file of a collection in the write
    buffer. A second [flush()] right after it changes nothing. *)
Theorem X20_flush_clears_buffer {host : Host} (w : World) :
  let w' := snd (flush w) in
  fst (flush w) = Ok tt
  /\ writeBuffer (db w') = [] /\ writeTimeout (db w') = false
  /\ collections (db w') = collections (db w)
  /\ indexes (db w') = indexes (db w)
  /\ heap w' = heap w
  /\ (forall p,
        (forall name, name ∈ List.map fst (writeBuffer (db w)) ->
                      p <> name +:+ ".json") ->
        disk w' !! p = disk w !! p)
  /\ flush w' = (Ok tt, w').
Proof.
  unfold flush, inM, _flushWrites. rewrite !bindM_unfold. simpl.
  repeat split; try done.
  intros p. generalize (disk w) as dsk.
  induction (List.map fst (writeBuffer (db w))) as [|n names IH]; intros dsk Hp;
    simpl; [done|].
  rewrite IH.
  - destruct (collections (db w) !! n) as [docs|]; [|done].
    destruct (mapM (snapshot_doc (heap w)) docs) as [ls|]; [|done].
    destruct (file_name n); [|done].
    rewrite lookup_insert_ne; [done|]. intros Heq. apply (Hp n); [|done].
    apply elem_of_cons. by left.
  - intros name Hin. apply Hp. apply elem_of_cons. by right.
Qed.

(** ** Reading calls *)

Section Reading.
Context {host : Host}.

Lemma foldM_db {A B} (f : A -> B -> M A) (l : list B) :
  (forall a x w, db (snd (f a x w)) = db w /\ disk (snd (f a x w)) = disk w) ->
  forall a w, db (snd (foldM f l a w)) = db w /\ disk (snd (foldM f l a w)) = disk w.
Proof.
  intros Hf. induction l as [|x l IH]; intros a w; simpl; [done|].
  rewrite bindM_unfold. pose proof (Hf a x w) as [H1 H2].
  destruct (f a x w) as [[a'|e] w1]; simpl in *; [|done].
  destruct (IH a' w1) as [H3 H4]. split; congruence.
Qed.

Lemma aggregate_db (name : string) (pipeline : list lit) (w : World) :
  db (snd (aggregate name pipeline w)) = db w
  /\ disk (snd (aggregate name pipeline w)) = disk w.
Proof.
  unfold aggregate. rewrite bindM_unfold. unfold _data.
  destruct (collections (db w) !! name) as [d|]; [|done].
  apply foldM_db. intros results stage w0. rewrite bindM_unfold. unfold liftOM.
  destruct (first_entry stage) as [[operation params]|e]; [|done]. simpl.
  repeat match goal with
         | |- context [if String.eqb operation ?s then _ else _] =>
             destruct (String.eqb operation s)
         end; try done.
  unfold liftH. by destruct (_applyGroup results params (heap w0)).
Qed.
End Reading.

(** X21. The reading calls change nothing. Whether they return or throw,
    [find], [findOne], [findById], [countDocuments], [exists] and
    [distinct] leave the whole process as it was: documents, indexes, write
    buffer, files and memory. [aggregate] leaves the store and the files as
    they were (a [$group] stage builds its result documents in memory). *)
Theorem X21_reads_change_nothing {host : Host} (name field : string)
    (query : lit) (options : FindOptions) (id : value) (pipeline : list lit)
    (w : World) :
  snd (find name query options w) = w
  /\ snd (findOne name query w) = w
  /\ snd (findById name id w) = w
  /\ snd (countDocuments name query w) = w
  /\ snd (exists_ name query w) = w
  /\ snd (distinct name field query w) = w
  /\ db (snd (aggregate name pipeline w)) = db w
  /\ disk (snd (aggregate name pipeline w)) = disk w.
Proof.
  split; [apply find_state|]. split; [apply findOne_state|].
  split.
  { unfold findById, _indexes, readW, _data. rewrite bindM_unfold.
    destruct (props_get "_id" _) as [ix|].
    - destruct (Map_get id (data ix)) as [[|? ?]|]; try done.
      rewrite bindM_unfold. by destruct (collections (db w) !! name).
    - rewrite bindM_unfold. by destruct (collections (db w) !! name). }
  split.
  { unfold countDocuments. rewrite bindM_unfold.
    pose proof (matchQuery_state name query w).
    by destruct (_matchQuery name query w) as [[?|?] ?]. }
  split.
  { unfold exists_. rewrite bindM_unfold.
    pose proof (findOne_state name query w).
    by destruct (findOne name query w) as [[?|?] ?]. }
  split.
  { unfold distinct. rewrite bindM_unfold.
    pose proof (find_state name query no_options w).
    by destruct (find name query no_options w) as [[?|?] ?]. }
  apply aggregate_db.
Qed.

(** ** Aggregation pipelines *)

Section Pipeline.
Context {host : Host}.

Lemma foldM_app {A B} (f : A -> B -> M A) (l1 l2 : list B) (a : A) (w : World) :
  foldM f (l1 ++ l2) a w = (a' ← foldM f l1 a; foldM f l2 a') w.
Proof.
  revert a w. induction l1 as [|x l1 IH]; intros a w; simpl; [done|].
  rewrite !bindM_unfold. destruct (f a x w) as [[a1|e] w1]; [|done].
  rewrite IH. by rewrite bindM_unfold.
Qed.
End Pipeline.

(** X22. A stage that [aggregate] does not know is skipped without an
    error. When the operator of a stage is none of [$match], [$sort],
    [$limit], [$skip], [$project] and [$group], the pipeline gives what it
    gives without that stage, wherever the stage stands. *)
Theorem X22_unknown_stage_skipped {host : Host} (name : string)
    (before after : list lit) (stage : lit) (operation : string) (params : lit)
    (w : World) :
  first_entry stage = Ok (operation, params) ->
  existsb (String.eqb operation)
          ["$match"; "$sort"; "$limit"; "$skip"; "$project"; "$group"] = false ->
  aggregate name (before ++ stage :: after) w
  = aggregate name (before ++ after) w.
Proof.
  intros Hfirst Hop. simpl in Hop.
  repeat (apply orb_false_elim in Hop as [? Hop]).
  unfold aggregate. rewrite !bindM_unfold.
  destruct (_data name w) as [[d|e] w1]; [|done].
  rewrite !foldM_app, !bindM_unfold.
  match goal with
  | |- context [foldM ?f before d w1] =>
      destruct (foldM f before d w1) as [[results|e] w2]; [|done]
  end.
  simpl. rewrite bindM_unfold. unfold liftOM at 1. rewrite Hfirst. simpl.
  rewrite bindM_unfold. cbn [fst snd].
  repeat match goal with
         | H : String.eqb operation ?s = false |- _ => rewrite H; clear H
         end.
  done.
Qed.

Lemma X22_unknown_stage_skipped_witness :
  let w := snd (tie_setup (host := sample_host) empty_world) in
  aggregate (host := sample_host) "c"
    ([LObj [("$limit", LNum (Int 2))]] ++ LObj [("$count", LStr "n")] :: []) w
  = aggregate (host := sample_host) "c" ([LObj [("$limit", LNum (Int 2))]] ++ []) w.
Proof.
  intros w.
  apply (X22_unknown_stage_skipped (host := sample_host) "c" _ _ _ "$count" (LStr "n"));
    reflexivity.
Defined.

(** ** Sorting on a numeric key *)

(** X23. Sorting on a numeric key puts the documents in order. On an engine
    whose sort does what the standard requires, [_applySort] with one key
    that is a finite number (or a Date) in every document, and a direction
    that is a non-zero number, returns the same documents rearranged so
    that, for a positive direction, no document comes before one with a
    smaller key and, for a negative direction, none comes before one with a
    greater key. *)
Theorem X23_numeric_sort_orders {host : Host} (h : Heap) (docs : list Doc)
    (field : string) (o : Z) :
  sort_conforms host ->
  numeric_sort h [(field, LNum (Int o))] docs = true ->
  exists sorted,
    _applySort h docs (LObj [(field, LNum (Int o))]) = Ok sorted
    /\ sorted ≡ₚ docs
    /\ forall x y kx ky,
         occurs_before x y sorted ->
         to_primitive HintNumber (deep h (_getNestedValue h (Root x) field))
         = LNum (Int kx) ->
         to_primitive HintNumber (deep h (_getNestedValue h (Root y) field))
         = LNum (Int ky) ->
         (0 < o -> kx <= ky) /\ (o < 0 -> ky <= kx).
Proof.
  intros Hconf Hnum.
  pose proof (numeric_sort_consistent h _ docs Hnum) as Hcons.
  assert (Ho : o <> 0).
  { simpl in Hnum. apply andb_prop in Hnum as [Hnum _].
    apply andb_prop in Hnum as [Hnum _]. apply negb_true_iff in Hnum. lia. }
  exists (stable_sort (sort_compare h [(field, LNum (Int o))]) docs).
  split; [|split].
  - unfold _applySort. destruct docs as [|a [|b docs]]; [done|done|].
    simpl. by rewrite (Hconf _ _ _ Hcons).
  - apply stable_sort_perm.
  - intros x y kx ky Hbefore Hx Hy.
    pose proof (stable_sort_sorted _ docs Hcons docs (reflexivity _) x y Hbefore) as Hle.
    rewrite (sort_compare_numeric h field o [] x y kx ky Ho Hx Hy) in Hle.
    destruct (Z.ltb_spec kx ky); [simpl in Hle; lia|].
    destruct (Z.ltb_spec ky kx); simpl in Hle; lia.
Qed.

Lemma X23_numeric_sort_orders_witness :
  let w := snd (tie_setup (host := sample_host) empty_world) in
  let docs := default [] (collections (db w) !! "c") in
  exists sorted,
    _applySort (host := sample_host) (heap w) docs (LObj [("k", LNum (Int 1))])
    = Ok sorted
    /\ sorted ≡ₚ docs.
Proof.
  intros w docs.
  destruct (X23_numeric_sort_orders (host := sample_host) (heap w) docs "k" 1)
    as (sorted & H1 & H2 & _).
  - exact sample_host_conforms.
  - vm_compute. reflexivity.
  - exists sorted. exact (conj H1 H2).
Defined.

(** ** Schema defaults *)

Section Defaults.
Context {host : Host}.

Lemma foldM_inv {A B} (P : A -> Prop) (f : A -> B -> M A) (l : list B) :
  (forall a x w a' w', x ∈ l -> f a x w = (Ok a', w') -> P a -> P a') ->
  forall a w a' w', foldM f l a w = (Ok a', w') -> P a -> P a'.
Proof.
  induction l as [|x l IH]; intros Hf a w a' w'.
  - by intros [= <- <-].
  - simpl. rewrite bindM_unfold.
    destruct (f a x w) as [[a1|e] w1] eqn:Hx; [|done].
    intros Hrest Ha. eapply IH; [|exact Hrest|].
    + intros ? ? ? ? ? Hin. apply Hf. by apply elem_of_cons; right.
    + eapply Hf; [|exact Hx|exact Ha]. by apply elem_of_cons; left.
Qed.

Lemma default_step_other (result : Doc) (p : string * FieldSpec) w result' w' f :
  default_step result p w = (Ok result', w') ->
  fst p <> f \/ prop f result <> VUndef ->
  prop f result' = prop f result.
Proof.
  unfold default_step. intros Hstep Hother.
  assert (Hset : forall v, strict_eq (prop (fst p) result) VUndef = true ->
                           prop f (props_set (fst p) v result) = prop f result).
  { intros v Hu%strict_eq_eq. rewrite prop_set.
    destruct (String.eqb_spec f (fst p)) as [->|_]; [|done].
    destruct Hother as [?|?]; done. }
  destruct (strict_eq (prop (fst p) result) VUndef) eqn:Hu.
  - destruct (default_ (field_rules (snd p))) as [v|g].
    + injection Hstep as <- <-. destruct (negb _); [by apply Hset|done].
    + rewrite bindM_unfold in Hstep. destruct (g w) as [[v|e] w1]; [|done].
      injection Hstep as <- <-. by apply Hset.
  - by injection Hstep as <- <-.
Qed.

Lemma defaults_untouched (l : list (string * FieldSpec)) f :
  forall result w doc w',
    foldM default_step l result w = (Ok doc, w') ->
    f ∉ fst <$> l \/ prop f result <> VUndef ->
    prop f doc = prop f result.
Proof.
  induction l as [|p l IH]; intros result w doc w'.
  - by intros [= <- <-].
  - simpl. rewrite bindM_unfold.
    destruct (default_step result p w) as [[r1|e] w1] eqn:Hstep; [|done].
    intros Hrest Hcase.
    assert (H1 : prop f r1 = prop f result).
    { apply (default_step_other _ _ _ _ _ _ Hstep).
      destruct Hcase as [Hnot|?]; [left|by right].
      intros Heq. apply Hnot. apply elem_of_cons. by left. }
    rewrite <- H1. apply (IH _ _ _ _ Hrest).
    destruct Hcase as [Hnot|?]; [left|right; congruence].
    intros Hin. apply Hnot. apply elem_of_cons. by right.
Qed.

Lemma defaults_filled (l : list (string * FieldSpec)) f spec v :
  NoDup (fst <$> l) ->
  props_get f l = Some spec ->
  default_ (field_rules spec) = Default v ->
  forall result w doc w',
    foldM default_step l result w = (Ok doc, w') ->
    prop f result = VUndef ->
    prop f doc = v.
Proof.
  induction l as [|[k s] l IH]; intros Hnd Hget Hdef result w doc w'; [done|].
  simpl in Hget. rewrite fmap_cons in Hnd. apply NoDup_cons in Hnd as [Hk Hnd].
  simpl. rewrite bindM_unfold.
  destruct (default_step result (k, s) w) as [[r1|e] w1] eqn:Hstep; [|done].
  intros Hrest Hu.
  destruct (String.eqb_spec f k) as [->|Hne].
  - injection Hget as ->.
    rewrite (defaults_untouched l k _ _ _ _ Hrest) by (by left).
    unfold default_step in Hstep. simpl in Hstep. rewrite Hu, Hdef in Hstep.
    simpl in Hstep. injection Hstep as <- <-.
    destruct (strict_eq v VUndef) eqn:Ev; simpl.
    + apply strict_eq_eq in Ev. congruence.
    + by rewrite prop_set, String.eqb_refl.
  - apply (IH Hnd Hget Hdef _ _ _ _ Hrest).
    rewrite (default_step_other _ _ _ _ _ f Hstep); [done|]. left. simpl. congruence.
Qed.
End Defaults.

(** X24. Defaults fill only what is missing. When [_applyDefaults] returns,
    every field that the caller's data gives a value other than
    [undefined] ([null], 0, false and the empty string included) has that
    value, and a field of the schema that the data does not give and whose
    default is a value has the default, provided its name is none of the
    names inherited from [Object.prototype] (such a field never reads as
    [undefined], and gets no default). *)
Theorem X24_defaults_fill_missing (m : Model) (data : Doc)
    (w : World) (doc : Doc) (w' : World) :
  NoDup (fst <$> data) ->
  NoDup (fst <$> definition (schema m)) ->
  _applyDefaults m data w = (Ok doc, w') ->
  (forall f, prop f data <> VUndef -> prop f doc = prop f data)
  /\ (forall f spec v,
        props_get f (definition (schema m)) = Some spec ->
        default_ (field_rules spec) = Default v ->
        inherited f = false ->
        prop f data = VUndef ->
        prop f doc = v).
Proof.
  intros Hdata Hdef Hrun.
  change (foldM default_step (definition (schema m)) (props_assign [] data) w
          = (Ok doc, w')) in Hrun.
  assert (Hstart : forall f, prop f (props_assign [] data) = prop f data).
  { intros f. unfold prop. rewrite props_get_assign by done.
    by destruct (props_get f data). }
  split.
  - intros f Hf. rewrite <- Hstart.
    apply (defaults_untouched _ f _ _ _ _ Hrun). right. by rewrite Hstart.
  - intros f spec v Hget Hv _ Hu.
    apply (defaults_filled _ f spec v Hdef Hget Hv _ _ _ _ Hrun).
    by rewrite Hstart.
Qed.

Lemma X24_defaults_fill_missing_witness :
  let m := {| modelName := "User";
              schema := new_Schema
                [("role", Rules {| type_ := Some TString; required := Required LUndef;
                                   default_ := Default (VStr "student");
                                   enum := None; minlength := LUndef;
                                   maxlength := LUndef; match_ := MatchAbsent;
                                   min := LUndef; max := LUndef; lowercase := false;
                                   uppercase := false; trim_ := false |});
                 ("score", Rules {| type_ := Some TNumber; required := Required LUndef;
                                    default_ := Default (VNum (Int 10));
                                    enum := None; minlength := LUndef;
                                    maxlength := LUndef; match_ := MatchAbsent;
                                    min := LUndef; max := LUndef; lowercase := false;
                                    uppercase := false; trim_ := false |})];
              collection_ := "users" |} in
  let run := _applyDefaults m [("score", VNum (Int 0))]
               empty_world in
  let doc := default [] (match fst run with Ok d => Some d | _ => None end) in
  prop "score" doc = VNum (Int 0) /\ prop "role" doc = VStr "student".
Proof.
  intros m run doc.
  destruct (X24_defaults_fill_missing m
              [("score", VNum (Int 0))] empty_world doc (snd run)) as [H1 H2].
  - apply (bool_decide_unpack _). vm_compute. exact I.
  - apply (bool_decide_unpack _). vm_compute. exact I.
  - vm_compute. reflexivity.
  - split.
    + apply (H1 "score"). discriminate.
    + eapply (H2 "role"); reflexivity.
Defined.

(** ** [Model.create] *)

Section KeysOnce.
Context {V : Type}.

Lemma props_get_None_keys k (ps : list (string * V)) :
  props_get k ps = None <-> k ∉ fst <$> ps.
Proof.
  induction ps as [|[k' v] ps IH]; simpl.
  - split; [intros _ []%elem_of_nil|done].
  - rewrite not_elem_of_cons. destruct (String.eqb_spec k k') as [->|Hne].
    + split; [done|]. by intros [? _].
    + rewrite IH. split; [done|]. by intros [_ ?].
Qed.

Lemma props_replace_keys k (v : V) ps : fst <$> props_replace k v ps = fst <$> ps.
Proof.
  induction ps as [|[k' v'] ps IH]; [done|]. cbn [props_replace].
  destruct (String.eqb k k'); rewrite !fmap_cons; cbn [fst]; [done|]. by rewrite IH.
Qed.

Lemma props_place_keys i k (v : V) ps : fst <$> props_place i k v ps ≡ₚ k :: (fst <$> ps).
Proof.
  induction ps as [|[k' v'] ps IH]; [done|]. cbn [props_place].
  destruct (array_index k') as [j|]; [|done].
  destruct (Nat.ltb i j); [done|]. rewrite !fmap_cons. cbn [fst].
  rewrite IH. apply Permutation_swap.
Qed.

Lemma props_set_NoDup k (v : V) ps :
  NoDup (fst <$> ps) -> NoDup (fst <$> props_set k v ps).
Proof.
  intros Hnd. unfold props_set. destruct (has_key k ps) eqn:Hk.
  - by rewrite props_replace_keys.
  - apply has_key_false, props_get_None_keys in Hk.
    destruct (array_index k).
    + rewrite props_place_keys. by apply NoDup_cons.
    + rewrite fmap_app. simpl. apply NoDup_app. split; [done|]. split.
      * intros x Hx ->%list_elem_of_singleton. done.
      * apply NoDup_singleton.
Qed.

Lemma props_assign_NoDup (a b : list (string * V)) :
  NoDup (fst <$> a) -> NoDup (fst <$> props_assign a b).
Proof.
  unfold props_assign. revert a. induction b as [|p b IH]; intros a Ha; simpl; [done|].
  apply IH. by apply props_set_NoDup.
Qed.
End KeysOnce.

Section Create.
Context {host : Host}.

Lemma new_document_NoDup id now (doc : Doc) :
  NoDup (fst <$> new_document id now doc).
Proof.
  unfold new_document. do 2 apply props_set_NoDup. apply props_assign_NoDup.
  simpl. apply NoDup_singleton.
Qed.

Lemma wrapDocument_prop (x : Doc) k :
  NoDup (fst <$> x) -> prop k (_wrapDocument x) = prop k x.
Proof.
  intros Hnd. unfold _wrapDocument, prop. rewrite props_get_assign by done.
  by destruct (props_get k x).
Qed.

(** [create] with plain defaults and no save hooks: validate, then insert. *)
Lemma create_plain (m : Model) (data : Doc) (w : World) :
  Forall (fun p => exists v, default_ (field_rules (snd p)) = Default v)
         (definition (schema m)) ->
  props_get "save" (preHooks (schema m)) = None ->
  props_get "save" (postHooks (schema m)) = None ->
  exists doc0,
    create m data w
    = match _validate m (heap w) (_transform m doc0) with
      | Ok _ =>
          match insertOne (collection_ m) (_transform m doc0) w with
          | (Ok r, w1) => (Ok (_wrapDocument (snd r)), w1)
          | (Throw e, w1) => (Throw e, w1)
          end
      | Throw e => (Throw e, w)
      end.
Proof.
  intros Hplain Hpre Hpost. unfold create. rewrite bindM_unfold.
  destruct (applyDefaults_plain m data w Hplain) as [doc0 ->].
  exists doc0. rewrite Hpre, Hpost. simpl.
  unfold inM, mbind, M_bind, mret, M_ret.
  destruct (_validate m (heap w) (_transform m doc0)) as [b|err]; [|done].
  by destruct (insertOne (collection_ m) (_transform m doc0) w) as [[r|err] w1].
Qed.
End Create.

(** X25. A [create] that throws stores nothing. With a schema whose
    defaults are values and that has no save hooks, a failed [create] leaves
    every collection, every index, the write buffer and the files as they
    were; when it fails validation it leaves the whole process as it was,
    and the error lists at least one violation. *)
Theorem X25_failed_create_stores_nothing {host : Host} (m : Model) (data : Doc)
    (w : World) (e : error) (w' : World) :
  Forall (fun p => exists v, default_ (field_rules (snd p)) = Default v)
         (definition (schema m)) ->
  props_get "save" (preHooks (schema m)) = None ->
  props_get "save" (postHooks (schema m)) = None ->
  create m data w = (Throw e, w') ->
  db w' = db w /\ disk w' = disk w
  /\ forall errors, e = ValidationError errors -> w' = w /\ errors <> [].
Proof.
  intros Hplain Hpre Hpost Hrun.
  assert (Hval : forall errors, e = ValidationError errors -> w' = w /\ errors <> []).
  { intros errors ->.
    destruct (create_invalid_unchanged m data w errors w' Hplain Hpre Hpost Hrun)
      as [Hw [doc [_ Hne]]]. done. }
  destruct (create_plain m data w Hplain Hpre Hpost) as [doc0 Hc].
  rewrite Hc in Hrun.
  destruct (_validate m (heap w) (_transform m doc0)) as [b|err].
  - destruct (insertOne (collection_ m) (_transform m doc0) w) as [[r|err] w1] eqn:Hins;
      [done|].
    injection Hrun as _ <-.
    destruct (insertOne_throw_unchanged _ _ _ _ _ Hins). done.
  - injection Hrun as _ <-. done.
Qed.

Lemma X25_failed_create_stores_nothing_witness :
  let m := {| modelName := "User";
              schema := new_Schema [("name", Rules user_name_rules)];
              collection_ := "users" |} in
  let w := snd (new_Model (host := sample_host) "User"
                  (new_Schema [("name", Rules user_name_rules)]) empty_world) in
  snd (create (host := sample_host) m [] w) = w.
Proof.
  intros m w.
  refine (proj1 (proj2 (proj2 (X25_failed_create_stores_nothing (host := sample_host)
                                 m [] w
                                 (ValidationError [("name", LStr "Name is required")])
                                 (snd (create (host := sample_host) m [] w)) _ _ _ _))
                  _ eq_refl)).
  - repeat constructor. by eexists.
  - reflexivity.
  - reflexivity.
  - vm_compute. reflexivity.
Defined.

(** X26. A [create] that returns has stored one document. With a schema
    that declares no methods and no virtuals, whose defaults are values and
    that has no save hooks, the collection of the model holds, after a
    [create] that returns, the documents it held and one more at the end;
    under every name other than [save], [toObject] and [toJSON], which
    [_wrapDocument] adds, the document returned holds the very value that
    the stored one holds, a nested array or object being shared between the
    two; the other collections are as they were. *)
Theorem X26_create_stores_one {host : Host} (m : Model) (data : Doc)
    (w : World) (doc : Doc) (w' : World) :
  Forall (fun p => exists v, default_ (field_rules (snd p)) = Default v)
         (definition (schema m)) ->
  props_get "save" (preHooks (schema m)) = None ->
  props_get "save" (postHooks (schema m)) = None ->
  create m data w = (Ok doc, w') ->
  exists d x,
    collections (db w) !! collection_ m = Some d
    /\ collections (db w') !! collection_ m = Some (d ++ [x])
    /\ (forall k, k ∉ ["save"; "toObject"; "toJSON"] -> prop k doc = prop k x)
    /\ (forall n, n <> collection_ m ->
          collections (db w') !! n = collections (db w) !! n).
Proof.
  intros Hplain Hpre Hpost Hrun.
  destruct (create_plain m data w Hplain Hpre Hpost) as [doc0 Hc].
  rewrite Hc in Hrun.
  destruct (_validate m (heap w) (_transform m doc0)) as [b|err]; [|done].
  destruct (insertOne (collection_ m) (_transform m doc0) w) as [[r|err] w1] eqn:Hins;
    [|done].
  revert Hrun.
  intros [= <- <-].
  destruct (insertOne_ok_inv _ _ _ _ _ Hins)
    as (d & Hd & Hr & _ & _ & _ & _ & Hcol & _).
  exists d, (snd r). split; [done|]. split; [by rewrite Hcol, lookup_insert_eq|].
  split.
  - intros k _. apply wrapDocument_prop. rewrite Hr. apply new_document_NoDup.
  - intros n Hn. by rewrite Hcol, lookup_insert_ne.
Qed.

Lemma X26_create_stores_one_witness :
  let m := {| modelName := "User";
              schema := new_Schema [("name", Rules user_name_rules)];
              collection_ := "users" |} in
  let w := snd (new_Model (host := sample_host) "User"
                  (new_Schema [("name", Rules user_name_rules)]) empty_world) in
  let run := create (host := sample_host) m [("name", VStr "A")] w in
  exists d x,
    collections (db w) !! "users" = Some d
    /\ collections (db (snd run)) !! "users" = Some (d ++ [x])
    /\ prop "name" x = VStr "A".
Proof.
  intros m w run.
  destruct (X26_create_stores_one (host := sample_host) m [("name", VStr "A")] w
              (default [] (match fst run with Ok d => Some d | _ => None end))
              (snd run))
    as (d & x & H1 & H2 & H3 & _).
  - repeat constructor. by eexists.
  - reflexivity.
  - reflexivity.
  - vm_compute. reflexivity.
  - exists d, x. split; [exact H1|]. split; [exact H2|].
    rewrite <- H3; [vm_compute; reflexivity|].
    apply (bool_decide_unpack _). vm_compute. exact I.
Defined.

(** ** Projections *)

Section Projection.
Context {host : Host}.

Lemma has_key_set {V} f k (v : V) ps :
  has_key f (props_set k v ps) = String.eqb f k || has_key f ps.
Proof.
  destruct (has_key f (props_set k v ps)) eqn:E.
  - apply has_key_true in E. rewrite props_get_set in E.
    destruct (String.eqb f k); [done|]. symmetry. by apply has_key_true.
  - apply has_key_false in E. rewrite props_get_set in E.
    destruct (String.eqb f k); [done|]. symmetry. by apply has_key_false.
Qed.

Lemma has_key_del {V} f k (ps : list (string * V)) :
  has_key f (props_del k ps) = negb (String.eqb f k) && has_key f ps.
Proof.
  destruct (has_key f (props_del k ps)) eqn:E.
  - apply has_key_true in E. rewrite props_get_del in E.
    destruct (String.eqb f k); [by destruct E|]. symmetry. by apply has_key_true.
  - apply has_key_false in E. rewrite props_get_del in E.
    destruct (String.eqb f k); [done|]. symmetry. by apply has_key_false.
Qed.

Lemma keys_once_value {V} (l : list (string * V)) k v1 v2 :
  NoDup (fst <$> l) -> (k, v1) ∈ l -> (k, v2) ∈ l -> v1 = v2.
Proof.
  induction l as [|[k' v'] l IH]; intros Hnd H1 H2; [by apply elem_of_nil in H1|].
  rewrite fmap_cons in Hnd. apply NoDup_cons in Hnd as [Hk Hnd]. simpl in Hk.
  apply elem_of_cons in H1 as [H1|H1]; apply elem_of_cons in H2 as [H2|H2].
  - congruence.
  - injection H1 as -> ->. exfalso. apply Hk.
    by apply (list_elem_of_fmap_2' fst _ (k', v2)).
  - injection H2 as -> ->. exfalso. apply Hk.
    by apply (list_elem_of_fmap_2' fst _ (k', v1)).
  - by apply IH.
Qed.

(** The loop of the including branch never adds a field projected with 0,
    and removes [_id] when it is projected with 0. *)
Lemma include_fold_absent (h : Heap) (doc : Doc) (f : string)
    (es : list (string * lit)) :
  (forall p, p ∈ es -> fst p = f -> snd p = LNum (Int 0)) ->
  forall result,
    has_key f result = false \/ (f = "_id" /\ f ∈ fst <$> es) ->
    has_key f
      (fold_left
         (fun result p =>
            if strict_eq_lit (VNum (Int 1)) (snd p)
            then props_set (fst p) (_getNestedValue h (Root doc) (fst p)) result
            else if String.eqb (fst p) "_id" && strict_eq_lit (VNum (Int 0)) (snd p)
            then props_del "_id" result
            else result) es result) = false.
Proof.
  induction es as [|[k c] es IH]; intros Hzero result Hinv; simpl.
  - destruct Hinv as [?|[_ []%elem_of_nil]]. done.
  - apply IH.
    { intros p Hp. apply Hzero. by apply elem_of_cons; right. }
    destruct (String.eqb_spec k f) as [->|Hne].
    + assert (c = LNum (Int 0)) as ->
        by (apply (Hzero (f, c)); [by apply elem_of_cons; left|done]).
      simpl.
      destruct (String.eqb_spec f "_id") as [->|Hid]; simpl.
      * left. by rewrite has_key_del, String.eqb_refl.
      * left. destruct Hinv as [?|[? _]]; done.
    + assert (Hfk : String.eqb f k = false) by (apply String.eqb_neq; congruence).
      destruct Hinv as [Hno|[Hid Hin]].
      * left. destruct (strict_eq_lit (VNum (Int 1)) c).
        -- by rewrite has_key_set, Hfk.
        -- destruct (String.eqb k "_id" && strict_eq_lit (VNum (Int 0)) c); [|done].
           rewrite has_key_del, Hno. by rewrite andb_false_r.
      * right. split; [done|]. rewrite fmap_cons in Hin.
        apply elem_of_cons in Hin as [Heq|Hin]; [|done]. simpl in Heq. congruence.
Qed.

Lemma exclude_fold_absent (f : string) (es : list (string * lit)) :
  (forall p, p ∈ es -> fst p = f -> snd p = LNum (Int 0)) ->
  forall result : Doc,
    has_key f result = false \/ f ∈ fst <$> es ->
    has_key f
      (fold_left
         (fun result p =>
            if strict_eq_lit (VNum (Int 0)) (snd p)
            then props_del (fst p) result else result) es result) = false.
Proof.
  induction es as [|[k c] es IH]; intros Hzero result Hinv; simpl.
  - destruct Hinv as [?|[]%elem_of_nil]. done.
  - apply IH.
    { intros p Hp. apply Hzero. by apply elem_of_cons; right. }
    destruct (String.eqb_spec k f) as [->|Hne].
    + assert (c = LNum (Int 0)) as ->
        by (apply (Hzero (f, c)); [by apply elem_of_cons; left|done]).
      simpl.
      left. by rewrite has_key_del, String.eqb_refl.
    + destruct Hinv as [Hno|Hin].
      * left. destruct (strict_eq_lit (VNum (Int 0)) c); [|done].
        rewrite has_key_del, Hno. by rewrite andb_false_r.
      * right. rewrite fmap_cons in Hin.
        apply elem_of_cons in Hin as [Heq|Hin]; [|done]. simpl in Heq. congruence.
Qed.

Lemma include_fold_prop (h : Heap) (doc : Doc) (k : string)
    (es : list (string * lit)) :
  Forall (fun p => snd p = LNum (Int 1)) es ->
  forall result,
    prop k
      (fold_left
         (fun result p =>
            if strict_eq_lit (VNum (Int 1)) (snd p)
            then props_set (fst p) (_getNestedValue h (Root doc) (fst p)) result
            else if String.eqb (fst p) "_id" && strict_eq_lit (VNum (Int 0)) (snd p)
            then props_del "_id" result
            else result) es result)
    = if bool_decide (k ∈ fst <$> es) then _getNestedValue h (Root doc) k
      else prop k result.
Proof.
  induction es as [|[k' c] es IH]; intros Hall result.
  - rewrite bool_decide_eq_false_2; [done|]. intros []%elem_of_nil.
  - apply Forall_cons in Hall as [Hc Hall]. simpl in Hc. subst c.
    cbn [fold_left fst snd]. rewrite IH by done.
    change (strict_eq_lit (VNum (Int 1)) (LNum (Int 1))) with true. cbv iota.
    rewrite fmap_cons. cbn [fst].
    destruct (bool_decide (k ∈ fst <$> es)) eqn:E.
    + apply bool_decide_eq_true in E. rewrite bool_decide_eq_true_2; [done|].
      apply elem_of_cons. by right.
    + apply bool_decide_eq_false in E. rewrite prop_set.
      destruct (String.eqb_spec k k') as [->|Hne].
      * rewrite bool_decide_eq_true_2; [done|]. apply elem_of_cons. by left.
      * rewrite bool_decide_eq_false_2; [done|].
        intros [?|?]%elem_of_cons; done.
Qed.
End Projection.

(** X27. A field projected with 0 is not in the result. Whether the
    projection includes (some member is 1) or excludes, a document that
    [_applyProjection] returns has no property of the name that the
    projection gives 0. *)
Theorem X27_projected_out_is_absent (h : Heap) (doc : Doc)
    (es : list (string * lit)) (f : string) (result : Doc) :
  NoDup (fst <$> es) ->
  (f, LNum (Int 0)) ∈ es ->
  _applyProjection h doc (LObj es) = Ok result ->
  has_key f result = false /\ prop f result = VUndef.
Proof.
  intros Hnd Hin Hrun.
  assert (Hzero : forall p, p ∈ es -> fst p = f -> snd p = LNum (Int 0)).
  { intros [k c] Hp Hk. simpl in *. subst k.
    by apply (keys_once_value es f c (LNum (Int 0)) Hnd). }
  assert (Hkey : f ∈ fst <$> es).
  { by apply (list_elem_of_fmap_2' fst _ (f, LNum (Int 0))). }
  assert (Hno : has_key f result = false).
  { unfold _applyProjection in Hrun. simpl in Hrun.
    destruct (existsb _ es); injection Hrun as <-.
    - apply include_fold_absent; [done|].
      destruct (String.eqb_spec f "_id") as [->|Hne]; [by right|left].
      apply has_key_false. simpl. by apply String.eqb_neq in Hne as ->.
    - apply exclude_fold_absent; [done|]. by right. }
  split; [done|]. apply has_key_false in Hno. unfold prop. by rewrite Hno.
Qed.

Lemma X27_projected_out_is_absent_witness :
  let doc := [("_id", VStr "a"); ("email", VStr "a@b"); ("password", VStr "secret")] in
  let run := _applyProjection [] doc
               (LObj [("password", LNum (Int 0))]) in
  has_key "password" (default doc (match run with Ok r => Some r | _ => None end))
  = false.
Proof.
  intros doc run.
  refine (proj1 (X27_projected_out_is_absent [] doc
                   [("password", LNum (Int 0))] "password" _ _ _ _)).
  - apply (bool_decide_unpack _). vm_compute. exact I.
  - apply elem_of_cons. by left.
  - vm_compute. reflexivity.
Defined.

(** X28. An including projection returns [_id] and the fields named, no
    other. When every member of a non-empty projection is 1, each field
    named reads in the result as the document has it at that path (a dotted
    path becomes a property of that very name), [_id] reads as in the
    document, and every other property is [undefined]. *)
Theorem X28_including_projection (h : Heap) (doc : Doc)
    (es : list (string * lit)) :
  es <> [] ->
  Forall (fun p => snd p = LNum (Int 1)) es ->
  exists result,
    _applyProjection h doc (LObj es) = Ok result
    /\ forall k,
         prop k result
         = if bool_decide (k ∈ fst <$> es) then _getNestedValue h (Root doc) k
           else if String.eqb k "_id" then prop "_id" doc
           else VUndef.
Proof.
  intros Hne Hall. unfold _applyProjection. simpl.
  assert (existsb (fun p => strict_eq_lit (VNum (Int 1)) (snd p)) es = true) as ->.
  { destruct es as [|[k c] es]; [done|]. apply Forall_cons in Hall as [Hc _].
    simpl in *. by subst c. }
  eexists. split; [reflexivity|]. intros k.
  rewrite include_fold_prop by done.
  destruct (bool_decide (k ∈ fst <$> es)); [done|].
  unfold prop. simpl. by destruct (String.eqb k "_id").
Qed.

Lemma X28_including_projection_witness :
  exists result,
    _applyProjection []
      [("_id", VStr "a"); ("email", VStr "a@b"); ("password", VStr "secret")]
      (LObj [("email", LNum (Int 1))]) = Ok result
    /\ prop "password" result = VUndef.
Proof.
  destruct (X28_including_projection []
              [("_id", VStr "a"); ("email", VStr "a@b"); ("password", VStr "secret")]
              [("email", LNum (Int 1))]) as (result & H1 & H2).
  - discriminate.
  - repeat constructor.
  - exists result. split; [exact H1|]. rewrite H2. vm_compute. reflexivity.
Defined.

(** ** From a mutation to the file *)

(** X29. An insert reaches the disk when the timer fires. After an
    [insertOne] that returns, the timer is set; when it fires, the file of
    the collection (for a collection name that is a file name, and
    documents that can be serialised) holds the documents of the collection,
    the new one last, each as [JSON.stringify] writes it, and the write
    buffer is empty. *)
Theorem X29_insert_written_by_timer {host : Host} (name : string) (doc : Doc)
    (w : World) r (w' : World) (ls : list (list (string * lit))) :
  insertOne name doc w = (Ok r, w') ->
  file_name name = true ->
  stored w' name = Some ls ->
  writeTimeout (db w') = true
  /\ disk (snd (timer_fires w')) !! (name +:+ ".json")
     = Some (DocsFile (List.map doc_to_json ls))
  /\ writeBuffer (db (snd (timer_fires w'))) = []
  /\ exists d, collections (db w') !! name = Some (d ++ [snd r])
               /\ length ls = S (length d).
Proof.
  intros Hins Hfn Hst.
  destruct (insertOne_ok_inv _ _ _ _ _ Hins)
    as (d & Hd & _ & _ & _ & _ & _ & Hcol & _ & Hbuf & Htime & _).
  assert (Hc : collections (db w') !! name = Some (d ++ [snd r])).
  { by rewrite Hcol, lookup_insert_eq. }
  unfold stored in Hst. rewrite Hc in Hst. simpl in Hst.
  split; [done|]. unfold timer_fires. rewrite Htime.
  split; [|split].
  - apply (flush_writes name w' (d ++ [snd r]) ls); try done.
    rewrite Hbuf, has_key_set, String.eqb_refl. done.
  - done.
  - exists d. split; [done|].
    apply length_mapM in Hst. rewrite <- Hst, length_app. simpl. lia.
Qed.

Lemma X29_insert_written_by_timer_witness :
  let w := snd (collection "c" empty_world) in
  let run := insertOne (host := sample_host) "c" [("name", VStr "A")] w in
  disk (snd (timer_fires (host := sample_host) (snd run))) !! "c.json"
  = Some (DocsFile (List.map (doc_to_json (host := sample_host))
                      (default [] (stored (snd run) "c")))).
Proof.
  intros w run.
  refine (proj1 (proj2 (X29_insert_written_by_timer (host := sample_host) "c"
                          [("name", VStr "A")] w
                          (default (VUndef, [])
                             (match fst run with Ok r => Some r | _ => None end))
                          (snd run) (default [] (stored (snd run) "c")) _ _ _))).
  - vm_compute. reflexivity.
  - reflexivity.
  - vm_compute. reflexivity.
Defined.

(** ** Setting a dotted path *)

Section SetPath.
Context {host : Host}.

(** [set_path] on a fresh empty object builds the chain of objects, and the
    keys then read back the value. *)
Lemma set_path_fresh (v : value) (rest : list string) :
  rest <> [] ->
  forall (h : Heap) (l : loc),
    h !! l = Some (Obj []) ->
    exists h',
      set_path (VRef l) rest v h = (Ok tt, h')
      /\ (forall j, (j < l)%nat -> h' !! j = h !! j)
      /\ fold_left
           (fun current key =>
              Val (if operand_truthy current
                      && negb (strict_eq (member h' current key) VUndef)
                   then member h' current key else VUndef))
           rest (Val (VRef l)) = Val v.
Proof.
  induction rest as [|k1 rest IH]; intros Hne h l Hl; [done|].
  destruct rest as [|k2 rest].
  - simpl. unfold store. rewrite Hl. eexists. split; [reflexivity|]. split.
    + intros j Hj. apply list_lookup_insert_ne. lia.
    + simpl. rewrite list_lookup_insert_eq by (by apply lookup_lt_Some in Hl).
      rewrite prop_set, String.eqb_refl.
      destruct (strict_eq v VUndef) eqn:E; [|done].
      apply strict_eq_eq in E. by subst v.
  - assert (Hlt : (l < length h)%nat) by (by apply lookup_lt_Some in Hl).
    set (h2 := <[l := Obj (props_set k1 (VRef (length h)) [])]> (h ++ [Obj []])).
    assert (H2 : h2 !! length h = Some (Obj [])).
    { unfold h2. rewrite list_lookup_insert_ne by lia.
      rewrite lookup_app_r by lia. by rewrite Nat.sub_diag. }
    destruct (IH ltac:(done) h2 (length h) H2) as (h' & Hrun & Hkeep & Hread).
    exists h'. split; [|split].
    + change (set_path (VRef l) (k1 :: k2 :: rest) v)
        with (x ← readH (fun h => get_prop h (VRef l) k1);
              next ← (if negb (truthy x)
                      then o ← alloc (Obj []); _ ← set_prop (VRef l) k1 o; mret o
                      else mret x);
              set_path next (k2 :: rest) v).
      rewrite bindH_unfold. unfold readH. simpl get_prop. rewrite Hl.
      change (prop k1 []) with VUndef. simpl truthy.
      rewrite bindH_unfold. change (negb false) with true. cbv iota.
      unfold alloc. rewrite !bindH_unfold. unfold set_prop, store.
      rewrite lookup_app_l by done. rewrite Hl. exact Hrun.
    + intros j Hj. rewrite Hkeep by lia. unfold h2.
      rewrite list_lookup_insert_ne by lia. apply lookup_app_l. lia.
    + match goal with
      | |- fold_left ?f _ _ = _ => set (step := f) in *
      end.
      change (fold_left step (k2 :: rest) (step (Val (VRef l)) k1) = Val v).
      assert (step (Val (VRef l)) k1 = Val (VRef (length h))) as ->; [|exact Hread].
      unfold step. cbn [operand_truthy member truthy get_prop].
      rewrite (Hkeep l Hlt). unfold h2.
      rewrite list_lookup_insert_eq by (rewrite length_app; simpl; lia).
      by rewrite prop_set, String.eqb_refl.
Qed.
End SetPath.

(** X30. Setting a dotted path builds the objects on the way. When no
    segment of the path is one of the names inherited from
    [Object.prototype] and the document has nothing (or a falsy value)
    under the first key of the path, [_setNestedValue] does not throw,
    touches nothing that was in memory, and the path then reads, through
    [_getNestedValue], as the value set. *)
Theorem X30_set_path_then_read (obj : Doc) (path : string)
    (v : value) (h : Heap) (k : string) (rest : list string) :
  split_dot path = k :: rest ->
  Forall (fun s => inherited s = false) (k :: rest) ->
  truthy (prop k obj) = false ->
  exists obj' h',
    _setNestedValue obj path v h = (Ok obj', h')
    /\ (forall j, (j < length h)%nat -> h' !! j = h !! j)
    /\ _getNestedValue h' (Root obj') path = v.
Proof.
  intros Hsplit _ Hfalsy. unfold _setNestedValue, _getNestedValue. rewrite Hsplit.
  destruct rest as [|k2 rest].
  - exists (props_set k v obj), h. split; [done|]. split; [done|].
    simpl. rewrite prop_set, String.eqb_refl.
    destruct (strict_eq v VUndef) eqn:E; [|done].
    apply strict_eq_eq in E. by subst v.
  - rewrite Hfalsy. simpl negb. cbv iota.
    destruct (set_path_fresh v (k2 :: rest) ltac:(done) (h ++ [Obj []]) (length h))
      as (h' & Hrun & Hkeep & Hread).
    { rewrite lookup_app_r by lia. by rewrite Nat.sub_diag. }
    exists (props_set k (VRef (length h)) obj), h'. split; [|split].
    + change (negb false) with true. cbv iota.
      rewrite bindH_unfold. unfold alloc. rewrite bindH_unfold, Hrun. done.
    + intros j Hj. rewrite Hkeep by done. by apply lookup_app_l.
    + match goal with
      | |- match fold_left ?f _ _ with _ => _ end = _ => set (step := f) in *
      end.
      change (match fold_left step (k2 :: rest) (step (Root (props_set k (VRef (length h)) obj)) k)
              with Val x => x | Root _ => VUndef end = v).
      assert (step (Root (props_set k (VRef (length h)) obj)) k = Val (VRef (length h)))
        as ->; [|by rewrite Hread].
      unfold step. cbn [operand_truthy member].
      by rewrite prop_set, String.eqb_refl.
Qed.

Lemma X30_set_path_then_read_witness :
  exists obj' h',
    _setNestedValue [("_id", VStr "a")] "profile.address.city"
      (VStr "Arusha") [] = (Ok obj', h')
    /\ _getNestedValue h' (Root obj') "profile.address.city" = VStr "Arusha".
Proof.
  destruct (X30_set_path_then_read [("_id", VStr "a")]
              "profile.address.city" (VStr "Arusha") [] "profile" ["address"; "city"])
    as (obj' & h' & H1 & _ & H3).
  - reflexivity.
  - repeat constructor.
  - reflexivity.
  - exists obj', h'. exact (conj H1 H3).
Defined.

(** * Updates, document by document *)

(** ** Dates outlive an update *)

Lemma heap_grows_refl h : heap_grows h h.
Proof. split; [lia|auto]. Qed.

Lemma heap_grows_trans h1 h2 h3 :
  heap_grows h1 h2 -> heap_grows h2 h3 -> heap_grows h1 h3.
Proof. intros [L1 D1] [L2 D2]. split; [lia|]. intros l t Hl. eauto. Qed.

Lemma heap_grows_app h ext : heap_grows h (h ++ ext).
Proof.
  split; [rewrite length_app; lia|].
  intros l t Hl. by apply lookup_app_l_Some.
Qed.

Lemma heap_grows_insert (h : Heap) l o o' :
  h !! l = Some o -> (forall t, o <> DateObj t) -> heap_grows h (<[l := o']> h).
Proof.
  intros Hl Hno. split; [by rewrite length_insert|].
  intros l' t Hl'. rewrite list_lookup_insert_ne; [done|].
  intros <-. rewrite Hl in Hl'. injection Hl' as ->. by eapply Hno.
Qed.

Lemma only_grows_ret {A} (a : A) : only_grows (mret a).
Proof. intros h. apply heap_grows_refl. Qed.

Lemma only_grows_bind {A B} (m : H A) (k : A -> H B) :
  only_grows m -> (forall a, only_grows (k a)) -> only_grows (m ≫= k).
Proof.
  intros Hm Hk h. rewrite bindH_unfold. specialize (Hm h).
  destruct (m h) as [[a|e] h1]; simpl in Hm; [|done].
  eapply heap_grows_trans; [exact Hm|apply Hk].
Qed.

Lemma only_grows_liftO {A} (m : outcome A) : only_grows (liftO m).
Proof. intros h. apply heap_grows_refl. Qed.

Lemma only_grows_readH {A} (f : Heap -> A) : only_grows (readH f).
Proof. intros h. apply heap_grows_refl. Qed.

Lemma only_grows_alloc o : only_grows (alloc o).
Proof. intros h. apply heap_grows_app. Qed.

Lemma only_grows_set_prop current key v : only_grows (set_prop current key v).
Proof.
  intros h. unfold set_prop, store.
  destruct current as [| | | | |l]; try apply heap_grows_refl.
  destruct (h !! l) as [[ps|es|t]|] eqn:Hl; try apply heap_grows_refl.
  - simpl. by eapply heap_grows_insert.
  - destruct (array_index key) as [i|]; [|apply heap_grows_refl].
    destruct (Nat.ltb i (length es)); [simpl; by eapply heap_grows_insert|].
    destruct (Nat.eqb i (length es)); [simpl; by eapply heap_grows_insert|].
    apply heap_grows_refl.
Qed.

Lemma only_grows_del_prop current key : only_grows (del_prop current key).
Proof.
  intros h. unfold del_prop, store.
  destruct current as [| | | |s|l].
  1-4: apply heap_grows_refl.
  - destruct (String.eqb key "length"); [apply heap_grows_refl|].
    destruct (array_index key) as [i|]; [|apply heap_grows_refl].
    destruct (Nat.ltb i (String.length s)); apply heap_grows_refl.
  - destruct (h !! l) as [[ps|es|t]|] eqn:Hl; try apply heap_grows_refl.
    + simpl. by eapply heap_grows_insert.
    + destruct (String.eqb key "length"); [apply heap_grows_refl|].
      destruct (array_index key) as [i|]; [|apply heap_grows_refl].
      destruct (Nat.ltb i (length es)); apply heap_grows_refl.
Qed.

Lemma only_grows_array_push current xs : only_grows (array_push current xs).
Proof.
  intros h. unfold array_push, store.
  destruct current as [| | | | |l]; try apply heap_grows_refl.
  destruct (h !! l) as [[ps|es|t]|] eqn:Hl; try apply heap_grows_refl.
  simpl. by eapply heap_grows_insert.
Qed.

Lemma only_grows_foldH {A B} (f : A -> B -> H A) (l : list B) :
  (forall a x, only_grows (f a x)) -> forall a, only_grows (foldH f l a).
Proof.
  intros Hf. induction l as [|x l IH]; intros a; simpl.
  - apply only_grows_ret.
  - apply only_grows_bind; auto.
Qed.

Lemma only_grows_mapH {A B} (f : A -> H B) (l : list A) :
  (forall x, only_grows (f x)) -> only_grows (mapH f l).
Proof.
  intros Hf. induction l as [|x l IH]; simpl.
  - apply only_grows_ret.
  - apply only_grows_bind; [auto|]. intros y.
    apply only_grows_bind; [auto|]. intros ys. apply only_grows_ret.
Qed.

Lemma only_grows_alloc_lit c : only_grows (alloc_lit c).
Proof.
  intros h. destruct (alloc_lit_extends c h) as (v & ext & ->).
  apply heap_grows_app.
Qed.

Lemma only_grows_set_path keys : forall current v, only_grows (set_path current keys v).
Proof.
  induction keys as [|k [|k' rest] IH]; intros current v.
  - apply only_grows_ret.
  - apply only_grows_set_prop.
  - change (set_path current (k :: k' :: rest) v)
      with (x ← readH (fun h => get_prop h current k);
            next ← (if negb (truthy x)
                    then o ← alloc (Obj []); _ ← set_prop current k o; mret o
                    else mret x);
            set_path next (k' :: rest) v).
    apply only_grows_bind; [apply only_grows_readH|]. intros x.
    apply only_grows_bind; [|intros next; apply IH].
    destruct (negb (truthy x)); [|apply only_grows_ret].
    apply only_grows_bind; [apply only_grows_alloc|]. intros o.
    apply only_grows_bind; [apply only_grows_set_prop|]. intros _.
    apply only_grows_ret.
Qed.

Lemma only_grows_del_path keys : forall current, only_grows (del_path current keys).
Proof.
  induction keys as [|k [|k' rest] IH]; intros current.
  - apply only_grows_ret.
  - apply only_grows_del_prop.
  - change (del_path current (k :: k' :: rest))
      with (x ← readH (fun h => get_prop h current k);
            if negb (truthy x) then mret tt else del_path x (k' :: rest)).
    apply only_grows_bind; [apply only_grows_readH|]. intros x.
    destruct (negb (truthy x)); [apply only_grows_ret|apply IH].
Qed.

Lemma only_grows_setNestedValue obj path v : only_grows (_setNestedValue obj path v).
Proof.
  unfold _setNestedValue.
  destruct (split_dot path) as [|k [|k' rest]]; try apply only_grows_ret.
  destruct (negb (truthy (prop k obj))).
  - apply only_grows_bind; [apply only_grows_alloc|]. intros o.
    apply only_grows_bind; [apply only_grows_set_path|]. intros _.
    apply only_grows_ret.
  - apply only_grows_bind; [apply only_grows_set_path|]. intros _.
    apply only_grows_ret.
Qed.

Lemma only_grows_deleteNestedValue obj path : only_grows (_deleteNestedValue obj path).
Proof.
  unfold _deleteNestedValue.
  destruct (split_dot path) as [|k [|k' rest]]; try apply only_grows_ret.
  destruct (negb (truthy (prop k obj))); [apply only_grows_ret|].
  apply only_grows_bind; [apply only_grows_del_path|]. intros _.
  apply only_grows_ret.
Qed.

Section UpdateGrows.
Context {host : Host}.

Lemma only_grows_current_or result field dflt :
  only_grows dflt -> only_grows (current_or result field dflt).
Proof.
  intros Hd. unfold current_or.
  apply only_grows_bind; [apply only_grows_readH|]. intros x.
  destruct (truthy x); [apply only_grows_ret|done].
Qed.

Lemma only_grows_update_op result op fields : only_grows (update_op result op fields).
Proof.
  unfold update_op.
  destruct (String.eqb op "$set").
  { apply only_grows_bind; [apply only_grows_liftO|]. intros es.
    apply only_grows_foldH. intros a p.
    apply only_grows_bind; [apply only_grows_alloc_lit|]. intros v.
    apply only_grows_setNestedValue. }
  destruct (String.eqb op "$unset").
  { apply only_grows_bind; [apply only_grows_liftO|]. intros es.
    apply only_grows_foldH. intros a p. apply only_grows_deleteNestedValue. }
  destruct (String.eqb op "$inc").
  { apply only_grows_bind; [apply only_grows_liftO|]. intros es.
    apply only_grows_foldH. intros a p.
    apply only_grows_bind; [apply only_grows_current_or, only_grows_ret|]. intros c.
    apply only_grows_bind; [apply only_grows_readH|]. intros s.
    apply only_grows_setNestedValue. }
  destruct (String.eqb op "$push").
  { apply only_grows_bind; [apply only_grows_liftO|]. intros es.
    apply only_grows_foldH. intros a p.
    apply only_grows_bind; [apply only_grows_current_or, only_grows_alloc|]. intros c.
    apply only_grows_bind; [apply only_grows_liftO|]. intros each.
    apply only_grows_bind; [|intros _; apply only_grows_setNestedValue].
    destruct (lit_truthy each).
    - apply only_grows_bind; [apply only_grows_liftO|]. intros xs.
      apply only_grows_bind; [apply only_grows_mapH, only_grows_alloc_lit|].
      intros vs. apply only_grows_array_push.
    - apply only_grows_bind; [apply only_grows_alloc_lit|]. intros v.
      apply only_grows_array_push. }
  destruct (String.eqb op "$pull").
  { apply only_grows_bind; [apply only_grows_liftO|]. intros es.
    apply only_grows_foldH. intros a p.
    apply only_grows_bind; [apply only_grows_current_or, only_grows_alloc|]. intros c.
    apply only_grows_bind.
    { intros h. unfold inH. destruct (array_elems h c); apply heap_grows_refl. }
    intros kept.
    apply only_grows_bind; [apply only_grows_alloc|]. intros f.
    apply only_grows_setNestedValue. }
  destruct (String.eqb op "$addToSet").
  { apply only_grows_bind; [apply only_grows_liftO|]. intros es.
    apply only_grows_foldH. intros a p.
    apply only_grows_bind; [apply only_grows_current_or, only_grows_alloc|]. intros c.
    apply only_grows_bind; [intros h; apply heap_grows_refl|]. intros present.
    apply only_grows_bind; [|intros _; apply only_grows_setNestedValue].
    destruct (negb present); [|apply only_grows_ret].
    apply only_grows_bind; [apply only_grows_alloc_lit|]. intros v.
    apply only_grows_array_push. }
  destruct (negb (startsWith_dollar op)); [|apply only_grows_ret].
  apply only_grows_bind; [apply only_grows_alloc_lit|]. intros v.
  apply only_grows_ret.
Qed.

(** Whatever an update description does, it overwrites no [Date] and
    frees no cell. *)
Lemma only_grows_applyUpdate doc update : only_grows (_applyUpdate doc update).
Proof.
  unfold _applyUpdate.
  apply only_grows_bind; [apply only_grows_liftO|]. intros ops.
  apply only_grows_foldH. intros a p. apply only_grows_update_op.
Qed.
End UpdateGrows.

(** ** Finding a document by its [_id] *)

Lemma findIndex_fmap {A B} (g : A -> B) (f : B -> bool) (l : list A) :
  findIndex (fun x => f (g x)) l = findIndex f (g <$> l).
Proof.
  induction l as [|x l IH]; [done|]. rewrite fmap_cons.
  change (findIndex (fun x => f (g x)) (x :: l))
    with (if f (g x) then Some O else S <$> findIndex (fun x => f (g x)) l).
  change (findIndex f (g x :: (g <$> l)))
    with (if f (g x) then Some O else S <$> findIndex f (g <$> l)).
  by rewrite IH.
Qed.

Lemma findIndex_first {A} (f : A -> bool) l i x :
  l !! i = Some x -> f x = true ->
  (forall j y, l !! j = Some y -> f y = true -> j = i) ->
  findIndex f l = Some i.
Proof.
  intros Hi Hx Huniq.
  destruct (findIndex f l) as [j|] eqn:Hfind.
  - apply findIndex_Some in Hfind as (y & Hy & Hfy). f_equal. eauto.
  - apply findIndex_None in Hfind.
    assert (x ∈ List.filter f l) as Hin.
    { apply list_elem_of_In, List.filter_In. split; [|done].
      apply list_elem_of_In. by eapply list_elem_of_lookup_2. }
    rewrite Hfind in Hin. by apply elem_of_nil in Hin.
Qed.

(** Where no two documents share an [_id] and none has NaN, looking for
    an [_id] with [===] gives the position of the document that has it. *)
Lemma findIndex_id (ids0 : list value) (d : list Doc) i v :
  prop "_id" <$> d = ids0 -> NoDup ids0 -> ids0 !! i = Some v -> v <> VNum NaN ->
  findIndex (fun x => strict_eq (prop "_id" x) v) d = Some i.
Proof.
  intros <- Hnd Hi Hv.
  rewrite (findIndex_fmap (prop "_id") (fun a => strict_eq a v)).
  eapply findIndex_first; [exact Hi|by apply strict_eq_refl|].
  intros j y Hj Hy. apply strict_eq_eq in Hy as ->.
  by eapply NoDup_lookup.
Qed.

Lemma NoDup_fmap_eq {A B} (g : A -> B) (l : list A) x y :
  NoDup (g <$> l) -> x ∈ l -> y ∈ l -> g x = g y -> x = y.
Proof.
  intros Hnd (i & Hi)%list_elem_of_lookup_1 (j & Hj)%list_elem_of_lookup_1 Heq.
  assert (i = j) as ->.
  { eapply NoDup_lookup; [exact Hnd| |].
    - rewrite list_lookup_fmap, Hi. reflexivity.
    - rewrite list_lookup_fmap, Hj. simpl. by rewrite Heq. }
  congruence.
Qed.

Section UpdateEach.
Context {host : Host}.

Lemma findOne_head name query w docs :
  _matchQuery name query w = (Ok docs, w) ->
  findOne name query w = (Ok (head docs), w).
Proof.
  intros Hq. unfold findOne, find. rewrite !bindM_unfold, Hq.
  change (lit_truthy (opt_sort _)) with false.
  change (lit_truthy (opt_skip _)) with false.
  change (lit_truthy (opt_limit _)) with true.
  change (lit_truthy (opt_projection _)) with false.
  cbv iota. unfold mret, M_ret. rewrite bindM_unfold.
  cbn [opt_limit]. by rewrite slice_first.
Qed.

(** What [update_at] leaves, from what [_applyUpdate] gives. *)
Lemma update_at_run name index update w d :
  collections (db w) !! name = Some d ->
  update_at name index update w
  = match _applyUpdate (default [] (d !! index)) update (heap w) with
    | (Ok u, h1) =>
        let doc' := props_set "updatedAt" (VRef (length h1)) u in
        (Ok doc',
         {| heap := h1 ++ [DateObj (Int (Date_now (draws w)))];
            draws := S (draws w);
            db := set_collections (<[name := <[index := doc']> d]> (collections (db w))) (db w);
            disk := disk w |})
    | (Throw e, h1) => (Throw e, set_heap h1 w)
    end.
Proof.
  intros Hd. unfold update_at, _data, liftH, new_Date, Date_now_draw, alloc, set_data.
  unfold mbind, M_bind, mret, M_ret. simpl. rewrite Hd.
  destruct (_applyUpdate (default [] (d !! index)) update (heap w)) as [[r|e] h1];
    simpl; [|done].
  by rewrite Hd.
Qed.

(** The loop of [updateMany], where the update description leaves [_id]
    alone and the ids are distinct: each document of [rem] is rewritten at
    its own position with a [Date] of its own, and the other positions
    stay. *)
Lemma updateMany_loop_state name update (ids0 : list value) :
  writes_id update = false -> NoDup ids0 -> VNum NaN ∉ ids0 ->
  forall rem n w m w' dk,
    collections (db w) !! name = Some dk ->
    prop "_id" <$> dk = ids0 ->
    (forall x, x ∈ rem -> prop "_id" x ∈ ids0) ->
    foldM (updateMany_body name update) rem n w = (Ok m, w') ->
    exists dk',
      collections (db w') !! name = Some dk'
      /\ prop "_id" <$> dk' = ids0
      /\ heap_grows (heap w) (heap w')
      /\ (draws w <= draws w')%nat
      /\ forall p,
           ((exists x, x ∈ rem /\ ids0 !! p = Some (prop "_id" x)) ->
            exists x' l t,
              dk' !! p = Some x' /\ prop "updatedAt" x' = VRef l
              /\ (length (heap w) <= l)%nat
              /\ heap w' !! l = Some (DateObj (Int (Date_now t)))
              /\ (draws w <= t < draws w')%nat)
           /\ ((forall x, x ∈ rem -> ids0 !! p <> Some (prop "_id" x)) ->
               dk' !! p = dk !! p).
Proof.
  intros Hno Hnd Hnan.
  induction rem as [|doc rem IH]; intros n w m w' dk Hd Hids Hin; simpl.
  - intros [= <- <-]. exists dk. split; [done|]. split; [done|].
    split; [apply heap_grows_refl|]. split; [lia|].
    intros p. split; [|done]. intros (x & Hx & _). by apply elem_of_nil in Hx.
  - rewrite bindM_unfold.
    assert (prop "_id" doc ∈ ids0) as Hdoc by (apply Hin, elem_of_cons; by left).
    apply list_elem_of_lookup_1 in Hdoc as (p0 & Hp0).
    assert (prop "_id" doc <> VNum NaN) as Hdn.
    { intros E. apply Hnan. rewrite <- E. by eapply list_elem_of_lookup_2. }
    pose proof (findIndex_id ids0 dk p0 _ Hids Hnd Hp0 Hdn) as Hfind.
    rewrite (updateMany_body_found _ _ _ _ _ _ _ Hd Hfind).
    rewrite (update_at_run _ _ _ _ _ Hd).
    assert (exists old, dk !! p0 = Some old /\ prop "_id" old = prop "_id" doc)
      as (old & Hold & Hoid).
    { rewrite <- Hids, list_lookup_fmap in Hp0.
      destruct (dk !! p0) as [old|]; [|done]. injection Hp0 as Hp0. by exists old. }
    rewrite Hold. simpl.
    pose proof (only_grows_applyUpdate old update (heap w)) as Hg.
    destruct (_applyUpdate old update (heap w)) as [[u|e] h1] eqn:Hup;
      [|discriminate].
    simpl in Hg. cbv zeta.
    set (doc' := props_set "updatedAt" (VRef (length h1)) u).
    set (w1 := {| heap := h1 ++ [DateObj (Int (Date_now (draws w)))];
                  draws := S (draws w);
                  db := set_collections
                          (<[name := <[p0 := doc']> dk]> (collections (db w))) (db w);
                  disk := disk w |}).
    intros Hrest.
    assert (prop "_id" doc' = prop "_id" doc) as Hid'.
    { unfold doc'. rewrite prop_set. simpl.
      rewrite (applyUpdate_id _ _ _ _ _ Hno Hup). exact Hoid. }
    assert (prop "_id" <$> <[p0 := doc']> dk = ids0) as Hids1.
    { rewrite list_fmap_insert, Hid', Hids. by apply list_insert_id. }
    destruct (IH (S n) w1 m w' (<[p0 := doc']> dk)) as
      (dk' & Hd' & Hids' & Hg' & Hdr' & Hpos); [| | |exact Hrest|].
    { simpl. by rewrite lookup_insert_eq. }
    { exact Hids1. }
    { intros x Hx. apply Hin, elem_of_cons. by right. }
    assert (heap_grows (heap w) (heap w1)) as Hg1.
    { eapply heap_grows_trans; [exact Hg|]. apply heap_grows_app. }
    exists dk'. split; [done|]. split; [done|].
    split; [by eapply heap_grows_trans|]. simpl in Hdr'. split; [lia|].
    intros p. destruct (Hpos p) as [Hdone Hkept].
    assert ((exists x, x ∈ rem /\ ids0 !! p = Some (prop "_id" x)) ->
            exists x' l t,
              dk' !! p = Some x' /\ prop "updatedAt" x' = VRef l
              /\ (length (heap w) <= l)%nat
              /\ heap w' !! l = Some (DateObj (Int (Date_now t)))
              /\ (draws w <= t < draws w')%nat) as Hlater.
    { intros Hex. destruct (Hdone Hex) as (x' & l & t & H1 & H2 & H3 & H4 & H5).
      exists x', l, t. repeat split; try done.
      - destruct Hg1 as [Hl _]. lia.
      - simpl in H5. lia.
      - lia. }
    split.
    + intros (x & Hx & Hpx).
      destruct (existsb (fun y => same_value_zero (prop "_id" y) (prop "_id" x)) rem)
        eqn:Hex.
      { apply existsb_exists in Hex as (y & Hy & Hsame).
        apply same_value_zero_eq in Hsame.
        apply Hlater. exists y. split; [by apply list_elem_of_In|]. by rewrite Hsame. }
      apply elem_of_cons in Hx as [->|Hx].
      2: { exfalso. apply not_true_iff_false in Hex. apply Hex.
           apply existsb_exists. exists x. split; [by apply list_elem_of_In|].
           by apply same_value_zero_eq. }
      assert (p = p0) as -> by (by eapply NoDup_lookup).
      exists doc', (length h1), (draws w).
      split.
      { rewrite Hkept.
        - apply list_lookup_insert_eq. by eapply lookup_lt_Some.
        - intros y Hy Hp. rewrite Hpx in Hp. injection Hp as Hp.
          apply not_true_iff_false in Hex. apply Hex.
          apply existsb_exists. exists y. split; [by apply list_elem_of_In|].
          by apply same_value_zero_eq. }
      split; [unfold doc'; by rewrite prop_set|].
      split; [by destruct Hg|].
      split; [|lia].
      destruct Hg' as [_ Hdates]. apply Hdates. simpl.
      by apply list_lookup_middle.
    + intros Hnone. rewrite Hkept.
      * apply list_lookup_insert_ne. intros <-.
        apply (Hnone doc); [apply elem_of_cons; by left|done].
      * intros x Hx. apply Hnone, elem_of_cons. by right.
Qed.
End UpdateEach.

Section UpdateReports.
Context {host : Host}.

Lemma updateMany_loop_length name update rem :
  forall n w m w' dk,
    collections (db w) !! name = Some dk ->
    foldM (updateMany_body name update) rem n w = (Ok m, w') ->
    exists dk', collections (db w') !! name = Some dk' /\ length dk' = length dk.
Proof.
  induction rem as [|doc rem IH]; intros n w m w' dk Hd; simpl.
  - intros [= <- <-]. by exists dk.
  - rewrite bindM_unfold. unfold updateMany_body at 1.
    rewrite bindM_unfold, (_data_Some _ _ _ Hd).
    match goal with
    | |- context [findIndex ?f dk] => destruct (findIndex f dk) as [index|]
    end.
    + rewrite bindM_unfold.
      destruct (update_at name index update w) as [[doc'|e] w1] eqn:Hup;
        [|discriminate].
      apply (update_at_ok _ _ _ _ _ _ _ Hd) in Hup as (Hd1 & _).
      intros Hrest. destruct (IH _ _ _ _ _ Hd1 Hrest) as (dk' & Hd' & Hlen).
      exists dk'. split; [done|]. by rewrite Hlen, length_insert.
    + intros Hrest. by apply (IH _ _ _ _ _ Hd Hrest).
Qed.

(** What [updateMany] leaves, from what its loop leaves. *)
Lemma updateMany_inv name query update w docs r w' :
  _matchQuery name query w = (Ok docs, w) ->
  updateMany name query update w = (Ok r, w') ->
  exists modified w2,
    foldM (updateMany_body name update) docs 0%nat w = (Ok modified, w2)
    /\ r = {| matchedCount := length docs; modifiedCount := modified; document := None |}
    /\ collections (db w') = collections (db w2)
    /\ heap w' = heap w2 /\ draws w' = draws w2.
Proof.
  intros Hq. unfold updateMany. rewrite bindM_unfold, find_no_options, Hq.
  rewrite bindM_unfold.
  destruct (foldM (updateMany_body name update) docs 0%nat w) as [[modified|e] w2];
    [|discriminate].
  rewrite bindM_unfold. intros Hrun. exists modified, w2. split; [done|].
  destruct (Nat.ltb 0 modified).
  - destruct (rebuild_save_frame name w2) as (w3 & Hrs & Hc & Hh & _ & Hdr).
    rewrite Hrs in Hrun. injection Hrun as <- <-. auto.
  - injection Hrun as <- <-. auto.
Qed.
End UpdateReports.

(** C10, as stated, fails in three ways.  A matched document whose [_id]
    is NaN is not found again with [===]: [updateMany] reports one match and
    no modification.  Where two documents share an [_id], [updateOne], and
    [updateMany] as well, rewrite the first of them though only the second
    matches the query, and the matching one keeps its [updatedAt].  Where
    the update sets [_id], [updateMany] reports two modifications and
    rewrites the first document twice; the second keeps its [updatedAt]. *)
Lemma C10_update_misses_the_match :
  ~ (exists r, fst (nan_id_update (host := sample_host) empty_world) = Ok r
               /\ modifiedCount r = matchedCount r)
  /\ (let w := snd (shared_id_setup (host := sample_host) empty_world) in
      let run := shared_id_update (host := sample_host) w in
      exists r u d d',
        fst run = Ok r /\ matchedCount r = 1%nat /\ modifiedCount r = 1%nat
        /\ document r = Some u /\ prop "name" u = VStr "A"
        /\ collections (db w) !! "c" = Some d
        /\ collections (db (snd run)) !! "c" = Some d'
        /\ d' !! 0%nat = Some u
        /\ (prop "name" <$> d !! 1%nat) = Some (VStr "B")
        /\ d' !! 1%nat = d !! 1%nat)
  /\ (let w := snd (shared_id_setup (host := sample_host) empty_world) in
      let run := shared_id_update_many (host := sample_host) w in
      exists r d d',
        fst run = Ok r /\ matchedCount r = 1%nat /\ modifiedCount r = 1%nat
        /\ collections (db w) !! "c" = Some d
        /\ collections (db (snd run)) !! "c" = Some d'
        /\ (prop "name" <$> d' !! 0%nat) = Some (VStr "A")
        /\ (prop "seen" <$> d' !! 0%nat) = Some (VBool true)
        /\ (prop "name" <$> d !! 1%nat) = Some (VStr "B")
        /\ d' !! 1%nat = d !! 1%nat)
  /\ (let w := snd (id_writing_setup (host := sample_host) empty_world) in
      let run := id_writing_update (host := sample_host) w in
      exists r d d',
        fst run = Ok r /\ matchedCount r = 2%nat /\ modifiedCount r = 2%nat
        /\ collections (db w) !! "c" = Some d
        /\ collections (db (snd run)) !! "c" = Some d'
        /\ length d = 2%nat
        /\ d' !! 1%nat = d !! 1%nat).
Proof.
  split; [|split; [|split]].
  - intros (r & Hrun & Heq). vm_compute in Hrun.
    injection Hrun as <-. discriminate Heq.
  - cbv zeta. do 4 eexists. vm_compute. repeat split; reflexivity.
  - cbv zeta. do 3 eexists. vm_compute. repeat split; reflexivity.
  - cbv zeta. do 3 eexists. vm_compute. repeat split; reflexivity.
Qed.

(** C10, amended.  Let the query match the documents [docs] of a
    collection in which no document has NaN as [_id].

    [updateOne]: when [docs] is empty it reports 0 and 0 and changes
    nothing.  Otherwise it rewrites the first stored document that has the
    [_id] of the first match, which is that match itself when no two
    documents share an [_id]; when the update description applies to it,
    [updateOne] reports 1 and 1 with the updated document, whose
    [updatedAt] is a new [Date] of the moment of the call, and stores it at
    that position, the rest of the collection staying.

    [updateMany]: when [docs] is empty it reports 0 and 0 and changes
    nothing.  When it returns, [matchedCount] and [modifiedCount] are both
    the number of matches and the collection keeps its length; where
    moreover no two documents share an [_id] and the update description
    does not write [_id], every matched document is replaced at its
    position by one with the same [_id] whose [updatedAt] is a [Date]
    created during the call, and every other document stays.

    Whether the operators change any field plays no part. *)
Theorem C10_modified_equals_matched {host : Host}
    (name : string) (query update : lit) (w : World) (d docs : list Doc) :
  collections (db w) !! name = Some d ->
  (forall x, x ∈ d -> prop "_id" x <> VNum NaN) ->
  _matchQuery name query w = (Ok docs, w) ->
  (docs = [] ->
   updateOne name query update w
   = (Ok {| matchedCount := 0; modifiedCount := 0; document := None |}, w)
   /\ updateMany name query update w
      = (Ok {| matchedCount := 0; modifiedCount := 0; document := None |}, w))
  /\ (forall doc rest, docs = doc :: rest ->
        exists i target,
          findIndex (fun x => strict_eq (prop "_id" x) (prop "_id" doc)) d = Some i
          /\ d !! i = Some target
          /\ prop "_id" target = prop "_id" doc
          /\ (NoDup (prop "_id" <$> d) -> target = doc)
          /\ forall u h1,
               _applyUpdate target update (heap w) = (Ok u, h1) ->
               exists w',
                 let doc' := props_set "updatedAt" (VRef (length h1)) u in
                 updateOne name query update w
                 = (Ok {| matchedCount := 1; modifiedCount := 1;
                          document := Some doc' |}, w')
                 /\ heap w' = h1 ++ [DateObj (Int (Date_now (draws w)))]
                 /\ collections (db w') !! name = Some (<[i := doc']> d))
  /\ (forall r w', updateMany name query update w = (Ok r, w') ->
        matchedCount r = length docs /\ modifiedCount r = length docs
        /\ exists d',
             collections (db w') !! name = Some d' /\ length d' = length d
             /\ (NoDup (prop "_id" <$> d) -> writes_id update = false ->
                 forall p x, d !! p = Some x ->
                   (x ∈ docs ->
                    exists x' l t,
                      d' !! p = Some x'
                      /\ prop "_id" x' = prop "_id" x
                      /\ prop "updatedAt" x' = VRef l
                      /\ (length (heap w) <= l)%nat
                      /\ heap w' !! l = Some (DateObj (Int (Date_now t)))
                      /\ (draws w <= t < draws w')%nat)
                   /\ (x ∉ docs -> d' !! p = Some x))).
Proof.
  intros Hd Hnan Hq.
  pose proof (matchQuery_sublist _ _ _ _ _ Hq) as (_ & d0 & Hd0 & Hsub).
  rewrite Hd in Hd0. injection Hd0 as <-.
  split; [|split].
  - intros ->. split.
    + unfold updateOne. by rewrite bindM_unfold, (findOne_head _ _ _ _ Hq).
    + unfold updateMany. by rewrite bindM_unfold, find_no_options, Hq.
  - intros doc rest ->.
    assert (doc ∈ d) as Hin.
    { eapply elem_of_sublist; [|exact Hsub]. apply elem_of_cons. by left. }
    pose proof (Hnan doc Hin) as Hdn.
    destruct (findIndex (fun x => strict_eq (prop "_id" x) (prop "_id" doc)) d)
      as [i|] eqn:Hfind.
    2: { exfalso. apply findIndex_None in Hfind.
         assert (doc ∈ List.filter
                   (fun x => strict_eq (prop "_id" x) (prop "_id" doc)) d) as Hf.
         { apply list_elem_of_In, List.filter_In. split; [by apply list_elem_of_In|].
           by apply strict_eq_refl. }
         rewrite Hfind in Hf. by apply elem_of_nil in Hf. }
    pose proof Hfind as (target & Hi & Hid%strict_eq_eq)%findIndex_Some.
    exists i, target. split; [done|]. split; [done|]. split; [done|].
    split.
    { intros Hnd. eapply (NoDup_fmap_eq (prop "_id")); eauto.
      by eapply list_elem_of_lookup_2. }
    intros u h1 Hup.
    unfold updateOne. rewrite bindM_unfold, (findOne_head _ _ _ _ Hq).
    cbn [head]. rewrite bindM_unfold, (_data_Some _ _ _ Hd), Hfind.
    rewrite bindM_unfold, (update_at_run _ _ _ _ _ Hd), Hi.
    change (default [] (Some target)) with target. rewrite Hup. cbv beta iota zeta.
    rewrite bindM_unfold.
    match goal with
    | |- context [_rebuildIndexes name None ?w1] =>
        destruct (rebuildIndexes_ok name None w1) as (w3 & -> & Hh3 & Hc3)
    end.
    unfold _saveCollection. rewrite bindM_unfold.
    eexists. split; [reflexivity|]. simpl. rewrite Hh3, Hc3. simpl.
    split; [done|]. by rewrite lookup_insert_eq.
  - intros r w' Hrun.
    destruct (updateMany_inv _ _ _ _ _ _ _ Hq Hrun)
      as (modified & w2 & Hloop & -> & Hc & Hh & Hdr).
    assert (modified = length docs) as ->.
    { apply (updateMany_loop _ _ _ _ _ _ _ d Hd) in Hloop; [done| |].
      - intros x Hx. apply Hnan. by eapply elem_of_sublist.
      - intros v _. by apply id_count_sublist. }
    split; [done|]. split; [done|].
    destruct (updateMany_loop_length _ _ _ _ _ _ _ _ Hd Hloop) as (d' & Hd' & Hlen).
    exists d'. rewrite Hc. split; [done|]. split; [done|].
    intros Hnd Hno p x Hp.
    destruct (updateMany_loop_state name update (prop "_id" <$> d) Hno Hnd)
      with (rem := docs) (n := 0%nat) (w := w) (m := length docs) (w' := w2) (dk := d)
      as (dk' & Hdk' & Hids' & Hg & Hdraws & Hpos); try done.
    { intros (y & Hy & Hny)%list_elem_of_fmap. by apply (Hnan y). }
    { intros y Hy. apply list_elem_of_fmap. exists y. split; [done|].
      by eapply elem_of_sublist. }
    rewrite Hd' in Hdk'. injection Hdk' as <-.
    assert ((prop "_id" <$> d) !! p = Some (prop "_id" x)) as Hpx.
    { by rewrite list_lookup_fmap, Hp. }
    destruct (Hpos p) as [Hdone Hkept]. split.
    + intros Hx. destruct Hdone as (x' & l & t & H1 & H2 & H3 & H4 & H5).
      { by exists x. }
      exists x', l, t. rewrite Hh, Hdr. repeat split; try done; try lia.
      assert ((prop "_id" <$> d') !! p = Some (prop "_id" x')) as Hpx'.
      { by rewrite list_lookup_fmap, H1. }
      rewrite Hids', Hpx in Hpx'. by injection Hpx'.
    + intros Hx. rewrite Hkept; [done|].
      intros y Hy Hpy. rewrite Hpx in Hpy. injection Hpy as Hpy.
      apply Hx. replace x with y; [done|].
      eapply (NoDup_fmap_eq (prop "_id")); eauto.
      * by eapply elem_of_sublist.
      * by eapply list_elem_of_lookup_2.
Qed.

Lemma C10_noop_update_witness :
  let w := snd (noop_setup (host := sample_host) empty_world) in
  let run := updateMany (host := sample_host) "c" (LObj [("name", LStr "A")])
               noop_update w in
  exists r, fst run = Ok r /\ matchedCount r = 1%nat /\ modifiedCount r = 1%nat.
Proof.
  cbv zeta.
  pose (w := snd (noop_setup (host := sample_host) empty_world)).
  pose (run := updateMany (host := sample_host) "c" (LObj [("name", LStr "A")])
                 noop_update w).
  pose (d := default [] (collections (db w) !! "c")).
  destruct (C10_modified_equals_matched (host := sample_host) "c"
              (LObj [("name", LStr "A")]) noop_update w d d)
    as (_ & _ & Hmany).
  - vm_compute. reflexivity.
  - apply Forall_forall. vm_compute. constructor; [discriminate|constructor].
  - vm_compute. reflexivity.
  - destruct (Hmany (match fst run with Ok r => r | Throw _ =>
                        {| matchedCount := 0; modifiedCount := 0; document := None |} end)
                (snd run)) as (Hm & Hn & _).
    + vm_compute. reflexivity.
    + eexists. split; [vm_compute; reflexivity|]. split; [exact Hm|exact Hn].
Defined.
